(* ===== verification/_CoqProject ===== *)
-Q . S2P
Prelude.v
CppString.v
Parser.v
Resp.v
RespFacts.v
Frames.v
Database.v
DatabaseFacts.v
DatabaseSpec.v
DatabaseClaims.v
ExpiryThread.v
Crc32.v
Persistence.v
PersistenceFacts.v
PersistenceClaims.v
Socket.v
Protocol.v
PubSub.v
PubSubFacts.v
PubSubClaims.v
CommandHandler.v
CommandFacts.v
CommandClaims.v
CommandSpec.v
Server.v
ServerFacts.v
ServerClaims.v
ReplyClaims.v
ServerSpec.v
EventLoop.v
Client.v
ClientClaims.v
Config.v
Main.v
NetworkFrame.v
Platform.v
ClientMain.v
Session.v
EndToEnd.v
Tests.v
