(* ===== verification/Prelude.v ===== *)
(** * MyRedis: a verification development (root file)

    MyRedis is a Redis-like server: a single-threaded [select] loop reads
    RESP2 or inline commands from client sockets, a command handler executes
    them on an in-memory database with key expiry, pub/sub messages are pushed
    to subscribers, and the database can be dumped to and loaded from a
    checksummed binary file.  A small client sends commands and shows the
    replies.  This library translates that code into executable definitions
    and proves what makes it correct.

    ** Parts of the program and the files that model them

    - [Prelude.v] (this file): bytes, machine integers, the state monad, and
      the parameters that stand for the environment: the clock
      ([SteadyClock]), the iteration order of hash tables ([HashOrder]).
    - [CppString.v]: the parts of the C++ standard library the sources use
      on strings ([stoi], [to_string], [getline], [find], ...).
    - [Parser.v] (src/parser): the tokenizer with quotes and escapes.
    - [Resp.v] (src/resp): the RESP2 command parser, the inline parser and
      [serialize_response], which turns reply texts into RESP values.
      [RespFacts.v]: round trips, stability under more input, outcomes.
      [Frames.v]: the type of RESP2 values and their wire format, written
      down byte by byte; what the serializer produces is of that type.
    - [Database.v] (src/database): the three maps of [Database] and every
      operation; [DatabaseFacts.v]: run equations and the class invariant;
      [DatabaseSpec.v]: the abstract store (one map with exact deadlines, and
      the lapsed keys that are not reclaimed yet), whose events carry the
      times at which an operation started and ended and its reply, and the
      simulation; [DatabaseClaims.v]: the theorems.
      [ExpiryThread.v]: the expiry thread, its start, loop, notification and
      join as small steps of two threads, and the main thread's view of it
      ([locked]): any number of its rounds before each operation.
    - [Crc32.v], [Persistence.v] (src/persistence): the checksum, the binary
      format, [save] and [load] over a map of files;
      [PersistenceFacts.v], [PersistenceClaims.v]: round trip, error
      detection, failure behaviour.
    - [Socket.v] (include/platform, end of resp.cpp): the socket calls as a
      type class [SocketApi] with their documented behaviour, and the complete
      write loop with its specification [delivers]; [Protocol.v] (src/protocol): length-prefixed messages.
    - [PubSub.v], [PubSubFacts.v], [PubSubClaims.v] (src/pubsub): the two
      subscription indices, their invariant, delivery to each subscriber
      ([deliveries]), and the refinement: a specification of every operation
      and its reply on the relation "who is subscribed to what".
    - [CommandHandler.v] (src/commands): the [World] shared by all components,
      every command handler, dispatch, subscription mode and transactions;
      [CommandFacts.v]: the type classes [StoreOp] and [Safe] that state what
      command code promises to the server; [CommandClaims.v]: theorems;
      [CommandSpec.v]: the meaning of every command on the data as operations
      of the abstract store and the documented value of its reply
      ([documented]), where the code deviates from it ([actual]), the
      refinement down to the bytes of the reply, and the same for transactions.
    - [Server.v] (src/networking/server.cpp): clients, the AUTH gate, the
      command loop and the rounds of the event loop; [ServerFacts.v],
      [ServerClaims.v]; [ReplyClaims.v]: one reply per command, in order;
      [ServerSpec.v]: what several clients observe of the abstract store and
      of published messages.
      [EventLoop.v]: the listening socket, the descriptor set, the [select]
      loop around the rounds, [stop] and the destructor.  A signal runs the
      handler once, at the point of the set-up or of the iteration at which it
      arrives; the points ([Early], [Signal]) are the places between the
      accesses to the members [stop] changes.
    - [Client.v], [ClientClaims.v] (src/networking/client.cpp): the reply
      parser and the read loop of the client, whose outcomes are a reply, a
      failed read, or that it still waits for the rest of a reply.
    - [Config.v] (src/config) and [Main.v] (src/server/main.cpp):
      configuration files, start-up and the whole of the server's [main].
      [NetworkFrame.v]: what every socket call keeps, [main] keeps.
    - [Platform.v] (include/platform): the functions of the platform layer over
      the calls of POSIX and of Winsock; the interfaces [SocketApi] and
      [ListenApi] of the server as instances over POSIX.
    - [ClientMain.v] (src/client/main.cpp, [Client::connect]): the client
      program with its terminal; [Session.v]: the dialogue it shows over any
      network that carries a connection to a peer ([Linked]) and any peer that
      answers every line it accepts with one value ([Answers]);
      [EndToEnd.v]: the server is such a peer, and the two programs joined, over
      any such network (a concrete one shows that the hypotheses can hold).
    - [Tests.v]: the repository's unit tests (tests/) evaluated on the
      definitions, to validate them.

    ** How state and effects are modelled

    A class is a record of its fields; a member function is a computation in
    the state monad [State] over that record (and over whatever else it
    touches: the clock cursor, files, the network).  Operations that hold a
    lock for their whole body are single steps, so concurrency between the
    event loop and the expiry thread is an interleaving of such steps
    ([ExpiryThread.tstep], [DatabaseSpec.cstep]); inside command handlers the
    rounds of the thread come before each operation that takes the lock, as
    many as the schedule of [Environ] says, so they also fall between the
    operations of one command.  A thrown exception or a failed
    read is [None] or a constructor of a result type.  Integers are [Z], with
    the conversions of the source written out.  Buffer positions and sizes
    are [nat].

    ** What the theorems show

    - The store: under any interleaving of commands and expiry rounds, and of
      the small steps of the two threads, the replies are those of one map
      whose entries vanish at their deadlines (the count of DEL includes lapsed
      keys that are not reclaimed yet, and the specification says so), with
      deadlines and remaining times taken between the start and the end of the
      operation, and the class invariant holds;
      KEYS, EXISTS, DEL and LRANGE compute what they should; no deadline
      computation overflows; stopping the thread always ends in the join.
    - The wire: commands survive encoding and parsing, more input never
      changes a parsed command, every parse consumes within its buffer; every
      reply text is sent as well-formed RESP2 values, those of each command's
      own reply in the order of the commands (one per command, one per
      channel for SUBSCRIBE and UNSUBSCRIBE); the client reads back every
      value, however the bytes arrive; values survive SET and GET.
    - Persistence: a saved file restores the database with its remaining
      lifetimes; no file with one damaged byte is accepted; a failed load
      changes nothing; a failed save before the final step keeps the old file
      (the success of every system call, of [std::remove] too, is an input);
      a restarted server holds the saved data.
    - Pub/sub: every operation does to the relation of subscriptions, and
      answers, what its specification says ([pubsub_refines]); the counters
      count it ([subscription_counts]); a published message is offered to
      exactly the subscribers, once, and only those whose connection refuses it
      lose their subscription ([publish_over_server]: from one client's
      connection to those of the others).
    - Commands and transactions: every command keeps all invariants and acts
      on the store as a run of its machine; the commands on the data have
      exactly the effect and the reply bytes of their specification
      ([command_refines]; [wrong_type_unreported] where it is not the documented
      one); EXEC runs exactly the queued commands in order and
      is answered with the array of their specified values
      ([transaction_refines]); DISCARD none, nor EXEC after a
      watched key has changed ([exec_aborts]); WATCH's check is characterised
      exactly.
    - The server: the invariant of all reachable states (sockets, clients and
      subscriptions agree), through set-up, loop, signals and shutdown; new
      connections start clean, unauthenticated clients change nothing,
      pipelined commands are served in order, the command loop terminates; the
      commands of all clients take effect in one order on the abstract store
      and every client receives its own answers ([clients_linearizable]); a
      termination signal, at whatever point of an iteration it arrives, lets no
      further iteration begin ([signal_ends_loop]; [signal_before_loop] for one
      between [running_ = true] and the loop), and where it cannot cause
      undefined behaviour is stated ([signal_safe_points]); a failed start leaves no socket, and when [main]
      returns all sockets are closed; on POSIX no client can end the server
      process through SIGPIPE ([server_survives_sigpipe]).
    - The client program: when it ends, on whatever path, its socket is
      closed, and otherwise it waits for a reply of which only a part has come
      ([client_main_closes], [partial_reply_waits]); the screen shows each
      line's own reply ([client_session]); joined with the server, on commands
      on the data, those replies are the values of the specification
      ([terminal_refines]).
    - Where the code does not do what it means to, a theorem says what it does
      instead, such as [transactions_lost], [inline_newline_merges_commands],
      [set_bad_expiry_stores], [list_newline_splits],
      [watch_misses_list_change], [save_unchecked_checksum],
      [error_injects_reply], [notification_lost], [bad_host_binds_any],
      [too_many_clients], [config_port_wraps], [subscribe_desynchronises],
      [exec_flattens_lists], [ping_reply_guessed], [signal_race],
      [early_signal_lost], [late_signal_undefined], [long_write_negative],
      [wrong_type_unreported], [del_counts_expired].

    ** Bounds and fuel

    Recursion that is not structural carries fuel, and a lemma shows that the
    chosen amount is enough: [serialize_response] size + 1
    ([serialize_unfold]), [write_loop] and [read_loop] n + 1
    ([write_loop_fuel], [read_loop_prefix]), [process_loop] buffer size + 1
    ([process_loop_enough]), [crc_chunks] length + 1 ([crc_chunks_fold]), the
    client's parser size + 1 ([parse_value_fuel_mono], [client_displays_reply])
    and its read loop as many reads as the reply has bytes
    ([client_reads_reply]; with fewer the outcome is [Waiting]), the client's prompt loop input size + 1
    ([repl_enough]).  The [select] loop may run for ever: it is run along a
    list with one entry per iteration, over which the theorems quantify.
    The clock is below 2^60 ns (36 years of uptime).
    The [int] counters that grow by one per argument, key or subscriber (the
    results of DEL, EXISTS, DBSIZE and PUBLISH) are exact integers: 2^31 of
    those objects do not fit in memory, and the source does not convert them.

    ** Not modelled

    Log output and the start-up banner; the Windows branches of the server
    (ioctlsocket, WSAGetLastError); what happens after [FD_SET] or [FD_ISSET]
    with a descriptor out of bounds (undefined behaviour, the outcome
    [BadDescriptor]).  What the operating system decides (which
    sockets are ready, how many bytes a write takes, which calls succeed, when
    the expiry thread runs) is an input. *)

From stdpp Require Export base gmap strings list numbers sorting.
From Stdlib Require Export ZArith Ascii Lia ZifyBool.

(** ** Bytes and literals

    A [std::string] is a sequence of bytes; it is modelled as a list of
    [ascii] (8-bit characters, all 256 values), which keeps embedded NUL, CR
    and LF bytes. *)
Abbreviation bytes := (list ascii).

Declare Scope bytes_scope.
Delimit Scope bytes_scope with bytes.

(** A C++ string literal. *)
Definition lit (s : string) : bytes := String.list_ascii_of_string s.
Arguments lit _%_string.
Notation "'$' s" := (lit s) (at level 1, s at level 0, format "'$' s") : bytes_scope.
Open Scope bytes_scope.

Definition CR : ascii := "013"%char.
Definition LF : ascii := "010"%char.
Definition TAB : ascii := "009"%char.
Definition DQUOTE : ascii := "034"%char.
Definition SQUOTE : ascii := "039"%char.
Definition BACKSLASH : ascii := "092"%char.
Definition CRLF : bytes := [CR; LF].

(** The unsigned value of a byte, and the byte of the low 8 bits of an
    integer ([static_cast<uint8_t>]). *)
Definition byte_val (c : ascii) : Z := Z.of_N (N_of_ascii c).
Definition byte_of (z : Z) : ascii := ascii_of_N (Z.to_N (z mod 256)).

(** ** Machine integers

    Integers are [Z]; conversions to a machine type are written out. *)
Definition INT_MIN : Z := (-2147483648)%Z.
Definition INT_MAX : Z := 2147483647%Z.
Definition INT64_MIN : Z := (-9223372036854775808)%Z.
Definition INT64_MAX : Z := 9223372036854775807%Z.

(** [static_cast<uint32_t>], [static_cast<int>] and [static_cast<int64_t>]:
    reduction modulo 2^w, read as two's complement for the signed types. *)
Definition to_uint32 (z : Z) : Z := (z mod 2 ^ 32)%Z.
Definition to_int32 (z : Z) : Z := ((z + 2 ^ 31) mod 2 ^ 32 - 2 ^ 31)%Z.
Definition to_uint64 (z : Z) : Z := (z mod 2 ^ 64)%Z.
Definition to_int64 (z : Z) : Z := ((z + 2 ^ 63) mod 2 ^ 64 - 2 ^ 63)%Z.

(** ** A state monad

    Member functions that read or write an object's fields are computations
    of type [State S A]: they take the current state and return a result and
    the new state.  The notations [x ← m; k] and [mret] are stdpp's. *)
Definition State (S A : Type) : Type := S → A * S.

#[global] Instance state_ret S : MRet (State S) := λ A a s, (a, s).
#[global] Instance state_bind S : MBind (State S) :=
  λ A B k m s, let '(a, s') := m s in k a s'.

Definition get_st {S} : State S S := λ s, (s, s).
Definition put_st {S} (s : S) : State S unit := λ _, (tt, s).
Definition modify {S} (f : S → S) : State S unit := λ s, (tt, f s).

(** A loop over a vector whose body updates the state and an accumulator. *)
Fixpoint foldM {S A B} (f : B → A → State S B) (acc : B) (l : list A) : State S B :=
  match l with
  | [] => mret acc
  | a :: l' => b ← f acc a; foldM f b l'
  end.

(** ** The clock

    [std::chrono::steady_clock::now()] is read through a parameter: the n-th
    reading of the process, in nanoseconds.  The documented behaviour used is
    that the clock is steady (readings never decrease) and counts from system
    start; the range bound (2^60 ns is 36 years) is what keeps the 64-bit
    deadline arithmetic of the code from overflowing. *)
Class SteadyClock := {
  clock : nat → Z;
  clock_mono : ∀ i j, (i ≤ j)%nat → (clock i ≤ clock j)%Z;
  clock_range : ∀ i, (0 ≤ clock i < 2 ^ 60)%Z;
}.

(** A computation that owns a component [S] and reads the clock threads the
    index of the next reading with the component. *)
Definition now {C} `{SteadyClock} : State (C * nat) Z :=
  λ '(s, n), (clock n, (s, S n)).

(** ** Hash tables

    [std::unordered_map] and [std::unordered_set] are finite maps and sets
    whose iteration order is unspecified: it is a parameter, of which only
    the fact that every element is visited exactly once is used. *)
Class HashOrder := {
  iter : ∀ {A : Type}, gmap bytes A → list (bytes * A);
  iter_perm : ∀ {A : Type} (m : gmap bytes A), iter m ≡ₚ map_to_list m;
  (** The keys of a map whose keys are socket descriptors. *)
  iter_fds : gset Z → list Z;
  iter_fds_perm : ∀ s : gset Z, iter_fds s ≡ₚ elements s;
}.

(** Concrete parameters, used to evaluate the definitions on examples: a
    clock that advances by one millisecond per reading (from 1 s, for at most
    10^9 readings), a frozen clock, and the iteration order of [gmap]. *)
Definition demo_time (i : nat) : Z := (1000000000 + 1000000 * Z.min (Z.of_nat i) 1000000000)%Z.

#[refine] Definition demo_clock : SteadyClock := {| clock := demo_time |}.
Proof. all: unfold demo_time; intros; lia. Defined.

#[refine] Definition frozen_clock : SteadyClock := {| clock := λ _, 1000000000%Z |}.
Proof. all: intros; lia. Defined.

#[refine] Definition gmap_order : HashOrder := {| iter A := map_to_list; iter_fds := elements |}.
Proof. all: reflexivity. Defined.

(** ** Automation *)
Create HintDb redis.
Create Rewrite HintDb redis_rw.

(** Runs the state monad's combinators. *)
Ltac run_state :=
  unfold mret, mbind, state_ret, state_bind, get_st, put_st, modify in *;
  cbn beta iota zeta in *.

(** Case analysis on the head scrutinee of the goal, keeping the equation. *)
Ltac case_head :=
  match goal with
  | |- context [match ?x with _ => _ end] => destruct x eqn:?
  end.

(** ** Generic lemmas *)
Lemma foldM_nil {S A B} (f : B → A → State S B) acc s : foldM f acc [] s = (acc, s).
Proof. done. Qed.

Lemma foldM_cons {S A B} (f : B → A → State S B) acc a l s :
  foldM f acc (a :: l) s = (let '(b, s') := f acc a s in foldM f b l s').
Proof. done. Qed.

Lemma foldM_app {S A B} (f : B → A → State S B) l1 l2 acc s :
  foldM f acc (l1 ++ l2) s = (let '(b, s') := foldM f acc l1 s in foldM f b l2 s').
Proof.
  revert acc s. induction l1 as [|a l1 IH]; intros acc s; [done|].
  cbn [app]. rewrite !foldM_cons. destruct (f acc a s) as [b s']. apply IH.
Qed.

(** An invariant of the body is an invariant of the loop. *)
Lemma foldM_inv {S A B} (P : B → S → Prop) (f : B → A → State S B) l acc s acc' s' :
  (∀ b a t b' t', a ∈ l → P b t → f b a t = (b', t') → P b' t') →
  P acc s → foldM f acc l s = (acc', s') → P acc' s'.
Proof.
  revert acc s. induction l as [|a l IH]; intros acc s Hf HP Hrun.
  - rewrite foldM_nil in Hrun. by simplify_eq.
  - rewrite foldM_cons in Hrun. destruct (f acc a s) as [b t] eqn:E.
    eapply IH; [|by eapply Hf; [left|..]|done].
    intros; eapply Hf; [by right|done..].
Qed.

Lemma filter_length_mono {A} (P Q : A → Prop)
    `{!∀ x, Decision (P x)} `{!∀ x, Decision (Q x)} (l : list A) :
  (∀ x, P x → Q x) → length (filter P l) ≤ length (filter Q l).
Proof.
  intros HPQ. induction l as [|a l IH]; [done|]. rewrite !filter_cons.
  repeat case_decide; simpl; try lia. exfalso. auto.
Qed.

Lemma filter_none {A} (P : A → Prop) `{!∀ x, Decision (P x)} (l : list A) :
  Forall (λ x, ¬ P x) l → filter P l = [].
Proof. induction 1 as [|x l Hx _ IH]; [done|]. by rewrite filter_cons_False. Qed.

Lemma byte_val_range c : (0 ≤ byte_val c < 256)%Z.
Proof.
  unfold byte_val. split; [lia|].
  pose proof (N_ascii_bounded c). lia.
Qed.

Lemma byte_of_val c : byte_of (byte_val c) = c.
Proof.
  unfold byte_of. pose proof (byte_val_range c).
  rewrite Z.mod_small by done. unfold byte_val.
  rewrite N2Z.id. apply ascii_N_embedding.
Qed.

Lemma byte_val_of z : byte_val (byte_of z) = (z mod 256)%Z.
Proof.
  unfold byte_val, byte_of. pose proof (Z.mod_pos_bound z 256 ltac:(lia)).
  rewrite N_ascii_embedding by lia. lia.
Qed.

Lemma byte_val_inj c d : byte_val c = byte_val d → c = d.
Proof. intros E. rewrite <- (byte_of_val c), <- (byte_of_val d). by rewrite E. Qed.

Lemma to_int32_id z : (INT_MIN ≤ z ≤ INT_MAX)%Z → to_int32 z = z.
Proof. unfold to_int32, INT_MIN, INT_MAX. intros. rewrite Z.mod_small; lia. Qed.

Lemma to_int32_range z : (INT_MIN ≤ to_int32 z ≤ INT_MAX)%Z.
Proof.
  unfold to_int32, INT_MIN, INT_MAX.
  pose proof (Z.mod_pos_bound (z + 2 ^ 31) (2 ^ 32) ltac:(lia)). lia.
Qed.

Lemma to_int64_id z : (INT64_MIN ≤ z ≤ INT64_MAX)%Z → to_int64 z = z.
Proof. unfold to_int64, INT64_MIN, INT64_MAX. intros. rewrite Z.mod_small; lia. Qed.

Lemma to_uint32_id z : (0 ≤ z < 2 ^ 32)%Z → to_uint32 z = z.
Proof. apply Z.mod_small. Qed.

Lemma iter_elem_of `{HashOrder} {A} (m : gmap bytes A) k a : (k, a) ∈ iter m ↔ m !! k = Some a.
Proof. rewrite iter_perm. apply elem_of_map_to_list. Qed.

Lemma iter_NoDup_fst `{HashOrder} {A} (m : gmap bytes A) : NoDup ((iter m).*1).
Proof. rewrite iter_perm. apply NoDup_fst_map_to_list. Qed.

Lemma length_iter `{HashOrder} {A} (m : gmap bytes A) : length (iter m) = size m.
Proof. by rewrite iter_perm, length_map_to_list. Qed.

#[export] Hint Resolve byte_val_range to_int32_range : redis.
