(* ===== verification/CppString.v ===== *)
(** * The C++ standard-library string functions the code calls

    [std::string] searching and slicing, the [<cctype>] predicates in the C
    locale, [std::stoi]/[std::stoll]/[std::to_string], and the stream
    extractions ([std::getline], [>>], [std::ws]) on an [std::istringstream].
    [std::string::npos] is [None]; a thrown [std::invalid_argument] or
    [std::out_of_range] is [None] as well. *)

From S2P Require Import Prelude.

(** ** Characters *)

(** [std::isspace] in the C locale: space, \t, \n, \v, \f, \r. *)
Definition isspace (c : ascii) : bool :=
  let n := byte_val c in ((n =? 32) || ((9 <=? n) && (n <=? 13)))%Z.

Definition isdigit (c : ascii) : bool :=
  let n := byte_val c in ((48 <=? n) && (n <=? 57))%Z.

(** [std::toupper] in the C locale. *)
Definition toupper (c : ascii) : ascii :=
  let n := byte_val c in
  if ((97 <=? n) && (n <=? 122))%Z then byte_of (n - 32) else c.

(** [std::transform(s.begin(), s.end(), s.begin(), toupper)]. *)
Definition to_upper (s : bytes) : bytes := map toupper s.

Definition bytes_eqb (a b : bytes) : bool := bool_decide (a = b).

(** ** Searching and slicing *)

(** [s.substr(pos, len)] for [pos <= s.size()]. *)
Definition substr (pos len : nat) (s : bytes) : bytes := take len (drop pos s).

(** The index, counted from [i], of the first character satisfying [p]. *)
Fixpoint find_idx (p : ascii → bool) (s : bytes) (i : nat) : option nat :=
  match s with
  | [] => None
  | c :: s' => if p c then Some i else find_idx p s' (S i)
  end.

(** [s.find(c)], [s.find_first_not_of(set)]. *)
Definition find_char (c : ascii) (s : bytes) : option nat := find_idx (Ascii.eqb c) s 0.
Definition char_in (c : ascii) (cs : bytes) : bool := existsb (Ascii.eqb c) cs.
Definition find_first_not_of (cs : bytes) (s : bytes) : option nat :=
  find_idx (λ c, negb (char_in c cs)) s 0.

(** [s.find_last_not_of(set)]. *)
Definition find_last_not_of (cs : bytes) (s : bytes) : option nat :=
  (λ i, length s - 1 - i) <$> find_idx (λ c, negb (char_in c cs)) (rev s) 0.

(** [s.find(t)] for a string [t]: the first index where [t] occurs. *)
Fixpoint find_str_from (t s : bytes) (i : nat) : option nat :=
  if bytes_eqb (take (length t) s) t then Some i
  else match s with
       | [] => None
       | _ :: s' => find_str_from t s' (S i)
       end.
Definition find_str (t s : bytes) : option nat := find_str_from t s 0.

(** [s.front()] and [s.back()] (the code tests the size first). *)
Definition front (s : bytes) : option ascii := head s.
Definition back (s : bytes) : option ascii := last s.

(** ** Streams over a string *)

(** The maximal prefix of characters that satisfy [p], and the rest. *)
Fixpoint span (p : ascii → bool) (s : bytes) : bytes * bytes :=
  match s with
  | [] => ([], [])
  | c :: s' => if p c then let '(a, b) := span p s' in (c :: a, b) else ([], s)
  end.

Definition skip_ws (s : bytes) : bytes := snd (span isspace s).

(** [in >> word]: skips white space, then reads up to white space. *)
Definition read_word (s : bytes) : bytes * bytes := span (λ c, negb (isspace c)) (skip_ws s).

(** [while (std::getline(in, line))]: the successive lines.  A final newline
    does not start another line. *)
Fixpoint getlines (s : bytes) : list bytes :=
  match s with
  | [] => []
  | c :: s' =>
      if Ascii.eqb c LF then [] :: getlines s'
      else match getlines s' with
           | [] => [[c]]
           | l :: ls => (c :: l) :: ls
           end
  end.

(** [std::getline(in >> std::ws, line)] on the rest [s] of a stream: the rest
    of the first line after leading white space; an exhausted stream leaves
    the empty string. *)
Definition ws_getline (s : bytes) : bytes :=
  fst (span (λ c, negb (Ascii.eqb c LF)) (skip_ws s)).

(** ** Numbers *)

Definition digit_char (d : Z) : ascii := byte_of (48 + d).
Definition digit_val (c : ascii) : Z := (byte_val c - 48)%Z.

(** Decimal digits of a nonnegative integer, most significant first. *)
Fixpoint digits (fuel : nat) (n : Z) : bytes :=
  match fuel with
  | O => []
  | S f => if (n <? 10)%Z then [digit_char n]
           else digits f (n / 10)%Z ++ [digit_char (n mod 10)%Z]
  end.

(** [std::to_string] and [operator<<] on integers.  The fuel is at least the
    number of decimal digits. *)
Definition to_string (n : Z) : bytes :=
  if (n <? 0)%Z then "-"%char :: digits (S (Z.to_nat (Z.log2 (- n)))) (- n)
  else digits (S (Z.to_nat (Z.log2 n))) n.

Definition parse_digits (s : bytes) : Z :=
  fold_left (λ acc c, 10 * acc + digit_val c)%Z s 0%Z.

(** The conversion done by [strtol]/[strtoll] in base 10: leading white space,
    an optional sign, the longest run of digits; what follows is ignored.
    [None] when there is no digit. *)
Definition strtol (s : bytes) : option Z :=
  let s := skip_ws s in
  let '(neg, s) :=
    match s with
    | c :: s' => if Ascii.eqb c "-" then (true, s')
                 else if Ascii.eqb c "+" then (false, s') else (false, s)
    | [] => (false, s)
    end in
  match span isdigit s with
  | ([], _) => None
  | (ds, _) => Some (if neg then (- parse_digits ds)%Z else parse_digits ds)
  end.

Definition in_range (lo hi : Z) (o : option Z) : option Z :=
  match o with
  | Some z => if ((lo <=? z) && (z <=? hi))%Z then Some z else None
  | None => None
  end.

(** [std::stoi] and [std::stoll]. *)
Definition stoi (s : bytes) : option Z := in_range INT_MIN INT_MAX (strtol s).
Definition stoll (s : bytes) : option Z := in_range INT64_MIN INT64_MAX (strtol s).

(** ** Lemmas *)

Lemma bytes_eqb_eq a b : bytes_eqb a b = true ↔ a = b.
Proof. apply bool_decide_eq_true. Qed.

Lemma bytes_eqb_neq a b : bytes_eqb a b = false ↔ a ≠ b.
Proof. apply bool_decide_eq_false. Qed.

Lemma bytes_eqb_refl a : bytes_eqb a a = true.
Proof. by apply bytes_eqb_eq. Qed.

(** Decides [bytes_eqb] and [Ascii.eqb] tests in the goal. *)
Ltac case_bytes :=
  match goal with
  | |- context [bytes_eqb ?a ?b] =>
      let E := fresh "E" in destruct (bytes_eqb a b) eqn:E;
      [apply bytes_eqb_eq in E | apply bytes_eqb_neq in E]
  | |- context [Ascii.eqb ?a ?b] =>
      let E := fresh "E" in destruct (Ascii.eqb a b) eqn:E;
      [apply Ascii.eqb_eq in E | apply Ascii.eqb_neq in E]
  end.

Lemma span_app p s : fst (span p s) ++ snd (span p s) = s.
Proof.
  induction s as [|c s IH]; simpl; [done|].
  destruct (p c); [|done]. destruct (span p s); simpl in *. by rewrite IH.
Qed.

Lemma span_length p s : length (snd (span p s)) ≤ length s.
Proof. rewrite <- (span_app p s) at 2. rewrite length_app. lia. Qed.

Lemma span_fst_Forall p s : Forall (λ c, p c = true) (fst (span p s)).
Proof.
  induction s as [|c s IH]; simpl; [done|].
  destruct (p c) eqn:E; [|done]. destruct (span p s). simpl in *. by constructor.
Qed.

(** [span] stops at the first character that fails the test. *)
Lemma span_stop p a c s :
  Forall (λ x, p x = true) a → p c = false → span p (a ++ c :: s) = (a, c :: s).
Proof.
  intros Ha Hc. induction Ha as [|x a Hx _ IH]; simpl; [by rewrite Hc|].
  by rewrite Hx, IH.
Qed.

Lemma span_all p a : Forall (λ x, p x = true) a → span p a = (a, []).
Proof. induction 1 as [|x a Hx _ IH]; simpl; [done|]. by rewrite Hx, IH. Qed.

Lemma span_snd_head p s c r : snd (span p s) = c :: r → p c = false.
Proof.
  induction s as [|x s IH]; simpl; [done|].
  destruct (p x) eqn:E.
  - destruct (span p s). simpl in *. done.
  - simpl. by intros [= -> ->].
Qed.

Lemma span_all_nil p s : snd (span p s) = [] → Forall (λ c, p c = true) s.
Proof.
  intros E. pose proof (span_app p s) as Hs. rewrite E, app_nil_r in Hs.
  rewrite <- Hs. apply span_fst_Forall.
Qed.

Lemma skip_ws_length s : length (skip_ws s) ≤ length s.
Proof. apply span_length. Qed.

Lemma skip_ws_head s c r : skip_ws s = c :: r → isspace c = false.
Proof. apply span_snd_head. Qed.

Lemma skip_ws_nonspace c s : isspace c = false → skip_ws (c :: s) = c :: s.
Proof. intros E. unfold skip_ws. simpl. by rewrite E. Qed.

Lemma find_idx_none p s i : find_idx p s i = None ↔ Forall (λ c, p c = false) s.
Proof.
  revert i. induction s as [|c s IH]; intros i; simpl; [by split; [constructor|]|].
  rewrite Forall_cons. destruct (p c) eqn:E.
  - split; [done|]. intros [? _]. congruence.
  - rewrite IH. split; [by split|by intros [_ ?]].
Qed.

Lemma find_idx_some p s i j :
  find_idx p s i = Some j →
  ∃ a c r, s = a ++ c :: r ∧ j = i + length a ∧ p c = true ∧ Forall (λ c, p c = false) a.
Proof.
  revert i. induction s as [|c s IH]; intros i; simpl; [done|].
  destruct (p c) eqn:E.
  - intros [= <-]. exists [], c, s. repeat split; [simpl; lia|done|constructor].
  - intros Hj. destruct (IH _ Hj) as (a & d & r & -> & -> & Hd & Ha).
    exists (c :: a), d, r. repeat split; [simpl; lia|done|by constructor].
Qed.

Lemma find_idx_app p a c r i :
  Forall (λ c, p c = false) a → p c = true → find_idx p (a ++ c :: r) i = Some (i + length a).
Proof.
  intros Ha Hc. revert i. induction Ha as [|x a Hx _ IH]; intros i; simpl.
  - rewrite Hc. f_equal. lia.
  - rewrite Hx, IH. f_equal. lia.
Qed.

(** *** Decimal conversion round trip *)

Lemma digit_char_val d : (0 ≤ d < 10)%Z → digit_val (digit_char d) = d.
Proof. intros. unfold digit_val, digit_char. rewrite byte_val_of, Z.mod_small; lia. Qed.

Lemma digit_char_isdigit d : (0 ≤ d < 10)%Z → isdigit (digit_char d) = true.
Proof.
  intros. unfold isdigit, digit_char. rewrite byte_val_of, Z.mod_small by lia.
  apply andb_true_iff. split; lia.
Qed.

Lemma digits_isdigit f n : (0 ≤ n)%Z → Forall (λ c, isdigit c = true) (digits f n).
Proof.
  revert n. induction f as [|f IH]; intros n Hn; simpl; [done|].
  destruct (Z.ltb_spec n 10).
  - repeat constructor. apply digit_char_isdigit. lia.
  - apply Forall_app. split; [apply IH, Z.div_pos; lia|].
    repeat constructor. apply digit_char_isdigit, Z.mod_pos_bound. lia.
Qed.

Lemma digits_nonempty f n : digits (S f) n ≠ [].
Proof. simpl. destruct (n <? 10)%Z; [done|]. by destruct (digits f (n / 10)). Qed.

Lemma parse_digits_snoc s c : parse_digits (s ++ [c]) = (10 * parse_digits s + digit_val c)%Z.
Proof. unfold parse_digits. by rewrite fold_left_app. Qed.

Lemma parse_digits_digits f n :
  (0 ≤ n < 2 ^ Z.of_nat f)%Z → parse_digits (digits f n) = n.
Proof.
  revert n. induction f as [|f IH]; intros n Hn.
  { simpl in *. change (parse_digits []) with 0%Z. lia. }
  cbn [digits]. destruct (Z.ltb_spec n 10).
  - unfold parse_digits. cbn [fold_left]. rewrite digit_char_val by lia. lia.
  - pose proof (Z.div_mod n 10 ltac:(lia)). pose proof (Z.mod_pos_bound n 10 ltac:(lia)).
    rewrite parse_digits_snoc, digit_char_val, IH by lia || (split; [apply Z.div_pos; lia|
      apply Z.div_lt_upper_bound; [lia|]; rewrite Nat2Z.inj_succ, Z.pow_succ_r in Hn; lia]).
    lia.
Qed.

Lemma log2_fuel n : (0 ≤ n)%Z → (n < 2 ^ Z.of_nat (S (Z.to_nat (Z.log2 n))))%Z.
Proof.
  intros Hn. pose proof (Z.log2_nonneg n).
  rewrite Nat2Z.inj_succ, Z2Nat.id by lia.
  destruct (Z.eq_dec n 0) as [->|]; [done|]. apply Z.log2_spec. lia.
Qed.

Lemma parse_to_string_digits n :
  (0 ≤ n)%Z → parse_digits (digits (S (Z.to_nat (Z.log2 n))) n) = n.
Proof. intros Hn. apply parse_digits_digits. split; [done|]. by apply log2_fuel. Qed.

Lemma isdigit_not_special c :
  isdigit c = true → isspace c = false ∧ Ascii.eqb c "-" = false ∧ Ascii.eqb c "+" = false ∧
  Ascii.eqb c CR = false ∧ Ascii.eqb c LF = false.
Proof.
  unfold isdigit, isspace. rewrite andb_true_iff. intros [H1 H2].
  repeat split; try (apply Ascii.eqb_neq; intros ->; vm_compute in H1, H2; done).
  apply orb_false_iff. split; [|apply andb_false_iff; right]; lia.
Qed.

(** [strtol] reads back the decimal form of an integer, whatever non-digit
    follows it. *)
Lemma strtol_to_string n r :
  match r with c :: _ => isdigit c = false | [] => True end →
  strtol (to_string n ++ r) = Some n.
Proof.
  intros Hr. unfold strtol, to_string.
  assert (Hspan : ∀ m, (0 ≤ m)%Z →
    span isdigit (digits (S (Z.to_nat (Z.log2 m))) m ++ r) =
      (digits (S (Z.to_nat (Z.log2 m))) m, r)).
  { intros m Hm. destruct r as [|c r].
    - rewrite app_nil_r. by apply span_all, digits_isdigit.
    - by apply span_stop; [apply digits_isdigit|]. }
  destruct (Z.ltb_spec n 0).
  - rewrite <- app_comm_cons, skip_ws_nonspace by done.
    cbn [Ascii.eqb Bool.eqb]. rewrite Hspan by lia.
    pose proof (parse_to_string_digits (- n) ltac:(lia)) as Hp.
    destruct (digits _ (- n)) eqn:E; [by apply digits_nonempty in E|].
    rewrite Hp. f_equal. lia.
  - pose proof (Hspan n ltac:(lia)) as Hs.
    pose proof (digits_isdigit (S (Z.to_nat (Z.log2 n))) n ltac:(lia)) as Hd.
    pose proof (parse_to_string_digits n ltac:(lia)) as Hp.
    destruct (digits _ n) as [|c ds] eqn:E; [by apply digits_nonempty in E|].
    apply Forall_cons in Hd as [Hc _]. apply isdigit_not_special in Hc as (? & H1 & H2 & _).
    rewrite <- app_comm_cons, skip_ws_nonspace, H1, H2, app_comm_cons, Hs by done.
    by rewrite Hp.
Qed.

Lemma stoi_to_string n : (INT_MIN ≤ n ≤ INT_MAX)%Z → stoi (to_string n) = Some n.
Proof.
  intros H. unfold stoi. rewrite <- (app_nil_r (to_string n)), strtol_to_string by done.
  simpl. rewrite (proj2 (andb_true_iff _ _)); [done|]. split; lia.
Qed.

Lemma stoll_to_string n : (INT64_MIN ≤ n ≤ INT64_MAX)%Z → stoll (to_string n) = Some n.
Proof.
  intros H. unfold stoll. rewrite <- (app_nil_r (to_string n)), strtol_to_string by done.
  simpl. rewrite (proj2 (andb_true_iff _ _)); [done|]. split; lia.
Qed.

Lemma stoi_range s n : stoi s = Some n → (INT_MIN ≤ n ≤ INT_MAX)%Z.
Proof.
  unfold stoi, in_range. destruct (strtol s); [|done].
  destruct (_ && _)%Z eqn:E; [|done]. intros [= ->]. apply andb_true_iff in E. lia.
Qed.

Lemma to_string_no_newline n : Forall (λ c, c ≠ CR ∧ c ≠ LF) (to_string n).
Proof.
  assert (Hd : ∀ f m, (0 ≤ m)%Z → Forall (λ c, c ≠ CR ∧ c ≠ LF) (digits f m)).
  { intros f m Hm. eapply Forall_impl; [by apply digits_isdigit|].
    intros c (_ & _ & _ & H1 & H2)%isdigit_not_special.
    split; by apply Ascii.eqb_neq. }
  unfold to_string. destruct (Z.ltb_spec n 0); [constructor; [done|]|]; apply Hd; lia.
Qed.

Lemma to_string_nonempty n : to_string n ≠ [].
Proof. unfold to_string. destruct (n <? 0)%Z; [done|apply digits_nonempty]. Qed.

(** *** Upper-casing *)

Lemma toupper_fix c : (byte_val c < 97)%Z → toupper c = c.
Proof. intros H. unfold toupper. by rewrite (proj2 (Z.leb_gt _ _)) by done. Qed.

Lemma toupper_idem c : toupper (toupper c) = toupper c.
Proof.
  destruct ((97 <=? byte_val c) && (byte_val c <=? 122))%Z eqn:E.
  - apply andb_true_iff in E as E'. apply toupper_fix. unfold toupper. rewrite E, byte_val_of.
    rewrite Z.mod_small; lia.
  - assert (toupper c = c) as -> by (unfold toupper; by rewrite E).
    unfold toupper. by rewrite E.
Qed.

Lemma to_upper_idem s : to_upper (to_upper s) = to_upper s.
Proof. unfold to_upper. rewrite map_map. apply map_ext, toupper_idem. Qed.

Lemma length_to_upper s : length (to_upper s) = length s.
Proof. apply length_map. Qed.

#[export] Hint Rewrite bytes_eqb_refl length_to_upper : redis_rw.
