(* ===== verification/Parser.v ===== *)
(** * The command tokenizer and parser (parser/parser.cpp, parser/parser.h)

    [Parser::tokenize] walks the line with an index; here the walk is on the
    remaining suffix, and each scanner returns the token and what is left.
    The outer loop carries fuel [size + 1]; [tokenize_unfold] shows the fuel
    is always enough, so the fuelled loop has the equation of the source's
    [while] loop. *)

From S2P Require Import Prelude CppString.

(** ** Data *)

Record Command := mkCommand { name : bytes; args : list bytes }.

#[global] Instance Command_eq_dec : EqDecision Command.
Proof. solve_decision. Defined.

(** [Command cmd;] value-initialises both members. *)
Definition empty_command : Command := mkCommand [] [].

Record ParseResult := mkParseResult { pr_ok : bool; pr_command : Command; pr_error : bytes }.

Definition parse_success (cmd : Command) : ParseResult := mkParseResult true cmd [].
Definition parse_failure (err : bytes) : ParseResult := mkParseResult false empty_command err.

(** ** Scanners *)

(** The escape sequences of a double-quoted string. *)
Definition escape (d : ascii) : bytes :=
  if Ascii.eqb d DQUOTE then [DQUOTE]
  else if Ascii.eqb d BACKSLASH then [BACKSLASH]
  else if Ascii.eqb d "n" then [LF]
  else if Ascii.eqb d "t" then [TAB]
  else [BACKSLASH; d].

(** After an opening double quote: the token and the rest after the closing
    quote, or the rest of the line when the quote is never closed. *)
Fixpoint scan_dquoted (s : bytes) : bytes * bytes :=
  match s with
  | [] => ([], [])
  | c :: s' =>
      if Ascii.eqb c DQUOTE then ([], s')
      else if Ascii.eqb c BACKSLASH then
        match s' with
        | d :: s'' => let '(t, r) := scan_dquoted s'' in (escape d ++ t, r)
        | [] => ([c], [])
        end
      else let '(t, r) := scan_dquoted s' in (c :: t, r)
  end.

(** After an opening single quote (no escapes). *)
Definition scan_squoted (s : bytes) : bytes * bytes :=
  let '(t, r) := span (λ c, negb (Ascii.eqb c SQUOTE)) s in (t, drop 1 r).

Definition scan_plain (s : bytes) : bytes * bytes := span (λ c, negb (isspace c)) s.

(** The token that starts at the non-blank character [c]. *)
Definition next_token (c : ascii) (s : bytes) : bytes * bytes :=
  if Ascii.eqb c DQUOTE then scan_dquoted s
  else if Ascii.eqb c SQUOTE then scan_squoted s
  else scan_plain (c :: s).

Fixpoint tokenize_loop (fuel : nat) (s : bytes) : list bytes :=
  match fuel with
  | O => []
  | S f =>
      match skip_ws s with
      | [] => []
      | c :: s' => let '(t, r) := next_token c s' in t :: tokenize_loop f r
      end
  end.

Definition tokenize (input : bytes) : list bytes := tokenize_loop (S (length input)) input.

(** [Parser::parse]. *)
Definition parse (input : bytes) : ParseResult :=
  match tokenize input with
  | [] => parse_failure $"ERR empty command"
  | n :: rest => parse_success (mkCommand (to_upper n) rest)
  end.

(** ** What a client writes (specification side)

    A client that wants to send arbitrary bytes in the inline format
    double-quotes each argument and escapes the double quote, the backslash
    and the newline, the escapes [Parser::tokenize] documents. *)
Definition quote_char (c : ascii) : bytes :=
  if Ascii.eqb c DQUOTE then [BACKSLASH; DQUOTE]
  else if Ascii.eqb c BACKSLASH then [BACKSLASH; BACKSLASH]
  else if Ascii.eqb c LF then [BACKSLASH; "n"%char]
  else [c].

Definition quote_body (t : bytes) : bytes := t ≫= quote_char.
Definition quote (t : bytes) : bytes := DQUOTE :: quote_body t ++ [DQUOTE].

(** The arguments of a command, each preceded by a space. *)
Definition quote_args (ts : list bytes) : bytes := ts ≫= λ t, " "%char :: quote t.

(** The inline form of a command (without the line terminator). *)
Definition inline_line (n : bytes) (ts : list bytes) : bytes := quote n ++ quote_args ts.

(** A word that needs no quoting: not empty, no white space, and it does not
    start with a quote character. *)
Definition plain_word (t : bytes) : Prop :=
  Forall (λ c, isspace c = false) t ∧
  match t with [] => False | c :: _ => c ≠ DQUOTE ∧ c ≠ SQUOTE end.

(** ** Lemmas *)

Lemma scan_dquoted_length s : length (snd (scan_dquoted s)) ≤ length s.
Proof.
  induction s as [s IH] using (induction_ltof1 _ length). unfold ltof in IH.
  destruct s as [|c s]; simpl; [done|]. repeat case_bytes; simpl; [lia| |].
  - destruct s as [|d s]; simpl; [lia|].
    pose proof (IH s ltac:(simpl; lia)). destruct (scan_dquoted s). simpl in *. lia.
  - pose proof (IH s ltac:(simpl; lia)). destruct (scan_dquoted s). simpl in *. lia.
Qed.

Lemma scan_squoted_length s : length (snd (scan_squoted s)) ≤ length s.
Proof.
  unfold scan_squoted. pose proof (span_length (λ c, negb (Ascii.eqb c SQUOTE)) s).
  destruct (span _ s). simpl in *. rewrite length_drop. lia.
Qed.

(** A token consumes at least its first character. *)
Lemma next_token_length c s :
  isspace c = false → length (snd (next_token c s)) ≤ length s.
Proof.
  intros Hc. unfold next_token. repeat case_bytes.
  - apply scan_dquoted_length.
  - apply scan_squoted_length.
  - unfold scan_plain. simpl. rewrite Hc. simpl.
    pose proof (span_length (λ c, negb (isspace c)) s). destruct (span _ s). done.
Qed.

Lemma tokenize_loop_fuel f g s :
  length s < f → length s < g → tokenize_loop f s = tokenize_loop g s.
Proof.
  revert g s. induction f as [|f IH]; intros [|g] s Hf Hg; [lia..|]. simpl.
  destruct (skip_ws s) as [|c r] eqn:E; [done|].
  pose proof (skip_ws_length s) as Hl. rewrite E in Hl. simpl in Hl.
  pose proof (next_token_length c r (skip_ws_head _ _ _ E)).
  destruct (next_token c r) as [t q]. simpl in *. f_equal. apply IH; lia.
Qed.

(** The equation of the source's loop: the fuel never runs out. *)
Lemma tokenize_unfold s :
  tokenize s = match skip_ws s with
               | [] => []
               | c :: s' => fst (next_token c s') :: tokenize (snd (next_token c s'))
               end.
Proof.
  unfold tokenize at 1. simpl. destruct (skip_ws s) as [|c r] eqn:E; [done|].
  pose proof (skip_ws_length s) as Hl. rewrite E in Hl. simpl in Hl.
  pose proof (next_token_length c r (skip_ws_head _ _ _ E)).
  destruct (next_token c r) as [t q]. simpl in *. f_equal.
  apply tokenize_loop_fuel; lia.
Qed.

Lemma tokenize_space c s : isspace c = true → tokenize (c :: s) = tokenize s.
Proof.
  intros Hc. rewrite !tokenize_unfold. unfold skip_ws. simpl. rewrite Hc.
  by destruct (span isspace s).
Qed.

Lemma tokenize_nil_iff s : tokenize s = [] ↔ Forall (λ c, isspace c = true) s.
Proof.
  rewrite tokenize_unfold. destruct (skip_ws s) as [|c r] eqn:E.
  - split; [|done]. intros _. by apply span_all_nil.
  - split; [done|]. intros Hs. apply span_all in Hs. unfold skip_ws in E.
    by rewrite Hs in E.
Qed.

(** Scanning undoes quoting. *)
Lemma scan_quote_char c s t r :
  scan_dquoted s = (t, r) → scan_dquoted (quote_char c ++ s) = (c :: t, r).
Proof.
  intros IH. unfold quote_char.
  destruct (Ascii.eqb c DQUOTE) eqn:E1; [apply Ascii.eqb_eq in E1 as ->; simpl; by rewrite IH|].
  destruct (Ascii.eqb c BACKSLASH) eqn:E2; [apply Ascii.eqb_eq in E2 as ->; simpl; by rewrite IH|].
  destruct (Ascii.eqb c LF) eqn:E3; [apply Ascii.eqb_eq in E3 as ->; simpl; by rewrite IH|].
  cbn [app scan_dquoted]. by rewrite E1, E2, IH.
Qed.

Lemma scan_quote_body t s : scan_dquoted (quote_body t ++ DQUOTE :: s) = (t, s).
Proof.
  induction t as [|c t IH]; [done|].
  change (quote_body (c :: t)) with (quote_char c ++ quote_body t).
  rewrite <- app_assoc. by apply scan_quote_char.
Qed.

Lemma tokenize_quote t s : tokenize (quote t ++ s) = t :: tokenize s.
Proof.
  rewrite tokenize_unfold. unfold quote. rewrite <- app_comm_cons.
  rewrite skip_ws_nonspace by done. unfold next_token. rewrite Ascii.eqb_refl.
  rewrite <- app_assoc. cbn [app]. by rewrite scan_quote_body.
Qed.

Lemma tokenize_quote_args ts : tokenize (quote_args ts) = ts.
Proof.
  induction ts as [|t ts IH]; [done|].
  change (quote_args (t :: ts)) with (" "%char :: quote t ++ quote_args ts).
  rewrite tokenize_space by done. by rewrite tokenize_quote, IH.
Qed.

Lemma tokenize_inline_line n ts : tokenize (inline_line n ts) = n :: ts.
Proof. unfold inline_line. by rewrite tokenize_quote, tokenize_quote_args. Qed.

(** A word stops at white space or at the end of the line. *)
Lemma tokenize_plain t s :
  plain_word t → match s with c :: _ => isspace c = true | [] => True end →
  tokenize (t ++ s) = t :: tokenize s.
Proof.
  intros [Ht Hq] Hs. rewrite tokenize_unfold.
  destruct t as [|c t]; [done|]. destruct Hq as [Hd Hq].
  pose proof Ht as [Hc _]%Forall_cons.
  rewrite <- app_comm_cons, skip_ws_nonspace by done.
  unfold next_token. apply Ascii.eqb_neq in Hd, Hq. rewrite Hd, Hq.
  assert (scan_plain (c :: t ++ s) = (c :: t, s)) as ->; [|done].
  unfold scan_plain. assert (Forall (λ c, negb (isspace c) = true) (c :: t)) as Hn.
  { eapply Forall_impl; [done|]. intros x Hx. by apply negb_true_iff. }
  destruct s as [|d s]; rewrite app_comm_cons.
  - rewrite app_nil_r. by apply span_all.
  - apply span_stop; [done|]. by rewrite Hs.
Qed.

#[export] Hint Rewrite tokenize_quote tokenize_quote_args tokenize_inline_line : redis_rw.
