(* ===== verification/Resp.v ===== *)
(** * RESP2 parsing and serialization (resp/resp.cpp, resp/resp.h)

    [Resp::parse_command] and its two branches, the reply constructors and
    [Resp::serialize_response].  Buffer positions are [nat].  The element
    loop of [parse_resp_array] recurses on the element count, so it needs no
    fuel; [serialize_response] calls itself on strictly shorter strings and
    carries fuel [size + 1], which [serialize_unfold] shows to be enough. *)

From S2P Require Import Prelude CppString Parser.

(** ** Parsing: client to server *)

Record RespParseResult := mkResp {
  rp_ok : bool;
  rp_need_more : bool;
  rp_protocol_error : bool;
  rp_command : Command;
  rp_bytes_consumed : nat;
}.

Definition resp_ok (cmd : Command) (n : nat) := mkResp true false false cmd n.
Definition resp_need_more (n : nat) := mkResp false true false empty_command n.
Definition resp_protocol_error (n : nat) := mkResp false false true empty_command n.

(** [Resp::find_crlf]: the first index [i >= start] with a CR at [i] and an
    LF at [i + 1]. *)
Fixpoint find_crlf_from (s : bytes) (i : nat) : option nat :=
  match s with
  | c :: ((d :: _) as s') =>
      if Ascii.eqb c CR && Ascii.eqb d LF then Some i else find_crlf_from s' (S i)
  | _ => None
  end.
Definition find_crlf (buffer : bytes) (start : nat) : option nat :=
  find_crlf_from (drop start buffer) start.

(** The loop over the [n] remaining bulk strings of a command; [parts] are
    the elements read so far.  An early [return] is [inr]. *)
Fixpoint parse_elements (n : nat) (buffer : bytes) (pos : nat) (parts : list bytes)
    : (list bytes * nat) + RespParseResult :=
  match n with
  | O => inl (parts, pos)
  | S n' =>
      match buffer !! pos with
      | None => inr (resp_need_more 0)
      | Some c =>
          if negb (Ascii.eqb c "$") then inr (resp_protocol_error 0) else
          match find_crlf buffer pos with
          | None => inr (resp_need_more 0)
          | Some crlf =>
              match stoi (substr (pos + 1) (crlf - pos - 1) buffer) with
              | None => inr (resp_protocol_error 0)
              | Some len =>
                  if (len <? 0)%Z then parse_elements n' buffer (crlf + 2) (parts ++ [[]]) else
                  let data_start := crlf + 2 in
                  if (Z.of_nat (length buffer) <? Z.of_nat data_start + len + 2)%Z
                  then inr (resp_need_more 0) else
                  let len := Z.to_nat len in
                  if negb (bool_decide (buffer !! (data_start + len) = Some CR) &&
                           bool_decide (buffer !! (data_start + len + 1) = Some LF))
                  then inr (resp_protocol_error 0) else
                  parse_elements n' buffer (data_start + len + 2)
                    (parts ++ [substr data_start len buffer])
              end
          end
      end
  end.

(** [Resp::parse_resp_array]. *)
Definition parse_resp_array (buffer : bytes) : RespParseResult :=
  match find_crlf buffer 0 with
  | None => resp_need_more 0
  | Some crlf =>
      match stoi (substr 1 (crlf - 1) buffer) with
      | None => resp_protocol_error 0
      | Some count =>
          if (count <? 0)%Z then resp_protocol_error 0
          else if (count =? 0)%Z then resp_protocol_error 0
          else match parse_elements (Z.to_nat count) buffer (crlf + 2) [] with
               | inr r => r
               | inl (parts, pos) =>
                   resp_ok (mkCommand (to_upper (default [] (head parts))) (tail parts)) pos
               end
      end
  end.

(** [Resp::parse_inline]. *)
Definition parse_inline (buffer : bytes) : RespParseResult :=
  let eol :=
    match find_crlf buffer 0 with
    | Some crlf => Some (crlf, crlf + 2)
    | None => match find_char LF buffer with
              | Some newline => Some (newline, newline + 1)
              | None => None
              end
    end in
  match eol with
  | None => if (64 * 1024 <? Z.of_nat (length buffer))%Z then resp_protocol_error 0
            else resp_need_more 0
  | Some (line_end, consume) =>
      let line := substr 0 line_end buffer in
      match find_first_not_of [" "%char; TAB; CR] line with
      | None => resp_need_more consume
      | Some start =>
          let line := drop start line in
          let result := parse line in
          if pr_ok result then resp_ok (pr_command result) consume
          else resp_protocol_error consume
      end
  end.

(** [Resp::parse_command]. *)
Definition parse_command (buffer : bytes) : RespParseResult :=
  match buffer with
  | [] => resp_need_more 0
  | c :: _ => if Ascii.eqb c "*" then parse_resp_array buffer else parse_inline buffer
  end.

(** ** Serialization: server to client *)

Definition simple_string (str : bytes) : bytes := $"+" ++ str ++ CRLF.
Definition error (msg : bytes) : bytes := $"-" ++ msg ++ CRLF.
Definition integer (val : Z) : bytes := $":" ++ to_string val ++ CRLF.
Definition bulk_string (str : bytes) : bytes :=
  $"$" ++ to_string (Z.of_nat (length str)) ++ CRLF ++ str ++ CRLF.
Definition null_bulk_string : bytes := $"$-1" ++ CRLF.
Definition null_array : bytes := $"*-1" ++ CRLF.
Definition empty_array : bytes := $"*0" ++ CRLF.
Definition array (elements : list bytes) : bytes :=
  $"*" ++ to_string (Z.of_nat (length elements)) ++ CRLF ++ concat elements.

(** [s.substr(0, p.size()) == p]. *)
Definition has_prefix (p s : bytes) : bool := bytes_eqb (substr 0 (length p) s) p.

Definition is_quoted (s : bytes) : bool :=
  (2 <=? length s) && bool_decide (front s = Some DQUOTE) && bool_decide (back s = Some DQUOTE).

(** The characters between the quotes: [s.substr(1, s.size() - 2)]. *)
Definition unquote (s : bytes) : bytes := substr 1 (length s - 2) s.

(** One line of an array reply, ["N) content"]. *)
Definition serialize_line (rec : bytes → bytes) (line : bytes) : bytes :=
  match find_str $") " line with
  | Some paren =>
      let content := drop (paren + 2) line in
      if is_quoted content then bulk_string (unquote content) else rec content
  | None => bulk_string line
  end.

(** One line of a pub/sub reply. *)
Definition serialize_push (l : bytes) : bytes :=
  let '(type, r) := read_word l in
  let '(channel, r) := read_word r in
  let third := ws_getline r in
  array (bulk_string type :: bulk_string channel ::
         [if bytes_eqb type $"message" then bulk_string third
          else match stoll third with
               | Some count => integer count
               | None => bulk_string third
               end]).

Definition looks_like_array (r : bytes) : bool :=
  match r with
  | c :: d :: _ :: _ =>
      ((byte_val "1" <=? byte_val c) && (byte_val c <=? byte_val "9"))%Z && Ascii.eqb d ")"
  | _ => false
  end.

Definition integer_reply (r : bytes) : option Z :=
  if (10 <? length r) && has_prefix $"(integer) " r then stoll (drop 10 r) else None.

(** The body of [Resp::serialize_response]; [rec] is the recursive call. *)
Definition serialize_body (rec : bytes → bytes) (response : bytes) : bytes :=
  match response with
  | [] => null_bulk_string
  | _ =>
      if bytes_eqb response $"OK" then simple_string $"OK"
      else if bytes_eqb response $"PONG" then simple_string $"PONG"
      else if bytes_eqb response $"QUEUED" then simple_string $"QUEUED"
      else if bytes_eqb response $"(nil)" then null_bulk_string
      else if bytes_eqb response $"(empty list)" then empty_array
      else if has_prefix $"ERR " response || has_prefix $"ERR" response then error response
      else if has_prefix $"WRONGTYPE " response then error response
      else if has_prefix $"NOAUTH " response then error response
      else match integer_reply response with
      | Some val => integer val
      | None =>
          if is_quoted response then bulk_string (unquote response)
          else if looks_like_array response
          then array (map (serialize_line rec) (getlines response))
          else if has_prefix $"subscribe " response || has_prefix $"unsubscribe " response ||
                  has_prefix $"message " response
          then concat (map serialize_push (getlines response))
          else bulk_string response
      end
  end.

Fixpoint serialize_fuel (fuel : nat) : bytes → bytes :=
  match fuel with
  | O => λ _, []
  | S f => serialize_body (serialize_fuel f)
  end.

Definition serialize_response (response : bytes) : bytes :=
  serialize_fuel (S (length response)) response.

(** A RESP array command as a client library sends it. *)
Definition encode_command (parts : list bytes) : bytes := array (map bulk_string parts).

(** ** Lemmas: searching *)

Lemma find_crlf_from_app a r i :
  Forall (λ c, c ≠ LF) a → find_crlf_from (a ++ CR :: LF :: r) i = Some (i + length a).
Proof.
  intros Ha. revert i. induction Ha as [|c a Hc Ha IH]; intros i.
  { simpl. f_equal. lia. }
  assert (∃ d t, a ++ CR :: LF :: r = d :: t ∧ d ≠ LF) as (d & t & E & Hd).
  { destruct a as [|d a]; [by exists CR, (LF :: r)|].
    apply Forall_cons in Ha as [? _]. by exists d, (a ++ CR :: LF :: r). }
  cbn [app find_crlf_from]. rewrite E. rewrite (proj2 (Ascii.eqb_neq d LF)) by done.
  rewrite andb_false_r, <- E, IH. f_equal. simpl. lia.
Qed.

Lemma find_crlf_from_some s i j :
  find_crlf_from s i = Some j → ∃ a r, s = a ++ CR :: LF :: r ∧ j = i + length a.
Proof.
  revert i. induction s as [|c s IH]; intros i; [done|].
  destruct s as [|d s]; [done|]. cbn [find_crlf_from].
  destruct (Ascii.eqb c CR && Ascii.eqb d LF) eqn:E.
  - intros [= <-]. apply andb_true_iff in E as [->%Ascii.eqb_eq ->%Ascii.eqb_eq].
    exists [], s. split; [done|]. simpl. lia.
  - intros Hj. destruct (IH _ Hj) as (a & r & -> & ->).
    exists (c :: a), r. split; [done|]. simpl. lia.
Qed.

(** A line terminator that was found stays the first one when more bytes
    arrive. *)
Lemma find_crlf_from_extend s x i j :
  find_crlf_from s i = Some j → find_crlf_from (s ++ x) i = Some j.
Proof.
  revert i. induction s as [|c s IH]; intros i; [done|].
  destruct s as [|d s]; [done|]. cbn [find_crlf_from app].
  destruct (_ && _); [done|]. apply IH.
Qed.

Lemma find_crlf_bound b p i : find_crlf b p = Some i → p ≤ i ∧ i + 2 ≤ length b.
Proof.
  intros (a & r & E & ->)%find_crlf_from_some.
  assert (length (drop p b) = length a + 2 + length r) as El
    by (rewrite E, length_app; simpl; lia).
  rewrite length_drop in El. lia.
Qed.

Lemma find_crlf_extend b x p i :
  find_crlf b p = Some i → find_crlf (b ++ x) p = Some i.
Proof.
  intros H. pose proof (find_crlf_bound _ _ _ H). unfold find_crlf in *.
  rewrite drop_app_le by lia. by apply find_crlf_from_extend.
Qed.

Lemma substr_extend b x p n : p + n ≤ length b → substr p n (b ++ x) = substr p n b.
Proof.
  intros. unfold substr. rewrite drop_app_le by lia.
  rewrite take_app_le; [done|]. rewrite length_drop. lia.
Qed.

(** ** Lemmas: what the array parser consumes *)

(** An element loop only moves forward and stays inside the buffer. *)
Lemma parse_elements_bound n b pos parts parts' pos' :
  pos ≤ length b → parse_elements n b pos parts = inl (parts', pos') →
  pos ≤ pos' ≤ length b ∧ length parts' = length parts + n.
Proof.
  revert pos parts. induction n as [|n IH]; intros pos parts Hpos; cbn [parse_elements].
  { intros [= <- <-]. lia. }
  destruct (b !! pos) as [c|]; [|done]. destruct (negb _); [done|].
  destruct (find_crlf b pos) as [crlf|] eqn:Ec; [|done].
  pose proof (find_crlf_bound _ _ _ Ec) as Hc.
  destruct (stoi _) as [len|]; [|done]. destruct (len <? 0)%Z eqn:El.
  - intros H. apply IH in H; [|lia]. rewrite length_app in H. simpl in H. lia.
  - cbv zeta. destruct (_ <? _ + _)%Z eqn:Eg; [done|]. destruct (negb _); [done|].
    intros H. apply IH in H; [|lia]. rewrite length_app in H. simpl in H. lia.
Qed.

(** More bytes never change an element loop that did not ask for them. *)
Lemma parse_elements_extend n b x pos parts :
  match parse_elements n b pos parts with
  | inl r => parse_elements n (b ++ x) pos parts = inl r
  | inr r => rp_need_more r = false → parse_elements n (b ++ x) pos parts = inr r
  end.
Proof.
  revert pos parts. induction n as [|n IH]; intros pos parts; [done|].
  cbn [parse_elements]. destruct (b !! pos) as [c|] eqn:Eb; [|done].
  rewrite (lookup_app_l_Some _ _ _ _ Eb). destruct (negb _); [done|].
  destruct (find_crlf b pos) as [crlf|] eqn:Ec; [|done].
  rewrite (find_crlf_extend _ _ _ _ Ec).
  pose proof (find_crlf_bound _ _ _ Ec) as [Hp Hc].
  assert (pos < crlf ∨ crlf = pos) as Hpc by lia.
  rewrite substr_extend by lia.
  destruct (stoi _) as [len|] eqn:Es; [|done].
  destruct (len <? 0)%Z eqn:El; [apply IH|]. cbv zeta.
  destruct (_ <? _ + _)%Z eqn:Eg; [done|].
  assert ((Z.of_nat (length (b ++ x)) <? Z.of_nat (crlf + 2) + len + 2)%Z = false) as ->
    by (rewrite length_app; lia).
  rewrite !lookup_app_l by lia. destruct (negb _); [done|].
  rewrite substr_extend by lia. apply IH.
Qed.

Lemma parse_resp_array_extend b x :
  rp_need_more (parse_resp_array b) = false → parse_resp_array (b ++ x) = parse_resp_array b.
Proof.
  unfold parse_resp_array. destruct (find_crlf b 0) as [crlf|] eqn:Ec; [|done].
  rewrite (find_crlf_extend _ _ _ _ Ec). pose proof (find_crlf_bound _ _ _ Ec).
  rewrite substr_extend by lia. destruct (stoi _) as [count|]; [|done].
  destruct (count <? 0)%Z; [done|]. destruct (count =? 0)%Z; [done|].
  pose proof (parse_elements_extend (Z.to_nat count) b x (crlf + 2) []) as He.
  destruct (parse_elements _ b _ _) as [[ps p]|r].
  - by rewrite He.
  - intros Hr. by rewrite (He Hr).
Qed.

(** Reading back one bulk string of a command. *)
Lemma substr_middle a b c p n :
  p = length a → n = length b → substr p n (a ++ b ++ c) = b.
Proof. intros -> ->. unfold substr. by rewrite drop_app_length, take_app_length. Qed.

Lemma cons_middle_app (c : ascii) (s : bytes) : c :: s = [c] ++ s.
Proof. done. Qed.

Lemma bulk_string_app p rest :
  bulk_string p ++ rest =
  "$"%char :: to_string (Z.of_nat (length p)) ++ CR :: LF :: p ++ CR :: LF :: rest.
Proof.
  unfold bulk_string. simpl. rewrite <- !app_assoc. simpl. by rewrite <- app_assoc.
Qed.

Lemma to_string_no_LF n : Forall (λ c, c ≠ LF) (to_string n).
Proof. eapply Forall_impl; [apply to_string_no_newline|by intros ? [_ ?]]. Qed.

Lemma parse_elements_bulk n pre p rest parts :
  (Z.of_nat (length p) ≤ INT_MAX)%Z →
  parse_elements (S n) (pre ++ bulk_string p ++ rest) (length pre) parts =
  parse_elements n (pre ++ bulk_string p ++ rest) (length (pre ++ bulk_string p)) (parts ++ [p]).
Proof.
  intros Hp. set (ls := to_string (Z.of_nat (length p))).
  set (buf := pre ++ bulk_string p ++ rest).
  assert (Hlen : length (bulk_string p) = length ls + length p + 5).
  { pose proof (f_equal length (bulk_string_app p [])) as E. fold ls in E.
    rewrite app_nil_r in E. rewrite E. simpl. rewrite !length_app. simpl.
    rewrite length_app. simpl. lia. }
  assert (Hbuf : buf = (pre ++ ["$"%char]) ++ ls ++ CR :: LF :: p ++ CR :: LF :: rest)
    by (unfold buf; rewrite bulk_string_app, <- app_assoc; done).
  assert (Hbuf2 : buf = (pre ++ "$"%char :: ls ++ [CR; LF]) ++ p ++ CR :: LF :: rest)
    by (rewrite Hbuf, <- !app_assoc; simpl; by rewrite <- app_assoc).
  assert (Ecrlf : find_crlf buf (length pre) = Some (length pre + 1 + length ls)).
  { unfold find_crlf, buf. rewrite drop_app_length, bulk_string_app.
    change ("$"%char :: ?a ++ ?b) with (("$"%char :: a) ++ b).
    rewrite find_crlf_from_app by (constructor; [done|apply to_string_no_LF]).
    simpl. f_equal. fold ls. lia. }
  assert (Hl : length buf = length pre + (length ls + length p + 5) + length rest)
    by (unfold buf; rewrite !length_app, Hlen; lia).
  assert (Hpre : length (pre ++ "$"%char :: ls ++ [CR; LF]) = length pre + 1 + length ls + 2)
    by (rewrite length_app; simpl; rewrite length_app; simpl; lia).
  cbn [parse_elements].
  assert (buf !! length pre = Some "$"%char) as ->
    by (unfold buf; rewrite bulk_string_app; by rewrite list_lookup_middle).
  rewrite Ecrlf. cbn [negb Ascii.eqb Bool.eqb].
  assert (substr (length pre + 1) (length pre + 1 + length ls - length pre - 1) buf = ls) as ->.
  { rewrite Hbuf. apply substr_middle; [by rewrite length_app|lia]. }
  unfold ls at 1. rewrite stoi_to_string by (unfold INT_MIN in *; lia).
  rewrite (proj2 (Z.ltb_ge _ _)) by lia. cbv zeta. rewrite Nat2Z.id.
  rewrite (proj2 (Z.ltb_ge _ _)) by lia.
  assert (Hcr : buf !! (length pre + 1 + length ls + 2 + length p) = Some CR).
  { rewrite Hbuf2, app_assoc. apply list_lookup_middle. rewrite length_app. lia. }
  assert (Hlf : buf !! (length pre + 1 + length ls + 2 + length p + 1) = Some LF).
  { rewrite Hbuf2, !lookup_app_r by lia. rewrite Hpre.
    by replace (_ - _ - _) with 1 by lia. }
  rewrite (bool_decide_eq_true_2 _ Hcr), (bool_decide_eq_true_2 _ Hlf). cbn [andb negb].
  assert (substr (length pre + 1 + length ls + 2) (length p) buf = p) as ->.
  { rewrite Hbuf2. apply substr_middle; lia. }
  f_equal. rewrite length_app, Hlen. lia.
Qed.

Lemma parse_elements_bulks ps pre rest parts :
  Forall (λ p, (Z.of_nat (length p) ≤ INT_MAX)%Z) ps →
  parse_elements (length ps) (pre ++ concat (map bulk_string ps) ++ rest) (length pre) parts =
  inl (parts ++ ps, length (pre ++ concat (map bulk_string ps))).
Proof.
  intros Hps. revert pre parts. induction Hps as [|p ps Hp _ IH]; intros pre parts.
  - cbn. by rewrite !app_nil_r.
  - cbn [length map concat]. rewrite <- (app_assoc (bulk_string p)).
    rewrite parse_elements_bulk by done. rewrite (app_assoc pre), IH.
    f_equal. by rewrite <- !app_assoc.
Qed.

Lemma parse_resp_array_encode n ts rest :
  (Z.of_nat (length (n :: ts)) ≤ INT_MAX)%Z →
  Forall (λ p, (Z.of_nat (length p) ≤ INT_MAX)%Z) (n :: ts) →
  parse_resp_array (encode_command (n :: ts) ++ rest) =
  resp_ok (mkCommand (to_upper n) ts) (length (encode_command (n :: ts))).
Proof.
  intros Hc Hps. unfold encode_command, array. rewrite length_map.
  set (cs := to_string (Z.of_nat (length (n :: ts)))). unfold parse_resp_array.
  set (hd := "*"%char :: cs ++ CRLF).
  set (body := concat (map bulk_string (n :: ts))).
  assert (E : ($"*" ++ cs ++ CRLF ++ body) ++ rest = hd ++ body ++ rest).
  { unfold hd. rewrite <- app_comm_cons, <- !app_assoc. done. }
  rewrite E. assert (Ecrlf : find_crlf (hd ++ body ++ rest) 0 = Some (1 + length cs)).
  { unfold find_crlf, hd. rewrite drop_0.
    replace (("*"%char :: cs ++ CRLF) ++ body ++ rest) with (("*"%char :: cs) ++ CR :: LF :: body ++ rest)
      by (rewrite <- !app_comm_cons, <- !app_assoc; done).
    by rewrite find_crlf_from_app by (constructor; [done|apply to_string_no_LF]). }
  rewrite Ecrlf.
  assert (substr 1 (1 + length cs - 1) (hd ++ body ++ rest) = cs) as ->.
  { unfold hd. rewrite (cons_middle_app "*"%char), <- !app_assoc.
    apply substr_middle; [done|lia]. }
  unfold cs at 1. rewrite stoi_to_string by (unfold INT_MIN in *; simpl in *; lia).
  rewrite (proj2 (Z.ltb_ge _ _)), (proj2 (Z.eqb_neq _ _)) by (simpl; lia). rewrite Nat2Z.id.
  replace (1 + length cs + 2) with (length hd) by (unfold hd, CRLF; simpl; rewrite length_app; simpl; lia).
  unfold body. rewrite parse_elements_bulks by done. cbn [app head tail default].
  f_equal. unfold hd. rewrite <- app_comm_cons, <- !app_assoc. done.
Qed.
