(* ===== verification/RespFacts.v ===== *)
(** * Correctness of the RESP parser and serializer

    Facts about [Resp.v]: what a parse consumes, that parses are stable when
    more bytes arrive, the command round trips (array and inline form), and
    what [serialize_response] makes of every shape of handler reply. *)

From S2P Require Import Prelude CppString Parser Resp.

(** The list reply of KEYS and LRANGE: the lines ["i) <quote>v<quote>"]. *)
Definition list_line (i : nat) (v : bytes) : bytes :=
  to_string (Z.of_nat i) ++ $") " ++ DQUOTE :: v ++ [DQUOTE].

Fixpoint join_lines (ls : list bytes) : bytes :=
  match ls with
  | [] => []
  | [l] => l
  | l :: ls' => l ++ LF :: join_lines ls'
  end.

(** A reply is well formed when exactly one of the three flags is set. *)
Definition one_flag (r : RespParseResult) : Prop :=
  match rp_ok r, rp_need_more r, rp_protocol_error r with
  | true, false, false | false, true, false | false, false, true => True
  | _, _, _ => False
  end.

(** ** The three outcomes and the bytes consumed *)

Lemma parse_elements_inr n b pos parts r :
  parse_elements n b pos parts = inr r → r = resp_need_more 0 ∨ r = resp_protocol_error 0.
Proof.
  revert pos parts. induction n as [|n IH]; intros pos parts; [done|]. cbn [parse_elements].
  repeat (case_match; try (intros [= <-]; by auto)); eauto.
Qed.

Lemma parse_resp_array_cases b :
  parse_resp_array b = resp_need_more 0 ∨ parse_resp_array b = resp_protocol_error 0 ∨
  ∃ cmd n, parse_resp_array b = resp_ok cmd n ∧ 2 ≤ n ≤ length b.
Proof.
  unfold parse_resp_array. destruct (find_crlf b 0) as [crlf|] eqn:Ec; [|by auto].
  apply find_crlf_bound in Ec. destruct (stoi _) as [count|]; [|by auto].
  destruct (count <? 0)%Z; [by auto|]. destruct (count =? 0)%Z; [by auto|].
  destruct (parse_elements _ _ _ _) as [[ps p]|r] eqn:Ee.
  - apply parse_elements_bound in Ee; [|lia]. do 2 right. do 2 eexists. split; [done|]. lia.
  - apply parse_elements_inr in Ee as [->| ->]; auto.
Qed.

Lemma find_char_bound c b i : find_char c b = Some i → i < length b.
Proof.
  intros (a & d & r & -> & -> & _)%find_idx_some. rewrite length_app. simpl. lia.
Qed.

Lemma parse_inline_cases b :
  parse_inline b = resp_need_more 0 ∨ parse_inline b = resp_protocol_error 0 ∨
  ∃ n, 0 < n ≤ length b ∧
    (parse_inline b = resp_need_more n ∨ parse_inline b = resp_protocol_error n ∨
     ∃ cmd, parse_inline b = resp_ok cmd n).
Proof.
  unfold parse_inline.
  set (eol := match find_crlf b 0 with Some crlf => _ | None => _ end).
  assert (Hb : ∀ e n, eol = Some (e, n) → 0 < n ≤ length b).
  { intros e n. unfold eol. destruct (find_crlf b 0) as [crlf|] eqn:Ec.
    - intros [= <- <-]. apply find_crlf_bound in Ec. lia.
    - destruct (find_char LF b) as [nl|] eqn:En; [|done].
      intros [= <- <-]. apply find_char_bound in En. lia. }
  destruct eol as [[e n]|]; cbn zeta; [|case_match; by auto].
  do 2 right. exists n. split; [by eapply Hb|].
  destruct (find_first_not_of _ _); [|by auto]. destruct (pr_ok _); eauto.
Qed.

(** A parse asks to consume no more than the buffer holds; a complete command
    consumes at least one byte; and exactly one outcome is signalled. *)
Lemma parse_command_cases b :
  one_flag (parse_command b) ∧ rp_bytes_consumed (parse_command b) ≤ length b ∧
  (rp_ok (parse_command b) = true → 0 < rp_bytes_consumed (parse_command b)).
Proof.
  unfold one_flag. destruct b as [|c b']; [done|].
  set (b := c :: b').
  change (parse_command b) with (if Ascii.eqb c "*" then parse_resp_array b else parse_inline b).
  destruct (Ascii.eqb c "*").
  - destruct (parse_resp_array_cases b) as [-> |[-> |(cmd & n & -> & ?)]]; 
      (split; [done|]; split; cbn [rp_ok rp_bytes_consumed resp_ok resp_need_more resp_protocol_error]; [lia|done || lia]).
  - destruct (parse_inline_cases b) as [-> |[-> |(n & ? & [-> |[-> |(cmd & ->)]])]]; 
      (split; [done|]; split; cbn [rp_ok rp_bytes_consumed resp_ok resp_need_more resp_protocol_error]; [lia|done || lia]).
Qed.

(** ** Inline commands *)

Lemma quote_no_LF t : Forall (λ c, c ≠ LF) (quote t).
Proof.
  unfold quote. constructor; [done|]. apply Forall_app. split; [|by repeat constructor].
  induction t as [|c t IH]; [constructor|].
  change (quote_body (c :: t)) with (quote_char c ++ quote_body t).
  apply Forall_app. split; [|done]. unfold quote_char.
  repeat (case_bytes; [by repeat constructor|]). by repeat constructor.
Qed.

Lemma inline_line_no_LF n ts : Forall (λ c, c ≠ LF) (inline_line n ts).
Proof.
  unfold inline_line. apply Forall_app. split; [apply quote_no_LF|].
  induction ts as [|t ts IH]; [constructor|].
  change (quote_args (t :: ts)) with (" "%char :: quote t ++ quote_args ts).
  constructor; [done|]. apply Forall_app. split; [apply quote_no_LF|done].
Qed.

Lemma find_first_not_of_head cs c s :
  char_in c cs = false → find_first_not_of cs (c :: s) = Some 0.
Proof. intros H. unfold find_first_not_of. simpl. by rewrite H. Qed.

(** A line that ends with CRLF and has no earlier LF is parsed up to the CRLF
    whatever follows it. *)
Lemma parse_inline_crlf line rest :
  Forall (λ c, c ≠ LF) line →
  parse_inline (line ++ CRLF ++ rest) =
  match find_first_not_of [" "%char; TAB; CR] line with
  | None => resp_need_more (length line + 2)
  | Some start =>
      if pr_ok (parse (drop start line))
      then resp_ok (pr_command (parse (drop start line))) (length line + 2)
      else resp_protocol_error (length line + 2)
  end.
Proof.
  intros Hl. unfold parse_inline, find_crlf. rewrite drop_0. cbn [CRLF app].
  rewrite find_crlf_from_app by done. cbn [Nat.add].
  unfold substr. rewrite drop_0, take_app_length. done.
Qed.

Lemma parse_inline_encode n ts rest :
  parse_inline (inline_line n ts ++ CRLF ++ rest) =
  resp_ok (mkCommand (to_upper n) ts) (length (inline_line n ts) + 2).
Proof.
  rewrite parse_inline_crlf by apply inline_line_no_LF.
  assert (find_first_not_of [" "%char; TAB; CR] (inline_line n ts) = Some 0) as ->
    by (by apply find_first_not_of_head).
  rewrite drop_0. unfold parse. by rewrite tokenize_inline_line.
Qed.

(** Words that need no quoting. *)
Lemma find_crlf_from_none s i : Forall (λ c, c ≠ CR) s → find_crlf_from s i = None.
Proof.
  intros Hs. revert i. induction Hs as [|c s Hc _ IH]; intros i; [done|].
  destruct s as [|d s]; [done|]. cbn [find_crlf_from].
  rewrite (proj2 (Ascii.eqb_neq c CR)) by done. apply IH.
Qed.

Lemma find_crlf_from_app_CR a r i :
  Forall (λ c, c ≠ CR) a → find_crlf_from (a ++ CR :: LF :: r) i = Some (i + length a).
Proof.
  intros Ha. revert i. induction Ha as [|c a Hc _ IH]; intros i; [simpl; f_equal; lia|].
  assert (∃ d t, a ++ CR :: LF :: r = d :: t) as (d & t & E) by (destruct a; by do 2 eexists).
  cbn [app find_crlf_from]. rewrite E, (proj2 (Ascii.eqb_neq c CR)) by done.
  cbn [andb]. rewrite <- E, IH. f_equal. simpl. lia.
Qed.

Lemma plain_word_chars w :
  plain_word w →
  Forall (λ c, c ≠ CR) w ∧ Forall (λ c, Ascii.eqb LF c = false) w ∧
  ∀ s, find_first_not_of [" "%char; TAB; CR] (w ++ s) = Some 0.
Proof.
  intros [Hw Hne]. repeat split.
  - eapply Forall_impl; [done|]. by intros c Hc ->.
  - eapply Forall_impl; [done|]. intros c Hc. apply Ascii.eqb_neq. by intros <-.
  - intros s. destruct w as [|c w]; [done|]. apply Forall_cons in Hw as [Hc _].
    apply find_first_not_of_head. unfold char_in. cbn [existsb].
    by repeat (case_bytes; [by subst|]).
Qed.

Lemma parse_command_plain w s :
  plain_word w → head w ≠ Some "*"%char → parse_command (w ++ s) = parse_inline (w ++ s).
Proof.
  intros [_ Hw] Hh. destruct w as [|c w]; [done|]. cbn [app parse_command].
  rewrite (proj2 (Ascii.eqb_neq c "*")); [done|]. by intros ->.
Qed.

(** ** The serializer: fuel *)

Lemma getlines_length s l : l ∈ getlines s → length l ≤ length s.
Proof.
  revert l. induction s as [|c s IH]; intros l; simpl; [by intros ?%elem_of_nil|].
  case_bytes.
  - intros [->|Hl]%elem_of_cons; simpl; [lia|]. apply IH in Hl. lia.
  - destruct (getlines s) as [|l' ls].
    + intros ->%list_elem_of_singleton. simpl. lia.
    + intros [->|Hl]%elem_of_cons; simpl.
      * pose proof (IH l' ltac:(by left)). lia.
      * pose proof (IH l ltac:(by right)). lia.
Qed.

Lemma find_str_from_bound t s i j :
  find_str_from t s i = Some j → i ≤ j ∧ j - i + length t ≤ length s.
Proof.
  revert i. induction s as [|c s IH]; intros i; cbn [find_str_from]; case_bytes.
  - intros [= <-]. apply (f_equal length) in E. rewrite length_take in E. lia.
  - done.
  - intros [= <-]. apply (f_equal length) in E. rewrite length_take in E. lia.
  - intros Hj. apply IH in Hj. simpl. lia.
Qed.

(** The body only calls itself on shorter strings. *)
Lemma serialize_body_ext rec1 rec2 r :
  (∀ s, length s < length r → rec1 s = rec2 s) → serialize_body rec1 r = serialize_body rec2 r.
Proof.
  intros Hrec. unfold serialize_body. destruct r as [|c r']; [done|]. set (r := c :: r') in *.
  repeat (match goal with |- context [if ?b then _ else _] => destruct b end; [done|]).
  destruct (integer_reply r); [done|].
  destruct (looks_like_array r); [|done].
  f_equal. apply map_ext_Forall, Forall_forall. intros l Hl.
  unfold serialize_line. destruct (find_str _ l) as [p|] eqn:Ep; [|done]. cbn zeta.
  destruct (is_quoted _); [done|]. apply Hrec.
  apply getlines_length in Hl.
  apply find_str_from_bound in Ep. simpl in Ep. rewrite length_drop. lia.
Qed.

Lemma serialize_fuel_enough f g r :
  length r < f → length r < g → serialize_fuel f r = serialize_fuel g r.
Proof.
  revert g r. induction f as [|f IH]; intros [|g] r Hf Hg; [lia..|].
  cbn [serialize_fuel]. apply serialize_body_ext. intros s Hs. apply IH; lia.
Qed.

(** The equation of the source's recursive function. *)
Lemma serialize_unfold r : serialize_response r = serialize_body serialize_response r.
Proof.
  unfold serialize_response at 1. cbn [serialize_fuel]. apply serialize_body_ext.
  intros s Hs. apply serialize_fuel_enough; lia.
Qed.

(** ** The serializer: one lemma per shape of reply *)

Lemma has_prefix_app p s : has_prefix p (p ++ s) = true.
Proof. unfold has_prefix, substr. rewrite drop_0, take_app_length. apply bytes_eqb_refl. Qed.

Lemma has_prefix_head c d p s : c ≠ d → has_prefix (d :: p) (c :: s) = false.
Proof. intros H. apply bytes_eqb_neq. unfold substr. simpl. congruence. Qed.

Lemma bytes_eqb_head c d p s : c ≠ d → bytes_eqb (c :: s) (d :: p) = false.
Proof. intros H. apply bytes_eqb_neq. congruence. Qed.

(** Skips the tests of [serialize_body] that the first character decides. *)
Ltac skip_by_head :=
  cbn [lit String.list_ascii_of_string];
  rewrite ?(bytes_eqb_head _ _ _ _ ltac:(done)), ?(has_prefix_head _ _ _ _ ltac:(done)).

Lemma unquote_quoted v : unquote (DQUOTE :: v ++ [DQUOTE]) = v.
Proof.
  unfold unquote, substr. cbn [drop length]. rewrite length_app. cbn [length].
  replace (S (length v + 1) - 2) with (length v) by lia. apply take_app_length.
Qed.

Lemma is_quoted_quoted v : is_quoted (DQUOTE :: v ++ [DQUOTE]) = true.
Proof.
  unfold is_quoted, front, back. cbn [length]. rewrite length_app. simpl length.
  rewrite (proj2 (Nat.leb_le _ _)) by lia.
  rewrite !bool_decide_eq_true_2; [done| |done].
  rewrite app_comm_cons. apply last_snoc.
Qed.

Lemma is_quoted_shape s : is_quoted s = true → ∃ v, s = DQUOTE :: v ++ [DQUOTE].
Proof.
  unfold is_quoted, front, back. rewrite !andb_true_iff, !bool_decide_eq_true. intros [[Hl Hf] Hb].
  destruct s as [|c s]; [done|]. destruct s as [|d s _] using rev_ind; [done|].
  rewrite app_comm_cons, last_snoc in Hb. exists s. by simplify_eq/=.
Qed.

Lemma serialize_quoted v : serialize_response (DQUOTE :: v ++ [DQUOTE]) = bulk_string v.
Proof.
  rewrite serialize_unfold. unfold serialize_body. skip_by_head. cbn [orb].
  unfold integer_reply. skip_by_head. rewrite andb_false_r.
  by rewrite is_quoted_quoted, unquote_quoted.
Qed.

Lemma serialize_integer n :
  (INT64_MIN ≤ n ≤ INT64_MAX)%Z → serialize_response ($"(integer) " ++ to_string n) = integer n.
Proof.
  intros Hn. rewrite serialize_unfold. unfold serialize_body.
  set (r := $"(integer) " ++ to_string n).
  assert (Er : ∃ t, r = "("%char :: "i"%char :: t) by (by eexists). destruct Er as [t Er].
  assert (integer_reply r = Some n) as Hi.
  { unfold integer_reply, r. rewrite has_prefix_app.
    assert ((10 <? length ($"(integer) " ++ to_string n)) = true) as ->.
    { apply Nat.ltb_lt. rewrite length_app. pose proof (to_string_nonempty n).
      destruct (to_string n); [done|]. simpl. lia. }
    cbn [andb]. change 10 with (length $"(integer) "). rewrite drop_app_length.
    by apply stoll_to_string. }
  rewrite Hi, Er. skip_by_head. cbn [orb].
  by rewrite !(proj2 (bytes_eqb_neq _ _)) by done.
Qed.

Lemma serialize_error s : serialize_response ($"ERR" ++ s) = error ($"ERR" ++ s).
Proof.
  rewrite serialize_unfold. unfold serialize_body.
  pose proof (has_prefix_app $"ERR" s) as Hp. cbn [lit String.list_ascii_of_string app] in *.
  rewrite Hp, orb_true_r. by skip_by_head.
Qed.

(** *** Array replies *)

Lemma getlines_line l : Forall (λ c, c ≠ LF) l → l ≠ [] → getlines l = [l].
Proof.
  induction 1 as [|c l Hc Hl IH]; [done|]. intros _. cbn [getlines].
  rewrite (proj2 (Ascii.eqb_neq c LF)) by done.
  destruct l as [|d l]; [done|]. by rewrite IH.
Qed.

Lemma getlines_cons l s : Forall (λ c, c ≠ LF) l → getlines (l ++ LF :: s) = l :: getlines s.
Proof.
  induction 1 as [|c l Hc _ IH]; cbn [app getlines]; [done|].
  rewrite (proj2 (Ascii.eqb_neq c LF)) by done. by rewrite IH.
Qed.

Lemma getlines_join ls :
  Forall (λ l, Forall (λ c, c ≠ LF) l ∧ l ≠ []) ls → getlines (join_lines ls) = ls.
Proof.
  induction 1 as [|l ls [Hl Hn] Hls IH]; [done|].
  destruct ls as [|l' ls]; [by apply getlines_line|].
  change (join_lines (l :: l' :: ls)) with (l ++ LF :: join_lines (l' :: ls)).
  by rewrite getlines_cons, IH.
Qed.

Lemma find_str_from_digits a r i :
  Forall (λ c, c ≠ ")"%char) a → find_str_from $") " (a ++ $") " ++ r) i = Some (i + length a).
Proof.
  intros Ha. revert i. induction Ha as [|c a Hc _ IH]; intros i.
  - cbn. f_equal. lia.
  - cbn [app find_str_from]. case_bytes; [simpl in E; congruence|].
    rewrite IH. f_equal. simpl. lia.
Qed.

Lemma to_string_no_paren n : (0 ≤ n)%Z → Forall (λ c, c ≠ ")"%char) (to_string n).
Proof.
  intros Hn. unfold to_string. rewrite (proj2 (Z.ltb_ge _ _)) by done.
  eapply Forall_impl; [by apply digits_isdigit|]. by intros c Hc ->.
Qed.

(** A numbered line with any content. *)
Lemma serialize_line_numbered rec i content :
  serialize_line rec (to_string (Z.of_nat i) ++ $") " ++ content) =
  if is_quoted content then bulk_string (unquote content) else rec content.
Proof.
  unfold serialize_line, find_str.
  rewrite find_str_from_digits by (apply to_string_no_paren; lia). cbn [Nat.add].
  rewrite (app_assoc (to_string _)), drop_app_length' by (by rewrite length_app). done.
Qed.

Lemma serialize_line_list rec i v : serialize_line rec (list_line i v) = bulk_string v.
Proof.
  unfold list_line. rewrite serialize_line_numbered.
  by rewrite is_quoted_quoted, unquote_quoted.
Qed.

Lemma list_line_no_LF i v :
  Forall (λ c, c ≠ LF) v → Forall (λ c, c ≠ LF) (list_line i v) ∧ list_line i v ≠ [].
Proof.
  intros Hv. unfold list_line. split.
  - apply Forall_app. split; [apply to_string_no_LF|].
    apply Forall_app. split; [by repeat constructor|].
    constructor; [done|]. apply Forall_app. split; [done|by repeat constructor].
  - pose proof (to_string_nonempty (Z.of_nat i)). by destruct (to_string (Z.of_nat i)).
Qed.

(** Any reply whose first line is ["1) ..."] is an array reply. *)
Lemma serialize_array_reply t c :
  serialize_response ($"1) " ++ c :: t) =
  array (map (serialize_line serialize_response) (getlines ($"1) " ++ c :: t))).
Proof.
  rewrite serialize_unfold. unfold serialize_body.
  set (g := getlines _). cbn [app lit String.list_ascii_of_string]. skip_by_head.
  unfold integer_reply. skip_by_head. rewrite andb_false_r. cbn [orb].
  assert (is_quoted ("1"%char :: ")"%char :: " "%char :: c :: t) = false) as ->; [|done].
  unfold is_quoted, front. cbn [head]. rewrite (bool_decide_eq_false_2 (Some _ = _)) by done.
  by rewrite andb_false_r.
Qed.

#[export] Hint Rewrite serialize_quoted is_quoted_quoted unquote_quoted : redis_rw.

(** ** Claims *)

(** C8: every command sent as a RESP array is read back exactly: the parser
    returns the upper-cased name and the arguments byte for byte (CR, LF, NUL
    and quotes included), consumes exactly the command's bytes, and is not
    influenced by the bytes that follow. *)
Theorem resp_array_roundtrip n ts rest :
  (Z.of_nat (length (n :: ts)) ≤ INT_MAX)%Z →
  Forall (λ p, (Z.of_nat (length p) ≤ INT_MAX)%Z) (n :: ts) →
  parse_command (encode_command (n :: ts) ++ rest) =
  resp_ok (mkCommand (to_upper n) ts) (length (encode_command (n :: ts))).
Proof. intros Hc Hps. by rewrite <- (parse_resp_array_encode n ts rest). Qed.

Lemma resp_array_roundtrip_witness :
  parse_command (encode_command [$"set"; $"k"; [CR; LF; DQUOTE]] ++ $"*1") =
  resp_ok (mkCommand $"SET" [$"k"; [CR; LF; DQUOTE]])
    (length (encode_command [$"set"; $"k"; [CR; LF; DQUOTE]])).
Proof.
  apply (resp_array_roundtrip $"set" [$"k"; [CR; LF; DQUOTE]] $"*1");
    [|repeat apply Forall_cons_2; try apply Forall_nil_2]; vm_compute; discriminate.
Defined.

(** C34: a command whose name and arguments are double-quoted with the
    documented escapes is read back exactly from the inline form, for
    arbitrary bytes, up to its CRLF and whatever follows. *)
Theorem resp_inline_roundtrip n ts rest :
  parse_command (inline_line n ts ++ CRLF ++ rest) =
  resp_ok (mkCommand (to_upper n) ts) (length (inline_line n ts) + 2).
Proof. by rewrite <- (parse_inline_encode n ts rest). Qed.

(** Every parse signals exactly one of ok, need_more and protocol_error,
    never claims to consume bytes beyond the buffer, and consumes at least one
    byte when a command was parsed (so the server's command loop advances). *)
Theorem parse_command_outcome b :
  one_flag (parse_command b) ∧ rp_bytes_consumed (parse_command b) ≤ length b ∧
  (rp_ok (parse_command b) = false ∨ 0 < rp_bytes_consumed (parse_command b)).
Proof.
  destruct (parse_command_cases b) as (H1 & H2 & H3). repeat split; [done..|].
  destruct (rp_ok (parse_command b)); [right; auto|by left].
Qed.

(** C35: once a RESP array is either complete or rejected, bytes that arrive
    later do not change the verdict; only need_more can be revised. *)
Theorem resp_array_stable b x :
  head b = Some "*"%char → rp_need_more (parse_command b) = false →
  parse_command (b ++ x) = parse_command b.
Proof.
  destruct b as [|c b]; [done|]. intros [= ->] H. cbn in H.
  by apply (parse_resp_array_extend ("*"%char :: b) x).
Qed.

Lemma resp_array_stable_witness :
  parse_command (encode_command [$"ping"] ++ $"junk") = parse_command (encode_command [$"ping"]).
Proof. by apply (resp_array_stable (encode_command [$"ping"]) $"junk"). Defined.

(** The inline parser looks for CRLF anywhere before it looks for a bare
    newline, so a line ended by LF alone is merged with the following line
    when that one ends with CRLF: the second command becomes an argument of
    the first. *)
Theorem inline_newline_merges_commands w1 w2 rest :
  plain_word w1 → plain_word w2 → head w1 ≠ Some "*"%char →
  parse_command (w1 ++ [LF]) = resp_ok (mkCommand (to_upper w1) []) (length w1 + 1) ∧
  parse_command (w1 ++ [LF] ++ w2 ++ CRLF ++ rest) =
    resp_ok (mkCommand (to_upper w1) [w2]) (length w1 + 1 + length w2 + 2).
Proof.
  intros H1 H2 Hh. destruct (plain_word_chars w1 H1) as (Hcr1 & Hlf1 & Hf1).
  destruct (plain_word_chars w2 H2) as (Hcr2 & _ & _).
  rewrite !parse_command_plain by done. unfold parse_inline, find_crlf. rewrite !drop_0. split.
  - rewrite find_crlf_from_none by (apply Forall_app; split; [done|by repeat constructor]).
    unfold find_char. rewrite find_idx_app by done. cbn [Nat.add].
    unfold substr. rewrite drop_0, take_app_length, <- (app_nil_r w1), Hf1, drop_0.
    unfold parse. rewrite tokenize_plain by done. cbn. by rewrite app_nil_r.
  - rewrite (app_assoc [LF]), (app_assoc w1). cbn [CRLF app].
    rewrite find_crlf_from_app_CR
      by (apply Forall_app; split; [done|by constructor]).
    cbn [Nat.add]. unfold substr. rewrite drop_0, take_app_length, Hf1, drop_0.
    unfold parse. rewrite tokenize_plain, tokenize_space by done.
    rewrite <- (app_nil_r w2), tokenize_plain, app_nil_r by done. cbn.
    f_equal. rewrite length_app. simpl. lia.
Qed.

Lemma inline_newline_merges_commands_witness :
  parse_command ($"PING" ++ [LF]) = resp_ok (mkCommand $"PING" []) 5 ∧
  parse_command ($"PING" ++ [LF] ++ $"DBSIZE" ++ CRLF ++ []) =
    resp_ok (mkCommand $"PING" [$"DBSIZE"]) 13.
Proof.
  apply (inline_newline_merges_commands $"PING" $"DBSIZE" []);
    [split; [repeat apply Forall_cons_2; try apply Forall_nil_2; reflexivity|split; discriminate]..|
     discriminate].
Defined.
