(* ===== verification/Frames.v ===== *)
(** * RESP2 values: the type of what the server sends

    A reply on the wire is a value of the RESP2 type [Frame]; [encode] is its
    wire form, byte by byte as the protocol has it (independently of the
    functions of resp.cpp, which are shown to produce it).
    [serialize_response] works on untyped texts; here it is shown that what it
    produces is always a sequence of well-formed values, and of how many, with the one exception
    of an error text that contains a line break. *)

From S2P Require Import Prelude CppString Parser Resp RespFacts.

(** ** Values *)

#[local] Unset Elimination Schemes.
Inductive Frame :=
  | FSimple (s : bytes)
  | FError (msg : bytes)
  | FInteger (n : Z)
  | FBulk (s : bytes)
  | FNull
  | FArray (l : list Frame).
#[local] Set Elimination Schemes.

(** Induction through the elements of arrays. *)
Section FrameInd.
Context (P : Frame → Prop).
Hypothesis (Hsimple : ∀ s, P (FSimple s)) (Herror : ∀ s, P (FError s)) (Hint : ∀ n, P (FInteger n))
  (Hbulk : ∀ s, P (FBulk s)) (Hnull : P FNull) (Harray : ∀ l, Forall P l → P (FArray l)).

Fixpoint Frame_nested_ind (f : Frame) : P f :=
  match f with
  | FSimple s => Hsimple s
  | FError s => Herror s
  | FInteger n => Hint n
  | FBulk s => Hbulk s
  | FNull => Hnull
  | FArray l =>
      Harray l ((fix go l : Forall P l :=
        match l with [] => Forall_nil_2 P | f :: l' => Forall_cons_2 P f l' (Frame_nested_ind f) (go l') end) l)
  end.
End FrameInd.

(** RESP2: a type byte, then a line; for strings and arrays the line has the
    length, and the contents follow. *)
Fixpoint encode (f : Frame) : bytes :=
  match f with
  | FSimple s => "+"%char :: s ++ [CR; LF]
  | FError msg => "-"%char :: msg ++ [CR; LF]
  | FInteger n => ":"%char :: to_string n ++ [CR; LF]
  | FBulk s => "$"%char :: to_string (Z.of_nat (length s)) ++ [CR; LF] ++ s ++ [CR; LF]
  | FNull => ["$"%char; "-"%char; "1"%char; CR; LF]
  | FArray l =>
      let elements := map encode l in
      "*"%char :: to_string (Z.of_nat (length elements)) ++ [CR; LF] ++ concat elements
  end.

(** The constructors of resp.cpp produce these bytes. *)
Lemma constructors_encode :
  (∀ s, simple_string s = encode (FSimple s)) ∧ (∀ s, error s = encode (FError s)) ∧
  (∀ n, integer n = encode (FInteger n)) ∧ (∀ s, bulk_string s = encode (FBulk s)) ∧
  null_bulk_string = encode FNull ∧ empty_array = encode (FArray []) ∧
  (∀ l, array (map encode l) = encode (FArray l)).
Proof. by split_and!. Qed.

(** The text contains no CRLF, so the line it is sent on ends where it does. *)
Definition no_crlf (s : bytes) : bool := match find_crlf s 0 with None => true | Some _ => false end.

(** Well-formed values. *)
Fixpoint frame_ok (f : Frame) : bool :=
  match f with
  | FSimple s | FError s => no_crlf s
  | FInteger n => ((INT64_MIN <=? n) && (n <=? INT64_MAX))%Z
  | FBulk _ | FNull => true
  | FArray l => forallb frame_ok l
  end.

(** The lengths and counts fit an [int], as the reader of the client has it. *)
Fixpoint frame_fits (f : Frame) : bool :=
  match f with
  | FBulk s => (Z.of_nat (length s) <=? INT_MAX)%Z
  | FArray l => (Z.of_nat (length l) <=? INT_MAX)%Z && forallb frame_fits l
  | _ => true
  end.

(** ** Reply texts *)

(** The tests by which [serialize_response] recognises errors and pub/sub
    replies. *)
Definition is_error (r : bytes) : bool :=
  has_prefix $"ERR" r || has_prefix $"WRONGTYPE " r || has_prefix $"NOAUTH " r.
Definition is_push (r : bytes) : bool :=
  has_prefix $"subscribe " r || has_prefix $"unsubscribe " r || has_prefix $"message " r.

(** The number of values a reply text is sent as: one, or one per line of a
    pub/sub reply. *)
Definition replies (r : bytes) : nat := if is_push r then length (getlines r) else 1.

(** An error text has no line break in it. *)
Definition sound_reply (r : bytes) : Prop := is_error r = true → no_crlf r = true.

(** ** Lemmas *)

Lemma no_crlf_line s i : Forall (λ c, c ≠ LF) s → find_crlf_from s i = None.
Proof.
  intros Hs. revert i. induction Hs as [|c s Hc Hs IH]; intros i; [done|]. destruct s as [|d s]; [done|].
  cbn [find_crlf_from]. apply Forall_cons in Hs as [Hd _].
  rewrite (proj2 (Ascii.eqb_neq d LF)), andb_false_r by done. apply IH.
Qed.

Lemma line_no_crlf s : Forall (λ c, c ≠ LF) s → no_crlf s = true.
Proof. intros Hs. unfold no_crlf, find_crlf. by rewrite drop_0, no_crlf_line. Qed.

Lemma getlines_no_LF s : Forall (Forall (λ c, c ≠ LF)) (getlines s).
Proof.
  induction s as [|c s IH]; [constructor|]. cbn [getlines]. destruct (Ascii.eqb_spec c LF) as [->|Hc].
  - by constructor.
  - destruct (getlines s) as [|l ls]; [by repeat constructor|].
    apply Forall_cons in IH as [Hl Hls]. constructor; [by constructor|done].
Qed.

Lemma Forall_drop_bytes (P : ascii → Prop) n s : Forall P s → Forall P (drop n s).
Proof. intros Hs. by apply Forall_drop. Qed.

Lemma replies_line r : Forall (λ c, c ≠ LF) r → replies r = 1.
Proof.
  intros Hr. unfold replies. destruct (is_push r) eqn:E; [|done].
  rewrite getlines_line; [done|done|]. by intros ->.
Qed.

Lemma stoll_range s n : stoll s = Some n → (INT64_MIN ≤ n ≤ INT64_MAX)%Z.
Proof. unfold stoll, in_range. destruct (strtol s); [|done]. case_match; [|done]. intros [= <-]. lia. Qed.

Lemma integer_ok s n : stoll s = Some n → frame_ok (FInteger n) = true.
Proof. intros Hn%stoll_range. simpl. lia. Qed.

(** One line of a pub/sub reply is one array of three. *)
Lemma serialize_push_frame l : ∃ f, serialize_push l = encode f ∧ frame_ok f = true.
Proof.
  unfold serialize_push. destruct (read_word l) as [type r1]. destruct (read_word r1) as [channel r2].
  set (third := ws_getline r2).
  assert (∃ f, (if bytes_eqb type ($"message") then bulk_string third
                else match stoll third with Some count => integer count | None => bulk_string third end) = encode f ∧
    frame_ok f = true) as (f & -> & Hf).
  { destruct (bytes_eqb type _); [by exists (FBulk third)|].
    destruct (stoll third) as [n|] eqn:E; [|by exists (FBulk third)].
    exists (FInteger n). split; [done|by eapply integer_ok]. }
  exists (FArray [FBulk type; FBulk channel; f]). split; [done|]. cbn [frame_ok forallb]. by rewrite Hf.
Qed.

(** One line of an array reply is one value, if its content is. *)
Lemma serialize_line_frame rec l :
  Forall (λ c, c ≠ LF) l →
  (∀ s, length s < length l → Forall (λ c, c ≠ LF) s → ∃ f, rec s = encode f ∧ frame_ok f = true) →
  ∃ f, serialize_line rec l = encode f ∧ frame_ok f = true.
Proof.
  intros Hl Hrec. unfold serialize_line. destruct (find_str ($") ") l) as [p|] eqn:E; [|by exists (FBulk l)].
  cbv zeta. destruct (is_quoted _); [by eexists (FBulk _)|]. apply Hrec; [|by apply Forall_drop].
  apply find_str_from_bound in E. simpl in E. rewrite length_drop. lia.
Qed.

Lemma map_frames {A} (g : A → bytes) (l : list A) :
  Forall (λ a, ∃ f, g a = encode f ∧ frame_ok f = true) l →
  ∃ fs, map g l = map encode fs ∧ forallb frame_ok fs = true ∧ length fs = length l.
Proof.
  induction 1 as [|a l (f & Ef & Hf) _ (fs & Efs & Hfs & Hlen)]; [by exists []|].
  exists (f :: fs). cbn [map forallb length]. by rewrite Ef, Efs, Hf, Hfs, Hlen.
Qed.

(** [serialize_body] of a text that is not a pub/sub reply is one value. *)
Lemma serialize_body_frame rec r :
  sound_reply r → is_push r = false →
  (∀ s, length s < length r → Forall (λ c, c ≠ LF) s → ∃ f, rec s = encode f ∧ frame_ok f = true) →
  ∃ f, serialize_body rec r = encode f ∧ frame_ok f = true.
Proof.
  intros Hs Hp Hrec. unfold serialize_body. destruct r as [|c r0]; [by exists FNull|]. set (r := c :: r0) in *.
  destruct (bytes_eqb r ($"OK")); [by exists (FSimple ($"OK"))|].
  destruct (bytes_eqb r ($"PONG")); [by exists (FSimple ($"PONG"))|].
  destruct (bytes_eqb r ($"QUEUED")); [by exists (FSimple ($"QUEUED"))|].
  destruct (bytes_eqb r ($"(nil)")); [by exists FNull|].
  destruct (bytes_eqb r ($"(empty list)")); [by exists (FArray [])|].
  unfold sound_reply, is_error in Hs.
  assert (has_prefix ($"ERR ") r = true → has_prefix ($"ERR") r = true) as He.
  { unfold has_prefix, substr. rewrite !drop_0, !bytes_eqb_eq. cbn [length lit String.list_ascii_of_string].
    intros Ht. apply (f_equal (take 3)) in Ht. by rewrite take_take in Ht. }
  destruct (has_prefix ($"ERR ") r || has_prefix ($"ERR") r) eqn:E1.
  { exists (FError r). split; [done|]. apply Hs. apply orb_true_iff in E1 as [E1|E1]; [by rewrite He|by rewrite E1]. }
  destruct (has_prefix ($"WRONGTYPE ") r); [exists (FError r); split; [done|apply Hs; by rewrite orb_true_r]|].
  destruct (has_prefix ($"NOAUTH ") r); [exists (FError r); split; [done|apply Hs; by rewrite !orb_true_r]|].
  destruct (integer_reply r) as [n|] eqn:Ei.
  { exists (FInteger n). split; [done|]. unfold integer_reply in Ei. case_match; [|done]. by eapply integer_ok. }
  destruct (is_quoted r); [by eexists (FBulk _)|]. destruct (looks_like_array r).
  - destruct (map_frames (serialize_line rec) (getlines r)) as (fs & -> & Hfs & _); [|by exists (FArray fs)].
    apply Forall_forall. intros l Hl. pose proof (getlines_no_LF r) as Hn. rewrite Forall_forall in Hn.
    apply serialize_line_frame; [by apply Hn|]. intros s Hlen Hls. apply Hrec; [|done].
    apply getlines_length in Hl. lia.
  - unfold is_push in Hp. rewrite Hp. by exists (FBulk r).
Qed.

Lemma serialize_body_push rec r :
  is_push r = true →
  ∃ fs, serialize_body rec r = concat (map encode fs) ∧ forallb frame_ok fs = true ∧ length fs = length (getlines r).
Proof.
  intros Hp. assert (serialize_body rec r = concat (map serialize_push (getlines r))) as ->.
  { unfold is_push, has_prefix, substr in Hp. rewrite !drop_0 in Hp.
    assert (∃ c t, r = c :: t ∧ (c = "s"%char ∨ c = "u"%char ∨ c = "m"%char)) as (c & t & -> & Hc).
    { destruct r as [|c t]; [done|]. exists c, t. split; [done|].
      rewrite !orb_true_iff, !bytes_eqb_eq in Hp. cbn in Hp. naive_solver. }
    unfold serialize_body. fold (substr 0 10 (c :: t)) in Hp.
    assert (has_prefix ($"subscribe ") (c :: t) || has_prefix ($"unsubscribe ") (c :: t) ||
      has_prefix ($"message ") (c :: t) = true) as Hp' by (unfold has_prefix, substr; by rewrite !drop_0).
    rewrite Hp'. unfold integer_reply, is_quoted, front, looks_like_array. cbn [head lit String.list_ascii_of_string].
    rewrite !(bytes_eqb_head c), !(has_prefix_head c) by (naive_solver congruence).
    rewrite !andb_false_r. cbn [orb]. rewrite (bool_decide_eq_false_2 (Some c = _)) by naive_solver congruence.
    rewrite andb_false_r. cbn [andb]. destruct t as [|d [|e t]]; [done..|].
    destruct Hc as [->|[->| ->]]; done. }
  destruct (map_frames serialize_push (getlines r)) as (fs & -> & Hfs & Hlen); [|by exists fs].
  apply Forall_forall. intros l _. apply serialize_push_frame.
Qed.

Lemma serialize_line_reply r :
  Forall (λ c, c ≠ LF) r → ∃ f, serialize_response r = encode f ∧ frame_ok f = true.
Proof.
  remember (length r) as n eqn:En. revert r En. induction n as [n IH] using lt_wf_ind. intros r -> Hr.
  rewrite serialize_unfold. destruct (is_push r) eqn:Ep.
  - destruct (serialize_body_push serialize_response r Ep) as (fs & -> & Hfs & Hlen).
    rewrite getlines_line in Hlen; [|done|by intros ->].
    destruct fs as [|f [|]]; [done| |done]. exists f. cbn in *. by rewrite app_nil_r, andb_true_r in *.
  - apply serialize_body_frame; [intros _; by apply line_no_crlf|done|]. intros s Hs. by apply (IH (length s)).
Qed.

Lemma serialize_single r :
  sound_reply r → is_push r = false → ∃ f, serialize_response r = encode f ∧ frame_ok f = true.
Proof.
  intros Hs Hp. rewrite serialize_unfold. apply serialize_body_frame; [done|done|].
  intros s _. apply serialize_line_reply.
Qed.

(** C15: everything the server sends is typed.  Whatever text a handler
    returns, [serialize_response] turns it into well-formed RESP2 values:
    one per line for a pub/sub reply and exactly one for every other text,
    at any nesting depth; the only texts excluded are error texts with a
    CRLF inside. *)
Theorem replies_are_frames r :
  sound_reply r →
  ∃ fs, serialize_response r = concat (map encode fs) ∧ forallb frame_ok fs = true ∧ length fs = replies r.
Proof.
  intros Hs. unfold replies. destruct (is_push r) eqn:Ep.
  - rewrite serialize_unfold. by apply serialize_body_push.
  - destruct (serialize_single r Hs Ep) as (f & -> & Hf). exists [f]. cbn. by rewrite app_nil_r, Hf.
Qed.

(** ** Instances *)

Lemma replies_are_frames_witness :
  ∃ fs, serialize_response ($"1) OK" ++ LF :: $"2) (integer) 7") = concat (map encode fs) ∧
    forallb frame_ok fs = true ∧ length fs = 1.
Proof. apply (replies_are_frames ($"1) OK" ++ LF :: $"2) (integer) 7")). by vm_compute. Defined.

(** The excluded case: an error text that quotes a command name with a CRLF
    in it is sent as it is, so the client receives a second reply of the
    sender's choice. *)
Theorem error_injects_reply :
  serialize_response ($"ERR unknown command 'X" ++ CRLF ++ $"+OK" ++ CRLF ++ $"'") =
  encode (FError ($"ERR unknown command 'X")) ++ encode (FSimple ($"OK")) ++ $"'" ++ CRLF.
Proof. by vm_compute. Qed.
