(* ===== verification/Database.v ===== *)
(** * The key-value store (database/database.cpp, database/database.h)

    [Database] holds the three maps of the class.  Every public member
    function takes the exclusive lock for its whole body (get_snapshot the
    shared one), so each is one atomic step: a computation over the database
    and the index of the next clock reading.  The clock is read exactly where
    the source calls [steady_clock::now()]; time points are nanoseconds.
    Loops over the hash tables follow the order parameter [iter].
    [expiry_cycle] is one round of the background thread's loop. *)

From S2P Require Import Prelude.

(** ** Data *)

Inductive KeyType := NONE | STRING | LIST.

Record Database := mkDb {
  store_ : gmap bytes bytes;
  list_store_ : gmap bytes (list bytes);
  expiry_ : gmap bytes Z;
}.

(** persistence.h: the copy of the three maps handed to the dump writer. *)
Record DatabaseSnapshot := mkSnapshot {
  store : gmap bytes bytes;
  list_store : gmap bytes (list bytes);
  expiry : gmap bytes Z;
}.

Definition DbM (A : Type) : Type := State (Database * nat) A.

Definition empty_db : Database := mkDb ∅ ∅ ∅.

(** Updates of single members. *)
Definition with_store (f : gmap bytes bytes → gmap bytes bytes) (d : Database) : Database :=
  mkDb (f (store_ d)) (list_store_ d) (expiry_ d).
Definition with_list_store (f : gmap bytes (list bytes) → gmap bytes (list bytes))
    (d : Database) : Database :=
  mkDb (store_ d) (f (list_store_ d)) (expiry_ d).
Definition with_expiry (f : gmap bytes Z → gmap bytes Z) (d : Database) : Database :=
  mkDb (store_ d) (list_store_ d) (f (expiry_ d)).

(** The current members, and an update of them. *)
Definition members : DbM Database := λ '(d, n), (d, (d, n)).
Definition update (f : Database → Database) : DbM unit := λ '(d, n), (tt, (f d, n)).

(** [m.count(key) > 0]. *)
Definition contains {A} (m : gmap bytes A) (key : bytes) : bool := bool_decide (is_Some (m !! key)).

Definition NS_PER_S : Z := 1000000000%Z.
Definition NS_PER_MS : Z := 1000000%Z.
Definition MAX_SAMPLE : nat := 20.

(** ** Helpers *)

Definition key_type_unlocked (key : bytes) (d : Database) : KeyType :=
  if contains (store_ d) key then STRING
  else if contains (list_store_ d) key then LIST
  else NONE.

Definition key_exists_unlocked (key : bytes) (d : Database) : bool :=
  contains (store_ d) key || contains (list_store_ d) key.

(** The pure effect of [remove_expired_unlocked]: erase from all three maps. *)
Definition erase_key (key : bytes) (d : Database) : Database :=
  mkDb (delete key (store_ d)) (delete key (list_store_ d)) (delete key (expiry_ d)).

Definition remove_expired_unlocked (key : bytes) : DbM unit := update (erase_key key).

Section Operations.
Context `{SteadyClock} `{HashOrder}.

Definition is_expired_unlocked (key : bytes) : DbM bool :=
  d ← members;
  match expiry_ d !! key with
  | None => mret false
  | Some deadline => t ← now; mret (deadline <=? t)%Z
  end.

(** The lazy-expiry prologue of the list push operations. *)
Definition expire_if_due (key : bytes) : DbM unit :=
  e ← is_expired_unlocked key;
  if e : bool then remove_expired_unlocked key else mret tt.

(** ** Core commands *)

Definition set (key value : bytes) : DbM unit :=
  update (with_list_store (delete key));;
  update (with_store (insert key value));;
  update (with_expiry (delete key)).

Definition get (key : bytes) : DbM (option bytes) :=
  e ← is_expired_unlocked key;
  if e : bool then remove_expired_unlocked key;; mret None
  else d ← members; mret (store_ d !! key).

(** One iteration of the loop of [del]. *)
Definition del_one (count : Z) (key : bytes) : DbM Z :=
  d ← members;
  let removed := contains (store_ d) key || contains (list_store_ d) key in
  update (with_store (delete key));;
  update (with_list_store (delete key));;
  if removed then update (with_expiry (delete key));; mret (count + 1)%Z
  else mret count.

Definition del (keys : list bytes) : DbM Z := foldM del_one 0%Z keys.

Definition exists_one (count : Z) (key : bytes) : DbM Z :=
  e ← is_expired_unlocked key;
  if e : bool then remove_expired_unlocked key;; mret count
  else d ← members; mret (if key_exists_unlocked key d then count + 1 else count)%Z.

Definition exists_ (keys : list bytes) : DbM Z := foldM exists_one 0%Z keys.

(** One iteration of the scans of [keys]: the accumulator is the result and
    the expired keys found so far. *)
Definition keys_scan (acc : list bytes * list bytes) (key : bytes) : DbM (list bytes * list bytes) :=
  e ← is_expired_unlocked key;
  mret (if e : bool then (fst acc, snd acc ++ [key]) else (fst acc ++ [key], snd acc)).

Definition remove_all (keys : list bytes) : DbM unit :=
  foldM (λ _ key, remove_expired_unlocked key) tt keys.

Definition keys : DbM (list bytes) :=
  d ← members;
  acc ← foldM keys_scan ([], []) ((iter (store_ d)).*1);
  acc ← foldM keys_scan acc ((iter (list_store_ d)).*1);
  remove_all (snd acc);;
  mret (fst acc).

Definition dbsize_scan (acc : Z * list bytes) (key : bytes) : DbM (Z * list bytes) :=
  e ← is_expired_unlocked key;
  mret (if e : bool then (fst acc, snd acc ++ [key]) else ((fst acc + 1)%Z, snd acc)).

Definition dbsize : DbM Z :=
  d ← members;
  acc ← foldM dbsize_scan (0%Z, []) ((iter (store_ d)).*1);
  acc ← foldM dbsize_scan acc ((iter (list_store_ d)).*1);
  remove_all (snd acc);;
  mret (fst acc).

Definition flushdb : DbM unit := update (λ _, empty_db).

(** ** List commands *)

(** [push] is the loop body: [push_front] or [push_back]. *)
Definition push_with (push : list bytes → bytes → list bytes)
    (key : bytes) (values : list bytes) : DbM Z :=
  expire_if_due key;;
  d ← members;
  if contains (store_ d) key then mret (-1)%Z
  else
    let l := foldl push (default [] (list_store_ d !! key)) values in
    update (with_list_store (insert key l));;
    mret (to_int32 (Z.of_nat (length l))).

Definition push_front (l : list bytes) (v : bytes) : list bytes := v :: l.
Definition push_back (l : list bytes) (v : bytes) : list bytes := l ++ [v].

Definition lpush (key : bytes) (values : list bytes) : DbM Z := push_with push_front key values.
Definition rpush (key : bytes) (values : list bytes) : DbM Z := push_with push_back key values.

(** [erase(it)] and [expiry_.erase(key)]. *)
Definition erase_list (key : bytes) : DbM unit :=
  update (with_list_store (delete key));; update (with_expiry (delete key)).

(** [split] takes the popped element and the remaining list. *)
Definition pop_with (split : list bytes → option (bytes * list bytes))
    (key : bytes) : DbM (option bytes) :=
  e ← is_expired_unlocked key;
  if e : bool then remove_expired_unlocked key;; mret None
  else
    d ← members;
    match list_store_ d !! key with
    | None => mret None
    | Some l =>
        match split l with
        | None => erase_list key;; mret None
        | Some (val, rest) =>
            update (with_list_store (insert key rest));;
            (match rest with [] => erase_list key | _ => mret tt end);;
            mret (Some val)
        end
    end.

Definition split_front (l : list bytes) : option (bytes * list bytes) :=
  match l with [] => None | v :: r => Some (v, r) end.
Definition split_back (l : list bytes) : option (bytes * list bytes) :=
  match last l with None => None | Some v => Some (v, take (length l - 1) l) end.

Definition lpop (key : bytes) : DbM (option bytes) := pop_with split_front key.
Definition rpop (key : bytes) : DbM (option bytes) := pop_with split_back key.

(** The index arithmetic of [lrange] on a list; all values are [int]. *)
Definition range_of (l : list bytes) (start stop : Z) : list bytes :=
  let len := to_int32 (Z.of_nat (length l)) in
  let start := if (start <? 0)%Z then (len + start)%Z else start in
  let stop := if (stop <? 0)%Z then (len + stop)%Z else stop in
  let start := if (start <? 0)%Z then 0%Z else start in
  let stop := if (len <=? stop)%Z then (len - 1)%Z else stop in
  if ((stop <? start) || (len <=? start))%Z then []
  else (λ i, default [] (l !! Z.to_nat i)) <$> seqZ start (stop - start + 1).

Definition lrange (key : bytes) (start stop : Z) : DbM (list bytes) :=
  e ← is_expired_unlocked key;
  if e : bool then remove_expired_unlocked key;; mret []
  else
    d ← members;
    match list_store_ d !! key with
    | None => mret []
    | Some l => mret (range_of l start stop)
    end.

Definition llen (key : bytes) : DbM Z :=
  e ← is_expired_unlocked key;
  if e : bool then remove_expired_unlocked key;; mret 0%Z
  else
    d ← members;
    if contains (store_ d) key then mret (-1)%Z
    else match list_store_ d !! key with
         | None => mret 0%Z
         | Some l => mret (to_int32 (Z.of_nat (length l)))
         end.

Definition index_of (l : list bytes) (index : Z) : option bytes :=
  let len := to_int32 (Z.of_nat (length l)) in
  let index := if (index <? 0)%Z then (len + index)%Z else index in
  if ((index <? 0) || (len <=? index))%Z then None else l !! Z.to_nat index.

Definition lindex (key : bytes) (index : Z) : DbM (option bytes) :=
  e ← is_expired_unlocked key;
  if e : bool then remove_expired_unlocked key;; mret None
  else
    d ← members;
    match list_store_ d !! key with
    | None => mret None
    | Some l => mret (index_of l index)
    end.

(** ** TTL commands *)

(** [steady_clock::now() + seconds(s)] and
    [duration_cast<seconds>(deadline - now).count()], in 64-bit arithmetic. *)
Definition deadline_after (t seconds : Z) : Z := to_int64 (t + to_int64 (seconds * NS_PER_S)).
Definition seconds_left (deadline t : Z) : Z := Z.quot (to_int64 (deadline - t)) NS_PER_S.

Definition expire (key : bytes) (seconds : Z) : DbM bool :=
  d ← members;
  if negb (key_exists_unlocked key d) then mret false
  else
    e ← is_expired_unlocked key;
    if e : bool then remove_expired_unlocked key;; mret false
    else
      t ← now;
      update (with_expiry (insert key (deadline_after t seconds)));;
      mret true.

Definition ttl (key : bytes) : DbM Z :=
  d ← members;
  if negb (key_exists_unlocked key d) then mret (-2)%Z
  else
    e ← is_expired_unlocked key;
    if e : bool then remove_expired_unlocked key;; mret (-2)%Z
    else
      match expiry_ d !! key with
      | None => mret (-1)%Z
      | Some deadline => t ← now; mret (to_int32 (seconds_left deadline t))
      end.

Definition persist (key : bytes) : DbM bool :=
  d ← members;
  if negb (key_exists_unlocked key d) then mret false
  else
    e ← is_expired_unlocked key;
    if e : bool then remove_expired_unlocked key;; mret false
    else
      d ← members;
      update (with_expiry (delete key));;
      mret (contains (expiry_ d) key).

(** ** Background expiry *)

(** The part of [expiry_loop]'s body that runs under the lock. *)
Definition expiry_cycle : DbM unit :=
  d ← members;
  if bool_decide (expiry_ d = ∅) then mret tt
  else
    t ← now;
    let sample := take MAX_SAMPLE (iter (expiry_ d)) in
    let to_delete := (filter (λ kd : bytes * Z, (snd kd ≤ t)%Z) sample).*1 in
    foldM (λ _ key, update (with_store (delete key));;
                    update (with_list_store (delete key));;
                    update (with_expiry (delete key))) tt to_delete.

(** ** Snapshots *)

Definition get_snapshot : DbM DatabaseSnapshot :=
  d ← members; mret (mkSnapshot (store_ d) (list_store_ d) (expiry_ d)).

Definition load_snapshot (s : DatabaseSnapshot) : DbM unit :=
  update (λ _, mkDb (store s) (list_store s) (expiry s)).

End Operations.

#[global] Arguments del_one : simpl never.
