(* ===== verification/DatabaseFacts.v ===== *)
(** * Invariant and behaviour of the store

    The run lemmas give each operation of [Database.v] as an equation on the
    database and the clock cursor; [wf] is the class invariant (a key lives
    in at most one map, only existing keys have a deadline, no list is
    empty) and [deadlines_ok] bounds the deadlines.  Every operation keeps
    both. *)

From S2P Require Import Prelude Database.

(** ** Definitions *)

(** The key's deadline has passed at time [t]. *)
Definition due (d : Database) (t : Z) (key : bytes) : bool :=
  match expiry_ d !! key with Some deadline => (deadline <=? t)%Z | None => false end.

(** The cursor after an expiry check of [key]: the clock is read only when
    the key has a deadline. *)
Definition tick (d : Database) (key : bytes) (n : nat) : nat :=
  match expiry_ d !! key with Some _ => S n | None => n end.

(** The database after a lazy expiry check at time [t]. *)
Definition purge (d : Database) (t : Z) (key : bytes) : Database :=
  if due d t key then erase_key key d else d.

(** The key is present in one of the maps, whether or not it is due. *)
Definition present (d : Database) (key : bytes) : Prop :=
  is_Some (store_ d !! key) ∨ is_Some (list_store_ d !! key).

(** The class invariant stated in database.h. *)
Record wf (d : Database) : Prop := {
  wf_one_map : ∀ k, store_ d !! k = None ∨ list_store_ d !! k = None;
  wf_expiry : ∀ k, is_Some (expiry_ d !! k) → present d k;
  wf_nonempty : ∀ k, list_store_ d !! k ≠ Some [];
}.

(** Deadlines are at most INT_MAX seconds ahead of the clock. *)
Definition deadlines_ok (d : Database) (t : Z) : Prop :=
  ∀ k deadline, expiry_ d !! k = Some deadline →
    (0 ≤ deadline ≤ t + INT_MAX * NS_PER_S)%Z.

(** The elements of [lrange] as a slice, for exact integers. *)
Definition slice (l : list bytes) (start stop : Z) : list bytes :=
  let len := Z.of_nat (length l) in
  let from := Z.max 0 (if (start <? 0)%Z then (len + start)%Z else start) in
  let upto := Z.min (len - 1) (if (stop <? 0)%Z then (len + stop)%Z else stop) in
  take (Z.to_nat (upto + 1 - from)) (drop (Z.to_nat from) l).

(** Runs the store's monad on a pair. *)
Ltac run_db :=
  unfold mret, mbind, state_ret, state_bind, members, update, now,
    remove_expired_unlocked, erase_list in *; cbn beta iota zeta delta [fst snd] in *.

(** ** Run lemmas *)

Section Runs.
Context `{SteadyClock} `{HashOrder}.
Implicit Types (d : Database) (n : nat) (key : bytes).

Lemma is_expired_run key d n :
  is_expired_unlocked key (d, n) = (due d (clock n) key, (d, tick d key n)).
Proof. unfold is_expired_unlocked, due, tick. run_db. by destruct (expiry_ d !! key). Qed.

(** The common prologue: check, purge and return early when due. *)
Lemma check_run {A} key (early : A) (k : DbM A) d n :
  (e ← is_expired_unlocked key;
   if e : bool then remove_expired_unlocked key;; mret early else k) (d, n) =
  if due d (clock n) key then (early, (erase_key key d, tick d key n)) else k (d, tick d key n).
Proof. run_db. rewrite is_expired_run. by destruct (due d (clock n) key). Qed.

Lemma expire_if_due_run key d n :
  expire_if_due key (d, n) = (tt, (purge d (clock n) key, tick d key n)).
Proof.
  unfold expire_if_due, purge. run_db. rewrite is_expired_run.
  by destruct (due d (clock n) key).
Qed.

Definition set_db (key value : bytes) (d : Database) : Database :=
  mkDb (<[key := value]> (store_ d)) (delete key (list_store_ d)) (delete key (expiry_ d)).

Lemma set_run key value d n : set key value (d, n) = (tt, (set_db key value d, n)).
Proof. done. Qed.

Lemma get_run key d n :
  get key (d, n) =
  (if due d (clock n) key then None else store_ d !! key,
   (purge d (clock n) key, tick d key n)).
Proof. unfold get. rewrite check_run. unfold purge. by destruct (due _ _ _). Qed.

Lemma exists_one_run count key d n :
  exists_one count key (d, n) =
  (if due d (clock n) key then count
   else if key_exists_unlocked key d then (count + 1)%Z else count,
   (purge d (clock n) key, tick d key n)).
Proof. unfold exists_one. rewrite check_run. unfold purge. by destruct (due _ _ _). Qed.

Lemma del_one_run count key d n :
  wf d →
  del_one count key (d, n) =
  ((if key_exists_unlocked key d then count + 1 else count)%Z, (erase_key key d, n)).
Proof.
  intros Hwf. unfold del_one, key_exists_unlocked. run_db.
  destruct (contains (store_ d) key || contains (list_store_ d) key) eqn:E; [done|].
  unfold erase_key. rewrite (delete_id (expiry_ d)); [done|].
  apply orb_false_iff in E as [E1%bool_decide_eq_false E2%bool_decide_eq_false].
  destruct (expiry_ d !! key) eqn:Ee; [|done].
  destruct (wf_expiry _ Hwf key) as [?|?]; [by rewrite Ee|done..].
Qed.

Definition push_db (key : bytes) (l : list bytes) (d : Database) : Database :=
  with_list_store (insert key l) d.

Lemma push_with_run push key values d n :
  push_with push key values (d, n) =
  (let p := purge d (clock n) key in
   if contains (store_ p) key then ((-1)%Z, (p, tick d key n))
   else let l := foldl push (default [] (list_store_ p !! key)) values in
        (to_int32 (Z.of_nat (length l)), (push_db key l p, tick d key n))).
Proof.
  unfold push_with, mbind, state_bind. rewrite expire_if_due_run. run_db.
  by destruct (contains _ _).
Qed.

Definition erase_list_db (key : bytes) (d : Database) : Database :=
  mkDb (store_ d) (delete key (list_store_ d)) (delete key (expiry_ d)).

(** What a pop leaves behind. *)
Definition popped_db (key : bytes) (rest : list bytes) (d : Database) : Database :=
  match rest with [] => erase_list_db key d | _ => push_db key rest d end.

Lemma pop_with_run split key d n :
  pop_with split key (d, n) =
  if due d (clock n) key then (None, (erase_key key d, tick d key n))
  else match list_store_ d !! key with
       | None => (None, (d, tick d key n))
       | Some l =>
           match split l with
           | None => (None, (erase_list_db key d, tick d key n))
           | Some (v, rest) => (Some v, (popped_db key rest d, tick d key n))
           end
       end.
Proof.
  unfold pop_with. rewrite check_run. destruct (due _ _ _); [done|]. run_db.
  destruct (list_store_ d !! key) as [l|]; [|done].
  destruct (split l) as [[v [|r rest]]|]; [|done..].
  unfold with_list_store, with_expiry, popped_db, erase_list_db. simpl.
  by rewrite delete_insert_eq.
Qed.

Lemma lrange_run key a b d n :
  lrange key a b (d, n) =
  (if due d (clock n) key then []
   else match list_store_ d !! key with None => [] | Some l => range_of l a b end,
   (purge d (clock n) key, tick d key n)).
Proof.
  unfold lrange. rewrite check_run. unfold purge. destruct (due _ _ _); [done|]. run_db.
  by destruct (list_store_ d !! key).
Qed.

Lemma llen_run key d n :
  llen key (d, n) =
  (if due d (clock n) key then 0%Z
   else if contains (store_ d) key then (-1)%Z
   else match list_store_ d !! key with
        | None => 0%Z | Some l => to_int32 (Z.of_nat (length l)) end,
   (purge d (clock n) key, tick d key n)).
Proof.
  unfold llen. rewrite check_run. unfold purge. destruct (due _ _ _); [done|]. run_db.
  destruct (contains _ _); [done|]. by destruct (list_store_ d !! key).
Qed.

Lemma lindex_run key i d n :
  lindex key i (d, n) =
  (if due d (clock n) key then None
   else match list_store_ d !! key with None => None | Some l => index_of l i end,
   (purge d (clock n) key, tick d key n)).
Proof.
  unfold lindex. rewrite check_run. unfold purge. destruct (due _ _ _); [done|]. run_db.
  by destruct (list_store_ d !! key).
Qed.

Lemma expire_run key s d n :
  expire key s (d, n) =
  if negb (key_exists_unlocked key d) then (false, (d, n))
  else if due d (clock n) key then (false, (erase_key key d, tick d key n))
  else let m := tick d key n in
       (true, (with_expiry (insert key (deadline_after (clock m) s)) d, S m)).
Proof.
  unfold expire, mbind, state_bind. cbn [members]. destruct (negb _); [done|].
  exact (check_run key false _ d n).
Qed.

Lemma ttl_run key d n :
  ttl key (d, n) =
  if negb (key_exists_unlocked key d) then ((-2)%Z, (d, n))
  else if due d (clock n) key then ((-2)%Z, (erase_key key d, tick d key n))
  else match expiry_ d !! key with
       | None => ((-1)%Z, (d, n))
       | Some deadline => (to_int32 (seconds_left deadline (clock (S n))), (d, S (S n)))
       end.
Proof.
  unfold ttl, mbind, state_bind. cbn [members]. destruct (negb _); [done|].
  etrans; [exact (check_run key (-2)%Z _ d n)|]. destruct (due _ _ _); [done|].
  unfold tick. by destruct (expiry_ d !! key).
Qed.

Lemma persist_run key d n :
  persist key (d, n) =
  if negb (key_exists_unlocked key d) then (false, (d, n))
  else if due d (clock n) key then (false, (erase_key key d, tick d key n))
  else (contains (expiry_ d) key, (with_expiry (delete key) d, tick d key n)).
Proof.
  unfold persist, mbind, state_bind. cbn [members]. destruct (negb _); [done|].
  exact (check_run key false _ d n).
Qed.

End Runs.

(** ** Erasing several keys *)

Definition erase_keys (ks : list bytes) (d : Database) : Database :=
  foldl (λ d k, erase_key k d) d ks.

(** [d'] is [d] with some keys erased, all of them due at time [t]: the only
    effect lazy and active expiry may have. *)
Definition purged (t : Z) (d d' : Database) : Prop :=
  ∃ dead, d' = erase_keys dead d ∧ Forall (λ k, due d t k = true) dead.

Lemma erase_keys_lookup ks d k :
  store_ (erase_keys ks d) !! k = (if decide (k ∈ ks) then None else store_ d !! k) ∧
  list_store_ (erase_keys ks d) !! k = (if decide (k ∈ ks) then None else list_store_ d !! k) ∧
  expiry_ (erase_keys ks d) !! k = (if decide (k ∈ ks) then None else expiry_ d !! k).
Proof.
  revert d. induction ks as [|x ks IH]; intros d; cbn [erase_keys foldl].
  { by rewrite decide_False by apply not_elem_of_nil. }
  fold (erase_keys ks (erase_key x d)). destruct (IH (erase_key x d)) as (-> & -> & ->). simpl.
  destruct (decide (k ∈ ks)); [rewrite !decide_True by (by right); done|].
  destruct (decide (k = x)) as [->|Hne].
  - rewrite !decide_True by (by left). by rewrite !lookup_delete_eq.
  - rewrite !decide_False by (rewrite not_elem_of_cons; done). by rewrite !lookup_delete_ne.
Qed.

Lemma due_mono d t t' k : (t ≤ t')%Z → due d t k = true → due d t' k = true.
Proof. unfold due. destruct (expiry_ d !! k); [|done]. lia. Qed.

Lemma due_mono_false d t t' k : (t ≤ t')%Z → due d t' k = false → due d t k = false.
Proof. unfold due. destruct (expiry_ d !! k); [|done]. lia. Qed.

Lemma purged_refl t d : purged t d d.
Proof. by exists []. Qed.

Lemma purged_mono t t' d d' : (t ≤ t')%Z → purged t d d' → purged t' d d'.
Proof.
  intros Ht (dead & -> & Hd). exists dead. split; [done|].
  eapply Forall_impl; [done|]. intros k. by apply due_mono.
Qed.

Lemma purged_purge t d k : purged t d (purge d t k).
Proof.
  unfold purge. destruct (due d t k) eqn:E; [|apply purged_refl].
  exists [k]. split; [done|by repeat constructor].
Qed.

Lemma due_erase_keys ks d t k : due (erase_keys ks d) t k = true → due d t k = true ∧ k ∉ ks.
Proof.
  unfold due. destruct (erase_keys_lookup ks d k) as (_ & _ & ->).
  by destruct (decide (k ∈ ks)).
Qed.

Lemma purged_trans t d d1 d2 : purged t d d1 → purged t d1 d2 → purged t d d2.
Proof.
  intros (k1 & -> & H1) (k2 & -> & H2). exists (k1 ++ k2). split.
  - unfold erase_keys. by rewrite foldl_app.
  - apply Forall_app. split; [done|]. eapply Forall_impl; [done|].
    intros k Hk. by apply due_erase_keys in Hk as [].
Qed.

(** A purge leaves the keys that are not due alone. *)
Lemma purged_lookup t d d' k :
  purged t d d' → due d t k = false →
  store_ d' !! k = store_ d !! k ∧ list_store_ d' !! k = list_store_ d !! k ∧
  expiry_ d' !! k = expiry_ d !! k.
Proof.
  intros (dead & -> & Hd) Hk. destruct (erase_keys_lookup dead d k) as (-> & -> & ->).
  rewrite !decide_False; [done|..]; intros Hin; rewrite Forall_forall in Hd;
    apply Hd in Hin; congruence.
Qed.

(** ** The invariant *)

Section Invariant.
Implicit Types (d : Database) (k : bytes).

Lemma wf_empty : wf empty_db.
Proof. constructor; intros k; simpl; rewrite ?lookup_empty; [by left|by intros []|done]. Qed.

Lemma wf_erase_keys ks d : wf d → wf (erase_keys ks d).
Proof.
  intros [H1 H2 H3]. constructor; intros k; unfold present;
    destruct (erase_keys_lookup ks d k) as (E1 & E2 & E3); rewrite ?E1, ?E2, ?E3;
    case_decide; try (by intros []); first [apply H1|apply H2|apply H3|by left|done].
Qed.

Lemma wf_erase_key k d : wf d → wf (erase_key k d).
Proof. apply (wf_erase_keys [k]). Qed.

Lemma wf_purged t d d' : purged t d d' → wf d → wf d'.
Proof. intros (ks & -> & _). apply wf_erase_keys. Qed.

Lemma wf_set k v d : wf d → wf (set_db k v d).
Proof.
  intros [H1 H2 H3]. unfold present in *. constructor; intros x; unfold present; simpl;
    (destruct (decide (k = x)) as [<-|];
     [rewrite ?lookup_insert_eq, ?lookup_delete_eq|rewrite ?lookup_insert_ne, ?lookup_delete_ne by done]);
    auto.
Qed.

Lemma wf_push k l d : wf d → store_ d !! k = None → l ≠ [] → wf (push_db k l d).
Proof.
  intros [H1 H2 H3] Hk Hl. unfold present in *. constructor; intros x; unfold present; simpl;
    (destruct (decide (k = x)) as [<-|]; [rewrite ?lookup_insert_eq|rewrite ?lookup_insert_ne by done]);
    eauto. congruence.
Qed.

Lemma wf_erase_list k d : wf d → is_Some (list_store_ d !! k) → wf (erase_list_db k d).
Proof.
  intros [H1 H2 H3] Hk. unfold present in *. constructor; intros x; unfold present; simpl;
    (destruct (decide (k = x)) as [<-|]; [rewrite ?lookup_delete_eq|rewrite ?lookup_delete_ne by done]);
    eauto. by intros [].
Qed.

Lemma wf_popped k l d rest : wf d → list_store_ d !! k = Some l → wf (popped_db k rest d).
Proof.
  intros Hwf Hk. destruct rest as [|v rest]; simpl; [apply wf_erase_list; eauto|].
  apply wf_push; [done| |done]. destruct (wf_one_map _ Hwf k); [done|congruence].
Qed.

Lemma wf_set_expiry k t d : wf d → present d k → wf (with_expiry (insert k t) d).
Proof.
  intros [H1 H2 H3] Hk. unfold present in *. constructor; intros x; unfold present; simpl; auto.
  destruct (decide (k = x)) as [<-|]; [done|rewrite lookup_insert_ne by done]. apply H2.
Qed.

Lemma wf_del_expiry k d : wf d → wf (with_expiry (delete k) d).
Proof.
  intros [H1 H2 H3]. unfold present in *. constructor; intros x; unfold present; simpl; auto.
  destruct (decide (k = x)) as [<-|]; [rewrite lookup_delete_eq; by intros []|].
  rewrite lookup_delete_ne by done. apply H2.
Qed.

Lemma key_exists_present k d : key_exists_unlocked k d = true ↔ present d k.
Proof.
  unfold key_exists_unlocked, contains, present.
  by rewrite orb_true_iff, !bool_decide_eq_true.
Qed.

Lemma contains_Some {A} (m : gmap bytes A) k : contains m k = true ↔ is_Some (m !! k).
Proof. apply bool_decide_eq_true. Qed.

Lemma contains_None {A} (m : gmap bytes A) k : contains m k = false ↔ m !! k = None.
Proof. unfold contains. by rewrite bool_decide_eq_false, eq_None_not_Some. Qed.

(** *** Deadlines *)

Lemma deadlines_mono d t t' : (t ≤ t')%Z → deadlines_ok d t → deadlines_ok d t'.
Proof. intros Ht Hd k dl Hk. apply Hd in Hk. lia. Qed.

Lemma deadlines_sub d d' t :
  (∀ k dl, expiry_ d' !! k = Some dl → expiry_ d !! k = Some dl) →
  deadlines_ok d t → deadlines_ok d' t.
Proof. intros Hs Hd k dl Hk. eauto. Qed.

Lemma deadlines_purged d d' t t' : purged t d d' → deadlines_ok d t' → deadlines_ok d' t'.
Proof.
  intros (ks & -> & _). apply deadlines_sub. intros k dl.
  destruct (erase_keys_lookup ks d k) as (_ & _ & ->). by case_decide.
Qed.

Lemma deadlines_delete d k t : deadlines_ok d t → deadlines_ok (with_expiry (delete k) d) t.
Proof. apply deadlines_sub. intros x dl. simpl. by intros [_ ?]%lookup_delete_Some. Qed.

(** The deadline arithmetic of EXPIRE does not overflow. *)
Lemma deadline_after_exact t s :
  (0 ≤ t < 2 ^ 60)%Z → (0 ≤ s ≤ INT_MAX)%Z → deadline_after t s = (t + s * NS_PER_S)%Z.
Proof.
  unfold deadline_after, INT_MAX, NS_PER_S. intros Ht Hs.
  rewrite (to_int64_id (s * _)) by (unfold INT64_MIN, INT64_MAX; lia).
  apply to_int64_id. unfold INT64_MIN, INT64_MAX. lia.
Qed.

(** The remaining time of TTL is exact and fits an [int]. *)
Lemma seconds_left_exact dl t :
  (0 ≤ t < 2 ^ 60)%Z → (0 ≤ dl ≤ t + INT_MAX * NS_PER_S)%Z →
  to_int32 (seconds_left dl t) = Z.quot (dl - t) NS_PER_S.
Proof.
  intros Ht Hd. unfold seconds_left, INT_MAX, NS_PER_S in *.
  rewrite to_int64_id by (unfold INT64_MIN, INT64_MAX; lia).
  apply to_int32_id. unfold INT_MIN, INT_MAX. split.
  - apply (Z.le_trans _ (Z.quot (-2147483648 * 1000000000) 1000000000)); [done|].
    apply Z.quot_le_mono; lia.
  - apply (Z.le_trans _ (Z.quot (2147483647 * 1000000000) 1000000000)); [|done].
    apply Z.quot_le_mono; lia.
Qed.

End Invariant.

(** ** Scans over all keys *)

Section Scans.
Context `{SteadyClock} `{HashOrder}.
Implicit Types (d : Database) (n : nat) (k : bytes).

Lemma tick_le d k n : n ≤ tick d k n.
Proof. unfold tick. destruct (expiry_ d !! k); lia. Qed.

Lemma due_tick d k n : due d (clock n) k = true → due d (clock (tick d k n)) k = true.
Proof. apply due_mono, clock_mono, tick_le. Qed.

Lemma purged_tick d k n : purged (clock (tick d k n)) d (purge d (clock n) k).
Proof. eapply purged_mono; [apply clock_mono, tick_le|apply purged_purge]. Qed.

Lemma keys_scan_one r e k d n :
  keys_scan (r, e) k (d, n) =
  (if due d (clock n) k then (r, e ++ [k]) else (r ++ [k], e), (d, tick d k n)).
Proof. unfold keys_scan. run_db. by rewrite is_expired_run. Qed.

Lemma dbsize_scan_one c e k d n :
  dbsize_scan (c, e) k (d, n) =
  (if due d (clock n) k then (c, e ++ [k]) else ((c + 1)%Z, e), (d, tick d k n)).
Proof. unfold dbsize_scan. run_db. by rewrite is_expired_run. Qed.

(** The readings of an operation that moves the cursor from [n] to [n'] are
    not later than [t]. *)
Definition read_by (n n' : nat) (t : Z) : Prop := ∀ j, n ≤ j < n' → (clock j ≤ t)%Z.

Lemma read_by_end n n' : read_by n n' (clock n').
Proof. intros j Hj. apply clock_mono. lia. Qed.

Lemma read_by_sub n n' m m' t : n ≤ m → m' ≤ n' → read_by n n' t → read_by m m' t.
Proof. intros Hn Hn' Hr j Hj. apply Hr. lia. Qed.

(** A key that was found due was compared with a reading. *)
Lemma read_by_due d k n n' t : tick d k n ≤ n' → read_by n n' t → due d (clock n) k = true → due d t k = true.
Proof.
  intros Hn Hr Hd. eapply due_mono; [|done]. apply Hr. unfold tick, due in *. destruct (expiry_ d !! k); [lia|done].
Qed.

(** A scan splits the keys into live and expired ones.  A key counted as live
    was live when the scan started, one counted as expired is due at its last
    reading of the clock. *)
Lemma keys_scan_run ks r e d n :
  ∃ live dead n',
    foldM keys_scan (r, e) ks (d, n) = ((r ++ live, e ++ dead), (d, n')) ∧ n ≤ n' ∧
    live ++ dead ≡ₚ ks ∧ Forall (λ k, due d (clock n) k = false) live ∧
    ∀ t, read_by n n' t → Forall (λ k, due d t k = true) dead.
Proof.
  revert r e n. induction ks as [|k ks IH]; intros r e n.
  { exists [], [], n. rewrite !app_nil_r. auto. }
  rewrite foldM_cons, keys_scan_one.
  pose proof (tick_le d k n) as Ht. destruct (due d (clock n) k) eqn:Ed.
  - destruct (IH r (e ++ [k]) (tick d k n)) as (live & dead & n' & -> & Hn & Hp & Hl & Hd).
    exists live, (k :: dead), n'. rewrite <- app_assoc. split_and!; [done|lia| | |].
    + by rewrite <- Permutation_middle, Hp.
    + eapply Forall_impl; [done|]. intros x. apply due_mono_false, clock_mono. lia.
    + intros t Hr. constructor; [by eapply read_by_due|]. by apply Hd, (read_by_sub n n').
  - destruct (IH (r ++ [k]) e (tick d k n)) as (live & dead & n' & -> & Hn & Hp & Hl & Hd).
    exists (k :: live), dead, n'. rewrite <- app_assoc. split_and!; [done|lia| | |].
    3: intros t Hr; by apply Hd, (read_by_sub n n').
    + simpl. by rewrite Hp.
    + constructor; [done|]. eapply Forall_impl; [done|].
      intros x. apply due_mono_false, clock_mono. lia.
Qed.

Lemma remove_all_run ks d n : remove_all ks (d, n) = (tt, (erase_keys ks d, n)).
Proof.
  revert d. induction ks as [|k ks IH]; intros d; [done|].
  unfold remove_all. rewrite foldM_cons. run_db. apply IH.
Qed.

(** All keys of the two maps. *)
Definition all_keys (d : Database) : list bytes := (iter (store_ d)).*1 ++ (iter (list_store_ d)).*1.

Lemma all_keys_present d k : k ∈ all_keys d ↔ present d k.
Proof.
  unfold all_keys, present. rewrite elem_of_app, !list_elem_of_fmap.
  split; (intros [Hk|Hk]; [left|right]).
  1, 2: destruct Hk as ([? a] & -> & Hk%iter_elem_of); by exists a.
  all: destruct Hk as [a Ha]; exists (k, a); by rewrite iter_elem_of.
Qed.

Lemma all_keys_NoDup d : wf d → NoDup (all_keys d).
Proof.
  intros Hwf. apply NoDup_app. repeat split; [apply iter_NoDup_fst| |apply iter_NoDup_fst].
  intros k ([k1 a] & E1 & Ha%iter_elem_of)%list_elem_of_fmap
    ([k2 b] & E2 & Hb%iter_elem_of)%list_elem_of_fmap. simpl in E1, E2. subst.
  destruct (wf_one_map _ Hwf k2) as [E|E]; congruence.
Qed.

(** KEYS: the keys returned, and the keys purged, which are due at the last
    reading of the scan. *)
Lemma keys_run d n :
  ∃ live dead n',
    keys (d, n) = (live, (erase_keys dead d, n')) ∧ n ≤ n' ∧ live ++ dead ≡ₚ all_keys d ∧
    Forall (λ k, due d (clock n) k = false) live ∧
    ∀ t, read_by n n' t → Forall (λ k, due d t k = true) dead.
Proof.
  unfold keys. run_db.
  destruct (keys_scan_run (iter (store_ d)).*1 [] [] d n)
    as (l1 & e1 & n1 & E1 & Hn1 & Hp1 & Hl1 & Hd1).
  destruct (keys_scan_run (iter (list_store_ d)).*1 l1 e1 d n1)
    as (l2 & e2 & n2 & E2 & Hn2 & Hp2 & Hl2 & Hd2).
  cbn [app] in E1. rewrite E1, E2. run_db. rewrite remove_all_run.
  exists (l1 ++ l2), (e1 ++ e2), n2. split_and!; [done|lia| | |].
  - unfold all_keys. rewrite <- Hp1, <- Hp2. rewrite !app_assoc. f_equiv.
    rewrite <- !app_assoc. f_equiv. apply Permutation_app_comm.
  - apply Forall_app. split; [done|]. eapply Forall_impl; [done|].
    intros k. apply due_mono_false, clock_mono. lia.
  - intros t Hr. apply Forall_app. split; [apply Hd1|apply Hd2]; eapply read_by_sub; [..|done| | |done]; lia.
Qed.

(** DBSIZE performs the same scan as KEYS and counts. *)
Lemma dbsize_scan_keys ks r e s :
  foldM dbsize_scan (Z.of_nat (length r), e) ks s =
  (let '((r', e'), s') := foldM keys_scan (r, e) ks s in ((Z.of_nat (length r'), e'), s')).
Proof.
  revert r e s. induction ks as [|k ks IH]; intros r e [d n]; [done|].
  rewrite !foldM_cons, keys_scan_one, dbsize_scan_one.
  destruct (due d (clock n) k); cbn [fst snd]; [apply IH|].
  rewrite <- IH, length_app. simpl. by replace (Z.of_nat (length r) + 1)%Z
    with (Z.of_nat (length r + 1)) by lia.
Qed.

Lemma dbsize_keys s : dbsize s = (let '(ks, s') := keys s in (Z.of_nat (length ks), s')).
Proof.
  destruct s as [d n]. unfold dbsize, keys. run_db.
  change (0%Z, []) with (Z.of_nat (length (@nil bytes)), @nil bytes).
  rewrite dbsize_scan_keys. destruct (foldM keys_scan _ _ _) as [[r e] [d1 n1]].
  rewrite dbsize_scan_keys. destruct (foldM keys_scan _ _ _) as [[r' e'] [d2 n2]].
  cbn [fst snd]. by rewrite remove_all_run.
Qed.

(** *** DEL *)

Lemma present_erase_key d x k : present (erase_key x d) k ↔ k ≠ x ∧ present d k.
Proof.
  unfold present. simpl. destruct (decide (k = x)) as [->|].
  - rewrite !lookup_delete_eq. split; [by intros [[]|[]]|by intros []].
  - rewrite !lookup_delete_ne by done. naive_solver.
Qed.

#[global] Instance present_dec d k : Decision (present d k).
Proof. unfold present. apply _. Defined.

(** The number of distinct existing keys among [ks]. *)
Definition present_count (d : Database) (ks : list bytes) : nat :=
  size (filter (present d) (list_to_set ks : gset bytes)).

Lemma present_count_cons d k ks :
  present_count d (k :: ks) =
  (if decide (present d k) then 1 else 0) + present_count (erase_key k d) ks.
Proof.
  unfold present_count. set (X := list_to_set ks : gset bytes).
  assert (E : filter (present d) (list_to_set (k :: ks) : gset bytes) =
    (if decide (present d k) then {[k]} else ∅) ∪ filter (present (erase_key k d)) X).
  { apply set_eq. intros x. cbn [list_to_set]. fold X.
    rewrite elem_of_union, !elem_of_filter, elem_of_union, elem_of_singleton, present_erase_key.
    destruct (decide (present d k)), (decide (x = k)); subst; set_solver. }
  rewrite E, size_union.
  - by destruct (decide (present d k)); rewrite ?size_singleton, ?size_empty.
  - intros x. rewrite elem_of_filter, present_erase_key. case_decide; set_solver.
Qed.

Lemma del_fold_run ks c d n :
  wf d → foldM del_one c ks (d, n) =
    ((c + Z.of_nat (present_count d ks))%Z, (erase_keys ks d, n)).
Proof.
  revert c d. induction ks as [|k ks IH]; intros c d Hwf.
  { rewrite foldM_nil. change (present_count d []) with 0. by rewrite Z.add_0_r. }
  rewrite foldM_cons, del_one_run, IH by auto using wf_erase_key.
  rewrite present_count_cons. destruct (key_exists_unlocked k d) eqn:E.
  - rewrite decide_True by (by apply key_exists_present). f_equal. lia.
  - rewrite decide_False; [f_equal; lia|].
    rewrite <- key_exists_present. by rewrite E.
Qed.

(** *** EXISTS *)

(** The key is there and has not expired at time [t]. *)
Definition live_at (d : Database) (t : Z) (k : bytes) : Prop := present d k ∧ due d t k = false.

#[global] Instance live_at_dec d t k : Decision (live_at d t k).
Proof. unfold live_at. apply _. Defined.

Lemma live_at_purge d t t' k x : (t ≤ t')%Z → live_at d t' k → live_at (purge d t x) t' k.
Proof.
  intros Ht [Hp Hd]. pose proof (due_mono_false _ _ _ _ Ht Hd) as Hd'.
  destruct (purged_lookup t d _ k (purged_purge t d x) Hd') as (E1 & E2 & E3).
  unfold live_at, present, due in *. by rewrite E1, E2, E3.
Qed.

Lemma live_at_purge_inv d t t' k x : live_at (purge d t x) t' k → live_at d t' k.
Proof.
  unfold purge. destruct (due d t x) eqn:E; [|done]. unfold live_at.
  rewrite present_erase_key. intros [[Hne Hp] Hd]. split; [done|].
  unfold due in *. simpl in Hd. by rewrite lookup_delete_ne in Hd.
Qed.

Lemma live_at_mono d t t' k : (t ≤ t')%Z → live_at d t' k → live_at d t k.
Proof. intros Ht [Hp Hd]. split; [done|]. by eapply due_mono_false. Qed.

(** EXISTS counts, with multiplicity, keys that were live when it started,
    and at least those that are still live at its last reading. *)
Lemma exists_fold_run ks c d n :
  ∃ m d' n',
    foldM exists_one c ks (d, n) = ((c + Z.of_nat m)%Z, (d', n')) ∧ n ≤ n' ∧
    m ≤ length (filter (live_at d (clock n)) ks) ∧
    ∀ t, read_by n n' t → purged t d d' ∧ length (filter (live_at d t) ks) ≤ m.
Proof.
  revert c d n. induction ks as [|k ks IH]; intros c d n.
  { exists 0, d, n. rewrite foldM_nil, Z.add_0_r. auto using purged_refl. }
  rewrite foldM_cons, exists_one_run.
  set (hit := if due d (clock n) k then 0 else if key_exists_unlocked k d then 1 else 0).
  assert (Hhit : hit = if decide (live_at d (clock n) k) then 1 else 0).
  { unfold hit. destruct (decide (live_at d (clock n) k)) as [[Hk Hd]|Hk].
    - apply key_exists_present in Hk. by rewrite Hk, Hd.
    - destruct (due d (clock n) k) eqn:E; [done|].
      destruct (key_exists_unlocked k d) eqn:Ek; [|done].
      destruct Hk. split; [by apply key_exists_present|done]. }
  destruct (IH (c + Z.of_nat hit)%Z (purge d (clock n) k) (tick d k n))
    as (m & d' & n' & E & Hn & Hhi & Hend).
  pose proof (tick_le d k n) as Ht. pose proof (clock_mono _ _ Ht) as Hc'.
  exists (hit + m), d', n'. split_and!.
  - replace (if due d (clock n) k then c else if key_exists_unlocked k d then (c + 1)%Z else c)
      with (c + Z.of_nat hit)%Z by (unfold hit; repeat case_match; lia).
    rewrite E. f_equal. lia.
  - lia.
  - rewrite filter_cons, Hhit.
    assert (length (filter (live_at (purge d (clock n) k) (clock (tick d k n))) ks) ≤
            length (filter (live_at d (clock n)) ks)).
    { apply filter_length_mono. intros x Hx. apply live_at_purge_inv in Hx.
      by eapply live_at_mono. }
    case_decide; cbn [length]; lia.
  - intros t Hr. destruct (Hend t) as [Hp Hlo]; [by eapply read_by_sub|].
    assert (∀ x, due d (clock n) x = true → x = k → due d t x = true) as Hdue
      by (intros x Hx ->; by eapply read_by_due).
    assert (purged t d (purge d (clock n) k)) as Hpk.
    { unfold purge. destruct (due d (clock n) k) eqn:Ed; [|apply purged_refl]. exists [k]. split; [done|].
      constructor; [by apply Hdue|constructor]. }
    split; [by eapply purged_trans|]. rewrite filter_cons, Hhit.
    assert (length (filter (live_at d t) ks) ≤ length (filter (live_at (purge d (clock n) k) t) ks)).
    { apply filter_length_mono. intros x [Hx Hxd]. destruct (purged_lookup _ _ _ _ Hpk Hxd) as (E1 & E2 & E3).
      unfold live_at, present, due in *. by rewrite E1, E2, E3. }
    destruct (decide (live_at d t k)) as [[Hk Hkd]|]; [|case_decide; cbn [length]; lia].
    rewrite decide_True; [cbn [length]; lia|]. split; [done|]. destruct (due d (clock n) k) eqn:Ed; [|done].
    rewrite (Hdue k Ed eq_refl) in Hkd. done.
Qed.

End Scans.

(** ** Slices *)

(** The part of a list that its length as an [int] covers: all of it, for a
    list of at most INT_MAX elements. *)
Definition reach (l : list bytes) : list bytes := take (Z.to_nat (to_int32 (Z.of_nat (length l)))) l.

(** The element at an index that counts from the front, or from the back when
    it is negative. *)
Definition at_index (l : list bytes) (i : Z) : option bytes :=
  if (0 <=? i)%Z then l !! Z.to_nat i else reverse l !! Z.to_nat (- i - 1).

Lemma reach_all l : (Z.of_nat (length l) ≤ INT_MAX)%Z → reach l = l.
Proof. intros Hl. unfold reach. rewrite to_int32_id by (unfold INT_MIN; lia). apply take_ge. lia. Qed.

Lemma to_int32_le n : (0 ≤ n)%Z → (to_int32 n ≤ n)%Z ∧ (to_int32 n ≤ INT_MAX)%Z.
Proof.
  intros Hn. unfold to_int32, INT_MAX. pose proof (Z.mod_pos_bound (n + 2 ^ 31) (2 ^ 32) ltac:(lia)).
  pose proof (Z.mod_le (n + 2 ^ 31) (2 ^ 32) ltac:(lia) ltac:(lia)). lia.
Qed.

Lemma length_reach l : length (reach l) = Z.to_nat (to_int32 (Z.of_nat (length l))).
Proof. unfold reach. rewrite length_take. pose proof (to_int32_le (Z.of_nat (length l))). lia. Qed.

(** The index arithmetic of LINDEX. *)
Lemma index_of_at l i : index_of l i = at_index (reach l) i.
Proof.
  unfold index_of, at_index. pose proof (length_reach l) as Hr.
  pose proof (to_int32_le (Z.of_nat (length l)) ltac:(lia)) as [Hle _].
  set (len := to_int32 (Z.of_nat (length l))) in *. unfold reach in *. fold len in Hr |- *. cbv zeta.
  destruct (Z.leb_spec 0 i).
  - rewrite (proj2 (Z.ltb_ge i 0)) by done. destruct (Z.leb_spec len i).
    + rewrite (proj2 (Z.ltb_ge i 0)) by done. cbn [orb]. symmetry. apply lookup_ge_None_2. lia.
    + rewrite (proj2 (Z.ltb_ge i 0)) by done. cbn [orb]. rewrite lookup_take_lt by lia. done.
  - rewrite (proj2 (Z.ltb_lt i 0)) by done. destruct (Z.ltb_spec (len + i) 0); cbn [orb].
    + symmetry. apply lookup_ge_None_2. rewrite length_reverse. lia.
    + rewrite (proj2 (Z.leb_gt len (len + i))) by lia. rewrite reverse_lookup by lia.
      rewrite lookup_take_lt by lia. f_equal. lia.
Qed.


Lemma seqZ_slice (l : list bytes) (a : Z) (m : nat) :
  (0 ≤ a)%Z → Z.to_nat a + m ≤ length l →
  (λ i, default [] (l !! Z.to_nat i)) <$> seqZ a (Z.of_nat m) = take m (drop (Z.to_nat a) l).
Proof.
  intros Ha. revert a Ha. induction m as [|m IH]; intros a Ha Hm; [done|].
  rewrite seqZ_cons by lia. cbn [fmap list_fmap].
  replace (Z.pred (Z.of_nat (S m))) with (Z.of_nat m) by lia. rewrite IH by lia.
  destruct (lookup_lt_is_Some_2 l (Z.to_nat a) ltac:(lia)) as [x Hx].
  rewrite Hx, (drop_S _ _ _ Hx). cbn. by replace (Z.to_nat (Z.succ a)) with (S (Z.to_nat a)) by lia.
Qed.

(** The index arithmetic of LRANGE computes the slice, for every pair of
    [int] indices. *)
(** Every selected element is an element (or empty). *)
Lemma range_of_Forall (P : bytes → Prop) l start stop : P [] → Forall P l → Forall P (range_of l start stop).
Proof.
  intros H0 Hl. unfold range_of. case_match; [constructor|]. apply Forall_fmap, Forall_true. intros i. simpl.
  destruct (l !! Z.to_nat i) eqn:E; [|done]. by eapply Forall_lookup_1.
Qed.

Lemma range_of_slice l start stop :
  (Z.of_nat (length l) ≤ INT_MAX)%Z → range_of l start stop = slice l start stop.
Proof.
  intros Hl. unfold range_of, slice. rewrite to_int32_id by (unfold INT_MIN; lia).
  set (len := Z.of_nat (length l)). cbv zeta.
  set (a := if (start <? 0)%Z then (len + start)%Z else start).
  set (b := if (stop <? 0)%Z then (len + stop)%Z else stop).
  replace (if (a <? 0)%Z then 0%Z else a) with (Z.max 0 a) by (destruct (Z.ltb_spec a 0); lia).
  replace (if (len <=? b)%Z then (len - 1)%Z else b) with (Z.min (len - 1) b)
    by (destruct (Z.leb_spec len b); lia).
  set (lo := Z.max 0 a). set (hi := Z.min (len - 1) b).
  destruct ((hi <? lo) || (len <=? lo))%Z eqn:E.
  - apply orb_true_iff in E as [E|E].
    + by replace (Z.to_nat (hi + 1 - lo)) with 0 by lia.
    + rewrite drop_ge by lia. by rewrite take_nil.
  - apply orb_false_iff in E. rewrite <- (seqZ_slice l lo); [|lia..].
    do 2 f_equal. lia.
Qed.

(** LRANGE on lists of any length. *)
Lemma range_of_reach l start stop : range_of l start stop = slice (reach l) start stop.
Proof.
  pose proof (length_reach l) as Hr. pose proof (to_int32_le (Z.of_nat (length l)) ltac:(lia)) as [Hle Hmax].
  assert (Z.of_nat (length (reach l)) ≤ INT_MAX)%Z as Hfit by (rewrite Hr; unfold INT_MAX in *; lia).
  rewrite <- (range_of_slice (reach l)) by done. unfold range_of.
  rewrite (to_int32_id (Z.of_nat (length (reach l)))) by (unfold INT_MIN; lia). rewrite Hr.
  set (len := to_int32 (Z.of_nat (length l))) in *. destruct (Z.leb_spec 0 len) as [Hlen|Hlen].
  - rewrite Z2Nat.id by done. cbv zeta. set (a := if (start <? 0)%Z then _ else _). set (b := if (stop <? 0)%Z then _ else _).
    set (lo := if (a <? 0)%Z then _ else _). set (hi := if (len <=? b)%Z then _ else _).
    destruct ((hi <? lo) || (len <=? lo))%Z eqn:E; [done|]. apply list_fmap_ext. intros j i Hi.
    apply list_elem_of_lookup_2, elem_of_seqZ in Hi. unfold reach. fold len. f_equal. symmetry. apply lookup_take_lt.
    assert (lo + (hi - lo + 1) ≤ len)%Z by (subst hi; destruct (Z.leb_spec len b); lia). subst lo. destruct (Z.ltb_spec a 0); lia.
  - replace (Z.to_nat len) with 0 by lia. change (Z.of_nat 0) with 0%Z. cbv zeta.
    set (a := if (start <? 0)%Z then (len + start)%Z else start). set (a0 := if (start <? 0)%Z then (0 + start)%Z else start).
    set (lo := if (a <? 0)%Z then 0%Z else a). set (lo0 := if (a0 <? 0)%Z then 0%Z else a0).
    assert (0 ≤ lo)%Z by (subst lo; destruct (Z.ltb_spec a 0); lia). assert (0 ≤ lo0)%Z by (subst lo0; destruct (Z.ltb_spec a0 0); lia).
    rewrite (proj2 (Z.leb_le len lo)), (proj2 (Z.leb_le 0 lo0)) by lia. by rewrite !orb_true_r.
Qed.
