(* ===== verification/DatabaseSpec.v ===== *)
(** * What the store promises: one map with exact deadlines

    The abstract store is a single finite map from keys to a value and an
    optional deadline, in which an entry disappears exactly at its deadline.
    The dual-map implementation, with lazy expiry in the commands and a
    background thread that samples keys, refines it: every sequence of
    operations, with their replies and the times at which they started and
    ended, is one of the abstract store, under any interleaving of operations
    and expiry rounds.  The implementation keeps an entry for a while after its
    deadline.  No operation shows it but DEL, which counts it; so the abstract
    store also has the set of these keys, from which keys may be reclaimed at
    any time. *)

From S2P Require Import Prelude Database DatabaseFacts.

(** ** The abstract store *)

Inductive Value := VString (v : bytes) | VList (l : list bytes).

Abbreviation ADb := (gmap bytes (Value * option Z)).

(** Entries whose deadline is later than [t]. *)
Definition unexpired (t : Z) (e : bytes * (Value * option Z)) : bool :=
  match snd (snd e) with Some deadline => (t <? deadline)%Z | None => true end.

(** Time passes until [t], and the keys this loses. *)
Definition a_tick (t : Z) (m : ADb) : ADb := filter (λ e, unexpired t e = true) m.
Definition lost (t : Z) (m : ADb) : gset bytes := dom m ∖ dom (a_tick t m).

(** The entries, the keys whose entry has lapsed and is not reclaimed yet, and
    the time. *)
Record AStore := mkA { live : ADb; lapsed : gset bytes; at_time : Z }.

Inductive Op :=
| OSet (k v : bytes) | OGet (k : bytes) | OFlush
| OLPush (k : bytes) (vs : list bytes) | ORPush (k : bytes) (vs : list bytes)
| OLPop (k : bytes) | ORPop (k : bytes)
| OLRange (k : bytes) (a b : Z) | OLLen (k : bytes) | OLIndex (k : bytes) (i : Z)
| OExpire (k : bytes) (s : Z) | OTtl (k : bytes) | OPersist (k : bytes)
| ODel (ks : list bytes) | OExists (ks : list bytes) | OKeys | ODbsize.

Inductive Reply :=
| RUnit | RValue (v : option bytes) | RInt (z : Z) | RBool (b : bool) | RList (l : list bytes)
| RWrongType.

(** A push onto the value under a key: a string is a type error. *)
Definition a_push (app : list bytes → list bytes) (k : bytes) (m : ADb) : Reply * ADb :=
  match m !! k with
  | Some (VString _, _) => (RWrongType, m)
  | Some (VList l, dl) => (RInt (to_int32 (Z.of_nat (length (app l)))), <[k := (VList (app l), dl)]> m)
  | None => (RInt (to_int32 (Z.of_nat (length (app [])))), <[k := (VList (app []), None)]> m)
  end.

(** A pop: the last element takes the key with it. *)
Definition a_pop (pop : list bytes → option (bytes * list bytes)) (k : bytes) (m : ADb)
    : Reply * ADb :=
  match m !! k with
  | Some (VString _, _) => (RWrongType, m)
  | Some (VList l, dl) =>
      match pop l with
      | Some (v, []) => (RValue (Some v), delete k m)
      | Some (v, rest) => (RValue (Some v), <[k := (VList rest, dl)]> m)
      | None => (RValue None, m)
      end
  | None => (RValue None, m)
  end.

Definition pop_front (l : list bytes) : option (bytes * list bytes) :=
  match l with v :: rest => Some (v, rest) | [] => None end.
Definition pop_back (l : list bytes) : option (bytes * list bytes) :=
  match reverse l with v :: rest => Some (v, reverse rest) | [] => None end.

(** The abstract operations on the entries [m], with the lapsed keys [g].  [t]
    is the time at which a deadline is set or a remaining time is computed.
    The scans, which take time, have no result here (see [scan_reply]). *)
Definition spec_op (o : Op) (t : Z) (g : gset bytes) (m : ADb) : option (Reply * ADb) :=
  match o with
  | OSet k v => Some (RUnit, <[k := (VString v, None)]> m)
  | OGet k =>
      Some (match m !! k with
            | Some (VString v, _) => RValue (Some v)
            | Some (VList _, _) => RWrongType
            | None => RValue None
            end, m)
  | OFlush => Some (RUnit, ∅)
  | OLPush k vs => Some (a_push (λ l, rev vs ++ l) k m)
  | ORPush k vs => Some (a_push (λ l, l ++ vs) k m)
  | OLPop k => Some (a_pop pop_front k m)
  | ORPop k => Some (a_pop pop_back k m)
  | OLRange k a b =>
      Some (match m !! k with
            | Some (VList l, _) => RList (slice (reach l) a b)
            | Some (VString _, _) => RWrongType
            | None => RList []
            end, m)
  | OLLen k =>
      Some (match m !! k with
            | Some (VString _, _) => RWrongType
            | Some (VList l, _) => RInt (to_int32 (Z.of_nat (length l)))
            | None => RInt 0
            end, m)
  | OLIndex k i =>
      Some (match m !! k with
            | Some (VList l, _) => RValue (at_index (reach l) i)
            | Some (VString _, _) => RWrongType
            | None => RValue None
            end, m)
  | OExpire k s =>
      Some (match m !! k with
            | Some (v, _) => (RBool true, <[k := (v, Some (t + s * NS_PER_S)%Z)]> m)
            | None => (RBool false, m)
            end)
  | OTtl k =>
      Some (RInt (match m !! k with
                  | None => -2
                  | Some (_, None) => -1
                  | Some (_, Some dl) => Z.quot (dl - t) NS_PER_S
                  end)%Z, m)
  | OPersist k =>
      Some (match m !! k with
            | Some (v, Some _) => (RBool true, <[k := (v, None)]> m)
            | _ => (RBool false, m)
            end)
  | ODel ks =>
      Some (RInt (Z.of_nat (size (list_to_set ks ∩ (dom m ∪ g)))), foldl (λ m k, delete k m) m ks)
  | OExists _ | OKeys | ODbsize => None
  end.

(** The lapsed keys an operation leaves: writing under a key, deleting it or
    flushing reclaims it. *)
Definition left_over (o : Op) (g : gset bytes) (m' : ADb) : gset bytes :=
  match o with
  | OFlush => ∅
  | ODel ks => g ∖ list_to_set ks
  | _ => g ∖ dom m'
  end.

(** How many of [ks] are in the store, with multiplicity. *)
Definition held_count (m : ADb) (ks : list bytes) : nat := length (filter (λ k, is_Some (m !! k)) ks).

(** The scans look at the keys one after the other, from the entries [before]
    to the entries [after]: they report no key that was gone at the start and
    every key that is still there at the end. *)
Definition scan_reply (o : Op) (before after : ADb) (r : Reply) : Prop :=
  match o, r with
  | OExists ks, RInt n => ∃ c : nat, n = Z.of_nat c ∧ held_count after ks ≤ c ≤ held_count before ks
  | OKeys, RList l => NoDup l ∧ dom after ⊆ (list_to_set l : gset bytes) ⊆ dom before
  | ODbsize, RInt n => ∃ c : nat, n = Z.of_nat c ∧ size after ≤ c ≤ size before
  | _, _ => False
  end.

(** What the member functions return for a key of the wrong type: -1 from the
    pushes and LLEN, nothing from the others. *)
Definition reported (o : Op) (r : Reply) : Reply :=
  match r, o with
  | RWrongType, (OGet _ | OLPop _ | ORPop _ | OLIndex _ _) => RValue None
  | RWrongType, OLRange _ _ _ => RList []
  | RWrongType, (OLPush _ _ | ORPush _ _ | OLLen _) => RInt (-1)
  | _, _ => r
  end.

(** An operation with the time at which it started, its reply, and the time at
    which it ended. *)
Record Event := mkEvent { ev_from : Z; ev_op : Op; ev_reply : Reply; ev_to : Z }.

Definition as_reported (e : Event) : Event :=
  mkEvent (ev_from e) (ev_op e) (reported (ev_op e) (ev_reply e)) (ev_to e).

(** Steps of the abstract store: an operation takes effect on the entries at
    the time it starts, and sets deadlines and computes remaining times with a
    time between its start and its end; meanwhile time passes.  Whenever time
    passes, lapsed entries may be reclaimed. *)
Inductive astep : AStore → option Event → AStore → Prop :=
| a_do o r m g m1 g' t t2 t1 :
    (t ≤ t2 ≤ t1)%Z → spec_op o t2 g m = Some (r, m1) → g' ⊆ left_over o g m1 ∪ lost t1 m1 →
    astep (mkA m g t) (Some (mkEvent t o r t1)) (mkA (a_tick t1 m1) g' t1)
| a_scan o r m g g' t t1 :
    (t ≤ t1)%Z → scan_reply o m (a_tick t1 m) r → g' ⊆ g ∪ lost t1 m →
    astep (mkA m g t) (Some (mkEvent t o r t1)) (mkA (a_tick t1 m) g' t1)
| a_wait m g g' t t' :
    (t ≤ t')%Z → g' ⊆ g ∪ lost t' m → astep (mkA m g t) None (mkA (a_tick t' m) g' t').

Inductive arun : AStore → list Event → AStore → Prop :=
| arun_nil a : arun a [] a
| arun_step a l a1 ls a2 : astep a l a1 → arun a1 ls a2 → arun a (option_list l ++ ls) a2.

(** What the command handlers guarantee about the arguments. *)
Definition op_ok (o : Op) : Prop :=
  match o with
  | OLPush _ vs | ORPush _ vs => vs ≠ []
  | OExpire _ s => (0 < s ≤ INT_MAX)%Z
  | _ => True
  end.

(** ** The implementation as a machine *)

(** The value stored under a key, whatever its deadline. *)
Definition stored (d : Database) (k : bytes) : option Value :=
  match store_ d !! k with
  | Some v => Some (VString v)
  | None => VList <$> list_store_ d !! k
  end.

(** The entries a database represents at time [t], and the lapsed keys. *)
Definition abs (t : Z) (d : Database) : ADb :=
  map_imap (λ k v, if due d t k then None else Some (v, expiry_ d !! k))
    ((VString <$> store_ d) ∪ (VList <$> list_store_ d)).
Definition lapsed_at (t : Z) (d : Database) : gset bytes :=
  filter (λ k, due d t k = true) (dom (store_ d) ∪ dom (list_store_ d)).

Section Machine.
Context `{SteadyClock} `{HashOrder}.

Definition exec_op (o : Op) : DbM Reply :=
  match o with
  | OSet k v => set k v;; mret RUnit
  | OGet k => r ← get k; mret (RValue r)
  | OFlush => flushdb;; mret RUnit
  | OLPush k vs => r ← lpush k vs; mret (RInt r)
  | ORPush k vs => r ← rpush k vs; mret (RInt r)
  | OLPop k => r ← lpop k; mret (RValue r)
  | ORPop k => r ← rpop k; mret (RValue r)
  | OLRange k a b => r ← lrange k a b; mret (RList r)
  | OLLen k => r ← llen k; mret (RInt r)
  | OLIndex k i => r ← lindex k i; mret (RValue r)
  | OExpire k s => r ← expire k s; mret (RBool r)
  | OTtl k => r ← ttl k; mret (RInt r)
  | OPersist k => r ← persist k; mret (RBool r)
  | ODel ks => r ← del ks; mret (RInt r)
  | OExists ks => r ← exists_ ks; mret (RInt r)
  | OKeys => r ← keys; mret (RList r)
  | ODbsize => r ← dbsize; mret (RInt r)
  end.

(** The last time the clock was read by an operation that moved the cursor
    from [n] to [n'] (the time it started, if it did not read the clock). *)
Definition last_reading (n n' : nat) : Z := clock (Nat.max n (Nat.pred n')).

(** Steps of the implementation: an operation under the lock, a round of the
    expiry thread, or other clock readings in between. *)
Inductive cstep : Database * nat → option Event → Database * nat → Prop :=
| c_op o r d n d' n' :
    op_ok o → exec_op o (d, n) = (r, (d', n')) →
    cstep (d, n) (Some (mkEvent (clock n) o r (last_reading n n'))) (d', n')
| c_cycle s s' : expiry_cycle s = (tt, s') → cstep s None s'
| c_wait d n n' : n ≤ n' → cstep (d, n) None (d, n').

Inductive crun : Database * nat → list Event → Database * nat → Prop :=
| crun_nil s : crun s [] s
| crun_step s l s1 ls s2 : cstep s l s1 → crun s1 ls s2 → crun s (option_list l ++ ls) s2.

(** The invariant of a reachable state. *)
Definition inv (s : Database * nat) : Prop :=
  wf (fst s) ∧ deadlines_ok (fst s) (clock (snd s)).

(** The abstract store of a state. *)
Definition abs_store (s : Database * nat) : AStore :=
  mkA (abs (clock (snd s)) (fst s)) (lapsed_at (clock (snd s)) (fst s)) (clock (snd s)).

(** ** Lemmas: the abstraction function *)

Lemma abs_lookup t d k :
  abs t d !! k = if due d t k then None else (λ v, (v, expiry_ d !! k)) <$> stored d k.
Proof.
  unfold abs, stored. rewrite map_lookup_imap, lookup_union, !lookup_fmap.
  destruct (store_ d !! k), (list_store_ d !! k); simpl; by destruct (due d t k).
Qed.

Lemma abs_tick t t' d : (t ≤ t')%Z → abs t' d = a_tick t' (abs t d).
Proof.
  intros Ht. apply map_eq. intros k. unfold a_tick. rewrite map_lookup_filter, !abs_lookup.
  unfold due, unexpired. destruct (stored d k) as [v|]; simpl; [|by repeat case_match].
  destruct (expiry_ d !! k) as [dl|] eqn:E; simpl; [|done].
  destruct (Z.leb_spec dl t'), (Z.leb_spec dl t); simpl; try done; try lia.
  - by rewrite option_guard_False by lia.
  - by rewrite option_guard_True by lia.
Qed.

(** Expiry, lazy or active, is invisible from the time it happens on. *)
Lemma abs_purged t t' d d' : (t ≤ t')%Z → purged t d d' → abs t' d' = abs t' d.
Proof.
  intros Ht Hp. apply map_eq. intros k. rewrite !abs_lookup.
  destruct (due d t k) eqn:E.
  - rewrite (due_mono _ _ _ _ Ht E). destruct Hp as (dead & -> & Hd).
    unfold due, stored. destruct (erase_keys_lookup dead d k) as (-> & -> & ->).
    case_decide; [done|]. unfold due in E. destruct (expiry_ d !! k); [|done].
    by rewrite (proj2 (Z.leb_le _ _)) by lia.
  - destruct (purged_lookup _ _ _ _ Hp E) as (E1 & E2 & E3).
    unfold due, stored. by rewrite E1, E2, E3.
Qed.

Lemma abs_purge t d k : abs t (purge d t k) = abs t d.
Proof. eapply abs_purged; [|apply purged_purge]. lia. Qed.

Lemma due_purge_self t d k : due (purge d t k) t k = false.
Proof.
  unfold purge. destruct (due d t k) eqn:E; [|done].
  unfold due. simpl. by rewrite lookup_delete_eq.
Qed.

Lemma stored_None d k : stored d k = None ↔ ¬ present d k.
Proof.
  unfold stored, present. destruct (store_ d !! k), (list_store_ d !! k); simpl;
    split; try done; intros Hn; try (destruct Hn; eauto; fail).
  by intros [[]|[]].
Qed.

(** An update of one key changes only that entry. *)
Definition same_elsewhere (k : bytes) (d d' : Database) : Prop :=
  ∀ x, x ≠ k → store_ d' !! x = store_ d !! x ∧ list_store_ d' !! x = list_store_ d !! x ∧
               expiry_ d' !! x = expiry_ d !! x.

Lemma abs_local t d d' k e :
  same_elsewhere k d d' → abs t d' !! k = e →
  abs t d' = match e with Some e => <[k := e]> (abs t d) | None => delete k (abs t d) end.
Proof.
  intros Hs He. apply map_eq. intros x. destruct (decide (k = x)) as [<-|Hne].
  - rewrite He. destruct e; by rewrite ?lookup_insert_eq, ?lookup_delete_eq.
  - destruct (Hs x ltac:(done)) as (E1 & E2 & E3).
    transitivity (abs t d !! x).
    + rewrite !abs_lookup. unfold due, stored. by rewrite E1, E2, E3.
    + destruct e; by rewrite ?lookup_insert_ne, ?lookup_delete_ne.
Qed.

Ltac elsewhere := intros x Hx; simpl; rewrite ?lookup_insert_ne, ?lookup_delete_ne by done; done.

Lemma abs_set t k v d : abs t (set_db k v d) = <[k := (VString v, None)]> (abs t d).
Proof.
  apply (abs_local t d _ k (Some (VString v, None))); [elsewhere|].
  rewrite abs_lookup. unfold due, stored. simpl.
  by rewrite lookup_insert_eq, lookup_delete_eq.
Qed.

Lemma abs_push t k l d :
  store_ d !! k = None → due d t k = false →
  abs t (push_db k l d) = <[k := (VList l, expiry_ d !! k)]> (abs t d).
Proof.
  intros Hk Hd. apply (abs_local t d _ k (Some (VList l, expiry_ d !! k))); [elsewhere|].
  rewrite abs_lookup. change (due (push_db k l d) t k) with (due d t k). rewrite Hd.
  unfold stored. simpl. by rewrite Hk, lookup_insert_eq.
Qed.

Lemma abs_erase_list t k d :
  store_ d !! k = None → abs t (erase_list_db k d) = delete k (abs t d).
Proof.
  intros Hk. apply (abs_local t d _ k None); [elsewhere|].
  rewrite abs_lookup. unfold stored. simpl. rewrite Hk, !lookup_delete_eq.
  by destruct (due _ t k).
Qed.

Lemma abs_set_expiry t k v dl d :
  (t < dl)%Z → stored d k = Some v →
  abs t (with_expiry (insert k dl) d) = <[k := (v, Some dl)]> (abs t d).
Proof.
  intros Ht Hk. apply (abs_local t d _ k (Some (v, Some dl))); [elsewhere|].
  rewrite abs_lookup. change (stored (with_expiry _ d) k) with (stored d k). rewrite Hk.
  unfold due. simpl. rewrite lookup_insert_eq. by rewrite (proj2 (Z.leb_gt _ _)) by done.
Qed.

Lemma abs_del_expiry t k v d :
  stored d k = Some v → abs t (with_expiry (delete k) d) = <[k := (v, None)]> (abs t d).
Proof.
  intros Hk. apply (abs_local t d _ k (Some (v, None))); [elsewhere|].
  rewrite abs_lookup. change (stored (with_expiry _ d) k) with (stored d k). rewrite Hk.
  unfold due. simpl. by rewrite lookup_delete_eq.
Qed.

(** *** Lapsed keys *)

Lemma elem_of_lapsed t d k : k ∈ lapsed_at t d ↔ present d k ∧ due d t k = true.
Proof. unfold lapsed_at, present. rewrite elem_of_filter, elem_of_union, !elem_of_dom. tauto. Qed.

Lemma abs_live t d k : is_Some (abs t d !! k) ↔ live_at d t k.
Proof.
  rewrite abs_lookup. unfold live_at. destruct (due d t k); [by split; [intros []|intros []]|].
  rewrite fmap_is_Some. destruct (stored d k) as [v|] eqn:E.
  - split; [intros _; split; [|done]|by eexists]. destruct (decide (present d k)) as [|Hp]; [done|].
    apply stored_None in Hp. congruence.
  - apply stored_None in E. split; [by intros []|by intros [? _]].
Qed.

Lemma elem_of_dom_abs t d k : k ∈ dom (abs t d) ↔ live_at d t k.
Proof. rewrite elem_of_dom. apply abs_live. Qed.

(** [d'] has no entry that is due at [t] but those of [d]. *)
Definition held (t : Z) (d d' : Database) : Prop :=
  ∀ k, present d' k → due d' t k = true → present d k ∧ due d t k = true.

Lemma held_refl t d : held t d d.
Proof. by intros k. Qed.

Lemma held_trans t d d1 d2 : held t d d1 → held t d1 d2 → held t d d2.
Proof. intros H1 H2 k Hp Hd. destruct (H2 k Hp Hd). by apply H1. Qed.

Lemma held_erase_keys t ks d : held t d (erase_keys ks d).
Proof.
  intros k Hp Hd. apply due_erase_keys in Hd as [Hd Hk]. split; [|done].
  unfold present in *. destruct (erase_keys_lookup ks d k) as (E1 & E2 & _). by rewrite E1, E2, !decide_False in Hp by done.
Qed.

Lemma held_purged t t' d d' : purged t d d' → held t' d d'.
Proof. intros (dead & -> & _). apply held_erase_keys. Qed.

Lemma held_local t k d d' : same_elsewhere k d d' → due d' t k = false → held t d d'.
Proof.
  intros Hs Hk x Hp Hd. destruct (decide (x = k)) as [->|Hne]; [congruence|].
  destruct (Hs x Hne) as (E1 & E2 & E3). unfold present, due in *. by rewrite E1, E2, E3 in *.
Qed.

(** What is lapsed later is lapsed now, or lost meanwhile. *)
Lemma lapsed_later t t' d : lapsed_at t' d ⊆ lapsed_at t d ∪ (dom (abs t d) ∖ dom (abs t' d)).
Proof.
  intros k. rewrite elem_of_union, elem_of_difference, !elem_of_lapsed, !elem_of_dom_abs. unfold live_at.
  intros [Hp Hd]. destruct (due d t k) eqn:E; [by left|right]. split; [done|]. intros [_ ?]. congruence.
Qed.

Lemma lapsed_purged t d d' : purged t d d' → lapsed_at t d' ⊆ lapsed_at t d.
Proof. intros Hp k. rewrite !elem_of_lapsed. intros [Hk Hd]. by apply (held_purged _ t _ _ Hp). Qed.

Lemma lost_abs t t' d : (t ≤ t')%Z → lost t' (abs t d) = dom (abs t d) ∖ dom (abs t' d).
Proof. intros Ht. unfold lost. by rewrite <- abs_tick. Qed.

(** Operations on single keys that neither delete nor flush. *)
Definition keyed (o : Op) : Prop := match o with OFlush | ODel _ => False | _ => True end.

Lemma held_left o t d d' :
  keyed o → held t d d' → lapsed_at t d' ⊆ left_over o (lapsed_at t d) (abs t d').
Proof.
  intros Ho Hh k Hk. assert (k ∈ lapsed_at t d ∖ dom (abs t d')) as Hin; [|by destruct o].
  apply elem_of_lapsed in Hk as [Hp Hd]. rewrite elem_of_difference, elem_of_lapsed, elem_of_dom_abs. split; [by apply Hh|].
  intros [_ ?]. congruence.
Qed.

(** *** Readings *)

Lemma last_reading_bounds n n' : n ≤ n' → (clock n ≤ last_reading n n' ≤ clock n')%Z.
Proof. intros Hn. unfold last_reading. split; apply clock_mono; lia. Qed.

Lemma last_reading_by n n' : read_by n n' (last_reading n n').
Proof. intros j Hj. unfold last_reading. apply clock_mono. lia. Qed.

(** ** Lemmas: the invariant *)

Lemma inv_purge d n k : inv (d, n) → inv (purge d (clock n) k, tick d k n).
Proof.
  intros [Hwf Hd]. pose proof (purged_purge (clock n) d k). split; simpl in *.
  - by eapply wf_purged.
  - eapply deadlines_mono; [apply clock_mono, tick_le|]. by eapply deadlines_purged.
Qed.

Lemma inv_later d n n' : n ≤ n' → inv (d, n) → inv (d, n').
Proof. intros Hn [Hwf Hd]. split; [done|]. eapply deadlines_mono; [by apply clock_mono|done]. Qed.

Lemma inv_sub d d' n :
  wf d' → (∀ k dl, expiry_ d' !! k = Some dl → expiry_ d !! k = Some dl) → inv (d, n) → inv (d', n).
Proof. intros Hwf Hs [_ Hd]. split; [done|]. by eapply deadlines_sub. Qed.

Lemma inv_purged d d' n n' t : n ≤ n' → purged t d d' → inv (d, n) → inv (d', n').
Proof.
  intros Hn Hp [Hwf Hd]. split; cbn [fst snd] in *; [by eapply wf_purged|].
  eapply deadlines_purged; [done|]. eapply deadlines_mono; [by apply clock_mono|done].
Qed.

(** The outcome an operation must have: the invariant is kept, the clock only
    moves forward, and the reply and the new store are the abstract ones. *)
Definition refined (o : Op) (d : Database) (n : nat) (res : Reply * (Database * nat)) : Prop :=
  let '(r, (d', n')) := res in
  inv (d', n') ∧ n ≤ n' ∧ lapsed_at (clock n) d' ⊆ left_over o (lapsed_at (clock n) d) (abs (clock n) d') ∧
  ∃ r0 t2, r = reported o r0 ∧ (clock n ≤ t2 ≤ last_reading n n')%Z ∧
    spec_op o t2 (lapsed_at (clock n) d) (abs (clock n) d) = Some (r0, abs (clock n) d').

(** An operation on a key that does not depend on the time. *)
Lemma refined_keyed o d n r r0 d' n' :
  keyed o → inv (d', n') → n ≤ n' → held (clock n) d d' → r = reported o r0 →
  spec_op o (clock n) (lapsed_at (clock n) d) (abs (clock n) d) = Some (r0, abs (clock n) d') →
  refined o d n (r, (d', n')).
Proof.
  intros Ho Hi Hn Hh Hr Hs. split_and!; [done|done|by apply held_left|]. exists r0, (clock n).
  split_and!; [done|done|by apply last_reading_bounds|done].
Qed.

(** One that only purges and answers from the purged store. *)
Lemma refined_read o d n k r r0 :
  keyed o → inv (d, n) →
  spec_op o (clock n) (lapsed_at (clock n) d) (abs (clock n) d) = Some (r0, abs (clock n) d) → r = reported o r0 →
  refined o d n (r, (purge d (clock n) k, tick d k n)).
Proof.
  intros Ho Hi Hs Hr. eapply refined_keyed; [done|by apply inv_purge|apply tick_le| |done|by rewrite abs_purge].
  eapply held_purged, purged_purge.
Qed.

(** One that changes nothing. *)
Lemma refined_same o d n r r0 :
  keyed o → inv (d, n) →
  spec_op o (clock n) (lapsed_at (clock n) d) (abs (clock n) d) = Some (r0, abs (clock n) d) → r = reported o r0 →
  refined o d n (r, (d, n)).
Proof. intros Ho Hi Hs Hr. by eapply refined_keyed; [..|apply held_refl| |]. Qed.

Lemma refined_due o d n k r r0 :
  keyed o → inv (d, n) → due d (clock n) k = true →
  spec_op o (clock n) (lapsed_at (clock n) d) (abs (clock n) d) = Some (r0, abs (clock n) d) → r = reported o r0 →
  refined o d n (r, (erase_key k d, tick d k n)).
Proof.
  intros Ho Hi Hd Hs Hr. pose proof (refined_read o d n k r r0 Ho Hi Hs Hr) as Hp.
  unfold purge in Hp. by rewrite Hd in Hp.
Qed.

(** The entry under a key, by cases on the expiry check and the maps. *)
Lemma abs_entry d t k :
  wf d →
  (abs t d !! k = None ∧ (due d t k = true ∨ due d t k = false ∧
                           store_ d !! k = None ∧ list_store_ d !! k = None)) ∨
  (∃ v, abs t d !! k = Some (VString v, expiry_ d !! k) ∧ due d t k = false ∧
        store_ d !! k = Some v ∧ list_store_ d !! k = None) ∨
  (∃ l, abs t d !! k = Some (VList l, expiry_ d !! k) ∧ due d t k = false ∧
        store_ d !! k = None ∧ list_store_ d !! k = Some l).
Proof.
  intros Hwf. rewrite abs_lookup. unfold stored.
  destruct (due d t k); [by left; auto|].
  destruct (store_ d !! k) as [v|] eqn:E1, (list_store_ d !! k) as [l|] eqn:E2; simpl.
  - destruct (wf_one_map _ Hwf k); congruence.
  - right; left; eauto.
  - right; right; eauto.
  - left; auto 6.
Qed.

(** The same case analysis as a tactic: rewrites the lookups of the goal. *)
Ltac by_entry d t k Hwf :=
  let Ea := fresh "Ea" in let Ed := fresh "Ed" in
  let Es := fresh "Es" in let El := fresh "El" in let Ec := fresh "Ec" in
  destruct (abs_entry d t k Hwf)
    as [[Ea [Ed|(Ed & Es & El)]]|[(v & Ea & Ed & Es & El)|(l & Ea & Ed & Es & El)]];
  rewrite ?Ea, ?Ed;
  [ | pose proof (proj2 (contains_None _ _) Es) as Ec; rewrite ?Ec, ?Es, ?El
    | pose proof (proj2 (contains_Some _ _) (mk_is_Some _ _ Es)) as Ec; rewrite ?Ec, ?Es, ?El
    | pose proof (proj2 (contains_None _ _) Es) as Ec; rewrite ?Ec, ?Es, ?El ].

Lemma get_refined k d n : inv (d, n) → refined (OGet k) d n (exec_op (OGet k) (d, n)).
Proof.
  intros Hi. cbn [exec_op]. run_db. rewrite get_run. eapply refined_read; [done|done|reflexivity|].
  destruct Hi as [Hwf _]. by by_entry d (clock n) k Hwf.
Qed.

Lemma lrange_refined k a b d n :
  inv (d, n) → refined (OLRange k a b) d n (exec_op (OLRange k a b) (d, n)).
Proof.
  intros Hi. cbn [exec_op]. run_db. rewrite lrange_run. eapply refined_read; [done|done|reflexivity|].
  destruct Hi as [Hwf _]. by_entry d (clock n) k Hwf; try done. by rewrite range_of_reach.
Qed.

Lemma llen_refined k d n : inv (d, n) → refined (OLLen k) d n (exec_op (OLLen k) (d, n)).
Proof.
  intros Hi. cbn [exec_op]. run_db. rewrite llen_run. eapply refined_read; [done|done|reflexivity|].
  destruct Hi as [Hwf _]. by by_entry d (clock n) k Hwf.
Qed.

Lemma lindex_refined k i d n :
  inv (d, n) → refined (OLIndex k i) d n (exec_op (OLIndex k i) (d, n)).
Proof.
  intros Hi. cbn [exec_op]. run_db. rewrite lindex_run. eapply refined_read; [done|done|reflexivity|].
  destruct Hi as [Hwf _]. by_entry d (clock n) k Hwf; try done. by rewrite index_of_at.
Qed.

Lemma set_refined k v d n : inv (d, n) → refined (OSet k v) d n (exec_op (OSet k v) (d, n)).
Proof.
  intros Hi. cbn [exec_op]. unfold mbind, state_bind. rewrite set_run.
  apply (refined_keyed _ d n RUnit RUnit); [done| |done| |done|cbn [spec_op]; by rewrite abs_set].
  - apply (inv_sub d); [apply wf_set, Hi| |done]. intros x dl. simpl. by intros [_ ?]%lookup_delete_Some.
  - apply (held_local _ k); [elsewhere|]. unfold due. simpl. by rewrite lookup_delete_eq.
Qed.

Lemma flush_refined d n : inv (d, n) → refined OFlush d n (exec_op OFlush (d, n)).
Proof.
  intros Hi. split_and!; [|done|done|].
  - split; [apply wf_empty|]. intros k dl. simpl. by rewrite lookup_empty.
  - exists RUnit, (clock n). split_and!; [done|done|by apply last_reading_bounds|done].
Qed.

(** What the loop of a push computes. *)
Lemma foldl_push_front vs l : foldl push_front l vs = rev vs ++ l.
Proof.
  revert l. induction vs as [|v vs IH]; intros l; [done|].
  cbn [foldl rev]. rewrite IH. unfold push_front. by rewrite <- app_assoc.
Qed.

Lemma foldl_push_back vs l : foldl push_back l vs = l ++ vs.
Proof.
  revert l. induction vs as [|v vs IH]; intros l; [by rewrite app_nil_r|].
  cbn [foldl]. rewrite IH. unfold push_back. by rewrite <- app_assoc.
Qed.

Lemma push_refined o push app k vs d n :
  keyed o → reported o RWrongType = RInt (-1) →
  (∀ l, foldl push l vs = app l) → (∀ l, app l ≠ []) →
  (∀ t g m, spec_op o t g m = Some (a_push app k m)) → inv (d, n) →
  refined o d n (let '(r, s) := push_with push k vs (d, n) in (RInt r, s)).
Proof.
  intros Ho Hwrong Hpush Hne Hspec Hi. rewrite push_with_run. cbv zeta.
  set (t := clock n). set (p := purge d t k).
  pose proof (inv_purge _ _ k Hi) as Hp. fold t p in Hp. pose proof Hp as [Hwf _]. simpl in Hwf.
  pose proof (due_purge_self t d k) as Hdue. fold p in Hdue.
  assert (Habs : abs t p = abs t d) by apply abs_purge.
  assert (held t d p) as Hh by (eapply held_purged, purged_purge).
  destruct (contains (store_ p) k) eqn:Ec.
  - apply (refined_keyed _ _ _ _ RWrongType); [done|done|apply tick_le|done|done|].
    rewrite Hspec. fold t. rewrite <- Habs. unfold a_push. by_entry p t k Hwf; congruence.
  - apply contains_None in Ec. rewrite Hpush.
    eapply (refined_keyed _ _ _ _ (RInt _)); [done| |apply tick_le| |reflexivity|].
    + apply (inv_sub p); [by apply wf_push|done|done].
    + eapply held_trans; [done|]. apply (held_local _ k); [elsewhere|done].
    + rewrite Hspec. fold t. rewrite <- Habs, abs_push by done.
      unfold a_push. by_entry p t k Hwf; try congruence; simpl; [|done].
      destruct (expiry_ p !! k) eqn:Ee; [|done].
      destruct (wf_expiry _ Hwf k (mk_is_Some _ _ Ee)) as [[? ?]|[? ?]]; congruence.
Qed.

Lemma pop_refined o split k d n :
  keyed o → reported o RWrongType = RValue None →
  (split [] = None) → (∀ l, l ≠ [] → is_Some (split l)) →
  (∀ t g m, spec_op o t g m = Some (a_pop split k m)) → inv (d, n) →
  refined o d n (let '(r, s) := pop_with split k (d, n) in (RValue r, s)).
Proof.
  intros Ho Hwrong Hnil Hsplit Hspec Hi. pose proof Hi as [Hwf _]. simpl in Hwf. rewrite pop_with_run.
  pose proof (inv_purge _ _ k Hi) as Hp. pose proof (abs_purge (clock n) d k) as Ha.
  pose proof (inv_later _ _ _ (tick_le d k n) Hi) as Hl.
  assert (held (clock n) d (purge d (clock n) k)) as Hh by (eapply held_purged, purged_purge).
  unfold purge in Hp, Ha, Hh. set (t := clock n) in *.
  destruct (abs_entry d t k Hwf)
    as [[Ea [Ed|(Ed & Es & El)]]|[(v & Ea & Ed & Es & El)|(l & Ea & Ed & Es & El)]];
    rewrite Ed in *; rewrite ?El.
  1, 2: apply (refined_keyed _ _ _ _ (RValue None)); [done|done|apply tick_le|done|done|];
    rewrite Hspec; unfold a_pop; fold t; by rewrite Ea, ?Ha.
  { apply (refined_keyed _ _ _ _ RWrongType); [done|done|apply tick_le|done|done|].
    rewrite Hspec; unfold a_pop; fold t; by rewrite Ea, ?Ha. }
  destruct (Hsplit l) as [[v rest] Hv]; [intros ->; by apply (wf_nonempty _ Hwf k)|].
  rewrite Hv. apply (refined_keyed _ _ _ _ (RValue (Some v))); [done| |apply tick_le| |done|].
  - apply (inv_sub d); [by eapply wf_popped| |done].
    destruct rest; intros x dl; simpl; [by intros [_ ?]%lookup_delete_Some|done].
  - apply (held_local _ k); [destruct rest; elsewhere|]. destruct rest; [|done].
    unfold due. simpl. by rewrite lookup_delete_eq.
  - rewrite Hspec. fold t. unfold a_pop. rewrite Ea, Hv. destruct rest as [|w rest]; simpl.
    + by rewrite abs_erase_list.
    + by rewrite abs_push.
Qed.

Lemma pop_back_split l : split_back l = pop_back l.
Proof.
  unfold split_back, pop_back. destruct l as [|x l] using rev_ind; [done|].
  rewrite last_snoc, reverse_snoc, reverse_involutive, length_app, Nat.add_sub, take_app_length. done.
Qed.

Lemma pop_front_split l : split_front l = pop_front l.
Proof. by destruct l. Qed.

Lemma pop_back_some l : l ≠ [] → is_Some (pop_back l).
Proof.
  intros Hl. unfold pop_back. destruct (reverse l) eqn:E; [|by eexists].
  apply (f_equal reverse) in E. rewrite reverse_involutive in E. done.
Qed.

Lemma pop_front_some l : l ≠ [] → is_Some (pop_front l).
Proof. destruct l; [done|]. intros _. by eexists. Qed.

(** Pops depend on the list only. *)
Lemma pop_with_ext split split' k s : (∀ l, split l = split' l) → pop_with split k s = pop_with split' k s.
Proof.
  intros E. destruct s as [d n]. rewrite !pop_with_run. destruct (list_store_ d !! k) as [l|]; [by rewrite E|done].
Qed.

(** An absent key: EXPIRE, TTL and PERSIST return early, before the clock is
    read. *)
Lemma not_exists_abs d t k : key_exists_unlocked k d = false → abs t d !! k = None.
Proof.
  intros Hk. rewrite abs_lookup. assert (stored d k = None) as ->.
  - apply stored_None. rewrite <- key_exists_present. by rewrite Hk.
  - by destruct (due d t k).
Qed.

Lemma due_abs d t k : due d t k = true → abs t d !! k = None.
Proof. intros Hd. by rewrite abs_lookup, Hd. Qed.

(** A key that exists and is not due has an entry. *)
Lemma live_abs d t k :
  key_exists_unlocked k d = true → due d t k = false →
  ∃ v, stored d k = Some v ∧ abs t d !! k = Some (v, expiry_ d !! k).
Proof.
  intros Hk Hd. destruct (stored d k) as [v|] eqn:E.
  - exists v. split; [done|]. by rewrite abs_lookup, Hd, E.
  - apply stored_None in E. by apply key_exists_present in Hk.
Qed.

Lemma expire_refined k s d n :
  op_ok (OExpire k s) → inv (d, n) → refined (OExpire k s) d n (exec_op (OExpire k s) (d, n)).
Proof.
  intros Hs Hi. cbn [exec_op op_ok] in *. unfold mbind, state_bind. rewrite expire_run.
  destruct (key_exists_unlocked k d) eqn:Ek; cbn [negb].
  2: { eapply refined_same; [done|done|cbn [spec_op]; by rewrite not_exists_abs|done]. }
  destruct (due d (clock n) k) eqn:Ed.
  { eapply refined_due; [done..|cbn [spec_op]; by rewrite due_abs|done]. }
  destruct (live_abs d (clock n) k Ek Ed) as (v & Hv & Ha).
  set (m := tick d k n). pose proof (tick_le d k n) as Hm. fold m in Hm.
  pose proof (clock_mono _ _ Hm) as Hc. pose proof (clock_range m) as Hr.
  rewrite deadline_after_exact by lia. cbv zeta. destruct Hi as [Hwf Hdl]. simpl in *.
  assert (clock n < clock m + s * NS_PER_S)%Z as Hlater by (unfold NS_PER_S; lia).
  split_and!; [|lia| |].
  - split; simpl; [apply wf_set_expiry; [done|by apply key_exists_present]|].
    pose proof (clock_mono m (S m) ltac:(lia)). intros x dl. simpl.
    intros [[<- <-]|[_ Hx]]%lookup_insert_Some; [unfold NS_PER_S, INT_MAX in *; lia|].
    apply Hdl in Hx. lia.
  - apply (held_left (OExpire k s)); [done|]. apply (held_local _ k); [elsewhere|]. unfold due. simpl.
    rewrite lookup_insert_eq. lia.
  - exists (RBool true), (clock m). split_and!; [done|done| |].
    + unfold last_reading. apply clock_mono. lia.
    + rewrite Ha. do 2 f_equal. symmetry. by apply abs_set_expiry.
Qed.

Lemma ttl_refined k d n : inv (d, n) → refined (OTtl k) d n (exec_op (OTtl k) (d, n)).
Proof.
  intros Hi. cbn [exec_op]. unfold mbind, state_bind. rewrite ttl_run.
  destruct (key_exists_unlocked k d) eqn:Ek; cbn [negb].
  2: { eapply refined_same; [done|done|cbn [spec_op]; by rewrite not_exists_abs|done]. }
  destruct (due d (clock n) k) eqn:Ed.
  { eapply refined_due; [done..|cbn [spec_op]; by rewrite due_abs|done]. }
  destruct (live_abs d (clock n) k Ek Ed) as (v & Hv & Ha).
  destruct (expiry_ d !! k) as [dl|] eqn:Ee.
  - split_and!; [apply (inv_later _ n); [lia|done]|lia|apply held_left; [done|apply held_refl]|].
    pose proof (clock_mono n (S n) ltac:(lia)). eexists _, (clock (S n)). split_and!; [|done| |].
    2: unfold last_reading; apply clock_mono; lia.
    2: cbn [spec_op]; rewrite Ha; reflexivity.
    cbn [reported]. f_equal. rewrite seconds_left_exact; [done|apply clock_range|].
    destruct Hi as [_ Hdl]. apply Hdl in Ee. simpl in *. lia.
  - eapply refined_same; [done|done|cbn [spec_op]; by rewrite Ha|done].
Qed.

Lemma persist_refined k d n :
  inv (d, n) → refined (OPersist k) d n (exec_op (OPersist k) (d, n)).
Proof.
  intros Hi. cbn [exec_op]. unfold mbind, state_bind. rewrite persist_run.
  destruct (key_exists_unlocked k d) eqn:Ek; cbn [negb].
  2: { eapply refined_same; [done|done|cbn [spec_op]; by rewrite not_exists_abs|done]. }
  destruct (due d (clock n) k) eqn:Ed.
  { eapply refined_due; [done..|cbn [spec_op]; by rewrite due_abs|done]. }
  destruct (live_abs d (clock n) k Ek Ed) as (v & Hv & Ha).
  eapply (refined_keyed _ _ _ _ (RBool (contains (expiry_ d) k))); [done| |apply tick_le| |done|].
  - apply (inv_sub d); [apply wf_del_expiry, Hi| |apply (inv_later _ n); [apply tick_le|done]].
    intros x dl. simpl. by intros [_ ?]%lookup_delete_Some.
  - apply (held_local _ k); [elsewhere|]. unfold due. simpl. by rewrite lookup_delete_eq.
  - cbn [spec_op]. rewrite Ha, (abs_del_expiry _ _ v) by done.
    destruct (expiry_ d !! k) as [dl|] eqn:Ee.
    + by rewrite (proj2 (contains_Some _ _)) by (by rewrite Ee).
    + rewrite (proj2 (contains_None _ _)) by done. do 2 f_equal. symmetry. by apply insert_id.
Qed.

Lemma abs_erase_key t k d : abs t (erase_key k d) = delete k (abs t d).
Proof.
  apply (abs_local t d _ k None); [elsewhere|]. rewrite abs_lookup. unfold due, stored. simpl.
  by rewrite !lookup_delete_eq.
Qed.

Lemma abs_erase_keys t ks d : abs t (erase_keys ks d) = foldl (λ m k, delete k m) (abs t d) ks.
Proof.
  revert d. induction ks as [|k ks IH]; intros d; [done|].
  cbn [erase_keys foldl]. rewrite <- abs_erase_key. apply IH.
Qed.

(** DEL counts the entries and the lapsed keys. *)
Lemma present_count_spec t d ks :
  present_count d ks = size (list_to_set ks ∩ (dom (abs t d) ∪ lapsed_at t d)).
Proof.
  unfold present_count. f_equal. apply set_eq. intros k.
  rewrite elem_of_filter, elem_of_intersection, elem_of_union, elem_of_dom_abs, elem_of_lapsed. unfold live_at.
  destruct (due d t k); intuition congruence.
Qed.

Lemma del_refined ks d n : inv (d, n) → refined (ODel ks) d n (exec_op (ODel ks) (d, n)).
Proof.
  intros Hi. cbn [exec_op]. unfold mbind, state_bind, del. rewrite del_fold_run by apply Hi. split_and!.
  - apply (inv_sub d); [apply wf_erase_keys, Hi| |done]. intros k dl.
    destruct (erase_keys_lookup ks d k) as (_ & _ & ->). by case_decide.
  - done.
  - intros k [Hp Hd]%elem_of_lapsed. cbn [left_over]. rewrite elem_of_difference, elem_of_list_to_set, elem_of_lapsed.
    split; [by apply (held_erase_keys _ ks)|]. by apply due_erase_keys in Hd as [_ ?].
  - eexists _, (clock n). split_and!; [|done|by apply last_reading_bounds|cbn [spec_op]; by rewrite abs_erase_keys].
    cbn [reported]. by rewrite <- present_count_spec.
Qed.

(** Every operation but the scans refines its abstract operation. *)
Definition scans (o : Op) : bool := match o with OExists _ | OKeys | ODbsize => true | _ => false end.

Lemma exec_refined o d n : scans o = false → op_ok o → inv (d, n) → refined o d n (exec_op o (d, n)).
Proof.
  intros Hsc Hok Hi. destruct o; try done.
  - by apply set_refined.
  - by apply get_refined.
  - by apply flush_refined.
  - apply (push_refined _ push_front (λ l, rev vs ++ l)); [done|done|intros l; apply foldl_push_front| |done..].
    intros l E%app_nil. destruct E as [E _]. apply Hok. by rewrite <- (rev_involutive vs), E.
  - apply (push_refined _ push_back (λ l, l ++ vs)); [done|done|intros l; apply foldl_push_back| |done..].
    by intros l [_ E]%app_nil.
  - cbn [exec_op]. unfold mbind, state_bind, lpop. rewrite (pop_with_ext _ _ _ _ pop_front_split).
    by apply (pop_refined _ pop_front); [..|apply pop_front_some| |].
  - cbn [exec_op]. unfold mbind, state_bind, rpop. rewrite (pop_with_ext _ _ _ _ pop_back_split).
    by apply (pop_refined _ pop_back); [..|apply pop_back_some| |].
  - by apply lrange_refined.
  - by apply llen_refined.
  - by apply lindex_refined.
  - by apply expire_refined.
  - by apply ttl_refined.
  - by apply persist_refined.
  - by apply del_refined.
Qed.

(** *** Scans *)

(** The outcome a scan must have. *)
Definition scanned (o : Op) (d : Database) (n : nat) (res : Reply * (Database * nat)) : Prop :=
  let '(r, (d', n')) := res in
  let t1 := last_reading n n' in
  n ≤ n' ∧ purged t1 d d' ∧ scan_reply o (abs (clock n) d) (abs t1 d) r.

Lemma held_live t d ks : held_count (abs t d) ks = length (filter (live_at d t) ks).
Proof. unfold held_count. f_equal. apply list_filter_iff. intros k. apply abs_live. Qed.

Lemma exists_scanned ks d n : scanned (OExists ks) d n (exec_op (OExists ks) (d, n)).
Proof.
  cbn [exec_op]. unfold mbind, state_bind, exists_.
  destruct (exists_fold_run ks 0 d n) as (m & d' & n' & E & Hn & Hhi & Hend). rewrite E.
  destruct (Hend _ (last_reading_by n n')) as [Hp Hlo]. split_and!; [done|done|].
  exists m. rewrite !held_live. by split.
Qed.

Lemma keys_scanned d n : inv (d, n) → scanned OKeys d n (exec_op OKeys (d, n)).
Proof.
  intros Hi. cbn [exec_op]. unfold mbind, state_bind.
  destruct (keys_run d n) as (ls & dead & n' & E & Hn & Hp & Hl & Hd). rewrite E.
  specialize (Hd _ (last_reading_by n n')). split_and!; [done|by exists dead|]. cbn [scan_reply]. split_and!.
  - pose proof (all_keys_NoDup _ (proj1 Hi)) as Hnd. rewrite <- Hp in Hnd. by apply NoDup_app in Hnd as [].
  - intros k [Hk Hnd]%elem_of_dom_abs. apply elem_of_list_to_set.
    apply all_keys_present in Hk. rewrite <- Hp in Hk. apply elem_of_app in Hk as [Hk|Hk]; [done|].
    rewrite Forall_forall in Hd. apply Hd in Hk. congruence.
  - intros k Hk%elem_of_list_to_set. apply elem_of_dom_abs. rewrite Forall_forall in Hl. split; [|by apply Hl].
    apply all_keys_present. rewrite <- Hp. apply elem_of_app. by left.
Qed.

Lemma dbsize_scanned d n : inv (d, n) → scanned ODbsize d n (exec_op ODbsize (d, n)).
Proof.
  intros Hi. pose proof (keys_scanned d n Hi) as Hk. cbn [exec_op] in *. unfold mbind, state_bind in *.
  rewrite dbsize_keys. destruct (keys (d, n)) as [l [d' n']]. destruct Hk as (Hn & Hp & Hnd & Hlo & Hhi).
  split_and!; [done|done|]. exists (length l). split; [done|].
  rewrite <- (size_list_to_set (C := gset bytes) l Hnd), <- !(size_dom (D := gset bytes)).
  split; by apply subseteq_size.
Qed.

Lemma exec_scanned o d n : scans o = true → inv (d, n) → scanned o d n (exec_op o (d, n)).
Proof. intros Hs Hi. destruct o; try done; [apply exists_scanned|by apply keys_scanned|by apply dbsize_scanned]. Qed.

(** ** The expiry thread *)

Lemma erase_fold ks d n :
  foldM (λ _ key, update (with_store (delete key));;
                  update (with_list_store (delete key));;
                  update (with_expiry (delete key))) tt ks (d, n) = (tt, (erase_keys ks d, n)).
Proof.
  revert d. induction ks as [|k ks IH]; intros d; [done|].
  rewrite foldM_cons. run_db. apply IH.
Qed.

(** The keys a round of the thread erases: those of the sample that are due. *)
Definition sampled_due (d : Database) (t : Z) : list bytes :=
  (filter (λ kd : bytes * Z, (snd kd ≤ t)%Z) (take MAX_SAMPLE (iter (expiry_ d)))).*1.

Lemma expiry_cycle_run d n :
  expiry_cycle (d, n) =
  if bool_decide (expiry_ d = ∅) then (tt, (d, n))
  else (tt, (erase_keys (sampled_due d (clock n)) d, S n)).
Proof.
  unfold expiry_cycle. run_db. case_bool_decide; [done|]. by rewrite erase_fold.
Qed.

Lemma sampled_due_due d t : Forall (λ k, due d t k = true) (sampled_due d t).
Proof.
  apply Forall_forall. intros k ([k' dl] & -> & [Hdl Hin]%list_elem_of_filter)%list_elem_of_fmap.
  apply elem_of_take in Hin as (i & Hi & _).
  apply list_elem_of_lookup_2, iter_elem_of in Hi. unfold due. simpl in *. rewrite Hi. lia.
Qed.

Lemma length_sampled_due d t : length (sampled_due d t) ≤ MAX_SAMPLE.
Proof.
  unfold sampled_due. rewrite length_fmap. etrans; [apply length_filter|].
  rewrite length_take. lia.
Qed.

Lemma expiry_cycle_purged d n :
  ∃ d' n', expiry_cycle (d, n) = (tt, (d', n')) ∧ n ≤ n' ∧ purged (clock n) d d'.
Proof.
  rewrite expiry_cycle_run. case_bool_decide.
  - exists d, n. split_and!; [done|lia|apply purged_refl].
  - do 2 eexists. split_and!; [done|lia|]. eexists. split; [done|apply sampled_due_due].
Qed.

(** Time passes until [t'], and some of the keys that are due are erased. *)
Lemma purged_wait t t' d d' :
  (t ≤ t')%Z → purged t' d d' →
  astep (mkA (abs t d) (lapsed_at t d) t) None (mkA (abs t' d') (lapsed_at t' d') t').
Proof.
  intros Ht Hp. rewrite (abs_purged _ _ _ _ (Z.le_refl t') Hp), (abs_tick t t') by done. apply a_wait; [done|].
  rewrite lost_abs by done. etransitivity; [by apply lapsed_purged|apply lapsed_later].
Qed.

Lemma arun_one a l a' : astep a l a' → arun a (option_list l) a'.
Proof. intros Hs. rewrite <- (app_nil_r (option_list l)). econstructor; [done|constructor]. Qed.

Lemma arun_app a l1 a1 l2 a2 : arun a l1 a1 → arun a1 l2 a2 → arun a (l1 ++ l2) a2.
Proof.
  induction 1 as [a|a l a' ls a1 Hs _ IH]; intros H2; [done|].
  rewrite <- app_assoc. econstructor; [done|]. by apply IH.
Qed.

(** An operation, and the time until the next reading. *)
Lemma exec_astep o d n :
  op_ok o → inv (d, n) →
  let '(r, (d', n')) := exec_op o (d, n) in
  inv (d', n') ∧ n ≤ n' ∧ ∃ r0, r = reported o r0 ∧
    arun (abs_store (d, n)) [mkEvent (clock n) o r0 (last_reading n n')] (abs_store (d', n')).
Proof.
  intros Hok Hi. destruct (scans o) eqn:Hsc.
  - pose proof (exec_scanned o d n Hsc Hi) as Hr. destruct (exec_op o (d, n)) as [r [d' n']].
    destruct Hr as (Hn & Hp & Hr). pose proof (last_reading_bounds n n' Hn) as [Hlo Hhi].
    split_and!; [by eapply inv_purged|done|]. exists r. split; [by destruct o, r|].
    apply (arun_app _ [_] (mkA (abs (last_reading n n') d) (lapsed_at (last_reading n n') d) (last_reading n n')) []).
    + apply (arun_one _ (Some _)). unfold abs_store. cbn [fst snd]. rewrite (abs_tick (clock n) (last_reading n n')) in Hr |- * by done.
      apply a_scan; [done|done|]. rewrite lost_abs by done. apply lapsed_later.
    + apply (arun_one _ None), purged_wait; [done|]. by eapply purged_mono.
  - pose proof (exec_refined o d n Hsc Hok Hi) as Hr. destruct (exec_op o (d, n)) as [r [d' n']].
    destruct Hr as (Hi' & Hn & Hleft & r0 & t2 & Hr & [Hlo Hhi] & Hs).
    pose proof (last_reading_bounds n n' Hn) as [Hlo' Hhi'].
    split_and!; [done|done|]. exists r0. split; [done|].
    apply (arun_app _ [_] (mkA (abs (last_reading n n') d') (lapsed_at (last_reading n n') d') (last_reading n n')) []).
    + apply (arun_one _ (Some _)). rewrite (abs_tick (clock n) (last_reading n n') d') by done. unfold abs_store. cbn [fst snd].
      eapply a_do; [split; [exact Hlo|exact Hhi]|exact Hs|].
      rewrite lost_abs by done. etransitivity; [apply (lapsed_later (clock n))|]. set_solver.
    + apply (arun_one _ None), purged_wait; [done|apply purged_refl].
Qed.

(** The simulation diagram: each step of the implementation is matched by
    the abstract store, with the same operation, reply and times. *)
Lemma cstep_sim s l s' :
  cstep s l s' → inv s →
  inv s' ∧ snd s ≤ snd s' ∧ ∃ ls, arun (abs_store s) ls (abs_store s') ∧ option_list l = as_reported <$> ls.
Proof.
  intros Hstep Hi. destruct Hstep as [o r d n d' n' Hok He|[d n] s' He|d n n' Hn].
  - pose proof (exec_astep o d n Hok Hi) as Hr. rewrite He in Hr. destruct Hr as (Hi' & Hn & r0 & -> & Ha).
    split_and!; [done|done|]. eexists. by split; [exact Ha|].
  - destruct (expiry_cycle_purged d n) as (d' & n' & E & Hn & Hp). rewrite E in He. simplify_eq.
    split_and!; [by eapply inv_purged|done|]. exists []. split; [|done].
    apply (arun_one _ None), purged_wait; [by apply clock_mono|]. eapply purged_mono; [by apply clock_mono|done].
  - split_and!; [by eapply inv_later|done|]. exists []. split; [|done].
    apply (arun_one _ None), purged_wait; [by apply clock_mono|apply purged_refl].
Qed.

Lemma crun_sim s evs s' :
  crun s evs s' → inv s →
  inv s' ∧ snd s ≤ snd s' ∧ ∃ ls, arun (abs_store s) ls (abs_store s') ∧ evs = as_reported <$> ls.
Proof.
  induction 1 as [s|s l s1 evs s2 Hstep _ IH]; intros Hi.
  { split_and!; [done|done|]. exists []. split; [constructor|done]. }
  destruct (cstep_sim _ _ _ Hstep Hi) as (Hi1 & Hn1 & l1 & Ha1 & E1).
  destruct (IH Hi1) as (Hi2 & Hn2 & l2 & Ha2 & ->). split_and!; [done|lia|]. exists (l1 ++ l2).
  split; [by eapply arun_app|]. by rewrite fmap_app, E1.
Qed.

Lemma inv_empty : inv (empty_db, 0).
Proof. split; [apply wf_empty|]. intros k dl. simpl. by rewrite lookup_empty. Qed.

End Machine.
