(* ===== verification/DatabaseClaims.v ===== *)
(** * The store: theorems

    The statements about [Database.v] that clients of the store rely on,
    proved from the run lemmas ([DatabaseFacts.v]) and the refinement
    ([DatabaseSpec.v]), each with an evaluated instance. *)

From S2P Require Import Prelude Database DatabaseFacts DatabaseSpec.

(** A database with one string key that has a deadline, for the instances. *)
Definition demo_db (deadline : Z) : Database :=
  mkDb {[ $"k" := $"v" ]} {[ $"l" := [$"a"; $"b"; $"c"] ]} {[ $"k" := deadline ]}.

(** Twenty-one keys that never expire soon and one that is due. *)
Definition crowded_key (i : nat) : bytes := [ascii_of_nat i].
Definition crowded_db : Database :=
  mkDb (list_to_map ((λ i, (crowded_key i, $"v")) <$> seq 0 22)) ∅
       (list_to_map ((λ i, (crowded_key i, 5000000000%Z)) <$> seq 0 22)).

(** The last key of the iteration order, made due. *)
Definition starved_db : Database :=
  match last (map_to_list (expiry_ crowded_db)) with
  | Some (k, _) => with_expiry (insert k 1%Z) crowded_db
  | None => crowded_db
  end.

Lemma wf_demo_db t : wf (demo_db t).
Proof.
  constructor; intros k; unfold demo_db, present; simpl.
  - destruct (decide ($"k" = k)) as [<-|]; [right; by vm_compute|left; by simplify_map_eq].
  - intros [x [<- <-]%lookup_singleton_Some]. left. by rewrite lookup_singleton_eq.
  - by intros [_ ?]%lookup_singleton_Some.
Qed.

Section Claims.
Context `{SteadyClock} `{HashOrder}.

(** C1: the store refines its specification.  From the empty database, under
    any interleaving of operations and rounds of the expiry thread, the
    operations, their replies and the times at which they started and ended are
    a run of the abstract store: one map in which every entry vanishes exactly
    at its deadline.  EXPIRE sets its deadline, and TTL computes the remaining
    time, with a time between the start and the end of the operation; a scan
    (EXISTS, KEYS, DBSIZE) reports the keys that are there from its start to
    its end and none that was gone at its start.  When a lapsed entry is
    reclaimed shows in nothing but the count of DEL, which includes the keys
    that are not reclaimed yet; for a key of the wrong type -1 or nothing is
    returned, as [reported] says. *)
Theorem store_refines_spec evs s :
  crun (empty_db, 0) evs s →
  ∃ spec_evs, arun (mkA ∅ ∅ (clock 0)) spec_evs (abs_store s) ∧ evs = as_reported <$> spec_evs.
Proof. intros Hrun. by destruct (crun_sim _ _ _ Hrun inv_empty) as (_ & _ & Ha). Qed.

(** C5: in every reachable state a key lives in at most one of the two maps,
    only existing keys have a deadline, no list is empty, and every deadline
    is at most INT_MAX seconds ahead, so no deadline computation overflows. *)
Theorem store_invariant evs s :
  crun (empty_db, 0) evs s → wf (fst s) ∧ deadlines_ok (fst s) (clock (snd s)).
Proof. intros Hrun. by destruct (crun_sim _ _ _ Hrun inv_empty). Qed.

(** KEYS lists, without repetition, keys that existed and were unexpired
    when the scan began, misses none that is still unexpired when it ends,
    and removes nothing but expired keys. *)
Theorem keys_complete d n :
  wf d →
  ∃ res d' n', keys (d, n) = (res, (d', n')) ∧ n ≤ n' ∧ NoDup res ∧
    (∀ k, k ∈ res → live_at d (clock n) k) ∧
    (∀ k, live_at d (clock n') k → k ∈ res) ∧ purged (clock n') d d'.
Proof.
  intros Hwf. destruct (keys_run d n) as (live & dead & n' & E & Hn & Hp & Hl & Hd).
  specialize (Hd _ (read_by_end n n')). exists live, (erase_keys dead d), n'. split_and!; [done|done| | | |by exists dead].
  - pose proof (all_keys_NoDup d Hwf) as Hnd. rewrite <- Hp in Hnd. by apply NoDup_app in Hnd as [].
  - intros k Hk. split; [|rewrite Forall_forall in Hl; auto].
    apply all_keys_present. rewrite <- Hp. apply elem_of_app. by left.
  - intros k [Hk Hnd]. apply all_keys_present in Hk. rewrite <- Hp in Hk.
    apply elem_of_app in Hk as [Hk|Hk]; [done|]. rewrite Forall_forall in Hd.
    apply Hd in Hk. congruence.
Qed.

(** DBSIZE returns the length of the list KEYS would return in the same
    state, with the same effect on the database and the clock. *)
Theorem dbsize_is_length_of_keys d n :
  dbsize (d, n) = (Z.of_nat (length (fst (keys (d, n)))), snd (keys (d, n))).
Proof. rewrite dbsize_keys. by destruct (keys (d, n)). Qed.

(** EXISTS counts its arguments with multiplicity: every argument that is
    still unexpired at the end, and only arguments that were unexpired at the
    start. *)
Theorem exists_counts_live ks d n :
  ∃ m d' n', exists_ ks (d, n) = (Z.of_nat m, (d', n')) ∧ purged (clock n') d d' ∧
    length (filter (live_at d (clock n')) ks) ≤ m ≤ length (filter (live_at d (clock n)) ks).
Proof.
  destruct (exists_fold_run ks 0 d n) as (m & d' & n' & E & _ & Hhi & Hend).
  destruct (Hend _ (read_by_end n n')) as [Hp Hlo]. exists m, d', n'. unfold exists_. rewrite E. by split_and!.
Qed.

(** DEL erases exactly its arguments from all three maps and returns the
    number of distinct arguments present in the store; expiry is not
    consulted. *)
Theorem del_counts_present ks d n :
  wf d → del ks (d, n) = (Z.of_nat (present_count d ks), (erase_keys ks d, n)).
Proof. intros Hwf. unfold del. by rewrite del_fold_run. Qed.

(** As a consequence DEL reports as deleted a key whose deadline has
    passed but that was not purged yet, a key EXISTS already denies. *)
Theorem del_counts_expired d n k :
  wf d → present d k → due d (clock n) k = true →
  fst (del [k] (d, n)) = 1%Z ∧ fst (exists_ [k] (d, n)) = 0%Z.
Proof.
  intros Hwf Hp Hd. unfold del, exists_. split.
  - rewrite del_fold_run by done. rewrite present_count_cons, decide_True by done. done.
  - rewrite foldM_cons, exists_one_run, Hd. done.
Qed.

(** LRANGE on a list returns the slice from start to stop inclusive,
    negative indices counting from the end and out-of-range ones clamped, for
    all pairs of int indices. *)
Theorem lrange_is_slice k l start stop d n :
  list_store_ d !! k = Some l → due d (clock n) k = false →
  (Z.of_nat (length l) ≤ INT_MAX)%Z →
  fst (lrange k start stop (d, n)) = slice l start stop.
Proof. intros Hk Hd Hl. rewrite lrange_run, Hd, Hk. by apply range_of_slice. Qed.

(** A deadline is honoured exactly: after EXPIRE of [s] seconds, a GET at
    a later clock reading returns the value while less than [s] seconds have
    passed since EXPIRE read the clock, and nil from then on. *)
Theorem expire_then_get k v s d n m j :
  store_ d !! k = Some v → due d (clock n) k = false → (0 < s ≤ INT_MAX)%Z →
  tick d k n = m → m < j →
  fst (expire k s (d, n)) = true ∧
  fst (get k (fst (snd (expire k s (d, n))), j)) =
    if (clock j <? clock m + s * NS_PER_S)%Z then Some v else None.
Proof.
  intros Hk Hd Hs <- Hj. rewrite expire_run, Hd.
  assert (key_exists_unlocked k d = true) as ->.
  { apply key_exists_present. left. by rewrite Hk. }
  split; [done|]. cbn [negb fst snd]. rewrite get_run. cbn [fst].
  rewrite deadline_after_exact by (lia || apply clock_range).
  unfold due. simpl. rewrite lookup_insert_eq.
  destruct (Z.ltb_spec (clock j) (clock (tick d k n) + s * NS_PER_S)).
  - by rewrite (proj2 (Z.leb_gt _ _)).
  - by rewrite (proj2 (Z.leb_le _ _)) by lia.
Qed.

(** A round of the expiry thread erases at most MAX_SAMPLE keys, all of
    them due; and a round that finds at most MAX_SAMPLE keys with a deadline
    leaves no key that was due. *)
Theorem expiry_cycle_sound d n :
  ∃ dead n', expiry_cycle (d, n) = (tt, (erase_keys dead d, n')) ∧ length dead ≤ MAX_SAMPLE ∧
    Forall (λ k, due d (clock n) k = true) dead ∧
    (MAX_SAMPLE < size (expiry_ d) ∨ ∀ k, due (erase_keys dead d) (clock n) k = false).
Proof.
  rewrite expiry_cycle_run. case_bool_decide as He.
  { exists [], n. split_and!; [done|simpl; lia|constructor|right]. intros k.
    unfold due. cbn. by rewrite He, lookup_empty. }
  exists (sampled_due d (clock n)), (S n).
  split_and!; [done|apply length_sampled_due|apply sampled_due_due|].
  destruct (decide (MAX_SAMPLE < size (expiry_ d))) as [|Hs]; [by left|right]. intros k.
  destruct (due (erase_keys _ d) (clock n) k) eqn:E; [|done].
  apply due_erase_keys in E as [E []]. unfold due in E.
  destruct (expiry_ d !! k) as [dl|] eqn:Ek; [|done]. apply list_elem_of_fmap.
  exists (k, dl). split; [done|]. apply list_elem_of_filter. split; [simpl; lia|].
  rewrite take_ge by (rewrite length_iter; lia). by apply iter_elem_of.
Qed.

(** The thread always samples the first MAX_SAMPLE entries of the hash
    table's iteration order; when none of these is due the round changes
    nothing, however many of the remaining keys are due. *)
Theorem expiry_cycle_starves d n :
  expiry_ d ≠ ∅ →
  Forall (λ kd, (clock n < snd kd)%Z) (take MAX_SAMPLE (iter (expiry_ d))) →
  expiry_cycle (d, n) = (tt, (d, S n)).
Proof.
  intros He Hf. rewrite expiry_cycle_run, bool_decide_eq_false_2 by done.
  assert (sampled_due d (clock n) = []) as ->; [|done].
  unfold sampled_due. rewrite (filter_none _ (take _ _)); [done|].
  eapply Forall_impl; [done|]. intros kd Hkd. simpl in *. lia.
Qed.

End Claims.

(** ** Instances *)

(** SET, EXPIRE, GET and TTL on the demonstration clock. *)
Definition demo_events : list Event :=
  [mkEvent 1000000000 (OSet ($"k") ($"v")) RUnit 1000000000; mkEvent 1000000000 (OExpire ($"k") 5) (RBool true) 1000000000;
   mkEvent 1001000000 (OGet ($"k")) (RValue (Some ($"v"))) 1001000000;
   mkEvent 1002000000 (OTtl ($"k")) (RInt 4) 1003000000].

Definition demo_after : Database * nat := (mkDb {[ $"k" := $"v" ]} ∅ {[ $"k" := 6000000000%Z ]}, 4).

Lemma demo_cstep e d n d' n' :
  op_ok (ev_op e) → @exec_op demo_clock gmap_order (ev_op e) (d, n) = (ev_reply e, (d', n')) →
  ev_from e = demo_time n → ev_to e = @last_reading demo_clock n n' →
  @cstep demo_clock gmap_order (d, n) (Some e) (d', n').
Proof. destruct e as [t o r t']. cbn [ev_op ev_reply ev_from ev_to]. intros Hok He -> ->. by apply (@c_op demo_clock gmap_order). Qed.

Lemma demo_crun : @crun demo_clock gmap_order (empty_db, 0) demo_events demo_after.
Proof.
  apply (crun_step _ (Some _)) with (s1 := (set_db $"k" $"v" empty_db, 0)); [by apply demo_cstep; vm_compute|].
  apply (crun_step _ (Some _)) with (s1 := (fst demo_after, 1)); [by apply demo_cstep; vm_compute|].
  apply (crun_step _ (Some _)) with (s1 := (fst demo_after, 2)); [by apply demo_cstep; vm_compute|].
  apply (crun_step _ (Some _) demo_after []); [by apply demo_cstep; vm_compute|constructor].
Qed.

Lemma store_refines_spec_witness :
  ∃ spec_evs, arun (mkA ∅ ∅ 1000000000) spec_evs (@abs_store demo_clock demo_after) ∧ demo_events = as_reported <$> spec_evs.
Proof. apply (@store_refines_spec demo_clock gmap_order demo_events demo_after). exact demo_crun. Defined.

Lemma store_invariant_witness : wf (fst demo_after) ∧ deadlines_ok (fst demo_after) (@clock demo_clock 4).
Proof. apply (@store_invariant demo_clock gmap_order demo_events demo_after). exact demo_crun. Defined.

Lemma keys_complete_witness :
  ∃ res d' n', @keys demo_clock gmap_order (demo_db 0, 0) = (res, (d', n')) ∧ 0 ≤ n' ∧ NoDup res ∧
    (∀ k, k ∈ res → live_at (demo_db 0) (@clock demo_clock 0) k) ∧
    (∀ k, live_at (demo_db 0) (@clock demo_clock n') k → k ∈ res) ∧
    purged (@clock demo_clock n') (demo_db 0) d'.
Proof. apply (@keys_complete demo_clock gmap_order (demo_db 0) 0). apply wf_demo_db. Defined.

Lemma del_counts_present_witness :
  @del [$"k"; $"x"; $"k"] (demo_db 0, 0) =
  (Z.of_nat (present_count (demo_db 0) [$"k"; $"x"; $"k"]), (erase_keys [$"k"; $"x"; $"k"] (demo_db 0), 0)).
Proof. apply del_counts_present. apply wf_demo_db. Defined.

Lemma del_counts_expired_witness :
  fst (del [$"k"] (demo_db 0, 0)) = 1%Z ∧
  fst (@exists_ demo_clock [$"k"] (demo_db 0, 0)) = 0%Z.
Proof.
  apply (@del_counts_expired demo_clock (demo_db 0) 0 $"k"); [apply wf_demo_db| |done].
  left. exists $"v". by vm_compute.
Defined.

Lemma lrange_is_slice_witness :
  fst (@lrange demo_clock $"l" (-2) 100 (demo_db 0, 0)) = [$"b"; $"c"].
Proof.
  apply (@lrange_is_slice demo_clock $"l" [$"a"; $"b"; $"c"] (-2) 100 (demo_db 0) 0);
    [by vm_compute|by vm_compute|vm_compute; discriminate].
Defined.

Lemma expire_then_get_witness :
  fst (@expire demo_clock $"k" 1 (demo_db 5000000000, 0)) = true ∧
  fst (@get demo_clock $"k" (fst (snd (@expire demo_clock $"k" 1 (demo_db 5000000000, 0))), 2)) =
    (if (@clock demo_clock 2 <? @clock demo_clock 1 + 1 * NS_PER_S)%Z then Some $"v" else None).
Proof.
  apply (@expire_then_get demo_clock $"k" $"v" 1 (demo_db 5000000000) 0 1 2);
    [by vm_compute|by vm_compute|split; vm_compute; congruence|by vm_compute|lia].
Defined.

Lemma expiry_cycle_starves_witness :
  @expiry_cycle demo_clock gmap_order (starved_db, 0) = (tt, (starved_db, 1)).
Proof.
  apply (@expiry_cycle_starves demo_clock gmap_order starved_db 0).
  { intros E. apply (f_equal size) in E. vm_compute in E. discriminate. }
  apply (bool_decide_unpack _). vm_compute. exact I.
Defined.
