(* ===== verification/ExpiryThread.v ===== *)
(** * The expiry thread (database/database.cpp, lines 9-11 and 440-493)

    Two threads share the database: the main thread, which executes commands
    and calls [start_expiry_thread] and [stop_expiry_thread], and the expiry
    thread, which runs [expiry_loop].  Every access to the maps holds the
    mutex of the database for a whole public operation, so operations are
    atomic; everything between them (the flag, the condition variable, the
    join) is a small step of its own.  The loop's wait is
    [wait_for(lock, 100ms, pred)], that is: evaluate the predicate, block if
    it is false, wake up by a notification, spuriously or by the timeout.

    The second half is the main thread's view, used by the command handlers:
    before an operation gets the lock, any number of rounds of the loop may
    have run ([locked]). *)

From S2P Require Import Prelude Database DatabaseFacts DatabaseSpec DatabaseClaims.

(** ** State *)

(** Where the expiry thread is; [NotStarted] is a [std::thread] that is not
    joinable. *)
Inductive ThreadPc :=
  | NotStarted
  | LoopTest      (** at [while (expiry_running_)] *)
  | Evaluating    (** in [wait_for], about to evaluate the predicate *)
  | BeforeSleep   (** the predicate was false, not blocked yet *)
  | Sleeping      (** blocked on the condition variable *)
  | AfterWait     (** at [if (!expiry_running_) break] *)
  | Scanning      (** about to lock [mutex_] and scan *)
  | Returned.     (** the loop has ended, the thread can be joined *)

(** Where the main thread is: outside the two functions, inside
    [stop_expiry_thread] before [notify_all] or at [join], or dead by
    [std::terminate]. *)
Inductive MainPc := Working | Notifying | Joining | Terminated.

#[global] Instance ThreadPc_eq : EqDecision ThreadPc.
Proof. solve_decision. Defined.
#[global] Instance MainPc_eq : EqDecision MainPc.
Proof. solve_decision. Defined.

Record Threads := mkThreads {
  expiry_running_ : bool;
  thread_pc : ThreadPc;
  main_pc : MainPc;
  shared : Database * nat;
}.

(** [std::thread::joinable]. *)
Definition joinable (t : ThreadPc) : bool := negb (bool_decide (t = NotStarted)).

(** The state of a program that has constructed its [Database]. *)
Definition threads_init : Threads := mkThreads false NotStarted Working (empty_db, 0).

Section Threads.
Context `{SteadyClock} `{HashOrder}.
Implicit Types (s : Threads) (d : Database * nat).

(** ** Steps *)

(** A public operation of the database, called by the main thread. *)
Inductive call_step : Database * nat → option Event → Database * nat → Prop :=
  | call_op o r (db : Database) n (db' : Database) n' :
      op_ok o → exec_op o (db, n) = (r, (db', n')) →
      call_step (db, n) (Some (mkEvent (clock n) o r (last_reading n n'))) (db', n')
  | call_none (db : Database) n n' : n ≤ n' → call_step (db, n) None (db, n').

(** [expiry_loop], statement by statement; the scan is [expiry_cycle]. *)
Inductive loop_step : Threads → Threads → Prop :=
  | loop_enter m d : loop_step (mkThreads true LoopTest m d) (mkThreads true Evaluating m d)
  | loop_leave m d : loop_step (mkThreads false LoopTest m d) (mkThreads false Returned m d)
  | wait_stopped m d : loop_step (mkThreads false Evaluating m d) (mkThreads false AfterWait m d)
  | wait_running m d : loop_step (mkThreads true Evaluating m d) (mkThreads true BeforeSleep m d)
  | wait_block r m d : loop_step (mkThreads r BeforeSleep m d) (mkThreads r Sleeping m d)
  | wait_spurious r m d : loop_step (mkThreads r Sleeping m d) (mkThreads r Evaluating m d)
  | wait_timeout r m d : loop_step (mkThreads r Sleeping m d) (mkThreads r AfterWait m d)
  | loop_break m d : loop_step (mkThreads false AfterWait m d) (mkThreads false Returned m d)
  | loop_continue m d : loop_step (mkThreads true AfterWait m d) (mkThreads true Scanning m d)
  | loop_scan r m d d' : expiry_cycle d = (tt, d') →
      loop_step (mkThreads r Scanning m d) (mkThreads r LoopTest m d').

(** [start_expiry_thread]: assigning to a joinable [std::thread] terminates
    the process. *)
Definition start_expiry_thread (s : Threads) : Threads :=
  if joinable (thread_pc s) then mkThreads true (thread_pc s) Terminated (shared s)
  else mkThreads true LoopTest (main_pc s) (shared s).

(** [notify_all] moves a blocked thread to the evaluation of its predicate. *)
Definition notify_all (t : ThreadPc) : ThreadPc :=
  if bool_decide (t = Sleeping) then Evaluating else t.

(** [stop_expiry_thread], up to and including the store to the flag. *)
Definition stop_begin (s : Threads) : Threads :=
  if expiry_running_ s then mkThreads false (thread_pc s) Notifying (shared s) else s.

(** The rest of it: notify, then join if there is something to join. *)
Inductive stop_step : Threads → Threads → Prop :=
  | stop_notify r t d :
      stop_step (mkThreads r t Notifying d)
        (mkThreads r (notify_all t) (if joinable (notify_all t) then Joining else Working) d)
  | stop_join r d : stop_step (mkThreads r Returned Joining d) (mkThreads r NotStarted Working d).

(** The two threads interleaved, with the visible operation if any. *)
Inductive tstep : Threads → option Event → Threads → Prop :=
  | t_loop s s' : main_pc s ≠ Terminated → loop_step s s' → tstep s None s'
  | t_call r t d l d' : call_step d l d' → tstep (mkThreads r t Working d) l (mkThreads r t Working d')
  | t_start s : main_pc s = Working → tstep s None (start_expiry_thread s)
  | t_stop s : main_pc s = Working → tstep s None (stop_begin s)
  | t_stopping s s' : stop_step s s' → tstep s None s'.

Inductive trun : Threads → list Event → Threads → Prop :=
  | trun_nil s : trun s [] s
  | trun_step s l s1 ls s2 : tstep s l s1 → trun s1 ls s2 → trun s (option_list l ++ ls) s2.

(** ** The invariant of the two threads *)

(** Outside [stop_expiry_thread] the flag says whether there is a thread, and
    the thread has not returned; inside it the flag is down and there is a
    thread to join. *)
Definition threads_ok s : Prop :=
  match main_pc s with
  | Working => thread_pc s ≠ Returned ∧ (expiry_running_ s = true ↔ thread_pc s ≠ NotStarted)
  | Notifying | Joining => expiry_running_ s = false ∧ thread_pc s ≠ NotStarted
  | Terminated => True
  end.

Lemma loop_step_main s s' : loop_step s s' → main_pc s' = main_pc s ∧ expiry_running_ s' = expiry_running_ s.
Proof. by destruct 1. Qed.

Lemma loop_step_ok s s' : loop_step s s' → threads_ok s → threads_ok s'.
Proof. destruct 1; unfold threads_ok; simpl; destruct m; naive_solver. Qed.

Lemma start_ok s : main_pc s = Working → threads_ok s → threads_ok (start_expiry_thread s).
Proof.
  unfold threads_ok, start_expiry_thread, joinable. intros ->. case_bool_decide; cbn; [|done].
  by split; [|split].
Qed.

Lemma stop_ok s : main_pc s = Working → threads_ok s → threads_ok (stop_begin s).
Proof.
  unfold threads_ok, stop_begin. intros Hm. destruct (expiry_running_ s) eqn:E; [|by rewrite Hm, E].
  rewrite Hm. cbn. naive_solver.
Qed.

Lemma notify_joinable t : t ≠ NotStarted → joinable (notify_all t) = true.
Proof. by destruct t. Qed.

Lemma stop_step_ok s s' : stop_step s s' → threads_ok s → threads_ok s'.
Proof.
  destruct 1; unfold threads_ok; cbn.
  - intros [-> Ht]. rewrite notify_joinable by done. split; [done|]. by destruct t.
  - by intros [-> _].
Qed.

Lemma tstep_ok s l s' : tstep s l s' → threads_ok s → threads_ok s'.
Proof.
  destruct 1; [by apply loop_step_ok|done|by apply start_ok|by apply stop_ok|by apply stop_step_ok].
Qed.

Lemma trun_ok s ls s' : trun s ls s' → threads_ok s → threads_ok s'.
Proof. induction 1 as [|s l s1 ls s2 Hs _ IH]; [done|]. intros Hok. by apply IH, (tstep_ok s l). Qed.

Lemma trun_snoc s ls s1 s2 : trun s ls s1 → tstep s1 None s2 → trun s ls s2.
Proof.
  induction 1 as [s|s l s1 ls s3 Hs _ IH]; intros H2.
  - apply (trun_step _ None s2); [done|constructor].
  - apply (trun_step _ l s1); [done|auto].
Qed.

Lemma threads_init_ok : threads_ok threads_init.
Proof. done. Qed.

(** ** The store under two threads *)

Lemma call_cstep d l d' : call_step d l d' → cstep d l d'.
Proof. destruct 1; [by apply c_op|by apply c_wait]. Qed.

(** A step changes the database as the store's machine does, or not at all. *)
Lemma tstep_store s l s' : tstep s l s' → cstep (shared s) l (shared s') ∨ (l = None ∧ shared s' = shared s).
Proof.
  destruct 1 as [s s' _ Hs|r t d l d' Hc|s Hm|s Hm|s s' Hs].
  - destruct Hs; [by right..|]. left. by apply c_cycle.
  - left. by apply call_cstep.
  - right. unfold start_expiry_thread. by case_match.
  - right. unfold stop_begin. by case_match.
  - right. by destruct Hs.
Qed.

Lemma trun_crun s ls s' : trun s ls s' → crun (shared s) ls (shared s').
Proof.
  induction 1 as [|s l s1 ls s2 Hs _ IH]; [constructor|].
  destruct (tstep_store _ _ _ Hs) as [Hc|[-> E]]; [by econstructor|by rewrite E in IH].
Qed.

(** ** Stopping *)

(** The main thread is inside [stop_expiry_thread]. *)
Definition stopping s : Prop := main_pc s = Notifying ∨ main_pc s = Joining.

(** [stop_expiry_thread] has returned and the thread is gone. *)
Definition stopped s : Prop :=
  main_pc s = Working ∧ thread_pc s = NotStarted ∧ expiry_running_ s = false.

(** Whatever the scheduler does, a state of [P] is reached within [n] steps: no
    run gets stuck or goes on for longer before it. *)
Inductive within : nat → (Threads → Prop) → Threads → Prop :=
  | within_now n (P : Threads → Prop) s : P s → within n P s
  | within_later n (P : Threads → Prop) s :
      (∃ l s', tstep s l s') → (∀ l s', tstep s l s' → within n P s') → within (S n) P s.

Lemma within_mono n n' P s : within n P s → n ≤ n' → within n' P s.
Proof.
  intros Hw. revert n'. induction Hw as [n P s Hp|n P s Hmove _ IH]; intros n' Hn; [by apply within_now|].
  destruct n' as [|n']; [lia|]. apply within_later; [done|]. intros l s' Hs. apply (IH l s' Hs). lia.
Qed.

(** Steps the thread can still make once the flag is down, and the main
    thread's own two. *)
Definition thread_left (t : ThreadPc) : nat :=
  match t with
  | BeforeSleep => 4
  | Sleeping => 3
  | Evaluating | Scanning => 2
  | AfterWait | LoopTest => 1
  | NotStarted | Returned => 0
  end.
Definition steps_left s : nat :=
  thread_left (thread_pc s) + match main_pc s with Notifying => 2 | Joining => 1 | _ => 0 end.

(** While stopping, every step makes progress and keeps stopping, or is the
    join. *)
Lemma stopping_step s l s' :
  threads_ok s → stopping s → tstep s l s' → steps_left s' < steps_left s ∧ (stopping s' ∨ stopped s').
Proof.
  intros Hok Hst Hs. destruct Hs as [s s' _ Hs|r t d l d' Hc|s Hm|s Hm|s s' Hs].
  - assert (expiry_running_ s = false) as Hr.
    { unfold threads_ok in Hok. destruct Hst as [E|E]; rewrite E in Hok; apply Hok. }
    destruct (loop_step_main _ _ Hs) as [Em _].
    split; [|left; unfold stopping; by rewrite Em].
    destruct Hs; simpl in *; try discriminate; unfold steps_left; simpl; lia.
  - by destruct Hst.
  - destruct Hst; congruence.
  - destruct Hst; congruence.
  - destruct Hs as [r t d|r d]; unfold threads_ok in Hok; cbn in Hok; destruct Hok as [-> Ht].
    + unfold steps_left, stopping, stopped. cbn [main_pc thread_pc]. rewrite notify_joinable by done.
      split; [|by left; right]. unfold notify_all. case_bool_decide; [subst|]; simpl; lia.
    + split; [unfold steps_left; simpl; lia|by right].
Qed.

(** While stopping, some thread can move. *)
Lemma stopping_moves s : threads_ok s → stopping s → ∃ l s', tstep s l s'.
Proof.
  destruct s as [r t m d]. unfold stopping, threads_ok. cbn. intros Hok [-> | ->].
  - eexists _, _. apply t_stopping, stop_notify.
  - destruct Hok as [-> Ht]. exists None.
    assert (∀ s', loop_step (mkThreads false t Joining d) s' → ∃ s', tstep (mkThreads false t Joining d) None s') as Hl
      by (intros s' Hs; exists s'; by apply t_loop).
    destruct t; [done|..].
    1-5: (eapply Hl; constructor).
    + destruct (expiry_cycle d) as [[] d'] eqn:E. by eapply Hl, loop_scan.
    + eexists. apply t_stopping, stop_join.
Qed.

Lemma stopping_within s : threads_ok s → stopping s → within (steps_left s) stopped s.
Proof.
  remember (steps_left s) as n eqn:En. revert s En. induction n as [n IH] using lt_wf_ind. intros s -> Hok Hst.
  destruct (stopping_moves s Hok Hst) as (l0 & s0 & Hs0).
  destruct (stopping_step s l0 s0 Hok Hst Hs0) as [Hlt0 _]. destruct (steps_left s) as [|n] eqn:En; [lia|].
  apply within_later; [by eexists _, _|]. intros l s' Hs.
  destruct (stopping_step s l s' Hok Hst Hs) as [Hlt [Hst'|Hd]]; [|by apply within_now].
  apply (within_mono (steps_left s')); [|lia]. by apply IH; [lia| |eapply tstep_ok|].
Qed.

(** ** Theorems *)


(** C12: [stop_expiry_thread] always returns, and the thread is gone when it
    does.  From every reachable state in which the main thread is inside it,
    wherever the expiry thread is (also in the window in which the
    notification is lost), every schedule reaches the join, without deadlock
    and within six steps of the two threads. *)
Theorem stop_terminates evs s : trun threads_init evs s → stopping s → within 6 stopped s.
Proof.
  intros Hrun Hst. assert (threads_ok s) as Hok by (by apply (trun_ok _ _ _ Hrun), threads_init_ok).
  apply (within_mono (steps_left s)); [by apply stopping_within|].
  unfold steps_left. destruct Hst as [-> | ->]; destruct (thread_pc s); simpl; lia.
Qed.

(** The thread's life cycle.  In every reachable state there is an expiry
    thread exactly while the flag is up, except inside
    [stop_expiry_thread], which always has one to join; in particular after
    it has returned no round runs until the next start, and starting twice
    without stopping terminates the process. *)
Theorem thread_lifecycle ls s :
  trun threads_init ls s → main_pc s = Working →
  (expiry_running_ s = true ↔ thread_pc s ≠ NotStarted) ∧
  (expiry_running_ s = false → ∀ s', ¬ loop_step s s') ∧
  (main_pc (start_expiry_thread s) = Terminated ↔ expiry_running_ s = true).
Proof.
  intros Hrun Hm. pose proof (trun_ok _ _ _ Hrun threads_init_ok) as Hok.
  unfold threads_ok in Hok. rewrite Hm in Hok. destruct Hok as [_ Hiff]. split_and!; [done| |].
  - intros Hr s' Hs. assert (thread_pc s = NotStarted) as Ht
      by (destruct (decide (thread_pc s = NotStarted)); [done|]; exfalso; rewrite Hr in Hiff; naive_solver).
    by destruct Hs.
  - rewrite Hiff. unfold start_expiry_thread, joinable. case_bool_decide; cbn; [by rewrite Hm|done].
Qed.

End Threads.

(** The notification can be lost: it is sent without the condition
    variable's mutex, so it may come after the thread has found the flag up
    and before it blocks.  The thread then sleeps although the flag is down,
    and only the timeout (or a spurious wake-up) ends the wait. *)
Theorem notification_lost `{SteadyClock} `{HashOrder} :
  ∃ s, trun threads_init [] s ∧ main_pc s = Joining ∧ thread_pc s = Sleeping ∧ expiry_running_ s = false ∧
    ∀ s', loop_step s s' → thread_pc s' = Evaluating ∨ thread_pc s' = AfterWait.
Proof.
  exists (mkThreads false Sleeping Joining (empty_db, 0)). split_and!; [|done..|].
  - apply (trun_step _ None (mkThreads true LoopTest Working (empty_db, 0))); [by apply t_start|].
    apply (trun_step _ None (mkThreads true Evaluating Working (empty_db, 0))); [apply t_loop; [done|constructor]|].
    apply (trun_step _ None (mkThreads true BeforeSleep Working (empty_db, 0))); [apply t_loop; [done|constructor]|].
    apply (trun_step _ None (mkThreads false BeforeSleep Notifying (empty_db, 0))); [by apply t_stop|].
    apply (trun_step _ None (mkThreads false BeforeSleep Joining (empty_db, 0))); [apply t_stopping, stop_notify|].
    apply (trun_step _ None (mkThreads false Sleeping Joining (empty_db, 0))); [apply t_loop; [done|constructor]|].
    constructor.
  - inversion 1; subst; auto.
Qed.

(** ** The main thread's view *)

(** How many rounds of the loop run while the main thread waits for the lock
    at a clock cursor. *)
Class Scheduler := { rounds : nat → nat }.

Section Locked.
Context `{SteadyClock} `{HashOrder} `{Scheduler}.
Implicit Types (d : Database) (n : nat).

Fixpoint cycles (k : nat) : DbM unit :=
  match k with O => mret tt | S k' => expiry_cycle;; cycles k' end.

(** The rounds of the expiry thread before an operation gets the lock.  The
    clock cursor moves, so every schedule of rounds between operations is an
    instance. *)
Definition background : DbM unit := λ '(d, n), cycles (rounds n) (d, S n).

(** An operation of the database as a command sees it. *)
Definition locked {A} (m : DbM A) : DbM A := background;; m.

Lemma cycles_run k d n :
  ∃ d' n', cycles k (d, n) = (tt, (d', n')) ∧ n ≤ n' ∧ purged (clock n') d d' ∧ crun (d, n) [] (d', n').
Proof.
  revert d n. induction k as [|k IH]; intros d n; cbn [cycles].
  - exists d, n. split_and!; [done|done|apply purged_refl|constructor].
  - unfold mbind, state_bind. destruct (expiry_cycle_purged d n) as (d1 & n1 & E & Hn & Hp). rewrite E.
    destruct (IH d1 n1) as (d2 & n2 & -> & Hn2 & Hp2 & Hls). exists d2, n2. split_and!; [done|lia| |].
    + eapply purged_trans; [eapply purged_mono; [|done]; apply clock_mono; lia|done].
    + eapply (crun_step _ None _ []); [by apply c_cycle|done].
Qed.

(** What the main thread finds when it gets the lock: some keys that are due
    are gone, and time has passed. *)
Lemma background_run d n :
  ∃ d' n', background (d, n) = (tt, (d', n')) ∧ n < n' ∧ purged (clock n') d d' ∧ crun (d, n) [] (d', n').
Proof.
  unfold background. destruct (cycles_run (rounds n) d (S n)) as (d' & n' & -> & Hn & Hp & Hls).
  exists d', n'. split_and!; [done|lia|done|].
  eapply (crun_step _ None _ []); [|done]. apply c_wait. lia.
Qed.

Lemma locked_run {A} (m : DbM A) d n :
  ∃ d' n', locked m (d, n) = m (d', n') ∧ n < n' ∧ purged (clock n') d d'.
Proof.
  destruct (background_run d n) as (d' & n' & E & Hn & Hp & _). exists d', n'.
  unfold locked, mbind, state_bind. by rewrite E.
Qed.

(** A key without a deadline is not touched by the thread. *)
Lemma purged_lasting t d d' k :
  purged t d d' → expiry_ d !! k = None →
  store_ d' !! k = store_ d !! k ∧ list_store_ d' !! k = list_store_ d !! k ∧ expiry_ d' !! k = None.
Proof.
  intros Hp He. assert (due d t k = false) as Hd by (unfold due; by rewrite He).
  destruct (purged_lookup _ _ _ _ Hp Hd) as (-> & -> & ->). by split_and!.
Qed.

End Locked.

(** ** Instances *)

(** One round before every operation. *)
Definition busy_scheduler : Scheduler := {| rounds := λ _, 1 |}.

(** Starting the thread, SET by the main thread, a scan, GET. *)
Definition demo_threads : Threads := mkThreads true LoopTest Working (set_db ($"k") ($"v") empty_db, 1).

Definition demo_thread_events : list Event :=
  [mkEvent 1000000000 (OSet ($"k") ($"v")) RUnit 1000000000;
   mkEvent 1000000000 (OGet ($"k")) (RValue (Some ($"v"))) 1000000000].

Lemma demo_call r t e d n d' n' :
  op_ok (ev_op e) → @exec_op demo_clock gmap_order (ev_op e) (d, n) = (ev_reply e, (d', n')) →
  ev_from e = demo_time n → ev_to e = @last_reading demo_clock n n' →
  @tstep demo_clock gmap_order (mkThreads r t Working (d, n)) (Some e) (mkThreads r t Working (d', n')).
Proof. destruct e as [t0 o x t1]. cbn [ev_op ev_reply ev_from ev_to]. intros Hok He -> ->. by apply t_call, (@call_op demo_clock gmap_order). Qed.

Lemma demo_trun : @trun demo_clock gmap_order threads_init demo_thread_events demo_threads.
Proof.
  set (d := set_db ($"k") ($"v") empty_db).
  apply (trun_step _ None (mkThreads true LoopTest Working (empty_db, 0))); [by apply t_start|].
  apply (trun_step _ None (mkThreads true Evaluating Working (empty_db, 0))); [apply t_loop; [done|constructor]|].
  apply (trun_step _ None (mkThreads true BeforeSleep Working (empty_db, 0))); [apply t_loop; [done|constructor]|].
  apply (trun_step _ (Some _) (mkThreads true BeforeSleep Working (d, 0))); [by apply demo_call; vm_compute|].
  apply (trun_step _ None (mkThreads true Sleeping Working (d, 0))); [apply t_loop; [done|constructor]|].
  apply (trun_step _ None (mkThreads true AfterWait Working (d, 0))); [apply t_loop; [done|constructor]|].
  apply (trun_step _ None (mkThreads true Scanning Working (d, 0))); [apply t_loop; [done|constructor]|].
  apply (trun_step _ None (mkThreads true LoopTest Working (d, 0))); [apply t_loop; [done|by constructor; vm_compute]|].
  apply (trun_step _ (Some _) (mkThreads true LoopTest Working (d, 0))); [by apply demo_call; vm_compute|].
  apply (trun_step _ None (mkThreads true LoopTest Working (d, 1))); [apply t_call, call_none; lia|].
  constructor.
Qed.


(** Stopping while the thread is at the top of its loop. *)
Lemma stop_terminates_witness :
  @within demo_clock gmap_order 6 stopped (mkThreads false LoopTest Notifying (shared demo_threads)).
Proof.
  apply (@stop_terminates demo_clock gmap_order demo_thread_events).
  - apply (trun_snoc _ _ demo_threads); [exact demo_trun|by apply t_stop].
  - by left.
Defined.

Lemma thread_lifecycle_witness : expiry_running_ demo_threads = true ↔ thread_pc demo_threads ≠ NotStarted.
Proof. apply (@thread_lifecycle demo_clock gmap_order _ _ demo_trun). reflexivity. Defined.
