(* ===== verification/Crc32.v ===== *)
(** * The CRC-32 of the dump file (persistence/persistence.cpp, lines 9-46 and 117-143)

    The table generator, the table-driven update and the chunked file loop,
    and what makes them a CRC: the update is the bitwise polynomial division
    step, the chunking is irrelevant, and no change of a single byte goes
    unnoticed.  32-bit values are [Z] in [0, 2^32). *)

From S2P Require Import Prelude.

Local Open Scope Z_scope.

(** ** Code *)

Definition CRC32_POLY : Z := 3988292384.  (* 0xEDB88320 *)
Definition CRC32_MASK : Z := 4294967295.  (* 0xFFFFFFFF *)
Definition CHUNK_SIZE : nat := 4096.

(** One iteration of the loop of [generate_crc32_entry]. *)
Definition crc_bit (crc : Z) : Z :=
  if negb (Z.land crc 1 =? 0) then Z.lxor (Z.shiftr crc 1) CRC32_POLY else Z.shiftr crc 1.

Definition generate_crc32_entry (index : Z) : Z := Nat.iter 8 crc_bit index.

(** [CRC32TableInit]: entry [i] is [generate_crc32_entry i]. *)
Definition crc32_table : list Z := generate_crc32_entry <$> seqZ 0 256.

(** The update of the checksum with one byte. *)
Definition crc_update (crc : Z) (c : ascii) : Z :=
  let index := Z.land (Z.lxor crc (byte_val c)) 255 in
  Z.lxor (Z.shiftr crc 8) (default 0 (crc32_table !! Z.to_nat index)).

(** The read loop: [rest] is what the stream has not delivered yet.  A short
    read leaves the stream bad, which ends the loop. *)
Fixpoint crc_chunks (fuel remaining : nat) (rest : bytes) (crc : Z) : Z :=
  match fuel with
  | O => crc
  | S f =>
      match remaining with
      | O => crc
      | _ =>
          let to_read := Nat.min remaining CHUNK_SIZE in
          let chunk := take to_read rest in
          let crc := foldl crc_update crc chunk in
          if (length chunk <? to_read)%nat then crc
          else crc_chunks f (remaining - length chunk) (drop to_read rest) crc
      end
  end.

(** [Persistence::compute_crc32]; [None] is a file that cannot be opened.
    Every round but the last reads [CHUNK_SIZE] bytes, so [length + 1] rounds
    are more than enough. *)
Definition compute_crc32 (file : option bytes) (len : nat) : Z :=
  match file with
  | None => 0
  | Some contents => Z.lxor (crc_chunks (S len) len contents CRC32_MASK) CRC32_MASK
  end.

(** ** Reference definition: one polynomial division step per bit *)

Definition crc_bitwise (crc : Z) (c : ascii) : Z := Nat.iter 8 crc_bit (Z.lxor crc (byte_val c)).

Definition crc32_of (data : bytes) : Z :=
  Z.lxor (foldl crc_bitwise CRC32_MASK data) CRC32_MASK.

(** A 32-bit value. *)
Definition word (x : Z) : Prop := 0 ≤ x < 2 ^ 32.

(** ** Lemmas: linearity *)

Lemma land_1_testbit x : negb (Z.land x 1 =? 0) = Z.testbit x 0.
Proof.
  change 1 with (Z.ones 1). rewrite Z.land_ones by lia.
  rewrite Z.bit0_odd. change (2 ^ 1) with 2. rewrite Zmod_odd. by destruct (Z.odd x).
Qed.

Lemma crc_bit_eq x :
  crc_bit x = Z.lxor (Z.shiftr x 1) (if Z.testbit x 0 then CRC32_POLY else 0).
Proof. unfold crc_bit. rewrite land_1_testbit. destruct (Z.testbit x 0); [done|]. by rewrite Z.lxor_0_r. Qed.

Lemma crc_bit_lxor x y : crc_bit (Z.lxor x y) = Z.lxor (crc_bit x) (crc_bit y).
Proof.
  rewrite !crc_bit_eq, Z.shiftr_lxor, Z.lxor_spec.
  apply Z.bits_inj'. intros i Hi. rewrite !Z.lxor_spec.
  destruct (Z.testbit x 0), (Z.testbit y 0); cbn [xorb]; rewrite ?Z.testbit_0_l;
    generalize (Z.testbit (Z.shiftr x 1) i), (Z.testbit (Z.shiftr y 1) i), (Z.testbit CRC32_POLY i);
    by intros [] [] [].
Qed.

Lemma iter_S {A} n (f : A → A) x : Nat.iter (S n) f x = f (Nat.iter n f x).
Proof. done. Qed.

Lemma iter_crc_bit_lxor n x y :
  Nat.iter n crc_bit (Z.lxor x y) = Z.lxor (Nat.iter n crc_bit x) (Nat.iter n crc_bit y).
Proof. induction n as [|n IH]; [done|]. by rewrite !iter_S, IH, crc_bit_lxor. Qed.

(** Zero low bits are shifted out. *)
Lemma iter_crc_bit_shiftl n y :
  Nat.iter n crc_bit (Z.shiftl y (Z.of_nat n)) = y.
Proof.
  revert y. induction n as [|n IH]; intros y; [apply Z.shiftl_0_r|].
  rewrite Nat.iter_succ_r, crc_bit_eq.
  rewrite Z.shiftl_spec_low by lia. rewrite Z.lxor_0_r.
  rewrite Z.shiftr_shiftl_l by lia.
  replace (Z.of_nat (S n) - 1) with (Z.of_nat n) by lia. apply IH.
Qed.

Lemma split_byte x : x = Z.lxor (Z.land x 255) (Z.shiftl (Z.shiftr x 8) 8).
Proof.
  apply Z.bits_inj'. intros i Hi. change 255 with (Z.ones 8).
  rewrite Z.lxor_spec, Z.land_spec, Z.shiftl_spec by done.
  destruct (Z.ltb_spec i 8).
  - rewrite Z.ones_spec_low, (Z.testbit_neg_r _ (i - 8)) by lia.
    by rewrite andb_true_r, xorb_false_r.
  - rewrite Z.ones_spec_high, Z.shiftr_spec by lia.
    rewrite andb_false_r, xorb_false_l. f_equal. lia.
Qed.

Lemma land_255_range x : 0 ≤ Z.land x 255 < 256.
Proof.
  change 255 with (Z.ones 8). rewrite Z.land_ones by lia. apply Z.mod_pos_bound. lia.
Qed.

Lemma table_lookup i : 0 ≤ i < 256 → default 0 (crc32_table !! Z.to_nat i) = generate_crc32_entry i.
Proof.
  intros Hi. unfold crc32_table. rewrite list_lookup_fmap, lookup_seqZ_lt by lia.
  simpl. f_equal. lia.
Qed.

Lemma byte_shiftr_8 c : Z.shiftr (byte_val c) 8 = 0.
Proof. pose proof (byte_val_range c). rewrite Z.shiftr_div_pow2 by lia. apply Z.div_small. lia. Qed.

(** The table step is the bitwise step. *)
Lemma crc_update_bitwise crc c : crc_update crc c = crc_bitwise crc c.
Proof.
  unfold crc_update, crc_bitwise. rewrite table_lookup by apply land_255_range.
  rewrite (split_byte (Z.lxor crc (byte_val c))) at 2.
  rewrite iter_crc_bit_lxor. change 8 with (Z.of_nat 8) at 3. rewrite iter_crc_bit_shiftl.
  rewrite Z.shiftr_lxor, byte_shiftr_8, Z.lxor_0_r. apply Z.lxor_comm.
Qed.

(** The chunked loop is a fold over the first [len] bytes. *)
Lemma crc_chunks_fold fuel len rest crc :
  (len < fuel)%nat → crc_chunks fuel len rest crc = foldl crc_update crc (take len rest).
Proof.
  revert len rest crc. induction fuel as [|f IH]; intros len rest crc Hf; [lia|].
  cbn [crc_chunks]. destruct len as [|len]; [done|]. set (m := S len) in *.
  set (r := Nat.min m CHUNK_SIZE). cbv zeta.
  assert (Hr : (0 < r ≤ m)%nat) by (unfold r, m, CHUNK_SIZE; lia).
  destruct (Nat.ltb_spec (length (take r rest)) r) as [Hs|Hs]; rewrite length_take in Hs.
  - rewrite !take_ge by lia. done.
  - rewrite IH by (rewrite length_take; lia). rewrite length_take.
    replace (m - (r `min` length rest))%nat with (m - r)%nat by lia.
    rewrite <- foldl_app. f_equal. rewrite take_take_drop. f_equal. lia.
Qed.

Lemma compute_crc32_spec contents len :
  compute_crc32 (Some contents) len = crc32_of (take len contents).
Proof.
  unfold compute_crc32, crc32_of. rewrite crc_chunks_fold by lia. f_equal.
  generalize CRC32_MASK (take len contents). intros x l. revert x.
  induction l as [|c l IH]; intros x; [done|]. cbn [foldl]. by rewrite crc_update_bitwise.
Qed.

(** ** Lemmas: error detection *)

Lemma word_bits x : word x → ∀ i, 32 ≤ i → Z.testbit x i = false.
Proof.
  intros Hx i Hi. unfold word in Hx. rewrite <- (Z.mod_small x (2 ^ 32)) by done.
  by apply Z.mod_pow2_bits_high.
Qed.

Lemma word_lxor x y : word x → word y → word (Z.lxor x y).
Proof.
  intros Hx Hy. unfold word. assert (0 ≤ Z.lxor x y) as H0.
  { apply Z.lxor_nonneg. unfold word in *. lia. }
  split; [done|]. destruct (Z.eq_dec (Z.lxor x y) 0) as [->|Hn]; [done|].
  apply Z.log2_lt_pow2; [lia|]. destruct (Z.lt_ge_cases (Z.log2 (Z.lxor x y)) 32); [done|].
  assert (Z.testbit (Z.lxor x y) (Z.log2 (Z.lxor x y)) = true) as Hb by (apply Z.bit_log2; lia).
  by rewrite Z.lxor_spec, !word_bits in Hb.
Qed.

Lemma word_shiftr x n : 0 ≤ n → word x → word (Z.shiftr x n).
Proof.
  intros Hn [H0 H1]. split; [by apply Z.shiftr_nonneg|].
  rewrite Z.shiftr_div_pow2 by done. apply Z.div_lt_upper_bound; [lia|].
  pose proof (Z.pow_pos_nonneg 2 n ltac:(lia) Hn). nia.
Qed.

Lemma word_crc_bit x : word x → word (crc_bit x).
Proof.
  intros Hx. rewrite crc_bit_eq. apply word_lxor; [by apply word_shiftr|].
  by destruct (Z.testbit x 0).
Qed.

Lemma word_iter n x : word x → word (Nat.iter n crc_bit x).
Proof. intros Hx. induction n as [|n IH]; [done|]. rewrite iter_S. by apply word_crc_bit. Qed.

Lemma word_byte c : word (byte_val c).
Proof. pose proof (byte_val_range c). unfold word. lia. Qed.

Lemma word_bitwise x c : word x → word (crc_bitwise x c).
Proof. intros Hx. apply word_iter, word_lxor; [done|apply word_byte]. Qed.

(** The polynomial has its top bit set, so a division step loses nothing. *)
Lemma crc_bit_inj x y : word x → word y → crc_bit x = crc_bit y → x = y.
Proof.
  intros Hx Hy E. rewrite !crc_bit_eq in E.
  assert (Hb : Z.testbit x 0 = Z.testbit y 0).
  { apply (f_equal (λ z, Z.testbit z 31)) in E. rewrite !Z.lxor_spec, !Z.shiftr_spec in E by lia.
    rewrite (word_bits x Hx), (word_bits y Hy) in E by lia.
    destruct (Z.testbit x 0), (Z.testbit y 0); vm_compute in E; done. }
  rewrite Hb in E. apply (f_equal (λ z, Z.lxor z (if Z.testbit y 0 then CRC32_POLY else 0))) in E.
  rewrite !Z.lxor_assoc, Z.lxor_nilpotent, !Z.lxor_0_r in E.
  apply Z.bits_inj'. intros i Hi. destruct (Z.eq_dec i 0) as [->|Hi0]; [done|].
  apply (f_equal (λ z, Z.testbit z (i - 1))) in E. rewrite !Z.shiftr_spec in E by lia.
  by replace (i - 1 + 1) with i in E by lia.
Qed.

Lemma iter_crc_bit_inj n x y :
  word x → word y → Nat.iter n crc_bit x = Nat.iter n crc_bit y → x = y.
Proof.
  intros Hx Hy. induction n as [|n IH]; [done|]. rewrite !iter_S. intros E.
  apply IH, crc_bit_inj; [by apply word_iter..|done].
Qed.

Lemma lxor_cancel_r x y z : Z.lxor x z = Z.lxor y z → x = y.
Proof.
  intros E. apply (f_equal (λ a, Z.lxor a z)) in E.
  by rewrite !Z.lxor_assoc, Z.lxor_nilpotent, !Z.lxor_0_r in E.
Qed.

Lemma crc_bitwise_inj_state x y c : word x → word y → crc_bitwise x c = crc_bitwise y c → x = y.
Proof.
  intros Hx Hy E. apply iter_crc_bit_inj in E; [by apply lxor_cancel_r in E|..];
    by apply word_lxor; [|apply word_byte].
Qed.

Lemma crc_bitwise_inj_byte x c c' : word x → crc_bitwise x c = crc_bitwise x c' → c = c'.
Proof.
  intros Hx E. apply iter_crc_bit_inj in E; [|by apply word_lxor; [|apply word_byte]..].
  rewrite !(Z.lxor_comm x) in E. apply lxor_cancel_r in E. by apply byte_val_inj.
Qed.

Lemma word_fold l x : word x → word (foldl crc_bitwise x l).
Proof. revert x. induction l as [|c l IH]; intros x Hx; [done|]. by apply IH, word_bitwise. Qed.

Lemma fold_inj_state l x y :
  word x → word y → foldl crc_bitwise x l = foldl crc_bitwise y l → x = y.
Proof.
  revert x y. induction l as [|c l IH]; intros x y Hx Hy E; [done|].
  apply (crc_bitwise_inj_state _ _ c); [done..|]. by apply IH; [apply word_bitwise..|].
Qed.

Lemma crc32_of_word data : word (crc32_of data).
Proof. apply word_lxor; [by apply word_fold|done]. Qed.

(** Two strings that differ in one byte have different checksums. *)
Lemma crc32_of_one_byte a b c c' :
  crc32_of (a ++ c :: b) = crc32_of (a ++ c' :: b) → c = c'.
Proof.
  unfold crc32_of. intros E%lxor_cancel_r. rewrite !foldl_app in E. cbn [foldl] in E.
  assert (word (foldl crc_bitwise CRC32_MASK a)) as Hw by (by apply word_fold).
  apply fold_inj_state in E; [|by apply word_bitwise..]. by apply crc_bitwise_inj_byte in E.
Qed.
