(* ===== verification/Persistence.v ===== *)
(** * Dump files (persistence/persistence.cpp, persistence/persistence.h)

    The binary writers and readers, [Persistence::save] and
    [Persistence::load].  A stream is the list of bytes still to be read (for
    readers) or the bytes appended (for writers).  The file system is a map
    from paths to contents; which of the operating system's calls of [save]
    succeed is the argument [IoOutcome], one field per call whose failure the
    code can meet. *)

From S2P Require Import Prelude Database Crc32.

(** ** Constants *)

Definition MAGIC : bytes := $"MYREDIS01".
Definition MAGIC_LEN : nat := 9.
Definition TYPE_STRING : Z := 0%Z.
Definition TYPE_LIST : Z := 1%Z.
Definition FLAG_HAS_TTL : Z := 1%Z.

(** ** Binary writers *)

(** [static_cast<uint8_t>((val >> sh) & 0xFF)]. *)
Definition byte_at (val sh : Z) : ascii := byte_of (Z.land (Z.shiftr val sh) 255).

Definition write_uint32 (val : Z) : bytes :=
  [byte_at val 24; byte_at val 16; byte_at val 8; byte_at val 0].

Definition write_int64 (val : Z) : bytes :=
  let uval := to_uint64 val in
  [byte_at uval 56; byte_at uval 48; byte_at uval 40; byte_at uval 32;
   byte_at uval 24; byte_at uval 16; byte_at uval 8; byte_at uval 0].

Definition write_string (s : bytes) : bytes :=
  write_uint32 (to_uint32 (Z.of_nat (length s))) ++ s.

(** ** Binary readers: [None] is a failed read *)

(** [in.read(buf, n)]. *)
Definition read_bytes (n : nat) (s : bytes) : option (bytes * bytes) :=
  if n <=? length s then Some (take n s, drop n s) else None.

(** [(static_cast<uintN_t>(bytes[0]) << sh) | ...], most significant first. *)
Definition combine (bs : bytes) : Z :=
  foldl (λ acc c, Z.lor (Z.shiftl acc 8) (byte_val c)) 0%Z bs.

Definition read_uint32 (s : bytes) : option (Z * bytes) :=
  '(bs, r) ← read_bytes 4 s; Some (combine bs, r).

Definition read_int64 (s : bytes) : option (Z * bytes) :=
  '(bs, r) ← read_bytes 8 s; Some (to_int64 (combine bs), r).

Definition read_string (s : bytes) : option (bytes * bytes) :=
  '(len, r) ← read_uint32 s; read_bytes (Z.to_nat len) r.

Definition read_byte (s : bytes) : option (Z * bytes) :=
  '(bs, r) ← read_bytes 1 s; Some (combine bs, r).

(** ** Save *)

(** [exp_it != end && exp_it->second <= now]. *)
Definition snapshot_due (snap : DatabaseSnapshot) (t : Z) (key : bytes) : bool :=
  match expiry snap !! key with Some deadline => (deadline <=? t)%Z | None => false end.

(** [duration_cast<milliseconds>(deadline - now).count()]. *)
Definition remaining_ms (deadline t : Z) : Z :=
  to_int64 (Z.quot (to_int64 (deadline - t)) NS_PER_MS).

(** One entry: tag, flags, key, payload and, with a TTL, the remaining time. *)
Definition dump_entry (snap : DatabaseSnapshot) (t : Z) (type_tag : Z)
    (key payload : bytes) : bytes :=
  if snapshot_due snap t key then []
  else
    let ttl := expiry snap !! key in
    let flags := match ttl with Some _ => FLAG_HAS_TTL | None => 0%Z end in
    [byte_of type_tag; byte_of flags] ++ write_string key ++ payload ++
    match ttl with
    | Some deadline => write_int64 (remaining_ms deadline t)
    | None => []
    end.

Definition list_payload (l : list bytes) : bytes :=
  write_uint32 (to_uint32 (Z.of_nat (length l))) ++ concat (map write_string l).

Section Save.
Context `{SteadyClock} `{HashOrder}.

(** [entry_count], a uint32_t counter. *)
Definition live_count (snap : DatabaseSnapshot) (t : Z) : Z :=
  to_uint32 (Z.of_nat
    (length (filter (λ kv, snapshot_due snap t kv.1 = false) (iter (store snap))) +
     length (filter (λ kv, snapshot_due snap t kv.1 = false) (iter (list_store snap))))).

(** Everything written before the checksum. *)
Definition dump_body (snap : DatabaseSnapshot) (t : Z) : bytes :=
  MAGIC ++ write_uint32 (live_count snap t) ++
  concat (map (λ '(k, v), dump_entry snap t TYPE_STRING k (write_string v)) (iter (store snap))) ++
  concat (map (λ '(k, l), dump_entry snap t TYPE_LIST k (list_payload l)) (iter (list_store snap))).

(** The outcomes of the calls of [save]: opening the temporary file, the
    stream being good after the flush and, if it is not, the number of bytes
    that reached the file, reopening it to learn its size, opening it for the
    checksum, opening it for appending, the number of checksum bytes that
    reach the file, removing the old dump, the rename, and removing the
    temporary file after a failure. *)
Record IoOutcome := mkIo {
  io_open : bool;
  io_good : bool;
  io_body_written : nat;
  io_reopen : bool;
  io_crc_open : bool;
  io_append_open : bool;
  io_crc_written : nat;
  io_remove_dump : bool;
  io_rename : bool;
  io_remove_tmp : bool;
}.

Definition io_ok : IoOutcome := mkIo true true 0 true true true 4 true true true.

(** The database, the files and the clock cursor. *)
Definition PersM (A : Type) : Type := State ((Database * gmap bytes bytes) * nat) A.

Definition on_db {A} (m : DbM A) : PersM A :=
  λ '((d, fs), n), let '(a, (d', n')) := m (d, n) in (a, ((d', fs), n')).
Definition files : PersM (gmap bytes bytes) := λ '((d, fs), n), (fs, ((d, fs), n)).
Definition update_files (f : gmap bytes bytes → gmap bytes bytes) : PersM unit :=
  λ '((d, fs), n), (tt, ((d, f fs), n)).

Definition tmp_path (filepath : bytes) : bytes := filepath ++ $".tmp".

(** [std::rename(from, to)] when it succeeds. *)
Definition rename_file (from to : bytes) (fs : gmap bytes bytes) : gmap bytes bytes :=
  match fs !! from with Some c => <[to := c]> (delete from fs) | None => fs end.

(** [std::remove(path)], whose result the code does not look at. *)
Definition remove_file (succeeds : bool) (path : bytes) : PersM unit :=
  if succeeds then update_files (delete path) else mret tt.

Definition save (io : IoOutcome) (filepath : bytes) : PersM bool :=
  snap ← on_db get_snapshot;
  let tmp := tmp_path filepath in
  if negb (io_open io) then mret false else
  update_files (insert tmp []);;
  t ← now;
  let body := dump_body snap t in
  if negb (io_good io) then
    update_files (insert tmp (take (io_body_written io) body));;
    remove_file (io_remove_tmp io) tmp;; mret false
  else
  update_files (insert tmp body);;
  if negb (io_reopen io) then remove_file (io_remove_tmp io) tmp;; mret false else
  fs ← files;
  let crc := compute_crc32 (if io_crc_open io then fs !! tmp else None) (length body) in
  if negb (io_append_open io) then remove_file (io_remove_tmp io) tmp;; mret false else
  update_files (insert tmp (body ++ take (io_crc_written io) (write_uint32 crc)));;
  remove_file (io_remove_dump io) filepath;;
  if negb (io_rename io) then remove_file (io_remove_tmp io) tmp;; mret false else
  update_files (rename_file tmp filepath);;
  mret true.

(** ** Load *)

(** [now + milliseconds(ttl_ms)], in 64-bit arithmetic. *)
Definition deadline_after_ms (t ttl_ms : Z) : Z := to_int64 (t + to_int64 (ttl_ms * NS_PER_MS)).

Fixpoint read_strings (n : nat) (s : bytes) : option (list bytes * bytes) :=
  match n with
  | O => Some ([], s)
  | S n' =>
      '(e, r) ← read_string s;
      '(es, r) ← read_strings n' r;
      Some (e :: es, r)
  end.

(** The optional TTL field: the value and the rest. *)
Definition read_ttl (has_ttl : bool) (s : bytes) : option (Z * bytes) :=
  if has_ttl then read_int64 s else Some (0%Z, s).

(** [snapshot.expiry[key] = ...] when the entry has a TTL. *)
Definition add_expiry (has_ttl : bool) (t ttl_ms : Z) (key : bytes) (m : gmap bytes Z) : gmap bytes Z :=
  if has_ttl then <[key := deadline_after_ms t ttl_ms]> m else m.

(** One iteration of the entry loop. *)
Definition load_entry (t : Z) (snap : DatabaseSnapshot) (s : bytes)
    : option (DatabaseSnapshot * bytes) :=
  '(type_tag, s) ← read_byte s;
  '(flags, s) ← read_byte s;
  let has_ttl := negb (Z.land flags FLAG_HAS_TTL =? 0)%Z in
  '(key, s) ← read_string s;
  if (type_tag =? TYPE_STRING)%Z then
    '(value, s) ← read_string s;
    '(ttl_ms, s) ← read_ttl has_ttl s;
    if has_ttl && (ttl_ms <=? 0)%Z then Some (snap, s)
    else Some (mkSnapshot (<[key := value]> (store snap)) (list_store snap)
                 (add_expiry has_ttl t ttl_ms key (expiry snap)), s)
  else if (type_tag =? TYPE_LIST)%Z then
    '(elem_count, s) ← read_uint32 s;
    '(l, s) ← read_strings (Z.to_nat elem_count) s;
    '(ttl_ms, s) ← read_ttl has_ttl s;
    if has_ttl && (ttl_ms <=? 0)%Z then Some (snap, s)
    else Some (mkSnapshot (store snap) (<[key := l]> (list_store snap))
                 (add_expiry has_ttl t ttl_ms key (expiry snap)), s)
  else None.

Fixpoint load_entries (n : nat) (t : Z) (snap : DatabaseSnapshot) (s : bytes)
    : option DatabaseSnapshot :=
  match n with
  | O => Some snap
  | S n' => '(snap, s) ← load_entry t snap s; load_entries n' t snap s
  end.

Definition empty_snapshot : DatabaseSnapshot := mkSnapshot ∅ ∅ ∅.

(** The checks before the clock is read: size, checksum, magic; the entry
    count and the bytes that follow it. *)
Definition check_header (contents : bytes) : option (Z * bytes) :=
  let file_size := length contents in
  if file_size <? MAGIC_LEN + 4 + 4 then None else
  let data_size := file_size - 4 in
  let computed_crc := compute_crc32 (Some contents) data_size in
  '(stored_crc, _) ← read_uint32 (drop data_size contents);
  if negb (computed_crc =? stored_crc)%Z then None else
  '(magic, s) ← read_bytes MAGIC_LEN contents;
  if negb (bool_decide (magic = MAGIC)) then None else
  read_uint32 s.

Definition load (filepath : bytes) : PersM bool :=
  fs ← files;
  match fs !! filepath with
  | None => mret false
  | Some contents =>
      match check_header contents with
      | None => mret false
      | Some (entry_count, s) =>
          t ← now;
          match load_entries (Z.to_nat entry_count) t empty_snapshot s with
          | None => mret false
          | Some snapshot => on_db (load_snapshot snapshot);; mret true
          end
      end
  end.

End Save.
