(* ===== verification/PersistenceFacts.v ===== *)
(** * Correctness of the dump files

    Round trips of the binary encodings, what a saved file contains, what
    loading it restores, and which damaged files are refused. *)

From S2P Require Import Prelude Database DatabaseFacts Crc32 Persistence.

Local Open Scope Z_scope.

(** ** Definitions *)

(** The lengths and counts fit the 32-bit fields of the format. *)
Record sizes_ok (snap : DatabaseSnapshot) : Prop := {
  key_size : ∀ k, is_Some (store snap !! k) ∨ is_Some (list_store snap !! k) →
    Z.of_nat (length k) < 2 ^ 32;
  value_size : ∀ k v, store snap !! k = Some v → Z.of_nat (length v) < 2 ^ 32;
  list_size : ∀ k l, list_store snap !! k = Some l →
    Z.of_nat (length l) < 2 ^ 32 ∧ Forall (λ e, Z.of_nat (length e) < 2 ^ 32) l;
  count_size : Z.of_nat (size (store snap) + size (list_store snap)) < 2 ^ 32;
}.

(** The whole milliseconds a deadline is away. *)
Definition ms_left (deadline t : Z) : Z := Z.quot (deadline - t) NS_PER_MS.

(** A key is restored if it has no deadline or at least 1 ms left. *)
Definition survives (m : gmap bytes Z) (t : Z) (k : bytes) : bool :=
  match m !! k with Some deadline => 0 <? ms_left deadline t | None => true end.

(** The deadlines after a save at [t] and a load at [t']. *)
Definition restored_expiry (t t' : Z) (m : gmap bytes Z) : gmap bytes Z :=
  omap (λ deadline, let ms := ms_left deadline t in
          if 0 <? ms then Some (t' + ms * NS_PER_MS) else None) m.

(** The database a load builds from a dump of [d]. *)
Definition restored (t t' : Z) (d : Database) : Database :=
  mkDb (filter (λ kv, survives (expiry_ d) t kv.1 = true) (store_ d))
       (filter (λ kv, survives (expiry_ d) t kv.1 = true) (list_store_ d))
       (restored_expiry t t' (expiry_ d)).

Definition snapshot_of (d : Database) : DatabaseSnapshot :=
  mkSnapshot (store_ d) (list_store_ d) (expiry_ d).

(** ** Multi-byte integers *)

Lemma lor_shiftl_byte a b : 0 ≤ b < 256 → Z.lor (Z.shiftl a 8) b = a * 256 + b.
Proof.
  intros Hb. assert (Hl : Z.land (Z.shiftl a 8) b = 0).
  { apply Z.bits_inj'. intros i Hi. rewrite Z.land_spec, Z.testbit_0_l.
    destruct (Z.ltb_spec i 8).
    - by rewrite Z.shiftl_spec_low by done.
    - rewrite <- (Z.mod_small b (2 ^ 8)) by (change (2 ^ 8) with 256; done).
      rewrite Z.mod_pow2_bits_high by lia. apply andb_false_r. }
  rewrite <- Z.lxor_lor by done. rewrite <- Z.add_nocarry_lxor by done.
  rewrite Z.shiftl_mul_pow2 by lia. done.
Qed.

Lemma combine_snoc bs c : combine (bs ++ [c]) = combine bs * 256 + byte_val c.
Proof.
  unfold combine. rewrite foldl_app. cbn [foldl]. apply lor_shiftl_byte, byte_val_range.
Qed.

Lemma byte_at_val v sh : 0 ≤ sh → byte_val (byte_at v sh) = v / 2 ^ sh mod 256.
Proof.
  intros Hs. unfold byte_at. change 255 with (Z.ones 8).
  rewrite byte_val_of, Z.land_ones, Z.shiftr_div_pow2 by lia.
  change (2 ^ 8) with 256. apply Z.mod_mod. lia.
Qed.

Lemma combine_uint32 v : 0 ≤ v < 2 ^ 32 → combine (write_uint32 v) = v.
Proof.
  intros Hv. unfold write_uint32.
  change [?a; ?b; ?c; ?d] with (((([] ++ [a]) ++ [b]) ++ [c]) ++ [d]).
  rewrite !combine_snoc, !byte_at_val by lia. change (combine []) with 0.
  change (2 ^ 24) with 16777216. change (2 ^ 16) with 65536. change (2 ^ 8) with 256.
  change (2 ^ 0) with 1. change (2 ^ 32) with 4294967296 in Hv.
  Z.div_mod_to_equations. lia.
Qed.

Lemma combine_uint64 v :
  0 ≤ v < 2 ^ 64 →
  combine [byte_at v 56; byte_at v 48; byte_at v 40; byte_at v 32;
           byte_at v 24; byte_at v 16; byte_at v 8; byte_at v 0] = v.
Proof.
  intros Hv. change (2 ^ 64) with 18446744073709551616 in Hv.
  change [?a; ?b; ?c; ?d; ?e; ?f; ?g; ?h] with
    (((((((([] ++ [a]) ++ [b]) ++ [c]) ++ [d]) ++ [e]) ++ [f]) ++ [g]) ++ [h]).
  rewrite !combine_snoc, !byte_at_val by lia. change (combine []) with 0.
  assert (Hstep : ∀ b, 0 < b → v / (b * 256) * 256 + v / b mod 256 = v / b).
  { intros b Hb. rewrite <- Z.div_div by lia. pose proof (Z.div_mod (v / b) 256). lia. }
  assert (Htop : v / 2 ^ 56 mod 256 = v / 2 ^ 56).
  { apply Z.mod_small. split; [apply Z.div_pos; lia|]. apply Z.div_lt_upper_bound; lia. }
  rewrite Htop, Z.mul_0_l, Z.add_0_l.
  change (2 ^ 56) with (2 ^ 48 * 256). rewrite (Hstep (2 ^ 48)) by done.
  change (2 ^ 48) with (2 ^ 40 * 256). rewrite (Hstep (2 ^ 40)) by done.
  change (2 ^ 40) with (2 ^ 32 * 256). rewrite (Hstep (2 ^ 32)) by done.
  change (2 ^ 32) with (2 ^ 24 * 256). rewrite (Hstep (2 ^ 24)) by done.
  change (2 ^ 24) with (2 ^ 16 * 256). rewrite (Hstep (2 ^ 16)) by done.
  change (2 ^ 16) with (2 ^ 8 * 256). rewrite (Hstep (2 ^ 8)) by done.
  change (2 ^ 8) with (2 ^ 0 * 256). rewrite (Hstep (2 ^ 0)) by done.
  apply Z.div_1_r.
Qed.

Lemma to_int64_uint64 v : INT64_MIN ≤ v ≤ INT64_MAX → to_int64 (to_uint64 v) = v.
Proof.
  intros Hv. unfold to_int64, to_uint64. rewrite Zplus_mod_idemp_l.
  rewrite Z.mod_small; unfold INT64_MIN, INT64_MAX in Hv; lia.
Qed.

(** ** Readers undo writers, whatever follows *)

Lemma read_bytes_app b s : read_bytes (length b) (b ++ s) = Some (b, s).
Proof.
  unfold read_bytes. rewrite length_app.
  rewrite (proj2 (Nat.leb_le _ _)) by lia. by rewrite take_app_length, drop_app_length.
Qed.

Lemma read_byte_cons c s : read_byte (c :: s) = Some (byte_val c, s).
Proof.
  unfold read_byte. change (c :: s) with ([c] ++ s). rewrite (read_bytes_app [c]).
  cbn. by rewrite Z.lor_0_l.
Qed.

Lemma read_uint32_app v s : 0 ≤ v < 2 ^ 32 → read_uint32 (write_uint32 v ++ s) = Some (v, s).
Proof.
  intros Hv. unfold read_uint32. rewrite (read_bytes_app (write_uint32 v)). simpl.
  by rewrite combine_uint32.
Qed.

Lemma read_int64_app v s :
  INT64_MIN ≤ v ≤ INT64_MAX → read_int64 (write_int64 v ++ s) = Some (v, s).
Proof.
  intros Hv. unfold read_int64. rewrite (read_bytes_app (write_int64 v)). simpl.
  unfold write_int64. rewrite combine_uint64, to_int64_uint64; [done..|].
  apply Z.mod_pos_bound. lia.
Qed.

Lemma read_string_app e s :
  Z.of_nat (length e) < 2 ^ 32 → read_string (write_string e ++ s) = Some (e, s).
Proof.
  intros He. unfold read_string, write_string. rewrite to_uint32_id by lia.
  rewrite <- app_assoc, read_uint32_app by lia. simpl. rewrite Nat2Z.id. apply read_bytes_app.
Qed.

Lemma read_strings_app l s :
  Forall (λ e, Z.of_nat (length e) < 2 ^ 32) l →
  read_strings (length l) (concat (map write_string l) ++ s) = Some (l, s).
Proof.
  induction 1 as [|e l He _ IH]; [done|]. cbn [length read_strings map concat].
  rewrite <- app_assoc, read_string_app by done. simpl. by rewrite IH.
Qed.

#[export] Hint Rewrite read_byte_cons : redis_rw.

(** ** One entry *)

(** What reading a key's entry back does to the three maps. *)
Definition put_if {A B} (p : bytes → bool) (g : bytes → A → B) (m : gmap bytes B) (kv : bytes * A)
    : gmap bytes B :=
  if p kv.1 then <[kv.1 := g kv.1 kv.2]> m else m.

Definition new_deadline (m : gmap bytes Z) (t t' : Z) (k : bytes) : Z :=
  t' + ms_left (default 0 (m !! k)) t * NS_PER_MS.

Definition has_deadline (m : gmap bytes Z) (t : Z) (k : bytes) : bool :=
  contains m k && survives m t k.

Definition put_string (m : gmap bytes Z) (t t' : Z) (acc : DatabaseSnapshot) (kv : bytes * bytes)
    : DatabaseSnapshot :=
  mkSnapshot (put_if (survives m t) (λ _ v, v) (store acc) kv) (list_store acc)
    (put_if (has_deadline m t) (λ k _, new_deadline m t t' k) (expiry acc) kv).

Definition put_list (m : gmap bytes Z) (t t' : Z) (acc : DatabaseSnapshot)
    (kv : bytes * list bytes) : DatabaseSnapshot :=
  mkSnapshot (store acc) (put_if (survives m t) (λ _ v, v) (list_store acc) kv)
    (put_if (has_deadline m t) (λ k _, new_deadline m t t' k) (expiry acc) kv).

(** The deadlines are within range of the clock readings [t] and [t']. *)
Definition times_ok (m : gmap bytes Z) (t t' : Z) : Prop :=
  0 ≤ t < 2 ^ 60 ∧ 0 ≤ t' < 2 ^ 60 ∧
  ∀ k deadline, m !! k = Some deadline → 0 ≤ deadline ≤ t + INT_MAX * NS_PER_S.

Lemma ms_left_bounds m t t' k deadline :
  times_ok m t t' → m !! k = Some deadline →
  -2 ^ 60 ≤ ms_left deadline t * NS_PER_MS ≤ INT_MAX * NS_PER_S.
Proof.
  intros (Ht & _ & Hm) Hk. specialize (Hm k deadline Hk).
  unfold ms_left, NS_PER_MS, NS_PER_S, INT_MAX in *.
  pose proof (Z.quot_rem' (deadline - t) 1000000).
  pose proof (Z.rem_bound_abs (deadline - t) 1000000 ltac:(done)).
  destruct (Z.le_gt_cases 0 (deadline - t)).
  - pose proof (Z.rem_bound_pos (deadline - t) 1000000 ltac:(lia) ltac:(lia)). lia.
  - pose proof (Z.rem_nonpos (deadline - t) 1000000 ltac:(lia) ltac:(lia)). lia.
Qed.

Lemma remaining_ms_exact m t t' k deadline :
  times_ok m t t' → m !! k = Some deadline → remaining_ms deadline t = ms_left deadline t.
Proof.
  intros Hok Hk. pose proof (ms_left_bounds _ _ _ _ _ Hok Hk) as Hb.
  destruct Hok as (Ht & _ & Hm). specialize (Hm k deadline Hk).
  unfold remaining_ms. unfold INT_MAX, NS_PER_S, ms_left, NS_PER_MS in *.
  rewrite (to_int64_id (deadline - t)) by (unfold INT64_MIN, INT64_MAX; lia).
  apply to_int64_id. unfold INT64_MIN, INT64_MAX. lia.
Qed.

Lemma deadline_after_ms_exact m t t' k deadline :
  times_ok m t t' → m !! k = Some deadline →
  deadline_after_ms t' (ms_left deadline t) = new_deadline m t t' k.
Proof.
  intros Hok Hk. pose proof (ms_left_bounds _ _ _ _ _ Hok Hk) as Hb.
  destruct Hok as (_ & Ht' & _). unfold deadline_after_ms, new_deadline. rewrite Hk. simpl.
  unfold INT_MAX, NS_PER_S in Hb.
  rewrite (to_int64_id (_ * _)) by (unfold INT64_MIN, INT64_MAX; lia).
  apply to_int64_id. unfold INT64_MIN, INT64_MAX. lia.
Qed.

(** The flags byte and the TTL field, read back. *)
Lemma read_ttl_app m t t' k s :
  times_ok m t t' →
  read_ttl (contains m k)
    (match m !! k with Some deadline => write_int64 (remaining_ms deadline t) | None => [] end ++ s) =
  Some (match m !! k with Some deadline => ms_left deadline t | None => 0 end, s).
Proof.
  intros Hok. unfold read_ttl. destruct (m !! k) as [dl|] eqn:Hk.
  - rewrite (proj2 (contains_Some m k)) by eauto.
    rewrite read_int64_app; erewrite remaining_ms_exact by done; [done|].
    pose proof (ms_left_bounds _ _ _ _ _ Hok Hk) as Hb.
    unfold INT64_MIN, INT64_MAX, INT_MAX, NS_PER_S, NS_PER_MS in *. lia.
  - by rewrite (proj2 (contains_None m k)).
Qed.

Lemma flags_read (m : gmap bytes Z) k :
  negb (Z.land (byte_val (byte_of (match m !! k with Some _ => FLAG_HAS_TTL | None => 0 end)))
          FLAG_HAS_TTL =? 0) = contains m k.
Proof. unfold contains. destruct (m !! k); by rewrite byte_val_of. Qed.

(** The three maps after one entry. *)
Lemma entry_effect {A : Type} (m : gmap bytes Z) (t t' : Z) (k : bytes) (v : A) (acc : gmap bytes A) (ex : gmap bytes Z) :
  times_ok m t t' →
  let ms := match m !! k with Some deadline => ms_left deadline t | None => 0 end in
  if contains m k && (ms <=? 0)
  then put_if (survives m t) (λ _ v, v) acc (k, v) = acc ∧
       put_if (has_deadline m t) (λ k (_ : A), new_deadline m t t' k) ex (k, v) = ex
  else put_if (survives m t) (λ _ v, v) acc (k, v) = <[k := v]> acc ∧
       put_if (has_deadline m t) (λ k (_ : A), new_deadline m t t' k) ex (k, v) =
         add_expiry (contains m k) t' ms k ex.
Proof.
  intros Hok. unfold put_if, has_deadline, survives, add_expiry. cbn [fst snd].
  destruct (m !! k) as [dl|] eqn:Hk.
  - rewrite (proj2 (contains_Some m k)) by eauto. cbn [andb].
    destruct (Z.leb_spec (ms_left dl t) 0), (Z.ltb_spec 0 (ms_left dl t)); try lia; [done|].
    by erewrite deadline_after_ms_exact.
  - by rewrite (proj2 (contains_None m k)).
Qed.

Lemma load_entry_string snap t t' acc k v s :
  times_ok (expiry snap) t t' → snapshot_due snap t k = false →
  Z.of_nat (length k) < 2 ^ 32 → Z.of_nat (length v) < 2 ^ 32 →
  load_entry t' acc (dump_entry snap t TYPE_STRING k (write_string v) ++ s) =
  Some (put_string (expiry snap) t t' acc (k, v), s).
Proof.
  intros Hok Hdue Hk Hv. unfold dump_entry. rewrite Hdue. unfold load_entry.
  cbn [app]. rewrite read_byte_cons. cbn [mbind option_bind].
  rewrite read_byte_cons. cbn [mbind option_bind]. rewrite <- !app_assoc, flags_read, read_string_app by done.
  cbn [mbind option_bind]. rewrite (byte_val_of TYPE_STRING).
  change (TYPE_STRING mod 256 =? TYPE_STRING) with true. cbn iota.
  rewrite read_string_app by done. cbn [mbind option_bind]. rewrite (read_ttl_app _ t t') by done.
  cbn [mbind option_bind].
  pose proof (entry_effect _ t t' k v (store acc) (expiry acc) Hok) as He. cbv zeta in He.
  unfold put_string. destruct (_ && _); destruct He as [-> ->]; by destruct acc.
Qed.

Lemma load_entry_list snap t t' acc k l s :
  times_ok (expiry snap) t t' → snapshot_due snap t k = false →
  Z.of_nat (length k) < 2 ^ 32 → Z.of_nat (length l) < 2 ^ 32 →
  Forall (λ e, Z.of_nat (length e) < 2 ^ 32) l →
  load_entry t' acc (dump_entry snap t TYPE_LIST k (list_payload l) ++ s) =
  Some (put_list (expiry snap) t t' acc (k, l), s).
Proof.
  intros Hok Hdue Hk Hl He. unfold dump_entry. rewrite Hdue. unfold load_entry.
  cbn [app]. rewrite read_byte_cons. cbn [mbind option_bind].
  rewrite read_byte_cons. cbn [mbind option_bind]. rewrite <- !app_assoc, flags_read, read_string_app by done.
  cbn [mbind option_bind]. rewrite (byte_val_of TYPE_LIST).
  change (TYPE_LIST mod 256 =? TYPE_STRING) with false.
  change (TYPE_LIST mod 256 =? TYPE_LIST) with true. cbn iota.
  unfold list_payload. rewrite to_uint32_id by lia. rewrite <- app_assoc, read_uint32_app by lia.
  cbn [mbind option_bind]. rewrite Nat2Z.id, read_strings_app by done. cbn [mbind option_bind].
  rewrite (read_ttl_app _ t t') by done. cbn [mbind option_bind].
  pose proof (entry_effect _ t t' k l (list_store acc) (expiry acc) Hok) as Hf. cbv zeta in Hf.
  unfold put_list. destruct (_ && _); destruct Hf as [-> ->]; by destruct acc.
Qed.

(** ** The entry loop *)

(** Blocks that are each read as one entry are read in sequence. *)
Lemma load_entries_app {A} (dump : A → bytes) (put : DatabaseSnapshot → A → DatabaseSnapshot)
    (l : list A) n t' acc s :
  Forall (λ x, ∀ acc s, load_entry t' acc (dump x ++ s) = Some (put acc x, s)) l →
  load_entries (length l + n) t' acc (concat (map dump l) ++ s) =
  load_entries n t' (foldl put acc l) s.
Proof.
  intros Hl. revert acc. induction Hl as [|x l Hx _ IH]; intros acc; [done|].
  cbn [length Nat.add map concat load_entries foldl].
  rewrite <- app_assoc, Hx. cbn [mbind option_bind]. apply IH.
Qed.

(** Elements that write nothing can be left out of the loop. *)
Lemma concat_map_filter {A} (P : A → Prop) `{!∀ x, Decision (P x)} (f : A → bytes) (l : list A) :
  (∀ x, ¬ P x → f x = []) → concat (map f l) = concat (map f (filter P l)).
Proof.
  intros Hf. induction l as [|x l IH]; [done|]. rewrite filter_cons. cbn [map concat].
  case_decide; cbn [map concat]; rewrite IH; [done|]. by rewrite Hf.
Qed.

Lemma foldl_filter_skip {A B} (P : A → Prop) `{!∀ x, Decision (P x)} (f : B → A → B) acc (l : list A) :
  (∀ b x, ¬ P x → f b x = b) → foldl f acc (filter P l) = foldl f acc l.
Proof.
  intros Hf. revert acc. induction l as [|x l IH]; intros acc; [done|].
  rewrite filter_cons. case_decide; cbn [foldl]; rewrite IH; [done|]. by rewrite Hf.
Qed.

(** Inserting every selected element of a table. *)
Lemma put_if_fold {A B : Type} (p : bytes → bool) (g : bytes → A → B) (l : list (bytes * A)) acc k :
  NoDup l.*1 →
  foldl (put_if p g) acc l !! k =
  match (list_to_map l : gmap bytes A) !! k with
  | Some v => if p k then Some (g k v) else acc !! k
  | None => acc !! k
  end.
Proof.
  revert acc. induction l as [|[k' v'] l IH]; intros acc; [done|].
  cbn [fmap list_fmap fst foldl]. intros [Hni Hnd]%NoDup_cons. rewrite IH by done.
  cbn [list_to_map foldr uncurry fst snd]. unfold put_if at 1 2. cbn [fst snd].
  destruct (decide (k' = k)) as [->|Hne].
  - rewrite not_elem_of_list_to_map_1, lookup_insert_eq by done. destruct (p k); by simplify_map_eq.
  - rewrite lookup_insert_ne by done. destruct (_ !! k); destruct (p k'), (p k); by simplify_map_eq.
Qed.

Section Fold.
Context `{HashOrder}.

Lemma put_if_iter {A B : Type} (p : bytes → bool) (g : bytes → A → B) (m : gmap bytes A) acc k :
  foldl (put_if p g) acc (iter m) !! k =
  match m !! k with
  | Some v => if p k then Some (g k v) else acc !! k
  | None => acc !! k
  end.
Proof.
  rewrite put_if_fold by apply iter_NoDup_fst.
  replace (list_to_map (iter m) : gmap bytes A) with m; [done|].
  rewrite <- (list_to_map_to_list m) at 1. apply list_to_map_proper; [apply NoDup_fst_map_to_list|].
  by rewrite iter_perm.
Qed.

Lemma put_string_fold m t t' acc l :
  foldl (put_string m t t') acc l =
  mkSnapshot (foldl (put_if (survives m t) (λ _ v, v)) (store acc) l) (list_store acc)
    (foldl (put_if (has_deadline m t) (λ k _, new_deadline m t t' k)) (expiry acc) l).
Proof. revert acc. induction l as [|x l IH]; intros acc; [by destruct acc|]. cbn [foldl]. by rewrite IH. Qed.

Lemma put_list_fold m t t' acc l :
  foldl (put_list m t t') acc l =
  mkSnapshot (store acc) (foldl (put_if (survives m t) (λ _ v, v)) (list_store acc) l)
    (foldl (put_if (has_deadline m t) (λ k _, new_deadline m t t' k)) (expiry acc) l).
Proof. revert acc. induction l as [|x l IH]; intros acc; [by destruct acc|]. cbn [foldl]. by rewrite IH. Qed.

Lemma put_if_filter {A : Type} (m : gmap bytes Z) (t : Z) (x : gmap bytes A) :
  foldl (put_if (survives m t) (λ _ v, v)) ∅ (iter x) = filter (λ kv, survives m t kv.1 = true) x.
Proof.
  apply map_eq. intros k. rewrite put_if_iter, map_lookup_filter, lookup_empty.
  destruct (x !! k) as [v|] eqn:Hk; [|done]. simpl.
  destruct (survives m t k) eqn:Hs; case_guard; simpl; congruence.
Qed.

(** The maps after both loops. *)
Lemma restore_all d t t' :
  wf d →
  foldl (put_list (expiry_ d) t t') (foldl (put_string (expiry_ d) t t') empty_snapshot (iter (store_ d)))
    (iter (list_store_ d)) = snapshot_of (restored t t' d).
Proof.
  intros Hwf. rewrite put_list_fold, put_string_fold. cbn [store list_store expiry empty_snapshot].
  unfold snapshot_of, restored. cbn [store_ list_store_ expiry_]. f_equal; [apply put_if_filter..|].
  apply map_eq. intros k. rewrite !put_if_iter, lookup_empty. unfold restored_expiry. rewrite lookup_omap.
  pose proof (wf_expiry _ Hwf k) as Hp. unfold has_deadline, survives, contains, new_deadline.
  destruct (expiry_ d !! k) as [dl|] eqn:He; simpl.
  - destruct Hp as [[v Hv]|[l Hl]]; [eauto|rewrite Hv|rewrite Hl];
      repeat case_head; naive_solver.
  - by repeat case_head.
Qed.

End Fold.

(** ** Whole files *)

Section Files.
Context `{SteadyClock} `{HashOrder}.
Implicit Types (d : Database) (p : bytes) (fs : gmap bytes bytes).

(** The bytes after the entry count. *)
Definition dump_entries (snap : DatabaseSnapshot) (t : Z) : bytes :=
  concat (map (λ '(k, v), dump_entry snap t TYPE_STRING k (write_string v)) (iter (store snap))) ++
  concat (map (λ '(k, l), dump_entry snap t TYPE_LIST k (list_payload l)) (iter (list_store snap))).

(** A complete file. *)
Definition sealed (body : bytes) : bytes := body ++ write_uint32 (crc32_of body).

Lemma due_not_survives snap t k : snapshot_due snap t k ≠ false → survives (expiry snap) t k = false.
Proof.
  unfold snapshot_due, survives. destruct (expiry snap !! k) as [dl|]; [|done].
  destruct (Z.leb_spec dl t) as [Hle|]; [|done]. intros _. apply Z.ltb_ge. unfold ms_left.
  rewrite <- (Z.opp_involutive (dl - t)), Z.quot_opp_l by done.
  pose proof (Z.quot_pos (- (dl - t)) NS_PER_MS ltac:(lia) ltac:(done)). lia.
Qed.

Lemma put_if_due {A B : Type} snap t (g : bytes → A → B) acc kv :
  snapshot_due snap t kv.1 ≠ false →
  put_if (survives (expiry snap) t) g acc kv = acc ∧ put_if (has_deadline (expiry snap) t) g acc kv = acc.
Proof.
  intros Hd. unfold put_if, has_deadline. rewrite (due_not_survives _ _ _ Hd). by rewrite andb_false_r.
Qed.

Lemma put_string_due snap t t' acc kv :
  snapshot_due snap t kv.1 ≠ false → put_string (expiry snap) t t' acc kv = acc.
Proof.
  intros Hd. unfold put_string.
  rewrite (proj1 (put_if_due snap t _ _ _ Hd)), (proj2 (put_if_due snap t _ _ _ Hd)). by destruct acc.
Qed.

Lemma put_list_due snap t t' acc kv :
  snapshot_due snap t kv.1 ≠ false → put_list (expiry snap) t t' acc kv = acc.
Proof.
  intros Hd. unfold put_list.
  rewrite (proj1 (put_if_due snap t _ _ _ Hd)), (proj2 (put_if_due snap t _ _ _ Hd)). by destruct acc.
Qed.

Lemma live_count_small snap t :
  sizes_ok snap →
  live_count snap t = Z.of_nat
    (length (filter (λ kv, snapshot_due snap t kv.1 = false) (iter (store snap))) +
     length (filter (λ kv, snapshot_due snap t kv.1 = false) (iter (list_store snap)))).
Proof.
  intros Hs. unfold live_count. apply to_uint32_id. pose proof (count_size _ Hs) as Hc.
  pose proof (length_filter (λ kv, snapshot_due snap t kv.1 = false) (iter (store snap))) as Hf.
  pose proof (length_filter (λ kv, snapshot_due snap t kv.1 = false) (iter (list_store snap))) as Hg.
  rewrite length_iter in Hf. rewrite length_iter in Hg. lia.
Qed.

Lemma live_count_range snap t : 0 ≤ live_count snap t < 2 ^ 32.
Proof. apply Z.mod_pos_bound. lia. Qed.

(** The entry loop over a dump. *)
Lemma load_entries_dump d t t' tail :
  wf d → sizes_ok (snapshot_of d) → times_ok (expiry_ d) t t' →
  load_entries (Z.to_nat (live_count (snapshot_of d) t)) t' empty_snapshot
    (dump_entries (snapshot_of d) t ++ tail) = Some (snapshot_of (restored t t' d)).
Proof.
  intros Hwf Hsz Hok. rewrite live_count_small, Nat2Z.id by done. unfold dump_entries.
  rewrite (concat_map_filter (λ kv : bytes * bytes, snapshot_due (snapshot_of d) t kv.1 = false)),
    (concat_map_filter (λ kv : bytes * list bytes, snapshot_due (snapshot_of d) t kv.1 = false)).
  2-3: intros [k v] Hd; unfold dump_entry; cbn [fst] in Hd; by destruct (snapshot_due _ _ _).
  rewrite <- app_assoc. rewrite (load_entries_app _ (put_string (expiry_ d) t t')).
  2: { apply Forall_forall. intros [k v] [Hd Hin]%list_elem_of_filter acc s.
       apply iter_elem_of in Hin. apply load_entry_string; [done|done| |by eapply value_size].
       eapply key_size; [done|]. left. eauto. }
  rewrite <- (Nat.add_0_r (length _)), (load_entries_app _ (put_list (expiry_ d) t t')).
  2: { apply Forall_forall. intros [k l] [Hd Hin]%list_elem_of_filter acc s.
       apply iter_elem_of in Hin. destruct (list_size _ Hsz k l Hin).
       apply load_entry_list; [done|done| |done|done]. eapply key_size; [done|]. right. eauto. }
  cbn [load_entries]. f_equal. rewrite <- restore_all by done.
  rewrite !foldl_filter_skip; [done|intros; by apply (put_string_due (snapshot_of d))..|].
  intros; by apply (put_list_due (snapshot_of d)).
Qed.

Lemma sealed_crc body : check_header (sealed body) =
  if (length body <? MAGIC_LEN + 4)%nat then None else
  '(magic, s) ← read_bytes MAGIC_LEN (sealed body);
  if negb (bool_decide (magic = MAGIC)) then None else read_uint32 s.
Proof.
  unfold check_header. assert (Hl : length (sealed body) = (length body + 4)%nat).
  { unfold sealed. by rewrite length_app. }
  rewrite Hl. replace (length body + 4 - 4)%nat with (length body) by lia.
  destruct (Nat.ltb_spec (length body + 4) (MAGIC_LEN + 4 + 4)), (Nat.ltb_spec (length body) (MAGIC_LEN + 4));
    try lia; [done|].
  replace (drop (length body) (sealed body)) with (write_uint32 (crc32_of body) ++ [])
    by (unfold sealed; by rewrite drop_app_length, app_nil_r).
  rewrite read_uint32_app by apply crc32_of_word. cbn [mbind option_bind].
  replace (compute_crc32 _ _) with (crc32_of body)
    by (rewrite compute_crc32_spec; unfold sealed; by rewrite take_app_length).
  by rewrite Z.eqb_refl.
Qed.

Lemma check_header_dump snap t :
  check_header (sealed (dump_body snap t)) =
  Some (live_count snap t, dump_entries snap t ++ write_uint32 (crc32_of (dump_body snap t))).
Proof.
  rewrite sealed_crc. set (crc := crc32_of (dump_body snap t)). unfold sealed. fold crc.
  unfold dump_body. fold (dump_entries snap t).
  rewrite (proj2 (Nat.ltb_ge _ _)) by (rewrite !length_app; simpl; lia).
  rewrite <- !app_assoc. rewrite (read_bytes_app MAGIC). cbn [mbind option_bind].
  rewrite bool_decide_eq_true_2 by done. cbn [negb].
  apply read_uint32_app, live_count_range.
Qed.

(** ** Damaged files *)

Lemma combine_inj bs bs' : length bs = length bs' → combine bs = combine bs' → bs = bs'.
Proof.
  revert bs'. induction bs as [|c bs IH] using rev_ind; intros bs' Hl E.
  - by apply symmetry, length_zero_iff_nil in Hl.
  - destruct bs' as [|c' bs' _] using rev_ind; [rewrite length_app in Hl; simpl in Hl; lia|].
    rewrite !length_app in Hl. simpl in Hl. rewrite !combine_snoc in E.
    pose proof (byte_val_range c). pose proof (byte_val_range c').
    f_equal; [apply IH; lia|]. f_equal. apply byte_val_inj. lia.
Qed.

Lemma read_uint32_last s : length s = 4%nat → read_uint32 s = Some (combine s, []).
Proof.
  intros Hs. unfold read_uint32. pose proof (read_bytes_app s []) as E.
  rewrite Hs, app_nil_r in E. by rewrite E.
Qed.

(** What an accepted file satisfies. *)
Lemma check_header_crc contents :
  check_header contents ≠ None →
  (17 ≤ length contents)%nat ∧
  crc32_of (take (length contents - 4) contents) = combine (drop (length contents - 4) contents).
Proof.
  unfold check_header. destruct (Nat.ltb_spec (length contents) (MAGIC_LEN + 4 + 4)) as [|Hl]; [done|].
  unfold MAGIC_LEN in Hl.
  rewrite (read_uint32_last (drop _ contents)) by (rewrite length_drop; lia). cbn [mbind option_bind].
  rewrite compute_crc32_spec.
  destruct (Z.eqb_spec (crc32_of (take (length contents - 4) contents))
    (combine (drop (length contents - 4) contents))) as [E|]; [|done]. intros _. split; [lia|done].
Qed.

(** A file that differs from an accepted one in one byte is refused. *)
Lemma check_header_one_byte a b c c' :
  check_header (a ++ c :: b) ≠ None → c ≠ c' → check_header (a ++ c' :: b) = None.
Proof.
  intros [Hl Hc]%check_header_crc Hne.
  destruct (check_header (a ++ c' :: b)) eqn:E'; [|done]. exfalso.
  assert (check_header (a ++ c' :: b) ≠ None) as [_ Hc']%check_header_crc by congruence.
  assert (length (a ++ c' :: b) = length (a ++ c :: b)) as El by (rewrite !length_app; done).
  rewrite El in Hc'. set (m := (length (a ++ c :: b) - 4)%nat) in *.
  destruct (Nat.lt_ge_cases (length a) m) as [Hlt|Hge].
  - destruct (Nat.le_exists_sub (S (length a)) m Hlt) as (i & Hi & _).
    rewrite !take_app, !drop_app, !(take_ge a), !(drop_ge a) in Hc, Hc' by lia.
    replace (m - length a)%nat with (S i) in Hc, Hc' by lia. cbn [take drop app] in Hc, Hc'.
    apply Hne. eapply crc32_of_one_byte. by rewrite Hc, Hc'.
  - rewrite !take_app_le in Hc, Hc' by done. rewrite Hc in Hc'.
    rewrite !drop_app_le in Hc' by done. apply combine_inj in Hc'; [|by rewrite !length_app].
    apply app_inv_head in Hc'. congruence.
Qed.

Lemma tmp_path_ne p : tmp_path p ≠ p.
Proof. intros E. apply (f_equal length) in E. unfold tmp_path in E. rewrite length_app in E. simpl in E. lia. Qed.

End Files.
