(* ===== verification/PersistenceClaims.v ===== *)
(** * Dump files: theorems

    What a saved file restores, which files are refused, and what is on disk
    after every failure of [save]. *)

From S2P Require Import Prelude Database DatabaseFacts DatabaseClaims Crc32 Persistence PersistenceFacts.

Local Open Scope Z_scope.

(** Runs the persistence monad. *)
Ltac run_pers :=
  unfold on_db, get_snapshot, load_snapshot, members, update, files, remove_file, update_files, now,
    mret, mbind, state_ret, state_bind in *; cbn beta iota zeta delta [fst snd] in *.

Section Runs.
Context `{SteadyClock} `{HashOrder}.
Implicit Types (d : Database) (p : bytes) (fs : gmap bytes bytes) (n : nat).

(** The files after a save that went well. *)
Definition saved_files (p : bytes) (d : Database) (t : Z) (fs : gmap bytes bytes) : gmap bytes bytes :=
  <[p := sealed (dump_body (snapshot_of d) t)]> (delete (tmp_path p) fs).

Lemma save_run p d fs n :
  save io_ok p ((d, fs), n) = (true, ((d, saved_files p d (clock n) fs), S n)).
Proof.
  unfold save. run_pers. cbn [io_ok io_open io_good io_reopen io_crc_open io_append_open
    io_crc_written io_remove_dump io_rename io_remove_tmp negb]. cbn beta iota zeta.
  fold (snapshot_of d). set (body := dump_body (snapshot_of d) (clock n)).
  rewrite lookup_insert_eq, compute_crc32_spec, firstn_all.
  change (take 4 (write_uint32 ?x)) with (write_uint32 x).
  fold (sealed body). unfold rename_file. pose proof (tmp_path_ne p).
  rewrite lookup_delete_ne, lookup_insert_eq by done. unfold saved_files. do 3 f_equal.
  apply map_eq. intros q. destruct (decide (q = p)) as [->|]; [by rewrite !lookup_insert_eq|].
  rewrite !lookup_insert_ne by done.
  destruct (decide (q = tmp_path p)) as [->|]; [by rewrite !lookup_delete_eq|].
  by rewrite !lookup_delete_ne, !lookup_insert_ne by done.
Qed.

Lemma load_run p d fs n contents :
  fs !! p = Some contents →
  load p ((d, fs), n) =
  match check_header contents with
  | None => (false, ((d, fs), n))
  | Some (count, s) =>
      match load_entries (Z.to_nat count) (clock n) empty_snapshot s with
      | None => (false, ((d, fs), S n))
      | Some snap => (true, ((mkDb (store snap) (list_store snap) (expiry snap), fs), S n))
      end
  end.
Proof.
  intros Hp. unfold load. run_pers. rewrite Hp. destruct (check_header contents) as [[count s]|]; [|done].
  by destruct (load_entries _ _ _ _).
Qed.

Lemma times_ok_clock d n n' : deadlines_ok d (clock n) → times_ok (expiry_ d) (clock n) (clock n').
Proof. intros Hd. split_and!; [apply clock_range..|]. by intros k dl ?%Hd. Qed.

(** ** Restored databases *)

Lemma restored_present d t t' k :
  wf d → is_Some (restored_expiry t t' (expiry_ d) !! k) → present (restored t t' d) k.
Proof.
  intros Hwf [x Hx]. unfold restored_expiry in Hx. rewrite lookup_omap in Hx.
  destruct (expiry_ d !! k) as [dl|] eqn:He; [|done]. simpl in Hx.
  destruct (0 <? ms_left dl t) eqn:Hms; [|done].
  assert (survives (expiry_ d) t k = true) as Hs by (unfold survives; by rewrite He).
  destruct (wf_expiry d Hwf k) as [[v Hv]|[l Hl]]; [eauto|left; exists v|right; exists l];
    by apply map_lookup_filter_Some.
Qed.

Lemma wf_restored d t t' : wf d → wf (restored t t' d).
Proof.
  intros Hwf. constructor.
  - intros k. destruct (wf_one_map d Hwf k); [left|right]; apply map_lookup_filter_None; by left.
  - intros k. by apply restored_present.
  - intros k [Hl _]%map_lookup_filter_Some. by apply (wf_nonempty d Hwf k).
Qed.

(** ** What a key becomes *)

Lemma restored_lookup d t t' k :
  survives (expiry_ d) t k = true →
  store_ (restored t t' d) !! k = store_ d !! k ∧ list_store_ (restored t t' d) !! k = list_store_ d !! k.
Proof.
  intros Hs. unfold restored. simpl. rewrite !map_lookup_filter.
  destruct (store_ d !! k), (list_store_ d !! k); simpl; rewrite ?option_guard_True by done; done.
Qed.

Lemma restored_props d t t' :
  wf d →
  wf (restored t t' d) ∧
  (∀ k, expiry_ d !! k = None →
     store_ (restored t t' d) !! k = store_ d !! k ∧
     list_store_ (restored t t' d) !! k = list_store_ d !! k ∧
     expiry_ (restored t t' d) !! k = None) ∧
  (∀ k deadline, expiry_ d !! k = Some deadline → t + NS_PER_MS ≤ deadline →
     store_ (restored t t' d) !! k = store_ d !! k ∧
     list_store_ (restored t t' d) !! k = list_store_ d !! k ∧
     ∃ deadline', expiry_ (restored t t' d) !! k = Some deadline' ∧
       deadline - t - NS_PER_MS < deadline' - t' ≤ deadline - t).
Proof.
  intros Hwf. split; [by apply wf_restored|]. split.
  - intros k Hk. destruct (restored_lookup d t t' k) as [-> ->]; [unfold survives; by rewrite Hk|].
    split_and!; [done..|]. unfold restored, restored_expiry. simpl. by rewrite lookup_omap, Hk.
  - intros k dl Hk Hms. unfold NS_PER_MS in Hms.
    pose proof (Z.quot_rem' (dl - t) NS_PER_MS) as Hq. unfold NS_PER_MS in Hq.
    pose proof (Z.rem_bound_pos (dl - t) 1000000 ltac:(lia) ltac:(lia)).
    assert ((0 <? ms_left dl t) = true) as Hpos by (apply Z.ltb_lt; unfold ms_left, NS_PER_MS; lia).
    destruct (restored_lookup d t t' k) as [-> ->]; [unfold survives; by rewrite Hk|].
    split_and!; [done..|]. exists (t' + ms_left dl t * NS_PER_MS). split.
    + unfold restored, restored_expiry. simpl. rewrite lookup_omap, Hk. simpl. by rewrite Hpos.
    + unfold ms_left, NS_PER_MS. lia.
Qed.

End Runs.

Section Claims.
Context `{SteadyClock} `{HashOrder}.
Implicit Types (d : Database) (p : bytes) (fs : gmap bytes bytes) (n : nat).

(** C13: saving and loading round-trip.  A save whose system calls succeed
    writes a file from which any later load, into any database and at any
    clock reading, succeeds and installs exactly the saved keys and values
    that still had a millisecond to live, with their remaining time; it
    touches no file but the dump and its temporary, which is gone. *)
Theorem save_load_roundtrip d fs n p :
  wf d → deadlines_ok d (clock n) → sizes_ok (snapshot_of d) →
  ∃ fs', save io_ok p ((d, fs), n) = (true, ((d, fs'), S n)) ∧
    (∀ d0 n', load p ((d0, fs'), n') =
       (true, ((restored (clock n) (clock n') d, fs'), S n'))) ∧
    fs' !! tmp_path p = None ∧
    (∀ q, q ≠ p → q ≠ tmp_path p → fs' !! q = fs !! q).
Proof.
  intros Hwf Hd Hs. eexists. split_and!; [apply save_run|..]; unfold saved_files.
  - intros d0 n'. erewrite load_run by apply lookup_insert_eq.
    rewrite check_header_dump, load_entries_dump; [done..|by apply times_ok_clock].
  - pose proof (tmp_path_ne p). by rewrite lookup_insert_ne, lookup_delete_eq by done.
  - intros q Hp Ht. by rewrite lookup_insert_ne, lookup_delete_ne by done.
Qed.


(** What a load restores, key by key.  After a successful save, a load
    into any database yields a well-formed one, in which keys without a
    deadline keep their value and stay without one, and a key with at least
    a millisecond left keeps its value and has at most its old remaining
    time, less than a millisecond shorter. *)
Theorem restored_faithful d fs n p d0 n' :
  wf d → deadlines_ok d (clock n) → sizes_ok (snapshot_of d) →
  ∃ fs' d', save io_ok p ((d, fs), n) = (true, ((d, fs'), S n)) ∧
  load p ((d0, fs'), n') = (true, ((d', fs'), S n')) ∧ wf d' ∧
  (∀ k, expiry_ d !! k = None →
     store_ d' !! k = store_ d !! k ∧ list_store_ d' !! k = list_store_ d !! k ∧ expiry_ d' !! k = None) ∧
  (∀ k deadline, expiry_ d !! k = Some deadline → clock n + NS_PER_MS ≤ deadline →
     store_ d' !! k = store_ d !! k ∧ list_store_ d' !! k = list_store_ d !! k ∧
     ∃ deadline', expiry_ d' !! k = Some deadline' ∧
       deadline - clock n - NS_PER_MS < deadline' - clock n' ≤ deadline - clock n).
Proof.
  intros Hwf Hd Hs. do 2 eexists. split; [apply save_run|]. split; [|by apply restored_props].
  erewrite load_run by apply lookup_insert_eq.
  rewrite check_header_dump, load_entries_dump; [done..|by apply times_ok_clock].
Qed.


(** C23: no corruption of a single byte is accepted.  If a file passes the
    checks of [load], changing any one of its bytes (contents or checksum)
    makes [load] fail and leave the database alone. *)
Theorem load_rejects_corruption p d fs n a b c c' :
  check_header (a ++ c :: b) ≠ None → c ≠ c' → fs !! p = Some (a ++ c' :: b) →
  load p ((d, fs), n) = (false, ((d, fs), n)).
Proof.
  intros Hok Hne Hp. rewrite (load_run _ _ _ _ _ Hp).
  by rewrite check_header_one_byte with (c := c).
Qed.

(** C37: until the old dump is removed, failures are harmless.  If [save]
    fails before its final rename, the previous dump file and every other
    file are as before, and no temporary file is left behind by a failure
    after it was created (when the call that removes it succeeds). *)
Theorem save_failure_keeps_dump io p d fs n d' fs' n' :
  io_rename io = true → save io p ((d, fs), n) = (false, ((d', fs'), n')) →
  d' = d ∧ (∀ q, q ≠ tmp_path p → fs' !! q = fs !! q) ∧
  (io_open io = true → io_remove_tmp io = true → fs' !! tmp_path p = None).
Proof.
  intros Hr Hs. unfold save in Hs. run_pers. rewrite Hr in Hs. cbn [negb] in Hs.
  repeat case_match; simplify_eq; split_and!; intros; try done;
    rewrite ?lookup_delete_eq, ?lookup_delete_ne, ?lookup_insert_ne by done; try done; try congruence.
  all: match goal with H : negb ?b = true, H' : ?b = true |- _ => by rewrite H' in H end.
Qed.

(** The replacement of the dump is not atomic.  The old file is removed
    before the rename, so a rename that fails leaves neither the old dump nor
    the new one. *)
Theorem save_rename_failure_loses_dump p d fs n :
  ∃ fs', save (mkIo true true 0 true true true 4 true false true) p ((d, fs), n) =
    (false, ((d, fs'), S n)) ∧ fs' !! p = None ∧ fs' !! tmp_path p = None.
Proof.
  eexists. split; [unfold save; run_pers; reflexivity|]. split; [|apply lookup_delete_eq].
  rewrite lookup_delete_ne by apply tmp_path_ne. apply lookup_delete_eq.
Qed.

End Claims.

(** [save] does not check the checksum it appends.  When none of its four
    bytes reach the disk, it reports success, and the file it leaves in the
    place of the previous dump is refused by [load]. *)
Theorem save_unchecked_checksum :
  let io := mkIo true true 0 true true true 0 true true true in
  let '(ok, st) := @save demo_clock gmap_order io ($"dump.rdb") ((demo_db 9000000000, ∅), 0%nat) in
  ok = true ∧ fst (@load demo_clock ($"dump.rdb") st) = false.
Proof. vm_compute. done. Qed.

(** C38: the chunked, table-driven checksum is the CRC-32 polynomial division.
    [compute_crc32] over the first [len] bytes of a file equals the bit by
    bit definition on those bytes, whatever the length of the file. *)
Theorem compute_crc32_correct contents len :
  compute_crc32 (Some contents) len = crc32_of (take len contents).
Proof. apply compute_crc32_spec. Qed.

(** ** Instances *)

Lemma demo_deadlines : deadlines_ok (demo_db 9000000000) (@clock demo_clock 0).
Proof.
  intros k dl. unfold demo_db. simpl. intros [_ <-]%lookup_singleton_Some.
  unfold demo_time, INT_MAX, NS_PER_S. lia.
Qed.

Lemma demo_sizes : sizes_ok (snapshot_of (demo_db 9000000000)).
Proof.
  constructor; unfold demo_db; simpl.
  - intros k [[v [<- _]%lookup_singleton_Some]|[v [<- _]%lookup_singleton_Some]]; done.
  - intros k v [_ <-]%lookup_singleton_Some. done.
  - intros k l [_ <-]%lookup_singleton_Some. split; [done|]. by repeat constructor.
  - by rewrite !map_size_singleton.
Qed.

Lemma save_load_roundtrip_witness :
  let d := demo_db 9000000000 in
  ∃ fs', @save demo_clock gmap_order io_ok ($"dump.rdb") ((d, ∅), 0%nat) = (true, ((d, fs'), 1%nat)) ∧
    (∀ d0 n', @load demo_clock ($"dump.rdb") ((d0, fs'), n') =
       (true, ((restored (@clock demo_clock 0) (@clock demo_clock n') d, fs'), S n'))) ∧
    fs' !! tmp_path ($"dump.rdb") = None ∧
    (∀ q, q ≠ $"dump.rdb" → q ≠ tmp_path ($"dump.rdb") → fs' !! q = (∅ : gmap bytes bytes) !! q).
Proof.
  apply (@save_load_roundtrip demo_clock gmap_order);
    [apply wf_demo_db|apply demo_deadlines|apply demo_sizes].
Defined.

Lemma restored_faithful_witness :
  ∃ fs' d', @save demo_clock gmap_order io_ok ($"dump.rdb") ((demo_db 9000000000, ∅), 0%nat) =
      (true, ((demo_db 9000000000, fs'), 1%nat)) ∧
    @load demo_clock ($"dump.rdb") ((empty_db, fs'), 2%nat) = (true, ((d', fs'), 3%nat)) ∧
    store_ d' !! ($"k") = Some ($"v") ∧ list_store_ d' !! ($"l") = Some [$"a"; $"b"; $"c"].
Proof.
  destruct (@restored_faithful demo_clock gmap_order (demo_db 9000000000) ∅ 0 ($"dump.rdb") empty_db 2)
    as (fs' & d' & E1 & E2 & _ & Hn & Hs); [apply wf_demo_db|apply demo_deadlines|apply demo_sizes|].
  exists fs', d'. split; [exact E1|]. split; [exact E2|]. split.
  - destruct (Hs ($"k") 9000000000) as [-> _]; [vm_compute; reflexivity|vm_compute; discriminate|].
    vm_compute. reflexivity.
  - destruct (Hn ($"l")) as (_ & -> & _); vm_compute; reflexivity.
Defined.

(** A file with a correct checksum whose only entry has the unknown type 7. *)
Definition strange_dump : bytes :=
  sealed (MAGIC ++ write_uint32 1 ++ [byte_of 7; byte_of 0] ++ write_string ($"x") ++ write_string ($"y")).


(** The dump of an empty database. *)
Definition empty_dump : bytes := sealed (MAGIC ++ write_uint32 0).

Lemma load_rejects_corruption_witness :
  let fs : gmap bytes bytes := {[ $"dump.rdb" := take 12 empty_dump ++ "001"%char :: drop 13 empty_dump ]} in
  @load demo_clock ($"dump.rdb") ((empty_db, fs), 0%nat) = (false, ((empty_db, fs), 0%nat)).
Proof.
  apply (@load_rejects_corruption demo_clock ($"dump.rdb") empty_db _ 0 (take 12 empty_dump)
    (drop 13 empty_dump) "000"%char "001"%char).
  - intros E. apply (f_equal (λ o, bool_decide (is_Some o))) in E. vm_compute in E. discriminate E.
  - discriminate.
  - apply lookup_singleton_eq.
Defined.

Lemma save_failure_keeps_dump_witness :
  let fs : gmap bytes bytes := {[ $"dump.rdb" := $"old" ]} in
  let io := mkIo true false 3 true true true 4 true true true in
  ∃ fs', @save demo_clock gmap_order io ($"dump.rdb") ((empty_db, fs), 0%nat) = (false, ((empty_db, fs'), 1%nat)) ∧
    fs' !! ($"dump.rdb") = fs !! ($"dump.rdb").
Proof.
  set (fs := {[ $"dump.rdb" := $"old" ]}). exists (delete (tmp_path ($"dump.rdb")) (<[tmp_path ($"dump.rdb") := $"MYR"]> (<[tmp_path ($"dump.rdb") := []]> fs))).
  split; [reflexivity|].
  apply (@save_failure_keeps_dump demo_clock gmap_order (mkIo true false 3 true true true 4 true true true) ($"dump.rdb")
    empty_db fs 0 empty_db _ 1); [reflexivity|reflexivity|discriminate].
Defined.
