(* ===== verification/Socket.v ===== *)
(** * Sockets (platform/platform.h) and complete writes (resp.cpp, lines 368-386)

    The operating system's socket calls are the operations of a type class
    over an abstract network state; its laws are the documented behaviour of
    read, write, accept and close.  [write_exact] and [send_response] loop
    over partial writes; the fuel [n + 1] is enough because every round but
    the last sends at least one byte. *)

From S2P Require Import Prelude.

(** ** Descriptors *)

(** A POSIX [socket_t] is an [int]; -1 is no socket. *)
Definition INVALID_SOCKET_VAL : Z := (-1)%Z.

(** [platform::is_valid]. *)
Definition is_valid (sock : Z) : bool := (0 <=? sock)%Z.

(** The status flag of a non-blocking descriptor. *)
Definition O_NONBLOCK : Z := 2048%Z.

(** ** The interface *)

(** What [socket_read] reports: data, end of stream, EAGAIN/EWOULDBLOCK, or
    another error. *)
Inductive ReadResult := ReadData (data : bytes) | ReadClosed | ReadWouldBlock | ReadError.

Class SocketApi (Net : Type) := {
  socket_write : Z → bytes → State Net Z;
  socket_read : Z → nat → State Net ReadResult;
  accept_socket : State Net (option Z);
  close_socket : Z → State Net unit;
  (** fcntl(2) with F_GETFL and F_SETFL; -1 is an error. *)
  fcntl_getfl : Z → State Net Z;
  fcntl_setfl : Z → Z → State Net Z;
  (** The bytes written so far to the peer of a socket, the bytes its peer has
      sent that are still unread, and the open client sockets. *)
  sent : Net → Z → bytes;
  incoming : Net → Z → bytes;
  open_fds : Net → gset Z;
  (** write(2): at most the whole buffer, in order, to this socket only. *)
  write_bound : ∀ fd buf w n w', socket_write fd buf w = (n, w') → (n ≤ Z.of_nat (length buf))%Z;
  write_sent : ∀ fd buf w n w', socket_write fd buf w = (n, w') →
    sent w' fd = sent w fd ++ take (Z.to_nat n) buf;
  write_other : ∀ fd buf w n w' fd', socket_write fd buf w = (n, w') → fd' ≠ fd → sent w' fd' = sent w fd';
  write_open : ∀ fd buf w n w', socket_write fd buf w = (n, w') → open_fds w' = open_fds w;
  (** read(2): a non-empty prefix of what arrived, no longer than the buffer. *)
  read_data : ∀ fd len w data w', socket_read fd len w = (ReadData data, w') →
    0 < length data ≤ len ∧ incoming w fd = data ++ incoming w' fd;
  read_sent : ∀ fd len w r w' fd', socket_read fd len w = (r, w') → sent w' fd' = sent w fd';
  read_open : ∀ fd len w r w', socket_read fd len w = (r, w') → open_fds w' = open_fds w;
  (** accept(2) returns a descriptor that is not in use; close(2) frees it. *)
  accept_open : ∀ w r w', accept_socket w = (r, w') →
    match r with
    | Some fd => (0 ≤ fd)%Z ∧ (fd ∉ open_fds w) ∧ open_fds w' = {[fd]} ∪ open_fds w
    | None => open_fds w' = open_fds w
    end;
  close_open : ∀ fd w r w', close_socket fd w = (r, w') → open_fds w' = open_fds w ∖ {[fd]};
  (** fcntl(2) on the status flags opens and closes nothing. *)
  getfl_open : ∀ fd w r w', fcntl_getfl fd w = (r, w') → open_fds w' = open_fds w;
  setfl_open : ∀ fd f w r w', fcntl_setfl fd f w = (r, w') → open_fds w' = open_fds w;
}.

(** ** Complete writes *)

Section Write.
Context {Net : Type} `{SocketApi Net}.

Fixpoint write_loop (fuel : nat) (sock : Z) (buffer : bytes) (total : nat) : State Net bool :=
  match fuel with
  | O => mret false
  | S f =>
      if total <? length buffer then
        n ← socket_write sock (drop total buffer);
        if (n <=? 0)%Z then mret false else write_loop f sock buffer (total + Z.to_nat n)
      else mret true
  end.

Definition write_exact (sock : Z) (buffer : bytes) : State Net bool :=
  write_loop (S (length buffer)) sock buffer 0.

Definition send_response (sock : Z) (resp_data : bytes) : State Net bool :=
  write_exact sock resp_data.

(** [Server::set_nonblocking]. *)
Definition set_nonblocking (sock : Z) : State Net bool :=
  flags ← fcntl_getfl sock;
  if (flags =? -1)%Z then mret false
  else r ← fcntl_setfl sock (Z.lor flags O_NONBLOCK); mret (negb (r =? -1)%Z).

(** ** Lemmas *)

Lemma set_nonblocking_open sock w b w' : set_nonblocking sock w = (b, w') → open_fds w' = open_fds w.
Proof.
  unfold set_nonblocking, mbind, state_bind. destruct (fcntl_getfl sock w) as [flags w1] eqn:E1.
  apply getfl_open in E1. destruct (flags =? -1)%Z; [by intros [= <- <-]|].
  destruct (fcntl_setfl _ _ w1) as [r w2] eqn:E2. apply setfl_open in E2. intros [= <- <-]. congruence.
Qed.

(** More fuel changes nothing: the loop ends by itself. *)
Lemma write_loop_fuel f f' sock buffer total w :
  length buffer - total < f → length buffer - total < f' →
  write_loop f sock buffer total w = write_loop f' sock buffer total w.
Proof.
  revert f' total w. induction f as [|f IH]; intros f' total w Hf Hf'; [lia|].
  destruct f' as [|f']; [lia|]. cbn [write_loop].
  destruct (Nat.ltb_spec total (length buffer)); [|done].
  unfold mbind, state_bind. destruct (socket_write _ _ w) as [n w'].
  destruct (Z.leb_spec n 0); [done|]. apply IH; lia.
Qed.

(** What the loop has sent when it stops. *)
Lemma write_loop_sent f sock buffer total w b w' :
  total ≤ length buffer → length buffer - total < f →
  write_loop f sock buffer total w = (b, w') →
  ∃ m, total ≤ m ≤ length buffer ∧ (b = true ↔ m = length buffer) ∧
    sent w' sock = sent w sock ++ take (m - total) (drop total buffer).
Proof.
  revert total w. induction f as [|f IH]; intros total w Ht Hf; [lia|]. cbn [write_loop].
  destruct (Nat.ltb_spec total (length buffer)) as [Hlt|Hge].
  - unfold mbind, state_bind. destruct (socket_write _ _ w) as [n w1] eqn:E.
    pose proof (write_bound _ _ _ _ _ E) as Hb. pose proof (write_sent _ _ _ _ _ E) as Hs.
    rewrite length_drop in Hb. destruct (Z.leb_spec n 0) as [Hn|Hn].
    + intros [= <- <-]. exists total. split; [lia|]. split; [split; [done|intros; exfalso; lia]|].
      rewrite Hs. replace (Z.to_nat n) with 0 by lia. by rewrite Nat.sub_diag, !take_0.
    + intros Hr. destruct (IH (total + Z.to_nat n) w1 ltac:(lia) ltac:(lia) Hr) as (m & Hm & Hiff & Hs').
      exists m. split; [lia|]. split; [done|]. rewrite Hs', Hs, <- app_assoc. f_equal.
      rewrite <- drop_drop, take_take_drop. f_equal. lia.
  - intros [= <- <-]. exists (length buffer). split; [lia|]. split; [done|].
    replace (length buffer - total) with 0 by lia. by rewrite take_0, app_nil_r.
Qed.

Lemma write_loop_frame f sock buffer total w b w' :
  write_loop f sock buffer total w = (b, w') →
  (∀ fd, fd ≠ sock → sent w' fd = sent w fd) ∧ open_fds w' = open_fds w.
Proof.
  revert total w. induction f as [|f IH]; intros total w; cbn [write_loop]; [by intros [= <- <-]|].
  destruct (_ <? _)%nat; [|by intros [= <- <-]].
  unfold mbind, state_bind. destruct (socket_write _ _ w) as [n w1] eqn:E.
  assert ((∀ fd, fd ≠ sock → sent w1 fd = sent w fd) ∧ open_fds w1 = open_fds w) as [Hs Ho].
  { split; [intros; by eapply write_other|by eapply write_open]. }
  destruct (n <=? 0)%Z; [by intros [= <- <-]|]. intros [Hs' Ho']%IH.
  split; [intros; by rewrite Hs', Hs|by rewrite Ho', Ho].
Qed.

(** [send_response]: true exactly when all of the reply was sent; a prefix
    otherwise; no other socket is written to. *)
Lemma send_response_run sock data w b w' :
  send_response sock data w = (b, w') →
  (∃ m, m ≤ length data ∧ (b = true ↔ m = length data) ∧ sent w' sock = sent w sock ++ take m data) ∧
  (∀ fd, fd ≠ sock → sent w' fd = sent w fd) ∧ open_fds w' = open_fds w.
Proof.
  intros E. split; [|by eapply write_loop_frame].
  destruct (write_loop_sent (S (length data)) sock data 0 w b w' (Nat.le_0_l _) ltac:(lia) E) as (m & Hm & Hb & Hs).
  exists m. split; [lia|]. split; [done|]. by rewrite Hs, Nat.sub_0_r.
Qed.

Lemma send_response_true sock data w w' :
  send_response sock data w = (true, w') → sent w' sock = sent w sock ++ data.
Proof.
  intros [(m & _ & Hb & ->) _]%send_response_run. f_equal. apply take_ge. by rewrite (proj1 Hb).
Qed.

(** Offering a buffer to write(2) until all of it is taken ([true]) or a call
    takes nothing ([false]): what a complete write means for the network. *)
Inductive delivers (sock : Z) : bytes → Net → bool → Net → Prop :=
  | delivers_all w : delivers sock [] w true w
  | delivers_fails buf w n w' :
      buf ≠ [] → socket_write sock buf w = (n, w') → (n ≤ 0)%Z → delivers sock buf w false w'
  | delivers_part buf w n w1 b w2 :
      buf ≠ [] → socket_write sock buf w = (n, w1) → (0 < n)%Z → delivers sock (drop (Z.to_nat n) buf) w1 b w2 →
      delivers sock buf w b w2.

Lemma write_loop_delivers f sock buffer total w b w' :
  length buffer - total < f → write_loop f sock buffer total w = (b, w') →
  delivers sock (drop total buffer) w b w'.
Proof.
  revert total w. induction f as [|f IH]; intros total w Hf; [lia|]. cbn [write_loop].
  destruct (Nat.ltb_spec total (length buffer)) as [Hlt|Hge].
  - assert (drop total buffer ≠ []) as Hne.
    { intros E. apply (f_equal length) in E. rewrite length_drop in E. simpl in E. lia. }
    unfold mbind, state_bind. destruct (socket_write _ _ w) as [n w1] eqn:E. destruct (Z.leb_spec n 0) as [Hn|Hn].
    + intros [= <- <-]. by eapply delivers_fails.
    + intros Hr%IH; [|lia]. eapply delivers_part; [done|done|done|]. by rewrite drop_drop.
  - intros [= <- <-]. rewrite drop_ge by lia. constructor.
Qed.

(** [send_response] is false only when write(2) takes nothing of what is left. *)
Lemma send_response_delivers sock data w b w' :
  send_response sock data w = (b, w') → delivers sock data w b w'.
Proof. intros E%write_loop_delivers; [done|lia]. Qed.

(** What it leaves on the network. *)
Lemma delivers_sent sock data w b w' :
  delivers sock data w b w' →
  (∃ m, m ≤ length data ∧ (b = true ↔ m = length data) ∧ sent w' sock = sent w sock ++ take m data) ∧
  (∀ fd, fd ≠ sock → sent w' fd = sent w fd) ∧ open_fds w' = open_fds w.
Proof.
  induction 1 as [w|buf w n w' Hne E Hn|buf w n w1 b w2 Hne E Hn _ ((m & Hm & Hb & Hs) & Ho & Hop)].
  - split; [exists 0; rewrite take_nil, app_nil_r; done|done].
  - pose proof (write_sent _ _ _ _ _ E) as Hs. replace (Z.to_nat n) with 0 in Hs by lia. split; [|split].
    + exists 0. split; [lia|]. split; [|done]. destruct buf; [done|]. split; [done|simpl; lia].
    + intros fd Hfd. by apply (write_other _ _ _ _ _ _ E).
    + by apply (write_open _ _ _ _ _ E).
  - pose proof (write_bound _ _ _ _ _ E). pose proof (write_sent _ _ _ _ _ E) as Hw. rewrite length_drop in Hm, Hb.
    split; [|split].
    + exists (Z.to_nat n + m). split; [lia|]. split; [rewrite Hb; lia|]. rewrite Hs, Hw, <- app_assoc. f_equal.
      by rewrite take_take_drop.
    + intros fd Hfd. rewrite Ho by done. by apply (write_other _ _ _ _ _ _ E).
    + rewrite Hop. by apply (write_open _ _ _ _ _ E).
Qed.

(** While [G] holds every write takes at least one byte, and [G] goes on to
    hold. *)
Definition willing (G : Net → Prop) (sock : Z) : Prop :=
  ∀ w buf, G w → buf ≠ [] → ∃ n w', socket_write sock buf w = (n, w') ∧ (0 < n)%Z ∧ G w'.

Lemma write_loop_willing G f sock buffer total w :
  willing G sock → G w → length buffer - total < f →
  ∃ w', write_loop f sock buffer total w = (true, w') ∧ G w'.
Proof.
  intros Hw. revert total w. induction f as [|f IH]; intros total w Hg Hf; [lia|]. cbn [write_loop].
  destruct (Nat.ltb_spec total (length buffer)) as [Hlt|Hge]; [|by exists w].
  unfold mbind, state_bind. destruct (Hw w (drop total buffer) Hg) as (n & w1 & E & Hn & Hg1).
  { intros E. apply (f_equal length) in E. rewrite length_drop in E. simpl in E. lia. }
  rewrite E. rewrite (proj2 (Z.leb_gt _ _)) by done. apply IH; [done|lia].
Qed.

(** A complete write to such a socket. *)
Lemma send_response_willing G sock data w :
  willing G sock → G w →
  ∃ w', send_response sock data w = (true, w') ∧ G w' ∧ sent w' sock = sent w sock ++ data.
Proof.
  intros Hw Hg. destruct (write_loop_willing G (S (length data)) sock data 0 w Hw Hg) as (w' & E & Hg'); [lia|].
  exists w'. split; [done|]. split; [done|]. by apply send_response_true.
Qed.

End Write.

(** ** A concrete network, for evaluated examples

    Writes take at most 16 bytes at a time; reads deliver what was scripted
    for the socket and then report end of stream; accept hands out the next
    scripted connection. *)
Record DemoNet := mkNet {
  net_sent : gmap Z bytes;
  net_in : gmap Z bytes;
  net_open : gset Z;
  net_broken : gset Z;
}.

Definition demo_write (fd : Z) (buf : bytes) : State DemoNet Z := λ w,
  if bool_decide (fd ∈ net_broken w) then ((-1)%Z, w)
  else (Z.of_nat (length (take 16 buf)),
        mkNet (<[fd := default [] (net_sent w !! fd) ++ take 16 buf]> (net_sent w))
          (net_in w) (net_open w) (net_broken w)).

Definition demo_read (fd : Z) (len : nat) : State DemoNet ReadResult := λ w,
  let data := take len (default [] (net_in w !! fd)) in
  match data with
  | [] => (ReadClosed, w)
  | _ => (ReadData data, mkNet (net_sent w) (<[fd := drop len (default [] (net_in w !! fd))]> (net_in w))
                           (net_open w) (net_broken w))
  end.

(** The lowest free descriptor above the others. *)
Definition demo_fresh (s : gset Z) : Z := (1 + set_fold Z.max 0 s)%Z.

Lemma demo_fresh_spec (s : gset Z) : (0 ≤ demo_fresh s)%Z ∧ demo_fresh s ∉ s.
Proof.
  assert ((0 ≤ set_fold Z.max 0 s)%Z ∧ ∀ x, x ∈ s → (x ≤ set_fold Z.max 0 s)%Z) as [H1 H2].
  { apply (set_fold_ind_L (λ m X, (0 ≤ m)%Z ∧ ∀ x, x ∈ X → (x ≤ m)%Z)); [set_solver|].
    intros x X m Hx [Hm HX]. split; [lia|]. intros y [->%elem_of_singleton|Hy%HX]%elem_of_union; lia. }
  unfold demo_fresh. split; [lia|]. intros Hin%H2. lia.
Qed.

Definition demo_accept : State DemoNet (option Z) := λ w,
  let fd := demo_fresh (net_open w) in
  (Some fd, mkNet (net_sent w) (net_in w) ({[fd]} ∪ net_open w) (net_broken w)).

Definition demo_close (fd : Z) : State DemoNet unit := λ w,
  (tt, mkNet (net_sent w) (net_in w) (net_open w ∖ {[fd]}) (net_broken w)).

#[refine] Definition demo_sockets : SocketApi DemoNet := {|
  socket_write := demo_write;
  socket_read := demo_read;
  accept_socket := demo_accept;
  close_socket := demo_close;
  fcntl_getfl _ := mret 2%Z;
  fcntl_setfl _ _ := mret 0%Z;
  sent w fd := default [] (net_sent w !! fd);
  incoming w fd := default [] (net_in w !! fd);
  open_fds := net_open;
|}.
Proof.
  - intros fd buf w n w'. unfold demo_write. destruct (bool_decide _); intros [= <- <-]; [lia|].
    change (Z.of_nat (length (take 16 buf)) ≤ Z.of_nat (length buf))%Z. rewrite length_take. lia.
  - intros fd buf w n w'. unfold demo_write. destruct (bool_decide _); intros [= <- <-].
    + simpl. by rewrite take_0, app_nil_r.
    + change (length _) with (length (take 16 buf)). cbn [net_sent].
      rewrite lookup_insert_eq, Nat2Z.id, length_take. simpl default. f_equal.
      destruct (Nat.le_gt_cases 16 (length buf)); [by rewrite Nat.min_l|].
      rewrite Nat.min_r, firstn_all by lia. apply take_ge. lia.
  - intros fd buf w n w' fd'. unfold demo_write. destruct (bool_decide _); intros [= <- <-]; [done|].
    intros Hne. cbn [net_sent]. by rewrite lookup_insert_ne.
  - intros fd buf w n w'. unfold demo_write. by destruct (bool_decide _); intros [= <- <-].
  - intros fd len w data w'. unfold demo_read.
    set (s := default [] (net_in w !! fd)). destruct (take len s) as [|c d] eqn:E; [done|].
    intros [= <- <-]. cbn [net_in]. rewrite lookup_insert_eq. cbn [default].
    assert (length (take len s) = S (length d)) as El by (by rewrite E). rewrite length_take in El.
    split; [simpl; lia|]. rewrite <- E. symmetry. apply take_drop.
  - intros fd len w r w' fd'. unfold demo_read. by destruct (take len _); intros [= <- <-].
  - intros fd len w r w'. unfold demo_read. by destruct (take len _); intros [= <- <-].
  - intros w r w'. unfold demo_accept. intros [= <- <-]. by destruct (demo_fresh_spec (net_open w)).
  - intros fd w r w'. unfold demo_close. by intros [= <- <-].
  - by intros fd w r w' [= <- <-].
  - by intros fd f w r w' [= <- <-].
Defined.
