(* ===== verification/Protocol.v ===== *)
(** * The length-prefixed wire protocol (protocol/protocol.cpp, protocol/protocol.h)

    [Protocol::encode], [read_exact], [write_exact], [read_message] and
    [send_message].  The bytes of [htonl(len)] in memory are the most
    significant first on every host, which is [write_uint32]; [ntohl] of four
    bytes read into memory is [combine].  [read_exact] carries fuel [n + 1]:
    every successful read delivers at least one byte. *)

From S2P Require Import Prelude Database Persistence PersistenceFacts Socket.

Definition MAX_MESSAGE : Z := (64 * 1024 * 1024)%Z.

(** ** Code *)

Module Protocol.

Definition encode (message : bytes) : bytes :=
  write_uint32 (to_uint32 (Z.of_nat (length message))) ++ message.

Section Io.
Context {Net : Type} `{SocketApi Net}.

(** [acc] is what the buffer holds so far; [None] is the return value false. *)
Fixpoint read_loop (fuel : nat) (sock : Z) (n : nat) (acc : bytes) : State Net (option bytes) :=
  match fuel with
  | O => mret None
  | S f =>
      if length acc <? n then
        r ← socket_read sock (n - length acc);
        match r with
        | ReadData data => read_loop f sock n (acc ++ data)
        | _ => mret None
        end
      else mret (Some acc)
  end.

Definition read_exact (sock : Z) (n : nat) : State Net (option bytes) := read_loop (S n) sock n [].

Definition write_exact (sock : Z) (buffer : bytes) : State Net bool :=
  write_loop (S (length buffer)) sock buffer 0.

(** The flag [ok] and the message. *)
Definition read_message (sock : Z) : State Net (bool * bytes) :=
  h ← read_exact sock 4;
  match h with
  | None => mret (false, [])
  | Some net_len =>
      let len := combine net_len in
      if (MAX_MESSAGE <? len)%Z then mret (false, [])
      else
        m ← read_exact sock (Z.to_nat len);
        match m with
        | None => mret (false, [])
        | Some message => mret (true, message)
        end
  end.

Definition send_message (sock : Z) (message : bytes) : State Net bool :=
  write_exact sock (encode message).

End Io.
End Protocol.
Import Protocol.

(** ** Theorems *)

Section Facts.
Context {Net : Type} `{SocketApi Net}.

(** The peer's bytes arrive: a read of a socket with unread bytes delivers. *)
Definition reliable (sock : Z) : Prop :=
  ∀ w len, 0 < len → incoming w sock ≠ [] → ∃ data w', socket_read sock len w = (ReadData data, w').

Lemma read_loop_prefix f sock n acc w data rest :
  reliable sock → length acc + length data = n → length data < f →
  incoming w sock = data ++ rest →
  ∃ w', read_loop f sock n acc w = (Some (acc ++ data), w') ∧ incoming w' sock = rest ∧
    ∀ fd, sent w' fd = sent w fd.
Proof.
  intros Hr. revert acc w data. induction f as [|f IH]; intros acc w data Hn Hf Hw; [lia|].
  cbn [read_loop]. destruct (Nat.ltb_spec (length acc) n) as [Hlt|Hge].
  - destruct (Hr w (n - length acc)) as (d & w1 & E); [lia|rewrite Hw; destruct data; simpl in *; [lia|done]|].
    unfold mbind, state_bind. rewrite E.
    apply read_data in E as Hd. destruct Hd as [Hl Hin]. rewrite Hw in Hin.
    assert (data = d ++ drop (length d) data) as Ed.
    { apply (f_equal (take (length d))) in Hin. rewrite take_app_le, take_app_length in Hin by lia.
      rewrite <- Hin at 1. by rewrite take_drop. }
    destruct (IH (acc ++ d) w1 (drop (length d) data)) as (w2 & E2 & Hi & Hs2).
    + rewrite length_app, length_drop. lia.
    + rewrite length_drop. lia.
    + rewrite Ed, <- app_assoc in Hin. by apply app_inv_head in Hin.
    + exists w2. rewrite E2, <- app_assoc, <- Ed. split_and!; [done|done|].
      intros fd. by rewrite Hs2, (read_sent _ _ _ _ _ fd E).
  - assert (data = []) as -> by (destruct data; [done|simpl in *; lia]).
    exists w. rewrite app_nil_r. by split_and!.
Qed.

(** C40: framing round-trips.  When the peer's bytes are the encoding of a
    message of at most 64 MB followed by anything, [read_message] returns that
    message, however the bytes are split into reads, and leaves what
    follows unread. *)
Theorem protocol_roundtrip sock m rest w :
  reliable sock → (Z.of_nat (length m) ≤ MAX_MESSAGE)%Z →
  incoming w sock = encode m ++ rest →
  ∃ w', read_message sock w = ((true, m), w') ∧ incoming w' sock = rest.
Proof.
  unfold MAX_MESSAGE. intros Hr Hm Hw. unfold encode in Hw.
  rewrite to_uint32_id, <- app_assoc in Hw by lia.
  unfold read_message, read_exact, mbind, state_bind.
  destruct (read_loop_prefix 5 sock 4 [] w (write_uint32 (Z.of_nat (length m))) (m ++ rest)
    Hr eq_refl ltac:(simpl; lia) Hw) as (w1 & -> & Hw1 & _).
  cbn [app]. rewrite combine_uint32 by lia. unfold MAX_MESSAGE.
  rewrite (proj2 (Z.ltb_ge _ _)) by lia. rewrite Nat2Z.id.
  destruct (read_loop_prefix (S (length m)) sock (length m) [] w1 m rest Hr eq_refl ltac:(lia) Hw1)
    as (w2 & -> & Hw2 & _). by exists w2.
Qed.

(** An oversized length prefix is refused before any payload is read or
    allocated: when the header announces more than 64 MB, [read_message]
    fails and the payload is still unread. *)
Theorem protocol_rejects_oversized sock len rest w :
  reliable sock → (MAX_MESSAGE < len < 2 ^ 32)%Z →
  incoming w sock = write_uint32 len ++ rest →
  ∃ w', read_message sock w = ((false, []), w') ∧ incoming w' sock = rest.
Proof.
  unfold MAX_MESSAGE. intros Hr Hl Hw. unfold read_message, read_exact, mbind, state_bind.
  destruct (read_loop_prefix 5 sock 4 [] w (write_uint32 len) rest Hr eq_refl ltac:(simpl; lia) Hw) as (w1 & -> & Hw1 & _).
  cbn [app]. rewrite combine_uint32 by lia. unfold MAX_MESSAGE.
  rewrite (proj2 (Z.ltb_lt _ _)) by lia. by exists w1.
Qed.

End Facts.

(** ** Instances *)

Lemma demo_reliable sock : @reliable DemoNet demo_sockets sock.
Proof.
  intros w len Hlen Hin. simpl in *. unfold demo_read.
  destruct (default [] (net_in w !! sock)) as [|c s]; [done|].
  destruct len as [|len]; [lia|]. simpl. eauto.
Qed.

Definition demo_net (input : bytes) : DemoNet := mkNet ∅ {[ 7%Z := input ]} {[ 7%Z ]} ∅.

Lemma protocol_roundtrip_witness :
  ∃ w', @read_message DemoNet demo_sockets 7 (demo_net (encode ($"PING") ++ $"x")) = ((true, $"PING"), w') ∧
    @incoming DemoNet demo_sockets w' 7 = $"x".
Proof.
  apply (@protocol_roundtrip DemoNet demo_sockets 7 ($"PING") ($"x"));
    [apply demo_reliable|done|apply (f_equal (default []) (lookup_singleton_eq _ _))].
Defined.

Lemma protocol_rejects_oversized_witness :
  ∃ w', @read_message DemoNet demo_sockets 7 (demo_net (write_uint32 (MAX_MESSAGE + 1) ++ $"x")) = ((false, []), w') ∧
    @incoming DemoNet demo_sockets w' 7 = $"x".
Proof.
  apply (@protocol_rejects_oversized DemoNet demo_sockets 7 (MAX_MESSAGE + 1) ($"x"));
    [apply demo_reliable|done|apply (f_equal (default []) (lookup_singleton_eq _ _))].
Defined.
