(* ===== verification/PubSub.v ===== *)
(** * Publish/subscribe (pubsub/pubsub.cpp, pubsub/pubsub.h)

    [PubSubManager] keeps two indices, channel to subscribers and client to
    channels.  Every method holds the mutex for its whole body, so each is
    one atomic step.  [channels_] maps to [std::set<int>], iterated in
    ascending order; [client_channels_] maps to [std::unordered_set], iterated
    in the order of the [HashOrder] parameter.  [publish] sends through the
    socket interface. *)

From S2P Require Import Prelude CppString Resp Socket.

Record PubSubManager := mkPubSub {
  channels_ : gmap bytes (gset Z);
  client_channels_ : gmap Z (gset bytes);
}.

Definition empty_pubsub : PubSubManager := mkPubSub ∅ ∅.

Definition PubM (A : Type) : Type := State PubSubManager A.

(** ** Helpers *)

Definition with_channels (f : gmap bytes (gset Z) → gmap bytes (gset Z)) (p : PubSubManager) :=
  mkPubSub (f (channels_ p)) (client_channels_ p).
Definition with_clients (f : gmap Z (gset bytes) → gmap Z (gset bytes)) (p : PubSubManager) :=
  mkPubSub (channels_ p) (f (client_channels_ p)).

(** [m[k].insert(x)]: the entry is created when missing. *)
Definition index_insert `{Countable K} `{Countable X} (k : K) (x : X) (m : gmap K (gset X)) : gmap K (gset X) :=
  <[k := {[x]} ∪ default ∅ (m !! k)]> m.

(** [it = m.find(k); if (it != end) it->second.erase(x);] *)
Definition index_erase `{Countable K} `{Countable X} (k : K) (x : X) (m : gmap K (gset X)) : gmap K (gset X) :=
  match m !! k with Some s => <[k := s ∖ {[x]}]> m | None => m end.

(** [if (it != end && it->second.empty()) m.erase(it);] *)
Definition drop_if_empty `{Countable K} `{Countable X} (k : K) (m : gmap K (gset X)) : gmap K (gset X) :=
  match m !! k with Some s => if bool_decide (s = ∅) then delete k m else m | None => m end.

(** Erase [x] under [k] and the entry of [k] when it becomes empty. *)
Definition index_remove `{Countable K} `{Countable X} (k : K) (x : X) (m : gmap K (gset X)) : gmap K (gset X) :=
  drop_if_empty k (index_erase k x m).

(** [static_cast<int>(client_channels_[fd].size())], 0 without an entry. *)
Definition sub_count (fd : Z) (p : PubSubManager) : Z :=
  to_int32 (Z.of_nat (size (default ∅ (client_channels_ p !! fd)))).

(** The elements of a [std::set<int>], ascending. *)
Definition ordered (s : gset Z) : list Z := merge_sort Z.le (elements s).

(** ** Operations *)

Definition subscribe_one (client_fd : Z) (results : list (bytes * Z)) (channel : bytes)
    : PubM (list (bytes * Z)) :=
  modify (with_channels (index_insert channel client_fd));;
  modify (with_clients (index_insert client_fd channel));;
  p ← get_st;
  mret (results ++ [(channel, sub_count client_fd p)]).

Definition subscribe (client_fd : Z) (channels : list bytes) : PubM (list (bytes * Z)) :=
  foldM (subscribe_one client_fd) [] channels.

Definition unsubscribe_one (client_fd : Z) (results : list (bytes * Z)) (channel : bytes)
    : PubM (list (bytes * Z)) :=
  modify (with_channels (index_remove channel client_fd));;
  modify (with_clients (index_erase client_fd channel));;
  p ← get_st;
  mret (results ++ [(channel, sub_count client_fd p)]).

Definition is_subscribed (client_fd : Z) (p : PubSubManager) : bool :=
  match client_channels_ p !! client_fd with
  | Some s => negb (bool_decide (s = ∅))
  | None => false
  end.

Definition active_channel_count (p : PubSubManager) : nat := size (channels_ p).

Definition total_subscription_count (p : PubSubManager) : nat :=
  map_fold (λ _ s total, total + size s) 0 (client_channels_ p).

Section Ordered.
Context `{HashOrder}.

(** The elements of a [std::unordered_set<std::string>]. *)
Definition iter_set (s : gset bytes) : list bytes := (iter (gset_to_gmap () s)).*1.

Definition unsubscribe (client_fd : Z) (channels : list bytes) : PubM (list (bytes * Z)) :=
  p ← get_st;
  let to_unsub :=
    match channels with
    | [] => match client_channels_ p !! client_fd with Some s => iter_set s | None => [] end
    | _ => channels
    end in
  match channels, to_unsub with
  | [], [] => mret [($"*", 0%Z)]
  | _, _ =>
      results ← foldM (unsubscribe_one client_fd) [] to_unsub;
      modify (with_clients (drop_if_empty client_fd));;
      mret results
  end.

Definition client_disconnected (client_fd : Z) : PubM unit :=
  p ← get_st;
  match client_channels_ p !! client_fd with
  | None => mret tt
  | Some s =>
      foldM (λ _ channel, modify (with_channels (index_remove channel client_fd))) tt (iter_set s);;
      modify (with_clients (delete client_fd))
  end.

End Ordered.

(** *** publish *)

Section Publish.
Context {Net : Type} `{SocketApi Net}.

Definition push_message (channel message : bytes) : bytes :=
  array [bulk_string $"message"; bulk_string channel; bulk_string message].

Definition on_net {A} (m : State Net A) : State (PubSubManager * Net) A :=
  λ '(p, w), let '(a, w') := m w in (a, (p, w')).
Definition on_pubsub {A} (m : PubM A) : State (PubSubManager * Net) A :=
  λ '(p, w), let '(a, p') := m p in (a, (p', w)).

(** One subscriber: the count of deliveries and the sockets that failed. *)
Definition publish_one (push_msg : bytes) (acc : Z * list Z) (sub_fd : Z) : State (PubSubManager * Net) (Z * list Z) :=
  ok ← on_net (send_response sub_fd push_msg);
  mret (if ok : bool then ((fst acc + 1)%Z, snd acc) else (fst acc, snd acc ++ [sub_fd])).

(** Removes a socket that could not be written to. *)
Definition drop_dead (channel : bytes) (dead_fd : Z) : PubM unit :=
  modify (with_channels (index_erase channel dead_fd));;
  modify (with_clients (index_remove dead_fd channel)).

Definition publish (channel message : bytes) : State (PubSubManager * Net) Z :=
  p ← on_pubsub get_st;
  match channels_ p !! channel with
  | None => mret 0%Z
  | Some subs =>
      acc ← foldM (publish_one (push_message channel message)) (0%Z, []) (ordered subs);
      on_pubsub (foldM (λ _ fd, drop_dead channel fd) tt (snd acc));;
      on_pubsub (modify (with_channels (drop_if_empty channel)));;
      mret (fst acc)
  end.

End Publish.
