(* ===== verification/PubSubFacts.v ===== *)
(** * Correctness of publish/subscribe

    The two indices are inverse to each other and hold no empty entries
    ([ps_wf]), under every operation; each operation's effect on the
    subscription relation and its replies; who receives a published message. *)

From S2P Require Import Prelude CppString Resp Socket PubSub.

(** ** Definitions *)

(** The set stored under a key, empty without an entry. *)
Definition idx `{Countable K} `{Countable X} (m : gmap K (gset X)) (k : K) : gset X := default ∅ (m !! k).

Definition subs (p : PubSubManager) (ch : bytes) : gset Z := idx (channels_ p) ch.
Definition chans (p : PubSubManager) (fd : Z) : gset bytes := idx (client_channels_ p) fd.

Definition no_empty `{Countable K} `{Countable X} (m : gmap K (gset X)) : Prop := ∀ k, m !! k ≠ Some ∅.

(** The class invariant. *)
Record ps_wf (p : PubSubManager) : Prop := {
  ps_mirror : ∀ ch fd, fd ∈ subs p ch ↔ ch ∈ chans p fd;
  ps_channels : no_empty (channels_ p);
  ps_clients : no_empty (client_channels_ p);
}.

(** The replies to SUBSCRIBE and UNSUBSCRIBE: after each channel, how many the
    client has; [s] is what it had before. *)
Fixpoint subscribe_replies (s : gset bytes) (chs : list bytes) : list (bytes * Z) :=
  match chs with
  | [] => []
  | ch :: r => (ch, to_int32 (Z.of_nat (size ({[ch]} ∪ s)))) :: subscribe_replies ({[ch]} ∪ s) r
  end.
Fixpoint unsubscribe_replies (s : gset bytes) (chs : list bytes) : list (bytes * Z) :=
  match chs with
  | [] => []
  | ch :: r => (ch, to_int32 (Z.of_nat (size (s ∖ {[ch]})))) :: unsubscribe_replies (s ∖ {[ch]}) r
  end.

(** ** One index *)

Section Index.
Context `{Countable K} `{Countable X}.
Implicit Types (m : gmap K (gset X)) (k : K) (x : X).

Lemma idx_insert m k x k' :
  idx (index_insert k x m) k' = if decide (k = k') then {[x]} ∪ idx m k else idx m k'.
Proof. unfold idx, index_insert. case_decide; subst; by simplify_map_eq. Qed.

Lemma idx_erase m k x k' :
  idx (index_erase k x m) k' = if decide (k = k') then idx m k ∖ {[x]} else idx m k'.
Proof.
  unfold idx, index_erase. destruct (m !! k) as [s|] eqn:E; case_decide; subst; simplify_map_eq; try done.
  apply leibniz_equiv. set_solver.
Qed.

Lemma idx_drop m k k' : idx (drop_if_empty k m) k' = idx m k'.
Proof.
  unfold idx, drop_if_empty. destruct (m !! k) as [s|] eqn:E; [|done].
  case_bool_decide; [|done]. subst. destruct (decide (k = k')) as [->|]; by simplify_map_eq.
Qed.

Lemma idx_remove m k x k' :
  idx (index_remove k x m) k' = if decide (k = k') then idx m k ∖ {[x]} else idx m k'.
Proof. unfold index_remove. rewrite idx_drop. apply idx_erase. Qed.

Lemma idx_delete m k k' : idx (delete k m) k' = if decide (k = k') then ∅ else idx m k'.
Proof. unfold idx. case_decide; subst; by simplify_map_eq. Qed.

Lemma no_empty_insert m k x : no_empty m → no_empty (index_insert k x m).
Proof.
  intros Hm k'. unfold index_insert. destruct (decide (k = k')) as [<-|].
  - rewrite lookup_insert_eq. intros [= E]. set_solver.
  - rewrite lookup_insert_ne by done. apply Hm.
Qed.

(** Only the entry of [k] may be empty. *)
Definition no_empty_but k m : Prop := ∀ k', k' ≠ k → m !! k' ≠ Some ∅.

Lemma no_empty_weaken m k : no_empty m → no_empty_but k m.
Proof. intros Hm k' _. apply Hm. Qed.

Lemma no_empty_but_erase m k x : no_empty_but k m → no_empty_but k (index_erase k x m).
Proof.
  intros Hm k' Hk. unfold index_erase. destruct (m !! k); [|by apply Hm].
  rewrite lookup_insert_ne by done. by apply Hm.
Qed.

Lemma no_empty_drop m k : no_empty_but k m → no_empty (drop_if_empty k m).
Proof.
  intros Hm k'. unfold drop_if_empty. destruct (m !! k) as [s|] eqn:E.
  - case_bool_decide; destruct (decide (k' = k)) as [->|]; simplify_map_eq; try done; try by apply Hm.
    congruence.
  - destruct (decide (k' = k)) as [->|]; [by rewrite E|by apply Hm].
Qed.

Lemma no_empty_remove m k x : no_empty m → no_empty (index_remove k x m).
Proof. intros Hm. apply no_empty_drop, no_empty_but_erase. by apply no_empty_weaken. Qed.

Lemma no_empty_delete m k : no_empty m → no_empty (delete k m).
Proof. intros Hm k' [_ E]%lookup_delete_Some. by apply (Hm k'). Qed.

(** Two indices without empty entries that agree on every set are equal. *)
Lemma no_empty_ext m m' : no_empty m → no_empty m' → (∀ k, idx m k = idx m' k) → m = m'.
Proof.
  intros Hm Hm' E. apply map_eq. intros k. specialize (E k). unfold idx in E.
  specialize (Hm k). specialize (Hm' k). destruct (m !! k), (m' !! k); simpl in E; congruence.
Qed.

End Index.

#[export] Hint Resolve no_empty_insert no_empty_remove no_empty_delete : redis.

(** ** Loops over channels *)

Section Loops.
Implicit Types (p : PubSubManager) (ch : bytes) (fd : Z) (chs : list bytes).

Lemma subscribe_fold fd chs acc p :
  ∃ p', foldM (subscribe_one fd) acc chs p = (acc ++ subscribe_replies (chans p fd) chs, p') ∧
    (∀ ch, subs p' ch = if decide (ch ∈ chs) then {[fd]} ∪ subs p ch else subs p ch) ∧
    (∀ fd', chans p' fd' = if decide (fd = fd') then list_to_set chs ∪ chans p fd else chans p fd') ∧
    (no_empty (channels_ p) → no_empty (channels_ p')) ∧
    (no_empty (client_channels_ p) → no_empty (client_channels_ p')).
Proof.
  revert acc p. induction chs as [|ch chs IH]; intros acc p.
  - exists p. rewrite app_nil_r. split_and!; [done| |intros fd'; case_decide; set_solver|done|done].
    intros ch. by rewrite decide_False by set_solver.
  - rewrite foldM_cons. unfold subscribe_one at 1. run_state.
    set (p1 := with_clients _ _).
    assert (∀ c, subs p1 c = if decide (ch = c) then {[fd]} ∪ subs p ch else subs p c) as Hs
      by (intros; apply idx_insert).
    assert (∀ f, chans p1 f = if decide (fd = f) then {[ch]} ∪ chans p fd else chans p f) as Hc
      by (intros; apply idx_insert).
    destruct (IH (acc ++ [(ch, sub_count fd p1)]) p1) as (p' & E & Hs' & Hc' & Hn1 & Hn2).
    pose proof (Hc fd) as Hcf. rewrite decide_True in Hcf by done.
    exists p'. split_and!.
    + rewrite E, <- app_assoc. cbn [app subscribe_replies]. unfold sub_count. fold (chans p1 fd).
      change (default ∅ (client_channels_ p1 !! fd)) with (chans p1 fd). by rewrite Hcf.
    + intros c. rewrite Hs', Hs. repeat case_decide; subst; set_solver.
    + intros f. rewrite Hc', Hcf, (Hc f). case_decide; [set_solver|done].
    + intros Hn. apply Hn1. by apply no_empty_insert.
    + intros Hn. apply Hn2. by apply no_empty_insert.
Qed.

Lemma unsubscribe_fold fd chs acc p :
  ∃ p', foldM (unsubscribe_one fd) acc chs p = (acc ++ unsubscribe_replies (chans p fd) chs, p') ∧
    (∀ ch, subs p' ch = if decide (ch ∈ chs) then subs p ch ∖ {[fd]} else subs p ch) ∧
    (∀ fd', chans p' fd' = if decide (fd = fd') then chans p fd ∖ list_to_set chs else chans p fd') ∧
    (no_empty (channels_ p) → no_empty (channels_ p')) ∧
    (no_empty_but fd (client_channels_ p) → no_empty_but fd (client_channels_ p')).
Proof.
  revert acc p. induction chs as [|ch chs IH]; intros acc p.
  - exists p. rewrite app_nil_r. split_and!; [done| |intros fd'; case_decide; set_solver|done|done].
    intros ch. by rewrite decide_False by set_solver.
  - rewrite foldM_cons. unfold unsubscribe_one at 1. run_state.
    set (p1 := with_clients _ _).
    assert (∀ c, subs p1 c = if decide (ch = c) then subs p ch ∖ {[fd]} else subs p c) as Hs
      by (intros; apply idx_remove).
    assert (∀ f, chans p1 f = if decide (fd = f) then chans p fd ∖ {[ch]} else chans p f) as Hc
      by (intros; apply idx_erase).
    destruct (IH (acc ++ [(ch, sub_count fd p1)]) p1) as (p' & E & Hs' & Hc' & Hn1 & Hn2).
    pose proof (Hc fd) as Hcf. rewrite decide_True in Hcf by done.
    exists p'. split_and!.
    + rewrite E, <- app_assoc. cbn [app unsubscribe_replies]. unfold sub_count.
      change (default ∅ (client_channels_ p1 !! fd)) with (chans p1 fd). by rewrite Hcf.
    + intros c. rewrite Hs', Hs. repeat case_decide; subst; set_solver.
    + intros f. rewrite Hc', Hcf, (Hc f). case_decide; [set_solver|done].
    + intros Hn. apply Hn1. by apply no_empty_remove.
    + intros Hn. apply Hn2. by apply no_empty_but_erase.
Qed.

Lemma disconnect_fold fd chs p :
  ∃ p', foldM (λ _ ch, modify (with_channels (index_remove ch fd))) tt chs p = (tt, p') ∧
    (∀ ch, subs p' ch = if decide (ch ∈ chs) then subs p ch ∖ {[fd]} else subs p ch) ∧
    client_channels_ p' = client_channels_ p ∧
    (no_empty (channels_ p) → no_empty (channels_ p')).
Proof.
  revert p. induction chs as [|ch chs IH]; intros p.
  - exists p. split_and!; [done| |done|done]. intros ch. by rewrite decide_False by set_solver.
  - rewrite foldM_cons. run_state. set (p1 := with_channels _ _).
    assert (∀ c, subs p1 c = if decide (ch = c) then subs p ch ∖ {[fd]} else subs p c) as Hs
      by (intros; apply idx_remove).
    destruct (IH p1) as (p' & E & Hs' & Hc' & Hn). exists p'. split_and!; [done| |done|].
    + intros c. rewrite Hs', Hs. repeat case_decide; subst; set_solver.
    + intros Hne. apply Hn. by apply no_empty_remove.
Qed.

Lemma drop_dead_fold ch dead p :
  ∃ p', foldM (λ _ fd, drop_dead ch fd) tt dead p = (tt, p') ∧
    (∀ c, subs p' c = if decide (ch = c) then subs p ch ∖ list_to_set dead else subs p c) ∧
    (∀ fd, chans p' fd = if decide (fd ∈ dead) then chans p fd ∖ {[ch]} else chans p fd) ∧
    (no_empty_but ch (channels_ p) → no_empty_but ch (channels_ p')) ∧
    (no_empty (client_channels_ p) → no_empty (client_channels_ p')).
Proof.
  revert p. induction dead as [|fd dead IH]; intros p.
  - exists p. split_and!; [done|intros c; case_decide; subst; set_solver| |done|done].
    intros fd. by rewrite decide_False by set_solver.
  - rewrite foldM_cons. unfold drop_dead at 1. run_state. set (p1 := with_clients _ _).
    assert (∀ c, subs p1 c = if decide (ch = c) then subs p ch ∖ {[fd]} else subs p c) as Hs
      by (intros; apply idx_erase).
    assert (∀ f, chans p1 f = if decide (fd = f) then chans p fd ∖ {[ch]} else chans p f) as Hc
      by (intros; apply idx_remove).
    destruct (IH p1) as (p' & E & Hs' & Hc' & Hn1 & Hn2). exists p'. split_and!; [done| | | |].
    + intros c. rewrite Hs', !Hs. repeat case_decide; subst; set_solver.
    + intros f. rewrite Hc', Hc. repeat case_decide; subst; set_solver.
    + intros Hn. apply Hn1. by apply no_empty_but_erase.
    + intros Hn. apply Hn2. by apply no_empty_remove.
Qed.

End Loops.

(** ** Operations *)

Section Ops.
Context `{HashOrder}.
Implicit Types (p : PubSubManager) (ch : bytes) (fd : Z) (chs : list bytes).

Lemma iter_set_elem s ch : ch ∈ iter_set s ↔ ch ∈ s.
Proof.
  unfold iter_set. rewrite list_elem_of_fmap. split.
  - intros ([c []] & -> & E%iter_elem_of). by apply lookup_gset_to_gmap_Some in E as [? _].
  - intros Hc. exists (ch, ()). split; [done|]. by apply iter_elem_of, lookup_gset_to_gmap_Some.
Qed.

Lemma subscribe_run fd chs p :
  ps_wf p →
  ∃ p', subscribe fd chs p = (subscribe_replies (chans p fd) chs, p') ∧ ps_wf p' ∧
    (∀ fd', chans p' fd' = if decide (fd = fd') then list_to_set chs ∪ chans p fd else chans p fd').
Proof.
  intros [Hm Hn1 Hn2]. destruct (subscribe_fold fd chs [] p) as (p' & E & Hs & Hc & Hk1 & Hk2).
  exists p'. split_and!; [done| |done]. constructor; [|by auto..]. intros ch fd'.
  rewrite Hs, Hc. specialize (Hm ch fd'). repeat case_decide; subst; set_solver.
Qed.

(** The channels UNSUBSCRIBE works on. *)
Definition unsubscribed (p : PubSubManager) (fd : Z) (chs : list bytes) : list bytes :=
  match chs with [] => iter_set (chans p fd) | _ => chs end.

Lemma chans_nonempty p fd : ps_wf p → client_channels_ p !! fd = None ↔ chans p fd = ∅.
Proof.
  intros Hwf. pose proof (ps_clients _ Hwf fd) as Hn. unfold chans, idx.
  destruct (client_channels_ p !! fd) as [s|]; simpl; [|done]. split; [done|congruence].
Qed.

Lemma iter_set_empty : iter_set ∅ = [].
Proof.
  destruct (iter_set ∅) as [|c l] eqn:E; [done|]. assert (c ∈ iter_set ∅) as Hc by (rewrite E; left).
  apply iter_set_elem in Hc. set_solver.
Qed.

Lemma unsubscribe_run fd chs p :
  ps_wf p →
  ∃ p', unsubscribe fd chs p =
      ((if decide (chs = [] ∧ chans p fd = ∅) then [($"*", 0%Z)]
        else unsubscribe_replies (chans p fd) (unsubscribed p fd chs)), p') ∧ ps_wf p' ∧
    (∀ fd', chans p' fd' =
       if decide (fd = fd') then chans p fd ∖ list_to_set (unsubscribed p fd chs) else chans p fd').
Proof.
  intros Hwf. destruct (decide (chs = [] ∧ chans p fd = ∅)) as [[-> He]|Hne].
  - exists p. split_and!; [|done|].
    + unfold unsubscribe. run_state. by rewrite (proj2 (chans_nonempty p fd Hwf)).
    + intros fd'. case_decide; [subst|done]. cbn [unsubscribed]. rewrite He. set_solver.
  - destruct (unsubscribe_fold fd (unsubscribed p fd chs) [] p) as (p1 & E & Hs & Hc & Hk1 & Hk2).
    exists (with_clients (drop_if_empty fd) p1). destruct Hwf as [Hm Hn1 Hn2]. split_and!.
    + unfold unsubscribe. run_state. cbn [app] in E.
      assert ((match client_channels_ p !! fd with Some s => iter_set s | None => [] end) =
              iter_set (chans p fd)) as ->.
      { unfold chans, idx. destruct (client_channels_ p !! fd); [done|]. simpl. by rewrite iter_set_empty. }
      destruct chs as [|c chs]; cbn [unsubscribed] in *; [|by rewrite E].
      destruct (iter_set (chans p fd)) as [|c l] eqn:El; [|by rewrite E].
      exfalso. apply Hne. split; [done|]. apply leibniz_equiv. intros x.
      rewrite <- iter_set_elem, El. set_solver.
    + constructor; [|by apply Hk1|].
      * intros ch fd'. unfold chans, with_clients. cbn [client_channels_]. rewrite idx_drop.
        fold (chans p1 fd'). change (fd' ∈ subs p1 ch ↔ ch ∈ chans p1 fd').
        rewrite Hs, Hc. specialize (Hm ch fd'). repeat case_decide; subst; set_solver.
      * apply no_empty_drop, Hk2, no_empty_weaken, Hn2.
    + intros fd'. unfold chans at 1, with_clients. cbn [client_channels_]. rewrite idx_drop. apply Hc.
Qed.

Lemma client_disconnected_run fd p :
  ps_wf p →
  ∃ p', client_disconnected fd p = (tt, p') ∧ ps_wf p' ∧
    (∀ fd', chans p' fd' = if decide (fd = fd') then ∅ else chans p fd').
Proof.
  intros Hwf. unfold client_disconnected, mbind, state_bind, get_st. cbn beta iota zeta.
  destruct (client_channels_ p !! fd) as [s|] eqn:E.
  - destruct (disconnect_fold fd (iter_set s) p) as (p1 & -> & Hs & Hc & Hk).
    destruct Hwf as [Hm Hn1 Hn2]. exists (with_clients (delete fd) p1).
    assert (∀ fd', chans (with_clients (delete fd) p1) fd' = if decide (fd = fd') then ∅ else chans p fd') as Hch.
    { intros fd'. unfold chans, with_clients. cbn [client_channels_]. by rewrite idx_delete, Hc. }
    assert (chans p fd = s) as Hcs by (unfold chans, idx; by rewrite E).
    split_and!; [done| |done]. constructor.
    + intros ch fd'. rewrite Hch. change (fd' ∈ subs p1 ch ↔ ch ∈ (if decide (fd = fd') then ∅ else chans p fd')).
      rewrite Hs. pose proof (iter_set_elem s ch). specialize (Hm ch fd').
      repeat case_decide; subst; set_solver.
    + by apply Hk.
    + cbn. rewrite Hc. by apply no_empty_delete.
  - exists p. split_and!; [done..|]. intros fd'. case_decide; [subst|done]. by apply chans_nonempty.
Qed.

Lemma is_subscribed_chans fd p : is_subscribed fd p = negb (bool_decide (chans p fd = ∅)).
Proof. unfold is_subscribed, chans, idx. by destruct (client_channels_ p !! fd). Qed.

End Ops.

(** ** Publishing *)

Section Publishing.
Context {Net : Type} `{SocketApi Net}.
Implicit Types (p : PubSubManager) (w : Net).

Lemma ordered_perm s : ordered s ≡ₚ elements s.
Proof. apply merge_sort_Permutation. Qed.

Lemma ordered_NoDup s : NoDup (ordered s).
Proof. rewrite ordered_perm. apply NoDup_elements. Qed.

(** One message offered to several sockets, one after the other: which of them
    took all of it. *)
Inductive deliveries (msg : bytes) : Net → list (Z * bool) → Net → Prop :=
  | deliveries_nil w : deliveries msg w [] w
  | deliveries_cons fd b w w1 outs w2 :
      delivers fd msg w b w1 → deliveries msg w1 outs w2 → deliveries msg w ((fd, b) :: outs) w2.

(** The sockets that took the message, and those that failed. *)
Definition took (outs : list (Z * bool)) : list Z := (filter (λ o, snd o = true) outs).*1.
Definition failed (outs : list (Z * bool)) : list Z := (filter (λ o, snd o = false) outs).*1.

Lemma took_cons fd b outs : took ((fd, b) :: outs) = if b : bool then fd :: took outs else took outs.
Proof. by destruct b. Qed.
Lemma failed_cons fd b outs : failed ((fd, b) :: outs) = if b : bool then failed outs else fd :: failed outs.
Proof. by destruct b. Qed.

Lemma elem_of_took fd outs : fd ∈ took outs ↔ (fd, true) ∈ outs.
Proof. unfold took. rewrite list_elem_of_fmap. setoid_rewrite list_elem_of_filter. split; [intros ([] & -> & E & ?)|exists (fd, true)]; naive_solver. Qed.
Lemma elem_of_failed fd outs : fd ∈ failed outs ↔ (fd, false) ∈ outs.
Proof. unfold failed. rewrite list_elem_of_fmap. setoid_rewrite list_elem_of_filter. split; [intros ([] & -> & E & ?)|exists (fd, false)]; naive_solver. Qed.

Lemma took_failed outs : took outs ++ failed outs ≡ₚ outs.*1.
Proof.
  induction outs as [|[fd b] outs IH]; [done|]. rewrite took_cons, failed_cons, fmap_cons.
  destruct b; [by rewrite <- IH|]. by rewrite <- Permutation_middle, IH.
Qed.

(** What the sockets were sent. *)
Lemma deliveries_sent msg w outs w' :
  deliveries msg w outs w' → NoDup outs.*1 →
  (∀ fd, fd ∈ took outs → sent w' fd = sent w fd ++ msg) ∧
  (∀ fd, fd ∈ failed outs → ∃ m, m < length msg ∧ sent w' fd = sent w fd ++ take m msg) ∧
  (∀ fd, fd ∉ outs.*1 → sent w' fd = sent w fd) ∧ open_fds w' = open_fds w.
Proof.
  induction 1 as [w|x b w w1 outs w2 E _ IH]; intros Hnd; [set_solver|].
  rewrite fmap_cons in Hnd. apply NoDup_cons in Hnd as [Hx Hnd]. destruct (IH Hnd) as (H1 & H2 & H3 & H4). clear IH.
  cbn [fst] in *. destruct (delivers_sent _ _ _ _ _ E) as ((m & Hm & Hb & Hs) & Ho & Hop).
  assert (∀ fd, fd ∈ took outs ∨ fd ∈ failed outs → fd ≠ x) as Hne.
  { intros fd Hfd ->. apply Hx. rewrite <- took_failed. set_solver. }
  rewrite took_cons, failed_cons, H4, Hop. split_and!; [| | |done].
  - intros fd Hfd. assert (b = true ∧ fd = x ∨ fd ∈ took outs) as [[-> ->]|Hin] by (destruct b; set_solver).
    + rewrite H3, Hs by done. f_equal. apply take_ge. by rewrite (proj1 Hb).
    + by rewrite H1, Ho by auto.
  - intros fd Hfd. assert (b = false ∧ fd = x ∨ fd ∈ failed outs) as [[-> ->]|Hin] by (destruct b; set_solver).
    + exists m. split; [|by rewrite H3, Hs by done]. destruct (Nat.eq_dec m (length msg)) as [e|]; [|lia]. by apply Hb in e.
    + destruct (H2 fd Hin) as (m' & ? & ->). exists m'. split; [done|]. by rewrite Ho by auto.
  - intros fd Hfd. rewrite fmap_cons in Hfd. rewrite H3, Ho; set_solver.
Qed.

(** The delivery loop: every socket of the list is offered the message once,
    and is counted when it took all of it. *)
Lemma publish_fold msg l c dead p w :
  ∃ outs w', foldM (publish_one msg) (c, dead) l (p, w) =
      (((c + Z.of_nat (length (took outs)))%Z, dead ++ failed outs), (p, w')) ∧
    outs.*1 = l ∧ deliveries msg w outs w'.
Proof.
  revert c dead w. induction l as [|x l IH]; intros c dead w.
  - exists [], w. cbn. rewrite Z.add_0_r, app_nil_r. split_and!; [done|done|constructor].
  - rewrite foldM_cons. unfold publish_one at 1, on_net. run_state. destruct (send_response x msg w) as [b w1] eqn:E.
    apply send_response_delivers in E. cbn [fst snd].
    destruct b; [destruct (IH (c + 1)%Z dead w1) as (outs & w' & -> & <- & Hd); exists ((x, true) :: outs), w'
      |destruct (IH c (dead ++ [x]) w1) as (outs & w' & -> & <- & Hd); exists ((x, false) :: outs), w'];
      rewrite took_cons, failed_cons; (split; [|split; [done|by econstructor]]).
    + do 2 f_equal. cbn [length]. lia.
    + by rewrite <- app_assoc.
Qed.

(** PUBLISH offers the message to the subscribers in ascending order, answers
    with the number of those that took it and drops the others from the
    channel. *)
Lemma publish_run ch msg p w :
  ps_wf p →
  ∃ outs p' w', publish ch msg (p, w) = (Z.of_nat (length (took outs)), (p', w')) ∧
    outs.*1 = ordered (subs p ch) ∧ deliveries (push_message ch msg) w outs w' ∧ ps_wf p' ∧
    (∀ fd, chans p' fd = if decide (fd ∈ failed outs) then chans p fd ∖ {[ch]} else chans p fd).
Proof.
  intros Hwf. unfold publish, on_pubsub. run_state.
  destruct (channels_ p !! ch) as [s|] eqn:Ech.
  - destruct (publish_fold (push_message ch msg) (ordered s) 0 [] p w) as (outs & w' & -> & Ho & Hd).
    assert (subs p ch = s) as Hsub by (unfold subs, idx; by rewrite Ech).
    cbn [fst snd app]. destruct (drop_dead_fold ch (failed outs) p) as (p1 & -> & Hs & Hc & Hk1 & Hk2).
    exists outs, (with_channels (drop_if_empty ch) p1), w'.
    destruct Hwf as [Hm Hn1 Hn2]. rewrite Hsub. split_and!; [done|done|done| |done].
    constructor; [|by apply no_empty_drop, Hk1, no_empty_weaken|by apply Hk2].
    intros c fd. unfold subs, with_channels. cbn [channels_]. rewrite idx_drop.
    change (fd ∈ subs p1 c ↔ c ∈ chans p1 fd). rewrite Hs, Hc. specialize (Hm c fd).
    repeat case_decide; subst; set_solver.
  - exists [], p, w. assert (subs p ch = ∅) as -> by (unfold subs, idx; by rewrite Ech).
    split_and!; [done|done|constructor|done|]. done.
Qed.

(** No socket but a subscriber's is written to, and none is opened or closed. *)
Lemma publish_frame ch msg p w k p' w' :
  publish ch msg (p, w) = (k, (p', w')) →
  (∀ fd, fd ∉ subs p ch → sent w' fd = sent w fd) ∧ open_fds w' = open_fds w.
Proof.
  unfold publish, on_pubsub, subs, idx. run_state. destruct (channels_ p !! ch) as [s|]; [|by intros [= <- <- <-]].
  destruct (publish_fold (push_message ch msg) (ordered s) 0 [] p w) as (outs & w1 & -> & Ho & Hd).
  destruct (deliveries_sent _ _ _ _ Hd) as (_ & _ & H3 & H4); [rewrite Ho; apply ordered_NoDup|].
  cbn [fst snd app]. destruct (drop_dead_fold ch (failed outs) p) as (p1 & -> & _).
  intros [= <- <- <-]. split; [|done]. intros fd Hfd. apply H3. rewrite Ho, ordered_perm. set_solver.
Qed.

End Publishing.
