(* ===== verification/PubSubClaims.v ===== *)
(** * Publish/subscribe: theorems

    A specification of every operation of the manager on the relation "who is
    subscribed to what", with its replies and its effect on the network, and
    that every sequence of operations refines it. *)

From S2P Require Import Prelude CppString Resp Socket PubSub PubSubFacts.

(** ** Sequences of operations *)

Inductive PsOp :=
  | PsSubscribe (client_fd : Z) (channels : list bytes)
  | PsUnsubscribe (client_fd : Z) (channels : list bytes)
  | PsPublish (channel message : bytes)
  | PsDisconnect (client_fd : Z).

(** What an operation answers. *)
Inductive PsReply :=
  | PsTotals (results : list (bytes * Z))
  | PsReceivers (count : Z)
  | PsDone.

(** The subscription relation as its specification sees it. *)
Definition Subscriptions : Type := Z → gset bytes.
Definition update_subs (f : Subscriptions) (fd : Z) (s : gset bytes) : Subscriptions :=
  λ fd', if decide (fd = fd') then s else f fd'.

Section Claims.
Context {Net : Type} `{SocketApi Net} `{HashOrder}.
Implicit Types (p : PubSubManager) (w : Net).

(** What each operation is to do to the relation and the network, and what it
    is to answer.  SUBSCRIBE and UNSUBSCRIBE answer with the running total of
    the client after each channel; UNSUBSCRIBE without channels ends all
    subscriptions, in some order.  PUBLISH offers the message to the
    subscribers, lowest descriptor first, answers how many took it, and drops
    those that failed from its own channel and from no other. *)
Inductive spec_ps : Subscriptions * Net → PsOp → PsReply → Subscriptions * Net → Prop :=
  | spec_subscribe f w fd chs :
      spec_ps (f, w) (PsSubscribe fd chs) (PsTotals (subscribe_replies (f fd) chs))
        (update_subs f fd (list_to_set chs ∪ f fd), w)
  | spec_unsubscribe f w fd chs :
      chs ≠ [] →
      spec_ps (f, w) (PsUnsubscribe fd chs) (PsTotals (unsubscribe_replies (f fd) chs))
        (update_subs f fd (f fd ∖ list_to_set chs), w)
  | spec_unsubscribe_all f w fd chs :
      chs ≡ₚ elements (f fd) → chs ≠ [] →
      spec_ps (f, w) (PsUnsubscribe fd []) (PsTotals (unsubscribe_replies (f fd) chs)) (update_subs f fd ∅, w)
  | spec_unsubscribe_none f w fd :
      f fd = ∅ → spec_ps (f, w) (PsUnsubscribe fd []) (PsTotals [($"*", 0%Z)]) (f, w)
  | spec_publish f w ch msg (receivers : gset Z) outs w' :
      (∀ fd, fd ∈ receivers ↔ ch ∈ f fd) → outs.*1 = ordered receivers →
      deliveries (push_message ch msg) w outs w' →
      spec_ps (f, w) (PsPublish ch msg) (PsReceivers (Z.of_nat (length (took outs))))
        (λ fd, if decide (fd ∈ failed outs) then f fd ∖ {[ch]} else f fd, w')
  | spec_disconnect f w fd : spec_ps (f, w) (PsDisconnect fd) PsDone (update_subs f fd ∅, w).

(** Operations one after the other, each with its answer. *)
Inductive spec_run : Subscriptions * Net → list PsOp → list PsReply → Subscriptions * Net → Prop :=
  | spec_run_nil s : spec_run s [] [] s
  | spec_run_cons s op r s1 ops rs s2 :
      spec_ps s op r s1 → spec_run s1 ops rs s2 → spec_run s (op :: ops) (r :: rs) s2.

Definition exec_ps (op : PsOp) : State (PubSubManager * Net) PsReply :=
  match op with
  | PsSubscribe fd chs => r ← on_pubsub (subscribe fd chs); mret (PsTotals r)
  | PsUnsubscribe fd chs => r ← on_pubsub (unsubscribe fd chs); mret (PsTotals r)
  | PsPublish ch msg => n ← publish ch msg; mret (PsReceivers n)
  | PsDisconnect fd => on_pubsub (client_disconnected fd);; mret PsDone
  end.

Fixpoint exec_pss (ops : list PsOp) : State (PubSubManager * Net) (list PsReply) :=
  match ops with
  | [] => mret []
  | op :: ops => r ← exec_ps op; rs ← exec_pss ops; mret (r :: rs)
  end.

Lemma ps_wf_empty : ps_wf empty_pubsub.
Proof. constructor; [set_solver|done|done]. Qed.

(** The manager holds this relation. *)
Definition holds (p : PubSubManager) (f : Subscriptions) : Prop := ps_wf p ∧ ∀ fd, chans p fd = f fd.

Lemma iter_set_perm s : iter_set s ≡ₚ elements s.
Proof.
  apply NoDup_Permutation; [|apply NoDup_elements|].
  - unfold iter_set. apply iter_NoDup_fst.
  - intros x. by rewrite iter_set_elem, elem_of_elements.
Qed.

(** Every operation keeps the invariant and does what its specification says. *)
Lemma exec_ps_spec op p w f :
  holds p f → ∃ r p' w' f', exec_ps op (p, w) = (r, (p', w')) ∧ holds p' f' ∧ spec_ps (f, w) op r (f', w').
Proof.
  intros [Hwf Hf]. destruct op as [fd chs|fd chs|ch msg|fd]; cbn [exec_ps];
    unfold on_pubsub, mbind, state_bind, mret, state_ret; cbn beta iota zeta.
  - destruct (subscribe_run fd chs p Hwf) as (p' & -> & Hwf' & Hc). eexists _, p', w, _. rewrite (Hf fd).
    split; [done|]. split; [|constructor]. split; [done|]. intros fd'. by rewrite Hc, !Hf.
  - destruct (unsubscribe_run fd chs p Hwf) as (p' & -> & Hwf' & Hc). destruct chs as [|c chs].
    + cbn [unsubscribed] in *. assert (∀ fd', chans p' fd' = update_subs f fd ∅ fd') as Hc'.
      { intros fd'. rewrite Hc. unfold update_subs. case_decide; [|by rewrite Hf]. apply leibniz_equiv. intros x.
        rewrite elem_of_difference, elem_of_list_to_set, iter_set_elem. set_solver. }
      rewrite !Hf in *. case_decide as Hd.
      * destruct Hd as [_ Hd]. eexists _, p', w, f. split; [done|]. split; [|by constructor]. split; [done|].
        intros fd'. rewrite Hc'. unfold update_subs. case_decide; [by subst|done].
      * eexists _, p', w, (update_subs f fd ∅). split; [done|]. split; [by split|]. constructor; [apply iter_set_perm|].
        intros E. apply Hd. split; [done|]. apply leibniz_equiv. intros x. rewrite <- iter_set_elem, E. set_solver.
    + rewrite decide_False by naive_solver. eexists _, p', w, _. cbn [unsubscribed] in *. rewrite (Hf fd).
      split; [done|]. split; [|by constructor]. split; [done|]. intros fd'. by rewrite Hc, !Hf.
  - destruct (publish_run ch msg p w Hwf) as (outs & p' & w' & -> & Ho & Hd & Hwf' & Hc).
    eexists _, p', w', _. split; [done|]. split; [|eapply (spec_publish _ _ _ _ (subs p ch)); [|done|done]].
    + split; [done|]. intros fd. by rewrite Hc, Hf.
    + intros fd. by rewrite (ps_mirror _ Hwf), Hf.
  - destruct (client_disconnected_run fd p Hwf) as (p' & -> & Hwf' & Hc). eexists _, p', w, _.
    split; [done|]. split; [|constructor]. split; [done|]. intros fd'. by rewrite Hc, Hf.
Qed.

(** C20: the subscription indices refine a relation.  Whatever operations are
    executed from the empty manager, in any order and with any network
    behaviour, each of them in turn does to "who is subscribed to what" and to
    the network exactly what its specification says, and is answered as
    specified; afterwards the two indices hold that relation, each the inverse
    of the other, without empty entries. *)
Theorem pubsub_refines ops w :
  let '(rs, (p, w')) := exec_pss ops (empty_pubsub, w) in
  ∃ f, spec_run (λ _, ∅, w) ops rs (f, w') ∧ (∀ fd, chans p fd = f fd) ∧
    (∀ ch fd, fd ∈ subs p ch ↔ ch ∈ f fd) ∧ ps_wf p.
Proof.
  cut (∀ p f, holds p f → let '(rs, (p', w')) := exec_pss ops (p, w) in
    ∃ f', spec_run (f, w) ops rs (f', w') ∧ holds p' f').
  { intros Hcut. specialize (Hcut empty_pubsub (λ _, ∅) (conj ps_wf_empty (λ _, eq_refl))).
    destruct (exec_pss ops _) as [rs [p w']]. destruct Hcut as (f & Hr & Hwf & Hf). exists f. split_and!; [done|done| |done].
    intros ch fd. by rewrite (ps_mirror _ Hwf), Hf. }
  revert w. induction ops as [|op ops IH]; intros w p f Hh; [exists f; by split; [constructor|]|].
  cbn [exec_pss]. unfold mbind, state_bind. destruct (exec_ps_spec op p w f Hh) as (r & p1 & w1 & f1 & -> & Hh1 & Hs).
  specialize (IH w1 p1 f1 Hh1). destruct (exec_pss ops (p1, w1)) as [rs [p2 w2]]. destruct IH as (f2 & Hr & Hh2).
  cbn [mret state_ret]. exists f2. split; [|done]. by eapply spec_run_cons.
Qed.

(** PUBLISH reaches exactly the subscribers.  The reply is the number of
    subscribers that accepted the whole message; each of those received the
    RESP push message once; a subscriber whose socket failed received a
    proper prefix and is unsubscribed from this channel only; no other
    socket is written to. *)
Theorem publish_delivers ch msg p w :
  ps_wf p →
  ∃ outs p' w', publish ch msg (p, w) = (Z.of_nat (length (took outs)), (p', w')) ∧
    outs.*1 = ordered (subs p ch) ∧ deliveries (push_message ch msg) w outs w' ∧
    (∀ fd, fd ∈ took outs → sent w' fd = sent w fd ++ push_message ch msg) ∧
    (∀ fd, fd ∈ failed outs → ∃ m, m < length (push_message ch msg) ∧
       sent w' fd = sent w fd ++ take m (push_message ch msg)) ∧
    (∀ fd, fd ∉ subs p ch → sent w' fd = sent w fd) ∧
    (∀ fd, chans p' fd = if decide (fd ∈ failed outs) then chans p fd ∖ {[ch]} else chans p fd).
Proof.
  intros Hwf. destruct (publish_run ch msg p w Hwf) as (outs & p' & w' & E & Ho & Hd & _ & Hc).
  destruct (deliveries_sent _ _ _ _ Hd) as (H1 & H2 & H3 & _); [rewrite Ho; apply ordered_NoDup|].
  exists outs, p', w'. split_and!; try done. intros fd Hfd. apply H3. rewrite Ho, ordered_perm. set_solver.
Qed.

(** SUBSCRIBE and UNSUBSCRIBE report the client's running total.  The
    replies name each channel in order with the number of distinct channels
    the client has after it, duplicates counted once; UNSUBSCRIBE without
    channels ends subscription mode. *)
Theorem subscription_replies fd chs p :
  ps_wf p →
  fst (subscribe fd chs p) = subscribe_replies (chans p fd) chs ∧
  is_subscribed fd (snd (subscribe fd chs p)) = negb (bool_decide (chs = [] ∧ chans p fd = ∅)) ∧
  (chs ≠ [] → fst (unsubscribe fd chs p) = unsubscribe_replies (chans p fd) chs) ∧
  is_subscribed fd (snd (unsubscribe fd [] p)) = false.
Proof.
  intros Hwf. destruct (subscribe_run fd chs p Hwf) as (p1 & E1 & _ & Hc1).
  destruct (unsubscribe_run fd chs p Hwf) as (p2 & E2 & _ & _).
  destruct (unsubscribe_run fd [] p Hwf) as (p3 & E3 & _ & Hc3).
  rewrite !is_subscribed_chans, E1, E3. cbn [fst snd]. rewrite Hc1, Hc3, !decide_True by done. split_and!; [done| | |].
  - f_equal. apply bool_decide_ext. destruct chs; set_solver.
  - intros Hne. rewrite E2. cbn [fst]. rewrite decide_False by naive_solver. by destruct chs.
  - cbn [unsubscribed]. rewrite bool_decide_eq_true_2; [done|]. apply leibniz_equiv. intros x.
    rewrite elem_of_difference, elem_of_list_to_set, iter_set_elem. set_solver.
Qed.

(** *** Counting *)

(** The pairs of a map of sets. *)
Lemma sum_sizes (m : gmap Z (gset bytes)) (R : gset (Z * bytes)) :
  (∀ fd ch, (fd, ch) ∈ R ↔ ch ∈ idx m fd) → map_fold (λ _ s total, total + size s) 0 m = size R.
Proof.
  revert R. induction m as [|fd s m Hm IH] using map_ind; intros R HR.
  - rewrite map_fold_empty. symmetry. apply size_empty_iff. intros [fd ch]. rewrite HR. unfold idx. rewrite lookup_empty. set_solver.
  - rewrite map_fold_insert_L by (done || lia).
    set (S := set_map (pair fd) s : gset (Z * bytes)).
    assert (∀ x ch, (x, ch) ∈ S ↔ x = fd ∧ ch ∈ s) as HS by (intros x ch; unfold S; rewrite elem_of_map; naive_solver).
    assert (size S = size s) as <-.
    { unfold S, set_map. rewrite size_list_to_set, length_fmap; [done|]. apply NoDup_fmap_2, NoDup_elements. by intros ? ? [= ->]. }
    rewrite (IH (R ∖ S)).
    + rewrite size_difference, Nat.sub_add; [done|apply subseteq_size|];
        intros [x ch] [-> Hin]%HS; apply HR; unfold idx; by rewrite lookup_insert_eq.
    + intros x ch. rewrite elem_of_difference, HR, HS. unfold idx. destruct (decide (x = fd)) as [->|Hne].
      * rewrite lookup_insert_eq, Hm. set_solver.
      * rewrite lookup_insert_ne by done. naive_solver.
Qed.

(** The two counters are exact: the number of channels somebody is subscribed
    to, and the number of subscriptions. *)
Theorem subscription_counts p (A : gset bytes) (R : gset (Z * bytes)) :
  ps_wf p → (∀ ch, ch ∈ A ↔ subs p ch ≠ ∅) → (∀ fd ch, (fd, ch) ∈ R ↔ fd ∈ subs p ch) →
  active_channel_count p = size A ∧ total_subscription_count p = size R.
Proof.
  intros Hwf HA HR. split.
  - unfold active_channel_count. rewrite <- size_dom. f_equal. apply leibniz_equiv. intros ch. rewrite HA, elem_of_dom.
    unfold subs, idx. pose proof (ps_channels _ Hwf ch). destruct (channels_ p !! ch) as [s|]; simpl; [|by split; [intros []|]].
    split; [intros _ ->; congruence|eauto].
  - apply sum_sizes. intros fd ch. by rewrite HR, (ps_mirror _ Hwf).
Qed.

End Claims.

(** ** Instances *)

Definition demo_pubsub : PubSubManager := snd (subscribe 7 [$"news"] empty_pubsub).

Lemma ps_wf_demo : ps_wf demo_pubsub.
Proof.
  destruct (subscribe_run 7 [$"news"] empty_pubsub ps_wf_empty) as (p & E & Hwf & _).
  unfold demo_pubsub. by rewrite E.
Qed.

Definition demo_peer : DemoNet := mkNet ∅ ∅ {[ 7%Z ]} ∅.

Lemma publish_delivers_witness :
  ∃ outs p' w', @publish DemoNet demo_sockets ($"news") ($"hello") (demo_pubsub, demo_peer) =
      (Z.of_nat (length (took outs)), (p', w')) ∧ outs.*1 = [7%Z].
Proof.
  destruct (@publish_delivers DemoNet demo_sockets ($"news") ($"hello") demo_pubsub demo_peer ps_wf_demo)
    as (outs & p' & w' & E & Ho & _). exists outs, p', w'. split; [exact E|]. rewrite Ho. vm_compute. reflexivity.
Defined.

(** Two subscribers, one of them with a broken connection, and a publication. *)
Definition demo_ps_ops : list PsOp :=
  [PsSubscribe 7 [$"news"; $"sport"]; PsSubscribe 8 [$"news"]; PsPublish ($"news") ($"hello");
   PsUnsubscribe 7 [$"sport"]; PsDisconnect 7].

Definition demo_half_broken : DemoNet := mkNet ∅ ∅ {[ 7%Z; 8%Z ]} {[ 8%Z ]}.

Lemma pubsub_refines_witness :
  ∃ f w', @spec_run DemoNet demo_sockets (λ _, ∅, demo_half_broken) demo_ps_ops
      [PsTotals [($"news", 1%Z); ($"sport", 2%Z)]; PsTotals [($"news", 1%Z)]; PsReceivers 1;
       PsTotals [($"sport", 1%Z)]; PsDone] (f, w') ∧ f 7%Z = ∅ ∧ f 8%Z = ∅.
Proof.
  pose proof (@pubsub_refines DemoNet demo_sockets gmap_order demo_ps_ops demo_half_broken) as Hr.
  destruct (exec_pss demo_ps_ops _) as [rs [p w']] eqn:E. destruct Hr as (f & Hr & Hf & _).
  assert (rs = fst (@exec_pss DemoNet demo_sockets gmap_order demo_ps_ops (empty_pubsub, demo_half_broken))) as Ers by (by rewrite E).
  assert (p = fst (snd (@exec_pss DemoNet demo_sockets gmap_order demo_ps_ops (empty_pubsub, demo_half_broken)))) as Ep by (by rewrite E).
  exists f, w'. split; [|split].
  - vm_compute in Ers. rewrite Ers in Hr. exact Hr.
  - rewrite <- Hf, Ep. vm_compute. reflexivity.
  - rewrite <- Hf, Ep. vm_compute. reflexivity.
Defined.

Lemma subscription_replies_witness :
  fst (subscribe 7 [$"a"; $"a"; $"b"] empty_pubsub) = [($"a", 1%Z); ($"a", 1%Z); ($"b", 2%Z)].
Proof.
  destruct (@subscription_replies gmap_order 7 [$"a"; $"a"; $"b"] empty_pubsub ps_wf_empty) as (E & _).
  rewrite E. vm_compute. reflexivity.
Defined.
