(* ===== verification/CommandHandler.v ===== *)
(** * Command dispatch (commands/command_handler.cpp, commands/command_handler.h)

    A handler works on the shared state of the process, the [World]: the
    database, the files, the clock cursor, the pub/sub manager and the
    network.  Command handlers are computations over the world that return
    the reply text; the transaction commands also own the handler's fields.
    [client_fd_] and [server_] are the members fixed at construction; of the
    server only its start time and its number of clients are read.  Which
    system calls of SAVE succeed, and when the expiry thread gets the lock of
    the database between two calls, is the parameter [Environ]. *)

From S2P Require Import Prelude CppString Parser Resp RespFacts Database ExpiryThread.
From S2P Require Import Persistence Socket PubSub.

(** ** State *)

(** What the operating system decides: the schedule of the expiry thread, and
    the outcome of the system calls of a save started at a clock cursor. *)
Class Environ := {
  env_scheduler :: Scheduler;
  save_io : nat → IoOutcome;
}.

Section World.
Context {Net : Type}.

Record World := mkWorld {
  w_db : Database;
  w_files : gmap bytes bytes;
  w_clock : nat;
  w_pubsub : PubSubManager;
  w_net : Net;
}.

Definition WM (A : Type) : Type := State World A.

(** Calls of the other components. *)
Definition db {A} (m : DbM A) : WM A := λ w,
  let '(a, (d, n)) := m (w_db w, w_clock w) in
  (a, mkWorld d (w_files w) n (w_pubsub w) (w_net w)).
Definition pers {A} (m : PersM A) : WM A := λ w,
  let '(a, ((d, fs), n)) := m ((w_db w, w_files w), w_clock w) in
  (a, mkWorld d fs n (w_pubsub w) (w_net w)).
Definition pubsub {A} (m : State (PubSubManager * Net) A) : WM A := λ w,
  let '(a, (p, net)) := m (w_pubsub w, w_net w) in
  (a, mkWorld (w_db w) (w_files w) (w_clock w) p net).
Definition net {A} (m : State Net A) : WM A := λ w,
  let '(a, net) := m (w_net w) in
  (a, mkWorld (w_db w) (w_files w) (w_clock w) (w_pubsub w) net).

End World.
Arguments World : clear implicits.
Arguments WM : clear implicits.

Record WatchedKeySnapshot := mkWatched {
  key : bytes;
  existed : bool;
  string_value : option bytes;
  list_size : Z;
}.

Record CommandHandler := mkHandler {
  in_multi_ : bool;
  tx_queue_ : list Command;
  watched_keys_ : list bytes;
  watch_dirty_ : bool;
  watch_snapshots_ : list WatchedKeySnapshot;
}.

Definition new_handler : CommandHandler := mkHandler false [] [] false [].

(** ** Reply texts *)

Definition WRONGTYPE_ERR : bytes :=
  $"WRONGTYPE Operation against a key holding the wrong kind of value".
Definition wrong_args (cmd : bytes) : bytes :=
  $"ERR wrong number of arguments for '" ++ cmd ++ $"' command".
Definition not_an_integer : bytes := $"ERR value is not an integer or out of range".
Definition nil_reply : bytes := $"(nil)".
Definition empty_list : bytes := $"(empty list)".
Definition quoted (s : bytes) : bytes := DQUOTE :: s ++ [DQUOTE].
Definition integer_text (n : Z) : bytes := $"(integer) " ++ to_string n.
Definition optional_text (v : option bytes) : bytes :=
  match v with Some s => quoted s | None => nil_reply end.

(** The loops that print a vector of strings as a numbered list. *)
Definition numbered_list (l : list bytes) : bytes :=
  match l with
  | [] => empty_list
  | _ => join_lines (imap (λ i e, list_line (S i) e) l)
  end.

(** The loops that print subscription results. *)
Definition results_text (verb : bytes) (results : list (bytes * Z)) : bytes :=
  join_lines (map (λ '(ch, n), verb ++ $" " ++ ch ++ $" " ++ to_string n) results).

Section Handlers.
Context {Net : Type} `{SocketApi Net} `{SteadyClock} `{HashOrder} `{Environ}.
Context (client_fd_ : Z) (server_ : option (Z * nat)).

(** A call of a public operation of the database. *)
Definition call {A} (m : DbM A) : WM Net A := db (locked m).

(** ** Keys and strings *)

Definition handle_ping (cmd : Command) : WM Net bytes :=
  match args cmd with [] => mret ($"PONG") | a :: _ => mret a end.

Definition handle_set (cmd : Command) : WM Net bytes :=
  match args cmd with
  | k :: v :: opts =>
      call (set k v);;
      match opts with
      | option :: ex :: _ =>
          if bytes_eqb (to_upper option) $"EX" then
            match stoi ex with
            | Some seconds =>
                if (seconds <=? 0)%Z then mret ($"ERR invalid expire time in 'SET' command")
                else call (expire k seconds);; mret ($"OK")
            | None => mret not_an_integer
            end
          else mret ($"OK")
      | _ => mret ($"OK")
      end
  | _ => mret (wrong_args $"SET")
  end.

Definition handle_get (cmd : Command) : WM Net bytes :=
  match args cmd with
  | [k] => val ← call (get k); mret (optional_text val)
  | _ => mret (wrong_args $"GET")
  end.

Definition handle_del (cmd : Command) : WM Net bytes :=
  match args cmd with
  | [] => mret (wrong_args $"DEL")
  | ks => count ← call (del ks); mret (integer_text count)
  end.

Definition handle_exists (cmd : Command) : WM Net bytes :=
  match args cmd with
  | [] => mret (wrong_args $"EXISTS")
  | ks => count ← call (exists_ ks); mret (integer_text count)
  end.

Definition handle_keys (cmd : Command) : WM Net bytes :=
  all_keys ← call keys; mret (numbered_list all_keys).

Definition handle_dbsize (cmd : Command) : WM Net bytes :=
  n ← call dbsize; mret (integer_text n).

Definition handle_flushdb (cmd : Command) : WM Net bytes := call flushdb;; mret ($"OK").

(** ** Expiry and persistence *)

Definition handle_expire (cmd : Command) : WM Net bytes :=
  match args cmd with
  | [k; s] =>
      match stoi s with
      | None => mret not_an_integer
      | Some seconds =>
          if (seconds <=? 0)%Z then mret ($"ERR invalid expire time in 'EXPIRE' command")
          else result ← call (expire k seconds);
               mret ($"(integer) " ++ (if result : bool then $"1" else $"0"))
      end
  | _ => mret (wrong_args $"EXPIRE")
  end.

Definition handle_ttl (cmd : Command) : WM Net bytes :=
  match args cmd with
  | [k] => remaining ← call (ttl k); mret (integer_text remaining)
  | _ => mret (wrong_args $"TTL")
  end.

Definition handle_persist (cmd : Command) : WM Net bytes :=
  match args cmd with
  | [k] => result ← call (persist k);
           mret ($"(integer) " ++ (if result : bool then $"1" else $"0"))
  | _ => mret (wrong_args $"PERSIST")
  end.

Definition dump_path : bytes := $"dump.mrdb".

Definition handle_save (cmd : Command) : WM Net bytes := λ w,
  (db background;;
   ok ← pers (save (save_io (w_clock w)) dump_path);
   mret (if ok : bool then $"OK" else $"ERR failed to save database")) w.

(** ** Lists *)

(** LPUSH and RPUSH differ in the database call and the name. *)
Definition handle_push (push : bytes → list bytes → DbM Z) (cmd_name : bytes) (cmd : Command)
    : WM Net bytes :=
  match args cmd with
  | k :: (v :: vs) =>
      result ← call (push k (v :: vs));
      mret (if (result =? -1)%Z then WRONGTYPE_ERR else integer_text result)
  | _ => mret (wrong_args cmd_name)
  end.
Definition handle_lpush : Command → WM Net bytes := handle_push lpush $"LPUSH".
Definition handle_rpush : Command → WM Net bytes := handle_push rpush $"RPUSH".

Definition handle_pop (pop : bytes → DbM (option bytes)) (cmd_name : bytes) (cmd : Command)
    : WM Net bytes :=
  match args cmd with
  | [k] => val ← call (pop k); mret (optional_text val)
  | _ => mret (wrong_args cmd_name)
  end.
Definition handle_lpop : Command → WM Net bytes := handle_pop lpop $"LPOP".
Definition handle_rpop : Command → WM Net bytes := handle_pop rpop $"RPOP".

Definition handle_lrange (cmd : Command) : WM Net bytes :=
  match args cmd with
  | [k; a; b] =>
      match stoi a, stoi b with
      | Some start, Some stop =>
          elements ← call (lrange k start stop); mret (numbered_list elements)
      | _, _ => mret not_an_integer
      end
  | _ => mret (wrong_args $"LRANGE")
  end.

Definition handle_llen (cmd : Command) : WM Net bytes :=
  match args cmd with
  | [k] => result ← call (llen k);
           mret (if (result =? -1)%Z then WRONGTYPE_ERR else integer_text result)
  | _ => mret (wrong_args $"LLEN")
  end.

Definition handle_lindex (cmd : Command) : WM Net bytes :=
  match args cmd with
  | [k; i] =>
      match stoi i with
      | None => mret not_an_integer
      | Some index => val ← call (lindex k index); mret (optional_text val)
      end
  | _ => mret (wrong_args $"LINDEX")
  end.

(** ** Pub/sub *)

Definition handle_subscribe (cmd : Command) : WM Net bytes :=
  match args cmd with
  | [] => mret (wrong_args $"SUBSCRIBE")
  | chs => results ← pubsub (on_pubsub (subscribe client_fd_ chs));
           mret (results_text $"subscribe" results)
  end.

Definition handle_unsubscribe (cmd : Command) : WM Net bytes :=
  results ← pubsub (on_pubsub (unsubscribe client_fd_ (args cmd)));
  mret (results_text $"unsubscribe" results).

Definition handle_publish (cmd : Command) : WM Net bytes :=
  match args cmd with
  | [channel; message] =>
      receivers ← pubsub (publish channel message); mret (integer_text receivers)
  | _ => mret (wrong_args $"PUBLISH")
  end.

(** ** Config and info *)

Definition config_params : list bytes :=
  [$"save"; $"port"; $"bind"; $"requirepass"; $"loglevel"; $"maxmemory"].

Definition handle_config (cmd : Command) : WM Net bytes :=
  match args cmd with
  | [] => mret (wrong_args $"CONFIG")
  | sub :: rest =>
      let subcmd := to_upper sub in
      if bytes_eqb subcmd $"GET" then
        match rest with
        | [param] =>
            if existsb (bytes_eqb param) config_params
            then mret (join_lines [list_line 1 param; list_line 2 []])
            else mret empty_list
        | _ => mret (wrong_args $"CONFIG GET")
        end
      else if bytes_eqb subcmd $"SET" then
        match rest with
        | [_; _] => mret ($"OK")
        | _ => mret (wrong_args $"CONFIG SET")
        end
      else mret ($"ERR Unknown subcommand '" ++ subcmd ++ $"'")
  end.

Definition line (s : bytes) : bytes := s ++ [LF].

(** The lines of INFO that need the server. *)
Definition info_server : WM Net bytes :=
  match server_ with
  | None => mret []
  | Some (start_time, clients) =>
      t ← db now;
      let uptime := Z.quot (to_int64 (t - start_time)) NS_PER_S in
      mret (line ($"uptime_in_seconds:" ++ to_string uptime) ++
            line ($"uptime_in_days:" ++ to_string (Z.quot uptime 86400)) ++
            line [] ++ line ($"# Clients") ++
            line ($"connected_clients:" ++ to_string (Z.of_nat clients)))
  end.

Definition handle_info (cmd : Command) : WM Net bytes :=
  server ← info_server;
  n ← call dbsize;
  mret (line ($"# Server") ++ line ($"myredis_version:1.0.0") ++ line ($"tcp_port:6399") ++
        server ++ line [] ++ line ($"# Keyspace") ++ line ($"db0:keys=" ++ to_string n)).

(** ** Dispatch *)

(** The chain of comparisons of [execute_single]. *)
Definition handlers : list (bytes * (Command → WM Net bytes)) :=
  [($"PING", handle_ping); ($"SET", handle_set); ($"GET", handle_get); ($"DEL", handle_del);
   ($"EXISTS", handle_exists); ($"KEYS", handle_keys); ($"DBSIZE", handle_dbsize);
   ($"FLUSHDB", handle_flushdb); ($"EXPIRE", handle_expire); ($"TTL", handle_ttl);
   ($"PERSIST", handle_persist); ($"SAVE", handle_save);
   ($"LPUSH", handle_lpush); ($"RPUSH", handle_rpush); ($"LPOP", handle_lpop);
   ($"RPOP", handle_rpop); ($"LRANGE", handle_lrange); ($"LLEN", handle_llen);
   ($"LINDEX", handle_lindex);
   ($"SUBSCRIBE", handle_subscribe); ($"UNSUBSCRIBE", handle_unsubscribe);
   ($"PUBLISH", handle_publish); ($"CONFIG", handle_config); ($"INFO", handle_info)].

Fixpoint dispatch (table : list (bytes * (Command → WM Net bytes))) (cmd : Command) : WM Net bytes :=
  match table with
  | [] => mret ($"ERR unknown command '" ++ name cmd ++ $"'")
  | (n, h) :: rest => if bytes_eqb (name cmd) n then h cmd else dispatch rest cmd
  end.

Definition execute_single : Command → WM Net bytes := dispatch handlers.

(** ** Transactions *)

Definition HM (A : Type) : Type := State (CommandHandler * World Net) A.

Definition on_world {A} (m : WM Net A) : HM A := λ '(h, w), let '(a, w') := m w in (a, (h, w')).
Definition self : HM CommandHandler := λ '(h, w), (h, (h, w)).
Definition set_self (h : CommandHandler) : HM unit := λ '(_, w), (tt, (h, w)).

Definition handle_multi (cmd : Command) : HM bytes :=
  h ← self;
  if in_multi_ h then mret ($"ERR MULTI calls can not be nested")
  else set_self (mkHandler true [] (watched_keys_ h) (watch_dirty_ h) (watch_snapshots_ h));;
       mret ($"OK").

(** The body of the loop of [watched_keys_modified] for one snapshot. *)
Definition key_modified (snap : WatchedKeySnapshot) : DbM bool :=
  val ← locked (get (key snap));
  if existed snap then
    match string_value snap with
    | Some old => mret (negb (bool_decide (val = Some old)))
    | None =>
        if (0 <=? list_size snap)%Z then
          n ← locked (llen (key snap)); mret (negb (n =? list_size snap)%Z)
        else mret false
    end
  else
    match val with
    | Some _ => mret true
    | None => n ← locked (llen (key snap)); mret (0 <=? n)%Z
    end.

Fixpoint watched_keys_modified (snaps : list WatchedKeySnapshot) : DbM bool :=
  match snaps with
  | [] => mret false
  | snap :: rest => m ← key_modified snap; if m : bool then mret true else watched_keys_modified rest
  end.

(** The loop over the queue, collecting the replies. *)
Definition run_one (results : list bytes) (cmd : Command) : WM Net (list bytes) :=
  result ← execute_single cmd; mret (results ++ [result]).
Definition run_queue (queue : list Command) : WM Net (list bytes) := foldM run_one [] queue.

Definition exec_line (i : nat) (result : bytes) : bytes :=
  to_string (Z.of_nat i) ++ $") " ++ result.

Definition handle_exec (cmd : Command) : HM bytes :=
  h ← self;
  if negb (in_multi_ h) then mret ($"ERR EXEC without MULTI")
  else
    modified ← (match watched_keys_ h with
                | [] => mret false
                | _ => on_world (db (watched_keys_modified (watch_snapshots_ h)))
                end : HM bool);
    if modified : bool then set_self new_handler;; mret nil_reply
    else
      results ← on_world (run_queue (tx_queue_ h));
      set_self new_handler;;
      mret (match tx_queue_ h with
            | [] => empty_list
            | _ => join_lines (imap (λ i r, exec_line (S i) r) results)
            end).

Definition handle_discard (cmd : Command) : HM bytes :=
  h ← self;
  if negb (in_multi_ h) then mret ($"ERR DISCARD without MULTI")
  else set_self (mkHandler false [] (watched_keys_ h) (watch_dirty_ h) (watch_snapshots_ h));;
       mret ($"OK").

(** The snapshot of one key. *)
Definition watch_key (k : bytes) : DbM WatchedKeySnapshot :=
  val ← locked (get k);
  match val with
  | Some v => mret (mkWatched k true (Some v) (-1))
  | None =>
      n ← locked (llen k);
      mret (if (0 <=? n)%Z then mkWatched k true None n else mkWatched k false None (-1))
  end.

Definition watch_one (_ : unit) (k : bytes) : HM unit :=
  snap ← on_world (db (watch_key k));
  h ← self;
  set_self (mkHandler (in_multi_ h) (tx_queue_ h) (watched_keys_ h ++ [k]) (watch_dirty_ h)
              (watch_snapshots_ h ++ [snap])).

Definition handle_watch (cmd : Command) : HM bytes :=
  match args cmd with
  | [] => mret (wrong_args $"WATCH")
  | ks =>
      h ← self;
      if in_multi_ h then mret ($"ERR WATCH inside MULTI is not allowed")
      else foldM watch_one tt ks;; mret ($"OK")
  end.

(** ** execute *)

Definition in_subscription_mode (w : World Net) : bool := is_subscribed client_fd_ (w_pubsub w).

Definition allowed_in_subscription (n : bytes) : bool :=
  bytes_eqb n $"SUBSCRIBE" || bytes_eqb n $"UNSUBSCRIBE" || bytes_eqb n $"PING".

Definition subscription_error (n : bytes) : bytes :=
  $"ERR Can't execute '" ++ n ++
  $"': only (P)SUBSCRIBE / (P)UNSUBSCRIBE / PING / QUIT are allowed in this context".

Definition execute (cmd : Command) : HM bytes := λ '(h, w),
  (if in_subscription_mode w && negb (allowed_in_subscription (name cmd))
   then mret (subscription_error (name cmd))
   else if bytes_eqb (name cmd) $"MULTI" then handle_multi cmd
   else if bytes_eqb (name cmd) $"EXEC" then handle_exec cmd
   else if bytes_eqb (name cmd) $"DISCARD" then handle_discard cmd
   else if bytes_eqb (name cmd) $"WATCH" then handle_watch cmd
   else if in_multi_ h
   then set_self (mkHandler true (tx_queue_ h ++ [cmd]) (watched_keys_ h) (watch_dirty_ h)
                    (watch_snapshots_ h));; mret ($"QUEUED")
   else on_world (execute_single cmd)) (h, w).

End Handlers.
