(* ===== verification/CommandFacts.v ===== *)
(** * What every command guarantees

    Two type classes state what command code promises to the rest of the
    server, and are resolved structurally over the handlers' code: a
    [StoreOp] acts on the database as a run of the store's machine, and a
    [Safe] computation also keeps the pub/sub invariant, subscribes nobody
    but its own client, and opens or closes no socket. *)

From S2P Require Import Prelude CppString Parser Resp RespFacts Database DatabaseFacts.
From S2P Require Import DatabaseSpec ExpiryThread Persistence Socket PubSub PubSubFacts CommandHandler.

(** ** Database programs *)

Section StoreOps.
Context `{SteadyClock} `{HashOrder}.

Class StoreOp {A} (m : DbM A) : Prop := store_op : ∀ s, ∃ ls, crun s ls (snd (m s)).

Lemma crun_app s1 l1 s2 l2 s3 : crun s1 l1 s2 → crun s2 l2 s3 → crun s1 (l1 ++ l2) s3.
Proof.
  induction 1 as [|s l s1' ls s2 Hs _ IH]; intros H2; [done|].
  rewrite <- app_assoc. econstructor; [done|]. by apply IH.
Qed.

Lemma crun_one s l s' : cstep s l s' → ∃ ls, crun s ls s'.
Proof. intros Hs. eexists. econstructor; [done|constructor]. Qed.

(** Runs keep the invariant, and the clock only moves forward. *)
Lemma crun_inv s ls s' : crun s ls s' → inv s → inv s' ∧ snd s ≤ snd s'.
Proof. intros Hrun Hi. by destruct (crun_sim _ _ _ Hrun Hi) as (? & ? & _). Qed.

#[global] Instance ret_store {A} (a : A) : StoreOp (mret a).
Proof. intros s. exists []. constructor. Qed.

#[global] Instance bind_store {A B} (m : DbM A) (k : A → DbM B) :
  StoreOp m → (∀ a, StoreOp (k a)) → StoreOp (m ≫= k).
Proof.
  intros Hm Hk s. destruct (Hm s) as [l1 H1]. unfold mbind, state_bind.
  destruct (m s) as [a s1]. destruct (Hk a s1) as [l2 H2]. exists (l1 ++ l2). by eapply crun_app.
Qed.

(** A computation that is one operation of the store's machine, up to the
    type of its reply. *)
Lemma op_store {A} (o : Op) (f : A → Reply) (m : DbM A) :
  op_ok o → (∀ s, exec_op o s = (let '(r, s') := m s in (f r, s'))) → StoreOp m.
Proof.
  intros Hok E [d n]. specialize (E (d, n)). destruct (m (d, n)) as [a [d' n']]. eapply crun_one. by apply (c_op o).
Qed.

#[global] Instance set_store k v : StoreOp (set k v).
Proof. by apply (op_store (OSet k v) (λ _, RUnit)). Qed.
#[global] Instance get_store k : StoreOp (get k).
Proof. by apply (op_store (OGet k) RValue). Qed.
#[global] Instance del_store ks : StoreOp (del ks).
Proof. by apply (op_store (ODel ks) RInt). Qed.
#[global] Instance flushdb_store : StoreOp flushdb.
Proof. by apply (op_store OFlush (λ _, RUnit)). Qed.
#[global] Instance lpush_store k v vs : StoreOp (lpush k (v :: vs)).
Proof. by apply (op_store (OLPush k (v :: vs)) RInt). Qed.
#[global] Instance rpush_store k v vs : StoreOp (rpush k (v :: vs)).
Proof. by apply (op_store (ORPush k (v :: vs)) RInt). Qed.
#[global] Instance lpop_store k : StoreOp (lpop k).
Proof. by apply (op_store (OLPop k) RValue). Qed.
#[global] Instance rpop_store k : StoreOp (rpop k).
Proof. by apply (op_store (ORPop k) RValue). Qed.
#[global] Instance lrange_store k a b : StoreOp (lrange k a b).
Proof. by apply (op_store (OLRange k a b) RList). Qed.
#[global] Instance llen_store k : StoreOp (llen k).
Proof. by apply (op_store (OLLen k) RInt). Qed.
#[global] Instance lindex_store k i : StoreOp (lindex k i).
Proof. by apply (op_store (OLIndex k i) RValue). Qed.
#[global] Instance ttl_store k : StoreOp (ttl k).
Proof. by apply (op_store (OTtl k) RInt). Qed.
#[global] Instance persist_store k : StoreOp (persist k).
Proof. by apply (op_store (OPersist k) RBool). Qed.

(** EXPIRE's argument comes from [stoi] and was compared with 0. *)
Lemma expire_store k e s : stoi e = Some s → (s <=? 0)%Z = false → StoreOp (expire k s).
Proof.
  intros Hs Hp. apply (op_store (OExpire k s) RBool); [|done]. apply stoi_range in Hs. simpl. lia.
Qed.

(** The rounds of the expiry thread before an operation are steps of the
    machine too. *)
#[global] Instance background_store `{Scheduler} : StoreOp background.
Proof. intros [d n]. destruct (background_run d n) as (d' & n' & -> & _ & _ & Hr). by eexists. Qed.
#[global] Instance locked_store `{Scheduler} {A} (m : DbM A) : StoreOp m → StoreOp (locked m).
Proof. intros Hm. unfold locked. apply _. Qed.

#[global] Instance exists_store ks : StoreOp (exists_ ks).
Proof. by apply (op_store (OExists ks) RInt). Qed.
#[global] Instance keys_store : StoreOp keys.
Proof. by apply (op_store OKeys RList). Qed.
#[global] Instance dbsize_store : StoreOp dbsize.
Proof. by apply (op_store ODbsize RInt). Qed.
#[global] Instance now_store : StoreOp now.
Proof. intros [d n]. eapply crun_one, c_wait. lia. Qed.

End StoreOps.

(** ** Programs over the world *)

Section Safe.
Context {Net : Type} `{SocketApi Net} `{SteadyClock} `{HashOrder} `{Environ}.
Context (client_fd_ : Z).
Implicit Types (w : World Net).

(** The part of the world the store's machine is about. *)
Definition dbs (w : World Net) : Database * nat := (w_db w, w_clock w).

Record safe_step (w w' : World Net) : Prop := {
  safe_db : ∃ ls, crun (dbs w) ls (dbs w');
  safe_ps : ps_wf (w_pubsub w) → ps_wf (w_pubsub w');
  safe_chans : ps_wf (w_pubsub w) →
    ∀ fd, fd ≠ client_fd_ → chans (w_pubsub w') fd ⊆ chans (w_pubsub w) fd;
  safe_open : open_fds (w_net w') = open_fds (w_net w);
}.

Class Safe {A} (m : WM Net A) : Prop := safe : ∀ w, safe_step w (snd (m w)).

Lemma safe_refl w : safe_step w w.
Proof. constructor; [by exists []; constructor|done..]. Qed.

Lemma safe_trans w1 w2 w3 : safe_step w1 w2 → safe_step w2 w3 → safe_step w1 w3.
Proof.
  intros [[l1 D1] P1 C1 O1] [[l2 D2] P2 C2 O2]. constructor.
  - exists (l1 ++ l2). by eapply crun_app.
  - auto.
  - intros Hp fd Hfd. etrans; [by apply C2; [apply P1|]|by apply C1].
  - congruence.
Qed.

#[global] Instance ret_safe {A} (a : A) : Safe (mret a).
Proof. intros w. apply safe_refl. Qed.

#[global] Instance bind_safe {A B} (m : WM Net A) (k : A → WM Net B) :
  Safe m → (∀ a, Safe (k a)) → Safe (m ≫= k).
Proof.
  intros Hm Hk w. specialize (Hm w). unfold mbind, state_bind.
  destruct (m w) as [a w1]. eapply safe_trans; [done|apply Hk].
Qed.

#[global] Instance db_safe {A} (m : DbM A) : StoreOp m → Safe (db m).
Proof.
  intros Hm w. unfold db. destruct (Hm (w_db w, w_clock w)) as [ls Hls].
  destruct (m (w_db w, w_clock w)) as [a [d n]]. constructor; [by exists ls|done..].
Qed.

#[global] Instance call_safe {A} (m : DbM A) : StoreOp m → Safe (call m).
Proof. intros Hm. unfold call. apply _. Qed.

(** SAVE reads the database and the clock. *)
Lemma save_frame io p d fs n :
  ∃ b fs' n', save io p ((d, fs), n) = (b, ((d, fs'), n')) ∧ n ≤ n'.
Proof.
  unfold save, on_db, get_snapshot, members, files, remove_file, update_files, now, mret, mbind, state_ret, state_bind.
  cbn beta iota zeta. destruct (io_open io), (io_good io), (io_reopen io), (io_append_open io), (io_remove_dump io),
    (io_rename io), (io_remove_tmp io); cbn [negb]; cbn beta iota zeta; do 3 eexists; (split; [reflexivity|lia]).
Qed.

#[global] Instance save_safe io p : Safe (pers (save io p)).
Proof.
  intros w. unfold pers. destruct (save_frame io p (w_db w) (w_files w) (w_clock w)) as (b & fs & n & -> & Hn).
  constructor; [|done..]. eapply crun_one, (c_wait (w_db w)), Hn.
Qed.

#[global] Instance subscribe_safe chs : Safe (pubsub (on_pubsub (subscribe client_fd_ chs))).
Proof.
  intros w. unfold pubsub, on_pubsub. destruct (subscribe client_fd_ chs (w_pubsub w)) as [r p] eqn:E.
  constructor; [by exists []; constructor| | |done]; intros Hwf;
    destruct (subscribe_run client_fd_ chs _ Hwf) as (p' & E' & Hwf' & Hc); rewrite E in E'; simplify_eq; [done|].
  intros fd Hfd. cbn [snd w_pubsub]. by rewrite Hc, decide_False.
Qed.

#[global] Instance unsubscribe_safe chs : Safe (pubsub (on_pubsub (unsubscribe client_fd_ chs))).
Proof.
  intros w. unfold pubsub, on_pubsub. destruct (unsubscribe client_fd_ chs (w_pubsub w)) as [r p] eqn:E.
  constructor; [by exists []; constructor| | |done]; intros Hwf;
    destruct (unsubscribe_run client_fd_ chs _ Hwf) as (p' & E' & Hwf' & Hc); rewrite E in E'; simplify_eq; [done|].
  intros fd Hfd. cbn [snd w_pubsub]. by rewrite Hc, decide_False.
Qed.

#[global] Instance publish_safe ch msg : Safe (pubsub (publish ch msg)).
Proof.
  intros w. unfold pubsub. destruct (publish ch msg (w_pubsub w, w_net w)) as [r [p n]] eqn:E.
  constructor; [by exists []; constructor| | |by apply publish_frame in E as [_ E]]; intros Hwf;
    destruct (publish_run ch msg _ (w_net w) Hwf) as (outs & p' & n' & E' & _ & _ & Hwf' & Hc);
    rewrite E in E'; simplify_eq; [done|].
  intros fd _. cbn [snd w_pubsub]. rewrite Hc. case_decide; set_solver.
Qed.

(** ** Handlers *)

Context (server_ : option (Z * nat)).

Lemma handlers_safe : Forall (λ nh, ∀ cmd, Safe (snd nh cmd)) (handlers client_fd_ server_).
Proof.
  repeat apply Forall_cons_2; try apply Forall_nil_2; cbn [snd]; intros cmd.
  all: try (unfold handle_ping, handle_get, handle_del, handle_exists, handle_keys, handle_dbsize, handle_flushdb,
    handle_ttl, handle_persist, handle_lpush, handle_rpush, handle_push, handle_lpop, handle_rpop, handle_pop,
    handle_lrange, handle_llen, handle_lindex, handle_subscribe, handle_unsubscribe, handle_publish,
    handle_config, handle_info, info_server; repeat case_match; apply _).
  - unfold handle_set. repeat case_match; try apply _.
    apply bind_safe; [apply _|]. intros _. apply bind_safe; [|apply _]. eapply call_safe, expire_store; eauto.
  - unfold handle_expire. repeat case_match; try apply _.
    apply bind_safe; [|apply _]. eapply call_safe, expire_store; eauto.
  - intros w. unfold handle_save. apply (bind_safe (db background) _ _ _ w).
Qed.

#[global] Instance execute_single_safe cmd : Safe (execute_single client_fd_ server_ cmd).
Proof.
  unfold execute_single. induction handlers_safe as [|[n h] l Hh _ IH]; cbn [dispatch]; [apply _|].
  case_match; [apply Hh|done].
Qed.

#[global] Instance foldM_safe {A B} (f : B → A → WM Net B) acc l :
  (∀ b a, Safe (f b a)) → Safe (foldM f acc l).
Proof. intros Hf. revert acc. induction l as [|a l IH]; intros acc; cbn [foldM]; apply _. Qed.

#[global] Instance run_queue_safe queue : Safe (run_queue client_fd_ server_ queue).
Proof. unfold run_queue, run_one. apply _. Qed.

(** Reading one watched key, and all of them. *)
#[global] Instance watch_key_store k : StoreOp (watch_key k).
Proof. unfold watch_key. apply bind_store; [apply _|]. intros val. case_match; apply _. Qed.

#[global] Instance watched_store snaps : StoreOp (watched_keys_modified snaps).
Proof.
  induction snaps as [|snap snaps IH]; cbn [watched_keys_modified]; [apply _|].
  apply bind_store; [|intros m; case_match; apply _]. unfold key_modified. apply bind_store; [apply _|].
  intros v. repeat case_match; apply _.
Qed.

(** ** The transaction layer *)

Lemma on_world_safe {A} (m : WM Net A) h w : Safe m → safe_step w (snd (snd (on_world m (h, w)))).
Proof. intros Hm. unfold on_world. specialize (Hm w). by destruct (m w). Qed.

Lemma on_world_handler {A} (m : WM Net A) h w : fst (snd (on_world m (h, w))) = h.
Proof. unfold on_world. by destruct (m w). Qed.

Lemma watch_fold_safe ks h w : safe_step w (snd (snd (foldM watch_one tt ks (h, w)))).
Proof.
  revert h w. induction ks as [|k ks IH]; intros h w; [apply safe_refl|].
  rewrite foldM_cons. unfold watch_one at 1. unfold on_world, self, set_self, mbind, state_bind.
  cbn beta iota zeta. pose proof (db_safe (watch_key k) _ w) as Hs.
  destruct (db (watch_key k) w) as [snap w1]. cbn beta iota zeta. eapply safe_trans; [done|apply IH].
Qed.

Lemma execute_safe cmd h w : safe_step w (snd (snd (execute client_fd_ server_ cmd (h, w)))).
Proof.
  unfold execute. case_match; [apply safe_refl|].
  case_match; [|case_match; [|case_match; [|case_match; [|case_match]]]].
  - unfold handle_multi, self, set_self, mbind, state_bind. cbn beta iota zeta. case_match; apply safe_refl.
  - unfold handle_exec, self, set_self, mbind, state_bind. cbn beta iota zeta.
    case_match; [apply safe_refl|].
    assert (∃ m w1, safe_step w w1 ∧ (match watched_keys_ h with [] => mret false
      | _ => on_world (db (watched_keys_modified (watch_snapshots_ h))) end : HM bool) (h, w) = (m, (h, w1)))
      as (m & w1 & Hs & ->).
    { destruct (watched_keys_ h); [do 2 eexists; split; [apply safe_refl|done]|]. unfold on_world.
      pose proof (db_safe (watched_keys_modified (watch_snapshots_ h)) _ w) as Hs.
      destruct (db _ w) as [m w1]. by exists m, w1. }
    destruct m; [done|]. unfold on_world.
    pose proof (run_queue_safe (tx_queue_ h) w1) as Hq. destruct (run_queue _ _ _ w1) as [rs w2].
    by eapply safe_trans.
  - unfold handle_discard, self, set_self, mbind, state_bind. cbn beta iota zeta. case_match; apply safe_refl.
  - unfold handle_watch. destruct (args cmd) as [|k ks]; [apply safe_refl|].
    unfold self, mbind, state_bind. cbn beta iota zeta. case_match; [apply safe_refl|].
    pose proof (watch_fold_safe (k :: ks) h w) as Hs.
    by destruct (foldM watch_one tt (k :: ks) (h, w)) as [[] [h' w']].
  - apply safe_refl.
  - by apply on_world_safe, execute_single_safe.
Qed.

End Safe.
