(* ===== verification/CommandClaims.v ===== *)
(** * Command dispatch and transactions: theorems *)

From S2P Require Import Prelude CppString Parser Resp RespFacts Database DatabaseFacts.
From S2P Require Import DatabaseSpec DatabaseClaims ExpiryThread Persistence Socket PubSub PubSubFacts PubSubClaims.
From S2P Require Import CommandHandler CommandFacts.

(** ** Definitions *)

(** What a watched key looked like: its string value, or the length of its
    list, 0 without a key. *)
Definition watch_view (e : option (Value * option Z)) : option bytes * Z :=
  match e with
  | Some (VString v, _) => (Some v, (-1)%Z)
  | Some (VList l, _) => (None, Z.of_nat (length l))
  | None => (None, 0%Z)
  end.

(** The lists are within the range of [int]. *)
Definition lists_small (d : Database) : Prop :=
  ∀ k l, list_store_ d !! k = Some l → (Z.of_nat (length l) ≤ INT_MAX)%Z.

(** Commands that MULTI queues. *)
Definition queueable (c : Command) : Prop :=
  name c ∉ [$"MULTI"; $"EXEC"; $"DISCARD"; $"WATCH"].

Definition plain_command (n : bytes) : Command := mkCommand n [].

(** ** Watching *)

Section Watch.
Context `{SteadyClock} `{HashOrder} `{Environ}.
Implicit Types (d : Database) (n : nat) (k : bytes).

(** The clock cursor after the two calls of a check, and that no deadline of
    [k] falls into it. *)
Definition check_end d n k : nat := snd (snd (locked (llen k) (snd (locked (get k) (d, n))))).
Definition stable d n k : Prop := due d (clock (check_end d n k)) k = due d (clock n) k.

Lemma get_view d n k : wf d → fst (get k (d, n)) = fst (watch_view (abs (clock n) d !! k)).
Proof.
  intros Hwf. rewrite get_run. cbn [fst]. destruct (abs_entry d (clock n) k Hwf)
    as [[-> [->|(-> & Es & El)]]|[(v & -> & -> & Es & El)|(l & -> & -> & Es & El)]]; by rewrite ?Es.
Qed.

Lemma llen_view d n k :
  wf d → lists_small d → fst (llen k (d, n)) = snd (watch_view (abs (clock n) d !! k)).
Proof.
  intros Hwf Hl. rewrite llen_run. cbn [fst]. unfold contains. destruct (abs_entry d (clock n) k Hwf)
    as [[-> [->|(-> & Es & El)]]|[(v & -> & -> & Es & El)|(l & -> & -> & Es & El)]]; rewrite ?Es, ?El; try done.
  cbn [watch_view snd]. apply to_int32_id. specialize (Hl k l El). unfold INT_MIN, INT_MAX in *. lia.
Qed.

Lemma lists_small_purged t d d' : purged t d d' → lists_small d → lists_small d'.
Proof.
  intros (ks & -> & _) Hl k l. destruct (erase_keys_lookup ks d k) as (_ & -> & _). case_decide; [done|]. apply Hl.
Qed.

(** An entry does not change between two times with the same verdict on its
    deadline. *)
Lemma abs_same_due t t' d k : due d t' k = due d t k → abs t' d !! k = abs t d !! k.
Proof. intros E. by rewrite !abs_lookup, E. Qed.

(** Between two times with the same verdict the verdict is the same. *)
Lemma due_between t t1 t2 d k :
  (t ≤ t1 ≤ t2)%Z → due d t2 k = due d t k → due d t1 k = due d t k.
Proof.
  intros Ht E. destruct (due d t k) eqn:E0; [by eapply due_mono; [apply Ht|]|].
  destruct (due d t1 k) eqn:E1; [|done]. by rewrite (due_mono _ _ _ _ (proj2 Ht) E1) in E.
Qed.

(** The two calls a check makes, in terms of the abstract entry. *)
Lemma get_llen_view d n k :
  wf d → stable d n k → lists_small d →
  let '(val, s) := locked (get k) (d, n) in
  val = fst (watch_view (abs (clock n) d !! k)) ∧
  fst (locked (llen k) s) = snd (watch_view (abs (clock n) d !! k)).
Proof.
  intros Hwf Hst Hl. unfold stable, check_end in Hst.
  destruct (locked_run (get k) d n) as (d1 & n1 & E1 & Hn1 & Hp1). rewrite E1 in *.
  pose proof (get_view d1 n1 k (wf_purged _ _ _ Hp1 Hwf)) as Hv.
  rewrite get_run in *. cbn [fst snd] in *. set (d2 := purge d1 (clock n1) k) in *. set (n2 := tick d1 k n1) in *.
  destruct (locked_run (llen k) d2 n2) as (d3 & n3 & E3 & Hn3 & Hp3). rewrite E3 in *.
  assert (n1 ≤ n2) as Hn2 by apply tick_le.
  assert (purged (clock n3) d d3) as Hp.
  { eapply purged_trans; [eapply purged_mono; [|done]; apply clock_mono; lia|].
    eapply purged_trans; [|done]. eapply purged_mono; [|apply purged_purge]. apply clock_mono; lia. }
  assert (∀ m, n ≤ m → m ≤ n3 → abs (clock m) d !! k = abs (clock n) d !! k) as Habs.
  { intros m Hm Hm3. apply abs_same_due. eapply due_between; [|done].
    rewrite llen_run. cbn [snd]. pose proof (tick_le d3 k n3). split; apply clock_mono; lia. }
  split.
  - rewrite Hv, (abs_purged (clock n1) _ d) by done. by rewrite Habs by lia.
  - rewrite llen_view by (by eapply wf_purged || by eapply lists_small_purged).
    rewrite (abs_purged (clock n3) _ d) by done. by rewrite Habs by lia.
Qed.

Lemma watch_view_range d n k : (0 ≤ snd (watch_view (abs (clock n) d !! k)))%Z ∨
  ∃ v, watch_view (abs (clock n) d !! k) = (Some v, (-1)%Z).
Proof. destruct (abs (clock n) d !! k) as [[[v|l] dl]|]; simpl; [right; eauto|left; lia..]. Qed.

Lemma watch_key_run d n k :
  wf d → stable d n k → lists_small d →
  fst (watch_key k (d, n)) =
  mkWatched k true (fst (watch_view (abs (clock n) d !! k))) (snd (watch_view (abs (clock n) d !! k))).
Proof.
  intros Hwf Hst Hl. pose proof (get_llen_view d n k Hwf Hst Hl) as Hg. unfold watch_key, mbind, state_bind.
  destruct (locked (get k) (d, n)) as [val s]. destruct Hg as [-> Hn].
  destruct (watch_view_range d n k) as [Hr|[v ->]]; [|done].
  destruct (abs (clock n) d !! k) as [[[v|l] dl]|]; simpl in *; [lia|..];
    destruct (locked (llen k) s) as [x s']; simpl in *; subst; rewrite ?(proj2 (Z.leb_le _ _)) by lia; done.
Qed.

Lemma key_modified_run d n k e :
  wf d → stable d n k → lists_small d →
  fst (key_modified (mkWatched k true (fst (watch_view e)) (snd (watch_view e))) (d, n)) =
  negb (bool_decide (watch_view e = watch_view (abs (clock n) d !! k))).
Proof.
  intros Hwf Hst Hl. pose proof (get_llen_view d n k Hwf Hst Hl) as Hg.
  unfold key_modified, mbind, state_bind. cbn [key existed string_value list_size].
  destruct (locked (get k) (d, n)) as [val s]. destruct Hg as [-> Hn].
  set (now := watch_view (abs (clock n) d !! k)) in *.
  assert ((∃ v, now = (Some v, (-1)%Z)) ∨ ∃ z, now = (None, z) ∧ (0 ≤ z)%Z) as Hnow.
  { unfold now. destruct (abs (clock n) d !! k) as [[[v|l] dl]|]; simpl; [left; eauto|right; eexists; split; [done|lia]..]. }
  assert ((∃ v, watch_view e = (Some v, (-1)%Z)) ∨ ∃ z, watch_view e = (None, z) ∧ (0 ≤ z)%Z) as Hold.
  { destruct e as [[[v|l] dl]|]; simpl; [left; eauto|right; eexists; split; [done|lia]..]. }
  destruct Hold as [[v ->]|(z & -> & Hz)]; cbn [fst snd].
  - unfold mret, state_ret. cbn [fst]. f_equal. apply bool_decide_ext.
    destruct Hnow as [[v' ->]|(z & -> & Hz)]; simpl; naive_solver.
  - rewrite (proj2 (Z.leb_le _ _)) by done. destruct (locked (llen k) s) as [x s']. cbn [fst] in *. subst x.
    unfold mret, state_ret. cbn [fst]. f_equal. apply eq_bool_prop_intro. rewrite bool_decide_spec.
    destruct Hnow as [[v' ->]|(z' & -> & Hz')]; cbn [snd].
    + destruct (Z.eqb_spec (-1) z); simpl; [lia|]. split; [done|]. naive_solver.
    + destruct (Z.eqb_spec z' z); simpl; naive_solver.
Qed.

(** *** A change under concurrent expiry *)

(** Only time has passed: readings of the clock, and expired keys are gone. *)
Definition aged (s s' : Database * nat) : Prop := snd s ≤ snd s' ∧ purged (clock (snd s')) (fst s) (fst s').

Lemma aged_refl s : aged s s.
Proof. split; [done|apply purged_refl]. Qed.

Lemma aged_trans s1 s2 s3 : aged s1 s2 → aged s2 s3 → aged s1 s3.
Proof.
  intros [N1 P1] [N2 P2]. split; [lia|]. eapply purged_trans; [|done]. eapply purged_mono; [|done]. by apply clock_mono.
Qed.

(** The entry of a key at a later reading, whatever was purged meanwhile. *)
Lemma aged_abs s s' m k : aged s s' → snd s' ≤ m → abs (clock m) (fst s') !! k = abs (clock m) (fst s) !! k.
Proof. intros [_ Hp] Hm. by rewrite (abs_purged (clock (snd s')) (clock m) _ _ (clock_mono _ _ Hm) Hp). Qed.

(** A store as a check needs it. *)
Definition sound (s : Database * nat) : Prop := inv s ∧ lists_small (fst s).

Lemma aged_sound s s' : aged s s' → sound s → sound s'.
Proof.
  destruct s as [d n], s' as [d' n']. intros [Hn Hp] [Hi Hl]. split; [by eapply inv_purged|by eapply lists_small_purged].
Qed.

(** How a watched key looks at a reading of the clock. *)
Definition seen (s : Database * nat) (k : bytes) (m : nat) : option bytes * Z := watch_view (abs (clock m) (fst s) !! k).

Lemma aged_seen s s' m k : aged s s' → snd s' ≤ m → seen s' k m = seen s k m.
Proof. intros Ha Hm. unfold seen. by rewrite (aged_abs s s'). Qed.

Lemma locked_get_seen s k :
  sound s → ∃ m s', locked (get k) s = (fst (seen s k m), s') ∧ snd s ≤ m ≤ snd s' ∧ aged s s'.
Proof.
  destruct s as [d n]. intros [Hw Hl]. destruct (locked_run (get k) d n) as (d1 & n1 & E & Hn & Hp).
  assert (aged (d, n) (d1, n1)) as Ha by (split; [simpl; lia|done]).
  exists n1, (purge d1 (clock n1) k, tick d1 k n1). pose proof (tick_le d1 k n1). split_and!.
  - rewrite E, <- (aged_seen _ _ n1 k Ha) by done. pose proof (get_view d1 n1 k (wf_purged _ _ _ Hp (proj1 Hw))) as Hv.
    rewrite get_run in *. unfold seen. cbn [fst] in *. by rewrite <- Hv.
  - simpl. lia.
  - done.
  - eapply aged_trans; [done|]. split; [done|apply purged_tick].
Qed.

Lemma locked_llen_seen s k :
  sound s → ∃ m s', locked (llen k) s = (snd (seen s k m), s') ∧ snd s ≤ m ≤ snd s' ∧ aged s s'.
Proof.
  destruct s as [d n]. intros [Hw Hl]. destruct (locked_run (llen k) d n) as (d1 & n1 & E & Hn & Hp).
  assert (aged (d, n) (d1, n1)) as Ha by (split; [simpl; lia|done]).
  exists n1, (purge d1 (clock n1) k, tick d1 k n1). pose proof (tick_le d1 k n1). split_and!.
  - rewrite E, <- (aged_seen _ _ n1 k Ha) by done.
    pose proof (llen_view d1 n1 k (wf_purged _ _ _ Hp (proj1 Hw)) (lists_small_purged _ _ _ Hp Hl)) as Hv.
    rewrite llen_run in *. unfold seen. cbn [fst] in *. by rewrite <- Hv.
  - simpl. lia.
  - done.
  - eapply aged_trans; [done|]. split; [done|apply purged_tick].
Qed.

(** The snapshot of a key that looks like [v] all the while. *)
Definition snapshot (k : bytes) (v : option bytes * Z) : WatchedKeySnapshot := mkWatched k true (fst v) (snd v).

Lemma seen_shape s k m : (∃ v, seen s k m = (Some v, (-1)%Z)) ∨ ∃ z, seen s k m = (None, z) ∧ (0 ≤ z)%Z.
Proof.
  unfold seen. destruct (abs (clock m) (fst s) !! k) as [[[v|l] dl]|]; simpl; [left; eauto|right; eexists; split; [done|lia]..].
Qed.

Lemma watch_key_seen s k :
  sound s → ∃ snap s', watch_key k s = (snap, s') ∧ aged s s' ∧
    ∀ v, (∀ m, snd s ≤ m ≤ snd s' → seen s k m = v) → snap = snapshot k v.
Proof.
  intros Hs. unfold watch_key, mbind, state_bind. destruct (locked_get_seen s k Hs) as (m & s1 & -> & Hm & Ha).
  destruct (fst (seen s k m)) as [x|] eqn:E.
  - eexists _, s1. split; [done|]. split; [done|]. intros v Hv. rewrite <- (Hv m Hm).
    destruct (seen_shape s k m) as [[y Hy]|(z & Hy & _)]; rewrite Hy in *; simplify_eq/=. done.
  - destruct (locked_llen_seen s1 k (aged_sound _ _ Ha Hs)) as (m2 & s2 & -> & Hm2 & Ha2).
    eexists _, s2. split; [done|]. split; [by eapply aged_trans|]. intros v Hv.
    pose proof (proj1 Ha2). pose proof (proj1 Ha). rewrite (aged_seen _ _ _ _ Ha) by lia.
    rewrite (Hv m) in E by lia. destruct (seen_shape s k m) as [[y Hy]|(z & Hy & Hz)]; rewrite (Hv m) in Hy by lia; subst v; [done|].
    rewrite (Hv m2) by lia. cbn [fst snd]. by rewrite (proj2 (Z.leb_le _ _)) by done.
Qed.

(** The check of one snapshot finds a key that looks different all the while. *)
Lemma key_modified_seen s snap :
  sound s → ∃ b s', key_modified snap s = (b, s') ∧ aged s s' ∧
    ∀ k v, snap = snapshot k v → (∃ s0 m0, v = seen s0 k m0) → (∀ m, snd s ≤ m ≤ snd s' → seen s k m ≠ v) → b = true.
Proof.
  intros Hs. unfold key_modified, mbind, state_bind.
  destruct (locked_get_seen s (key snap) Hs) as (m & s1 & -> & Hm & Ha).
  destruct (locked_llen_seen s1 (key snap) (aged_sound _ _ Ha Hs)) as (m2 & s2 & E2 & Hm2 & Ha2).
  pose proof (proj1 Ha). pose proof (proj1 Ha2). pose proof (aged_trans _ _ _ Ha Ha2) as Ha'.
  destruct (existed snap) eqn:Ee; [destruct (string_value snap) as [old|] eqn:Es; [|destruct (0 <=? list_size snap)%Z eqn:El]|].
  - eexists _, s1. split; [done|]. split; [done|]. intros k v -> (s0 & m0 & ->) Hne. cbn [snapshot string_value key] in *.
    apply negb_true_iff, bool_decide_eq_false. intros E. apply (Hne m Hm).
    destruct (seen_shape s k m) as [[x Hx]|(z & Hx & _)], (seen_shape s0 k m0) as [[y Hy]|(u & Hy & _)];
      rewrite Hx, Hy in *; simplify_eq/=; done.
  - rewrite E2. eexists _, s2. split; [done|]. split; [done|]. intros k v -> (s0 & m0 & ->) Hne. cbn [snapshot string_value list_size key] in *.
    apply negb_true_iff, Z.eqb_neq. intros E. apply (Hne m2); [lia|]. rewrite (aged_seen _ _ _ _ Ha) in E by lia.
    apply Z.leb_le in El. destruct (seen_shape s k m2) as [[x Hx]|(z & Hx & _)], (seen_shape s0 k m0) as [[y Hy]|(u & Hy & _)];
      rewrite Hx, Hy in *; simplify_eq/=; [lia|done].
  - eexists _, s1. split; [done|]. split; [done|]. intros k v -> (s0 & m0 & ->) _. cbn [snapshot string_value list_size key] in *.
    apply Z.leb_gt in El. destruct (seen_shape s0 k m0) as [[y Hy]|(u & Hy & Hu)]; rewrite Hy in *; simplify_eq/=. lia.
  - destruct (fst (seen s (key snap) m)); [|rewrite E2]; eexists _, _; (split; [done|]); (split; [done|]);
      intros k v -> _ _; cbn [snapshot existed] in Ee; done.
Qed.

(** The loop over the snapshots. *)
Lemma watched_keys_modified_seen snaps s :
  sound s → ∃ b s', watched_keys_modified snaps s = (b, s') ∧ aged s s' ∧
    ∀ k v, snapshot k v ∈ snaps → (∃ s0 m0, v = seen s0 k m0) → (∀ m, snd s ≤ m ≤ snd s' → seen s k m ≠ v) → b = true.
Proof.
  revert s. induction snaps as [|snap snaps IH]; intros s Hs.
  - exists false, s. split; [done|]. split; [apply aged_refl|]. set_solver.
  - cbn [watched_keys_modified]. unfold mbind, state_bind.
    destruct (key_modified_seen s snap Hs) as (b & s1 & -> & Ha & Hb). destruct b; [by exists true, s1|].
    destruct (IH s1 (aged_sound _ _ Ha Hs)) as (b & s2 & -> & Ha2 & Hb2). exists b, s2. split; [done|].
    split; [by eapply aged_trans|]. intros k v [<-|Hin]%elem_of_cons Hv Hne; pose proof (proj1 Ha); pose proof (proj1 Ha2).
    + discriminate (Hb k v eq_refl Hv ltac:(intros m Hm; apply Hne; lia)).
    + apply (Hb2 k v Hin Hv). intros m Hm. rewrite (aged_seen _ _ _ _ Ha) by lia. apply Hne. lia.
Qed.

End Watch.

(** ** Transactions *)

Section Transactions.
Context {Net : Type} `{SocketApi Net} `{SteadyClock} `{HashOrder} `{Environ}.
Context (client_fd_ : Z) (server_ : option (Z * nat)).
Implicit Types (w : World Net) (h : CommandHandler) (c : Command).

(** A client's commands, one after the other, on one handler. *)
Definition execute_one (replies : list bytes) (c : Command) : HM (list bytes) :=
  r ← execute client_fd_ server_ c; mret (replies ++ [r]).
Definition execute_all (cmds : list Command) : HM (list bytes) := foldM execute_one [] cmds.

Definition world_ok (w : World Net) : Prop := inv (dbs w) ∧ ps_wf (w_pubsub w).

(** The reply of EXEC: the results as a numbered list. *)
Definition exec_reply (results : list bytes) : bytes :=
  match results with
  | [] => $"(empty list)"
  | _ => join_lines (imap (λ i r, to_string (Z.of_nat (S i)) ++ $") " ++ r) results)
  end.

(** Commands executed directly, one after the other, each in the world the one
    before it left. *)
Fixpoint each_in_turn (cmds : list Command) w : list bytes * World Net :=
  match cmds with
  | [] => ([], w)
  | c :: cmds =>
      let '(r, w1) := execute_single client_fd_ server_ c w in
      let '(rs, w2) := each_in_turn cmds w1 in (r :: rs, w2)
  end.

Lemma run_queue_in_turn cmds acc w :
  foldM (run_one client_fd_ server_) acc cmds w = (let '(rs, w') := each_in_turn cmds w in (acc ++ rs, w')).
Proof.
  revert acc w. induction cmds as [|c cmds IH]; intros acc w; [rewrite foldM_nil; cbn; by rewrite app_nil_r|].
  rewrite foldM_cons. unfold run_one at 1, mbind, state_bind, mret, state_ret. cbn [each_in_turn].
  destruct (execute_single _ _ c w) as [r w1]. rewrite IH. destruct (each_in_turn cmds w1). by rewrite <- app_assoc.
Qed.

Lemma execute_one_run replies c s :
  execute_one replies c s = (let '(r, s') := execute client_fd_ server_ c s in (replies ++ [r], s')).
Proof. unfold execute_one, mbind, state_bind. by destruct (execute _ _ _ _). Qed.

Lemma queueable_names c :
  queueable c →
  bytes_eqb (name c) ($"MULTI") = false ∧ bytes_eqb (name c) ($"EXEC") = false ∧
  bytes_eqb (name c) ($"DISCARD") = false ∧ bytes_eqb (name c) ($"WATCH") = false.
Proof. unfold queueable. intros Hq. rewrite !bytes_eqb_neq. set_solver. Qed.

(** While a transaction is open, commands are only queued. *)
Lemma queue_fold cmds acc q wk dirty snaps w :
  in_subscription_mode client_fd_ w = false → Forall queueable cmds →
  foldM execute_one acc cmds
    (mkHandler true q wk dirty snaps, w) =
  (acc ++ replicate (length cmds) ($"QUEUED"), (mkHandler true (q ++ cmds) wk dirty snaps, w)).
Proof.
  intros Hw Hc. revert acc q. induction Hc as [|c cmds Hq _ IH]; intros acc q; [by rewrite !app_nil_r|].
  rewrite foldM_cons, execute_one_run. unfold execute at 1. rewrite Hw. cbn [andb].
  destruct (queueable_names c Hq) as (-> & -> & -> & ->). cbn [in_multi_].
  unfold set_self, mbind, state_bind, mret, state_ret. cbn beta iota zeta.
  cbn [tx_queue_ watched_keys_ watch_dirty_ watch_snapshots_].
  rewrite IH. by rewrite <- !app_assoc.
Qed.

Lemma run_queue_length cmds w : length (fst (run_queue client_fd_ server_ cmds w)) = length cmds.
Proof.
  unfold run_queue. cut (∀ acc w, length (fst (foldM (run_one client_fd_ server_) acc cmds w)) =
    length acc + length cmds); [intros Hcut; apply Hcut|].
  induction cmds as [|c cmds IH]; intros acc w0; [rewrite foldM_nil; simpl; lia|].
  rewrite foldM_cons. unfold run_one at 1, mbind, state_bind, mret, state_ret. destruct (execute_single _ _ c w0) as [r w1].
  cbn beta iota. rewrite IH, length_app. simpl. lia.
Qed.

(** The handler after MULTI. *)
Lemma multi_run h w :
  in_subscription_mode client_fd_ w = false → in_multi_ h = false →
  execute client_fd_ server_ (plain_command ($"MULTI")) (h, w) =
  ($"OK", (mkHandler true [] (watched_keys_ h) (watch_dirty_ h) (watch_snapshots_ h), w)).
Proof.
  intros Hw Hm. unfold execute. rewrite Hw. cbn [andb name plain_command].
  change (bytes_eqb ($"MULTI") ($"MULTI")) with true. cbn iota.
  unfold handle_multi, self, set_self, mbind, state_bind. cbn beta iota zeta. by rewrite Hm.
Qed.

Lemma exec_run q w :
  in_subscription_mode client_fd_ w = false →
  execute client_fd_ server_ (plain_command ($"EXEC")) (mkHandler true q [] false [], w) =
  (let '(results, w') := run_queue client_fd_ server_ q w in (exec_reply results, (new_handler, w'))).
Proof.
  intros Hw. unfold execute. rewrite Hw. cbn [andb name plain_command].
  change (bytes_eqb ($"EXEC") ($"MULTI")) with false. change (bytes_eqb ($"EXEC") ($"EXEC")) with true. cbn iota.
  unfold handle_exec, self, set_self, mbind, state_bind, mret, state_ret, on_world. cbn beta iota zeta.
  cbn [in_multi_ negb watched_keys_ tx_queue_].
  pose proof (run_queue_length q w) as Hl. destruct (run_queue _ _ q w) as [rs w']. cbn [fst] in Hl.
  unfold exec_reply. by destruct q, rs.
Qed.

Lemma discard_run q wk dirty snaps w :
  in_subscription_mode client_fd_ w = false →
  execute client_fd_ server_ (plain_command ($"DISCARD")) (mkHandler true q wk dirty snaps, w) =
  ($"OK", (mkHandler false [] wk dirty snaps, w)).
Proof.
  intros Hw. unfold execute. rewrite Hw. cbn [andb name plain_command].
  change (bytes_eqb ($"DISCARD") ($"MULTI")) with false.
  change (bytes_eqb ($"DISCARD") ($"EXEC")) with false.
  change (bytes_eqb ($"DISCARD") ($"DISCARD")) with true. cbn iota.
  unfold handle_discard, self, set_self, mbind, state_bind. done.
Qed.

(** C14: every command keeps the server's state consistent.  Whatever the
    command, its arguments and the handler's state, the database evolves by a
    run of the store's machine (so its refinement theorem applies), its
    invariant and the pub/sub invariant are kept, no other client is
    subscribed to anything, and no socket is opened or closed. *)
Theorem command_invariant c h w :
  world_ok w →
  let w' := snd (snd (execute client_fd_ server_ c (h, w))) in
  world_ok w' ∧ (∃ ls, crun (dbs w) ls (dbs w')) ∧
  (∀ fd, fd ≠ client_fd_ → chans (w_pubsub w') fd ⊆ chans (w_pubsub w) fd) ∧
  open_fds (w_net w') = open_fds (w_net w).
Proof.
  intros [Hi Hp] w'. destruct (execute_safe client_fd_ server_ c h w) as [[ls Hls] Hps Hch Ho].
  split_and!; [split; [by apply (crun_inv _ _ _ Hls)|auto]|by exists ls|auto|done].
Qed.

(** The clock does not go back. *)
Lemma run_queue_clock cmds w : inv (dbs w) → w_clock w ≤ w_clock (snd (run_queue client_fd_ server_ cmds w)).
Proof.
  unfold run_queue. generalize (@nil bytes). revert w. induction cmds as [|c cmds IH]; intros w acc Hi; [by rewrite foldM_nil|].
  rewrite foldM_cons. unfold run_one at 1, mbind, state_bind, mret, state_ret.
  destruct (execute_single_safe client_fd_ server_ c w) as [[ls Hls] _ _ _]. destruct (execute_single _ _ c w) as [r w1].
  cbn [snd] in Hls. destruct (crun_inv _ _ _ Hls Hi) as [Hi1 Hn]. etransitivity; [exact Hn|by apply IH].
Qed.

(** A transaction from MULTI to EXEC. *)
Lemma transaction_exec_run cmds w :
  in_subscription_mode client_fd_ w = false → Forall queueable cmds →
  execute_all (plain_command ($"MULTI") :: cmds ++ [plain_command ($"EXEC")]) (new_handler, w) =
  (let '(results, w') := run_queue client_fd_ server_ cmds w in
   ($"OK" :: replicate (length cmds) ($"QUEUED") ++ [exec_reply results], (new_handler, w'))).
Proof.
  intros Hw Hc. unfold execute_all. rewrite foldM_cons, execute_one_run.
  rewrite multi_run by done. cbn beta iota.
  rewrite foldM_app. cbn [new_handler watched_keys_ watch_dirty_ watch_snapshots_].
  rewrite queue_fold by done. cbn [app]. rewrite foldM_cons, execute_one_run.
  rewrite exec_run by done. by destruct (run_queue _ _ cmds w).
Qed.

(** C18: MULTI, commands, EXEC.  In a transaction of a client that is not
    subscribed and watches nothing, each command (other than MULTI, EXEC,
    DISCARD and WATCH) is answered QUEUED and has no effect; EXEC then does to
    the world exactly what the queued commands do when they are executed
    directly, one after the other in the order given, replies with the
    numbered list of their results, and leaves the handler as new. *)
Theorem transaction_exec cmds w :
  in_subscription_mode client_fd_ w = false → Forall queueable cmds →
  execute_all (plain_command ($"MULTI") :: cmds ++ [plain_command ($"EXEC")]) (new_handler, w) =
  (let '(results, w') := each_in_turn cmds w in
   ($"OK" :: replicate (length cmds) ($"QUEUED") ++ [exec_reply results], (new_handler, w'))).
Proof.
  intros Hw Hc. rewrite transaction_exec_run by done. unfold run_queue. rewrite run_queue_in_turn.
  by destruct (each_in_turn cmds w).
Qed.

(** MULTI, commands, DISCARD has no effect: the world is unchanged and the
    queued commands are forgotten; watches are kept. *)
Theorem transaction_discard cmds h w :
  in_subscription_mode client_fd_ w = false → in_multi_ h = false → Forall queueable cmds →
  execute_all (plain_command ($"MULTI") :: cmds ++ [plain_command ($"DISCARD")]) (h, w) =
  ($"OK" :: replicate (length cmds) ($"QUEUED") ++ [$"OK"],
   (mkHandler false [] (watched_keys_ h) (watch_dirty_ h) (watch_snapshots_ h), w)).
Proof.
  intros Hw Hm Hc. unfold execute_all. rewrite foldM_cons, execute_one_run.
  rewrite multi_run by done. cbn beta iota.
  rewrite foldM_app. rewrite queue_fold by done. cbn [app].
  rewrite foldM_cons, execute_one_run. by rewrite discard_run.
Qed.

(** In subscription mode every command other than SUBSCRIBE, UNSUBSCRIBE
    and PING is answered with an error and changes nothing: neither the
    world nor the handler. *)
Theorem subscription_guard c h w :
  chans (w_pubsub w) client_fd_ ≠ ∅ → name c ∉ [$"SUBSCRIBE"; $"UNSUBSCRIBE"; $"PING"] →
  ∃ r, execute client_fd_ server_ c (h, w) = (r, (h, w)) ∧ serialize_response r = error r.
Proof.
  intros Hs Hn. exists (subscription_error (name c)).
  assert (in_subscription_mode client_fd_ w = true) as Hm.
  { unfold in_subscription_mode. rewrite is_subscribed_chans. by rewrite bool_decide_eq_false_2. }
  assert (allowed_in_subscription (name c) = false) as Ha.
  { unfold allowed_in_subscription. rewrite !orb_false_iff, !bytes_eqb_neq. set_solver. }
  split; [unfold execute; by rewrite Hm, Ha|]. apply (serialize_error ($" Can't execute '" ++ _)).
Qed.

(** C32: a WATCHed key that changed is detected, up to list contents.  EXEC's
    check reports a key modified exactly when the key's view differs from
    the one at WATCH time, where the view is the string value, the length of
    the list, or length 0 for a missing key (no deadline of the key falling
    between the two clock readings of a check). *)
Theorem watch_detects_change k d n d' n' :
  wf d → stable d n k → lists_small d → wf d' → stable d' n' k → lists_small d' →
  fst (key_modified (fst (watch_key k (d, n))) (d', n')) =
  negb (bool_decide (watch_view (abs (clock n) d !! k) = watch_view (abs (clock n') d' !! k))).
Proof. intros. rewrite watch_key_run by done. by rewrite key_modified_run. Qed.

(** WATCH takes a snapshot of every key it names. *)
Lemma watch_fold_seen ks h w :
  sound (dbs w) →
  ∃ snaps w', foldM watch_one tt ks (h, w) =
      (tt, (mkHandler (in_multi_ h) (tx_queue_ h) (watched_keys_ h ++ ks) (watch_dirty_ h) (watch_snapshots_ h ++ snaps), w')) ∧
    aged (dbs w) (dbs w') ∧ w_pubsub w' = w_pubsub w ∧
    ∀ k v, k ∈ ks → (∀ m, w_clock w ≤ m ≤ w_clock w' → seen (dbs w) k m = v) → snapshot k v ∈ snaps.
Proof.
  revert h w. induction ks as [|k ks IH]; intros h w Hs.
  - exists [], w. rewrite !app_nil_r. split; [by destruct h|]. split; [apply aged_refl|]. split; [done|set_solver].
  - rewrite foldM_cons. unfold watch_one at 1, on_world, self, set_self, mbind, state_bind, db. cbn beta iota zeta.
    destruct (watch_key_seen (dbs w) k Hs) as (snap & [d n] & E & Ha & Hsnap). unfold dbs in E. rewrite E. cbn beta iota zeta.
    set (w1 := mkWorld d _ n _ _). destruct (IH (mkHandler (in_multi_ h) (tx_queue_ h) (watched_keys_ h ++ [k])
      (watch_dirty_ h) (watch_snapshots_ h ++ [snap])) w1 (aged_sound _ _ Ha Hs)) as (snaps & w2 & -> & Ha2 & Hp & Hin).
    exists (snap :: snaps), w2. cbn [in_multi_ tx_queue_ watched_keys_ watch_dirty_ watch_snapshots_]. rewrite <- !app_assoc.
    assert (w_clock w ≤ n ∧ n ≤ w_clock w2) as [N1 N2] by (split; [exact (proj1 Ha)|exact (proj1 Ha2)]).
    split; [done|]. split; [by eapply aged_trans|]. split; [done|]. intros x v [->|Hx]%elem_of_cons Hv.
    + rewrite (Hsnap v); [left|]. intros m Hm. change (w_clock w ≤ m ≤ n) in Hm. apply Hv. lia.
    + right. apply (Hin x v Hx). intros m Hm. change (w_clock w1) with n in Hm. change (dbs w1) with (d, n).
      rewrite (aged_seen _ _ _ _ Ha) by (simpl; lia). apply Hv. lia.
Qed.

Lemma watch_run k ks w :
  in_subscription_mode client_fd_ w = false →
  execute client_fd_ server_ (mkCommand $"WATCH" (k :: ks)) (new_handler, w) =
  (foldM watch_one tt (k :: ks);; mret ($"OK")) (new_handler, w).
Proof. intros Hw. unfold execute. by rewrite Hw. Qed.

(** EXEC with watched keys. *)
Lemma exec_watched h w :
  in_subscription_mode client_fd_ w = false → in_multi_ h = true → watched_keys_ h ≠ [] → sound (dbs w) →
  ∃ b s', watched_keys_modified (watch_snapshots_ h) (dbs w) = (b, s') ∧ aged (dbs w) s' ∧
    execute client_fd_ server_ (plain_command ($"EXEC")) (h, w) =
    (let w1 := mkWorld (fst s') (w_files w) (snd s') (w_pubsub w) (w_net w) in
     if b : bool then (nil_reply, (new_handler, w1))
     else let '(rs, w') := run_queue client_fd_ server_ (tx_queue_ h) w1 in (exec_reply rs, (new_handler, w'))).
Proof.
  intros Hw Hm Hk Hs. destruct (watched_keys_modified_seen (watch_snapshots_ h) (dbs w) Hs) as (b & [d n] & E & Ha & _).
  exists b, (d, n). split; [done|]. split; [done|]. unfold execute. rewrite Hw. cbn [andb name plain_command].
  change (bytes_eqb ($"EXEC") ($"MULTI")) with false. change (bytes_eqb ($"EXEC") ($"EXEC")) with true. cbn iota.
  unfold handle_exec, self, set_self, mbind, state_bind, mret, state_ret, on_world. cbn beta iota zeta.
  rewrite Hm. cbn [negb]. destruct (watched_keys_ h) as [|x l]; [done|]. unfold db. fold (dbs w). rewrite E. cbn [fst snd].
  destruct b; [done|]. pose proof (run_queue_length (tx_queue_ h) (mkWorld d (w_files w) n (w_pubsub w) (w_net w))) as Hl.
  destruct (run_queue _ _ _ _) as [rs w']. cbn [fst] in Hl. unfold exec_reply. by destruct (tx_queue_ h), rs.
Qed.

(** C33: a transaction whose watched keys changed is aborted.  A client that is
    not subscribed sends WATCH, and some time later, in whatever world the
    other clients have left by then, MULTI, commands and EXEC.  If one of the
    watched keys looked the same all through WATCH (string value, length of
    the list, or nothing) and looks different from that all through the
    transaction, then EXEC answers nil and runs none of the commands: pub/sub,
    network and files are untouched, the database has lost expired keys at
    most, and the handler is as new. *)
Theorem exec_aborts k ks x cmds v w0 w :
  in_subscription_mode client_fd_ w0 = false → in_subscription_mode client_fd_ w = false → Forall queueable cmds →
  sound (dbs w0) → sound (dbs w) → x ∈ k :: ks →
  let '(_, (h, w0')) := execute client_fd_ server_ (mkCommand $"WATCH" (k :: ks)) (new_handler, w0) in
  let '(rs, (h', w')) := execute_all (plain_command ($"MULTI") :: cmds ++ [plain_command ($"EXEC")]) (h, w) in
  (∀ m, w_clock w0 ≤ m ≤ w_clock w0' → seen (dbs w0) x m = v) →
  (∀ m, w_clock w ≤ m ≤ w_clock w' → seen (dbs w) x m ≠ v) →
  rs = $"OK" :: replicate (length cmds) ($"QUEUED") ++ [nil_reply] ∧ h' = new_handler ∧
  w_pubsub w' = w_pubsub w ∧ w_net w' = w_net w ∧ w_files w' = w_files w ∧
  w_clock w ≤ w_clock w' ∧ purged (clock (w_clock w')) (w_db w) (w_db w').
Proof.
  intros Hw0 Hw Hc S0 Hs Hx. rewrite watch_run by done. unfold mbind, state_bind.
  destruct (watch_fold_seen (k :: ks) new_handler w0 S0) as (snaps & w0' & -> & Ha0 & _ & Hsn). cbn [new_handler in_multi_
    tx_queue_ watched_keys_ watch_dirty_ watch_snapshots_ app mret state_ret].
  unfold execute_all. rewrite foldM_cons, execute_one_run, multi_run by done. cbn beta iota.
  rewrite foldM_app, queue_fold by done. cbn [app watched_keys_ watch_dirty_ watch_snapshots_].
  rewrite foldM_cons, execute_one_run.
  destruct (exec_watched (mkHandler true cmds (k :: ks) false snaps) w Hw eq_refl ltac:(done) Hs) as (b & s' & E & Ha & ->).
  cbn [watch_snapshots_ tx_queue_] in *. destruct (watched_keys_modified_seen snaps (dbs w) Hs) as (b' & s'' & E' & _ & Hmod).
  rewrite E in E'. injection E' as <- <-. set (w1 := mkWorld _ _ _ _ _).
  assert (∀ w', snd s' ≤ w_clock w' → (∀ m, w_clock w0 ≤ m ≤ w_clock w0' → seen (dbs w0) x m = v) →
    (∀ m, w_clock w ≤ m ≤ w_clock w' → seen (dbs w) x m ≠ v) → b = true) as Hb.
  { intros w' Hle Hv Hne. pose proof (proj1 Ha0) as N0. apply (Hmod x v (Hsn x v Hx Hv)).
    - exists (dbs w0), (w_clock w0). symmetry. by apply Hv.
    - intros m Hm. apply Hne. unfold dbs in Hm. cbn [snd] in Hm. lia. }
  destruct b; cbv zeta.
  - rewrite foldM_nil. intros _ _. destruct Ha as [Hn Hp]. by split_and!.
  - pose proof (run_queue_clock cmds w1 (proj1 (aged_sound _ (dbs w1) Ha Hs))) as Hq. destruct (run_queue _ _ cmds w1) as [rs w']. rewrite foldM_nil. intros Hv Hne. discriminate (Hb w' Hq Hv Hne).
Qed.

End Transactions.

(** ** Replies on the wire *)

Lemma numbered_list_cons x l :
  numbered_list (x :: l) = $"1) " ++ DQUOTE ::
    (x ++ [DQUOTE] ++ match l with [] => [] | _ => LF :: join_lines (imap (λ i e, list_line (S (S i)) e) l) end).
Proof.
  unfold numbered_list. cbn [imap]. destruct l as [|y l].
  - cbn [imap join_lines]. unfold list_line. by rewrite app_nil_r.
  - set (rest := imap _ _). assert (join_lines (list_line 1 x :: rest) = list_line 1 x ++ LF :: join_lines rest) as E
      by done. unfold compose in *. fold rest. rewrite E. unfold list_line at 1.
    change (to_string (Z.of_nat 1)) with ($"1"). rewrite <- !app_assoc.
    change ((DQUOTE :: x ++ [DQUOTE]) ++ ?r) with (DQUOTE :: (x ++ [DQUOTE]) ++ r). by rewrite <- app_assoc.
Qed.

Lemma numbered_lines_no_LF l :
  Forall (Forall (λ c, c ≠ LF)) l →
  ∀ j, Forall (λ s, Forall (λ c, c ≠ LF) s ∧ s ≠ []) (imap (λ i e, list_line (j + i) e) l).
Proof.
  induction 1 as [|x l Hx _ IH]; intros j; cbn [imap]; [constructor|].
  constructor; [by apply list_line_no_LF|]. unfold compose.
  rewrite (imap_ext _ (λ i e, list_line (S j + i) e)); [apply IH|]. intros i e _. f_equal. lia.
Qed.

Lemma serialize_lines rec l j :
  map (serialize_line rec) (imap (λ i e, list_line (j + i) e) l) = map bulk_string l.
Proof.
  revert j. induction l as [|x l IH]; intros j; cbn [imap map]; [done|]. rewrite serialize_line_list. f_equal.
  unfold compose. rewrite (imap_ext _ (λ i e, list_line (S j + i) e)); [apply IH|].
  intros i e _. f_equal. lia.
Qed.

(** The text of a list reply is serialized as an array of bulk strings. *)
Lemma numbered_list_wire l :
  Forall (Forall (λ c, c ≠ LF)) l → serialize_response (numbered_list l) = array (map bulk_string l).
Proof.
  intros Hl. destruct l as [|x l]; [by vm_compute|].
  rewrite numbered_list_cons, serialize_array_reply, <- numbered_list_cons. f_equal.
  change (numbered_list (x :: l)) with (join_lines (imap (λ i e, list_line (1 + i) e) (x :: l))).
  rewrite getlines_join by by apply numbered_lines_no_LF. apply serialize_lines.
Qed.

Section Wire.
Context {Net : Type} `{SocketApi Net} `{SteadyClock} `{HashOrder} `{Environ}.
Context (client_fd_ : Z) (server_ : option (Z * nat)).
Implicit Types (w : World Net) (k v : bytes).

(** SET then GET returns the value on the wire.  For any key and value,
    arbitrary bytes included (quotes, CR, LF, NUL), the two replies
    serialize to +OK and to the bulk string of exactly the value, whatever
    the key held before. *)
Theorem set_get_wire k v w :
  in_subscription_mode client_fd_ w = false →
  ∃ r1 r2 w', execute_all client_fd_ server_ [mkCommand ($"SET") [k; v]; mkCommand ($"GET") [k]]
      (new_handler, w) = ([r1; r2], (new_handler, w')) ∧
    serialize_response r1 = simple_string ($"OK") ∧ serialize_response r2 = bulk_string v.
Proof.
  intros Hw. exists ($"OK"), (quoted v).
  cut (∃ w', execute_all client_fd_ server_ [mkCommand ($"SET") [k; v]; mkCommand ($"GET") [k]] (new_handler, w) =
    ([$"OK"; quoted v], (new_handler, w'))).
  { intros [w' E]. exists w'. split; [done|]. split; [by vm_compute|apply serialize_quoted]. }
  unfold execute_all. rewrite foldM_cons, execute_one_run.
  assert (∀ c w0, in_subscription_mode client_fd_ w0 = false → queueable c →
    execute client_fd_ server_ c (new_handler, w0) =
    (let '(r, w1) := execute_single client_fd_ server_ c w0 in (r, (new_handler, w1)))) as He.
  { intros c w0 Hw0 Hc. unfold execute. rewrite Hw0. cbn [andb].
    by destruct (queueable_names c Hc) as (-> & -> & -> & ->). }
  rewrite He by (done || (unfold queueable; simpl; set_solver)).
  change (execute_single client_fd_ server_ (mkCommand ($"SET") [k; v])) with
    (handle_set (Net := Net) (mkCommand ($"SET") [k; v])).
  unfold handle_set, mbind, state_bind. cbn [args]. unfold call at 1, db at 1.
  destruct (locked_run (set k v) (w_db w) (w_clock w)) as (d1 & n1 & -> & _ & _). rewrite set_run.
  unfold mret, state_ret. cbn beta iota. rewrite foldM_cons, execute_one_run, He by (done || (unfold queueable; simpl; set_solver)).
  change (execute_single client_fd_ server_ (mkCommand ($"GET") [k])) with
    (handle_get (Net := Net) (mkCommand ($"GET") [k])).
  unfold handle_get, mbind, state_bind. cbn [args]. unfold call, db. cbn [w_db w_clock].
  destruct (locked_run (get k) (set_db k v d1) n1) as (d2 & n2 & -> & _ & Hp).
  destruct (purged_lasting _ _ _ k Hp (lookup_delete_eq _ _)) as (Hs & _ & He2).
  rewrite get_run. unfold due. rewrite He2, Hs. cbn [set_db store_]. rewrite lookup_insert_eq. by eexists.
Qed.

(** LRANGE on the wire.  The reply to LRANGE with integer indices
    serializes to the RESP array of the selected elements as bulk strings, of
    the list the key has when the lock is taken (and of no elements when it
    then has none), provided no element contains a line feed. *)
Theorem lrange_wire k a b start stop w :
  wf (w_db w) → stoi a = Some start → stoi b = Some stop →
  (∀ l, list_store_ (w_db w) !! k = Some l → Forall (Forall (λ c, c ≠ LF)) l) →
  ∃ m, w_clock w < m ∧
    serialize_response (fst (handle_lrange (mkCommand ($"LRANGE") [k; a; b]) w)) =
    array (map bulk_string (match abs (clock m) (w_db w) !! k with
                            | Some (VList l, _) => range_of l start stop
                            | _ => []
                            end)).
Proof.
  intros Hwf Ha Hb Hl. unfold handle_lrange. cbn [args]. rewrite Ha, Hb. unfold mbind, state_bind, call, db.
  destruct (locked_run (lrange k start stop) (w_db w) (w_clock w)) as (d & m & -> & Hm & Hp). exists m. split; [done|].
  rewrite <- (abs_purged (clock m) (clock m) (w_db w) d) by (done || lia). rewrite lrange_run. cbn [fst mret state_ret].
  assert (∀ l, list_store_ d !! k = Some l → Forall (Forall (λ c, c ≠ LF)) l) as Hl'.
  { intros l. destruct Hp as (ks & -> & _). destruct (erase_keys_lookup ks (w_db w) k) as (_ & -> & _).
    case_decide; [done|]. apply Hl. }
  destruct (abs_entry d (clock m) k (wf_purged _ _ _ Hp Hwf))
    as [[-> [->|(-> & Es & ->)]]|[(v & -> & -> & Es & ->)|(l & -> & -> & Es & El)]]; [by vm_compute..|].
  rewrite El. apply numbered_list_wire, range_of_Forall; auto.
Qed.

(** SET with an invalid EX time stores the value all the same: the client
    is told of an error, and the key has the new value and no deadline. *)
Theorem set_bad_expiry_stores k v opt ex seconds w :
  to_upper opt = $"EX" → stoi ex = Some seconds → (seconds ≤ 0)%Z →
  let '(r, w') := handle_set (mkCommand ($"SET") [k; v; opt; ex]) w in
  r = $"ERR invalid expire time in 'SET' command" ∧
  store_ (w_db w') !! k = Some v ∧ expiry_ (w_db w') !! k = None.
Proof.
  intros Ho Hs Hle. unfold handle_set, mbind, state_bind. cbn [args]. unfold call at 1, db at 1.
  destruct (locked_run (set k v) (w_db w) (w_clock w)) as (d1 & n1 & -> & _ & _). rewrite set_run.
  rewrite Ho, Hs. change (bytes_eqb ($"EX") ($"EX")) with true. cbn iota.
  rewrite (proj2 (Z.leb_le _ _)) by done. unfold mret, state_ret. cbn [w_db].
  split_and!; [done|apply lookup_insert_eq|apply lookup_delete_eq].
Qed.

End Wire.

(** ** Instances *)

#[global] Instance demo_env : Environ := {| env_scheduler := busy_scheduler; save_io := λ _, io_ok |}.

Definition demo_world : World DemoNet := mkWorld (demo_db 9000000000) ∅ 0 empty_pubsub demo_peer.

(** LRANGE loses the element boundaries when an element contains a line
    feed: a list of one element is sent as an array of two. *)
Theorem list_newline_splits :
  numbered_list [[ "a"%char; LF; "b"%char ]] = fst (@handle_lrange DemoNet demo_clock gmap_order demo_env
    (mkCommand ($"LRANGE") [$"l"; $"0"; $"-1"])
    (mkWorld (mkDb ∅ {[ $"l" := [[ "a"%char; LF; "b"%char ]] ]} ∅) ∅ 0 empty_pubsub demo_peer)) ∧
  serialize_response (numbered_list [[ "a"%char; LF; "b"%char ]]) =
  array [bulk_string [DQUOTE; "a"%char]; bulk_string [ "b"%char; DQUOTE ]].
Proof. split; by vm_compute. Qed.

(** WATCH does not notice a list whose contents change but whose length
    does not: after another client replaces an element, EXEC still runs the
    transaction. *)
Theorem watch_misses_list_change :
  let exec := @execute_all DemoNet demo_sockets demo_clock gmap_order demo_env 7 None in
  let '(_, (h, w)) := exec [mkCommand ($"WATCH") [$"l"]; plain_command ($"MULTI");
                            mkCommand ($"SET") [$"x"; $"1"]] (new_handler, demo_world) in
  let '(_, (_, w)) := exec [mkCommand ($"LPOP") [$"l"]; mkCommand ($"LPUSH") [$"l"; $"other"]] (new_handler, w) in
  fst (exec [plain_command ($"EXEC")] (h, w)) = [$"1) OK"] ∧
  list_store_ (w_db w) !! ($"l") = Some [$"other"; $"b"; $"c"] ∧
  list_store_ (w_db demo_world) !! ($"l") = Some [$"a"; $"b"; $"c"].
Proof. vm_compute. done. Qed.

Lemma demo_world_ok : @world_ok DemoNet demo_clock demo_world.
Proof.
  split; [split; [apply wf_demo_db|]|apply ps_wf_empty].
  intros k dl. simpl. intros [_ <-]%lookup_singleton_Some. unfold demo_time, INT_MAX, NS_PER_S. lia.
Qed.

Lemma command_invariant_witness :
  @world_ok DemoNet demo_clock
    (snd (snd (@execute DemoNet demo_sockets demo_clock gmap_order demo_env 7 None
      (mkCommand ($"DEL") [$"k"]) (new_handler, demo_world)))).
Proof.
  apply (@command_invariant DemoNet demo_sockets demo_clock gmap_order demo_env 7 None
    (mkCommand ($"DEL") [$"k"]) new_handler demo_world demo_world_ok).
Defined.

Lemma transaction_exec_witness :
  fst (@execute_all DemoNet demo_sockets demo_clock gmap_order demo_env 7 None
    [plain_command ($"MULTI"); mkCommand ($"SET") [$"a"; $"1"]; mkCommand ($"GET") [$"a"]; plain_command ($"EXEC")]
    (new_handler, demo_world)) =
  [$"OK"; $"QUEUED"; $"QUEUED"; $"1) OK" ++ LF :: $"2) " ++ DQUOTE :: $"1" ++ [DQUOTE]].
Proof.
  pose proof (@transaction_exec DemoNet demo_sockets demo_clock gmap_order demo_env 7 None
    [mkCommand ($"SET") [$"a"; $"1"]; mkCommand ($"GET") [$"a"]] demo_world eq_refl
    ltac:(apply (bool_decide_unpack _); reflexivity)) as E.
  apply (f_equal fst) in E. cbn [app] in E. rewrite E. vm_compute. reflexivity.
Defined.

Lemma transaction_discard_witness :
  @execute_all DemoNet demo_sockets demo_clock gmap_order demo_env 7 None
    [plain_command ($"MULTI"); mkCommand ($"FLUSHDB") []; plain_command ($"DISCARD")] (new_handler, demo_world) =
  ([$"OK"; $"QUEUED"; $"OK"], (new_handler, demo_world)).
Proof.
  apply (@transaction_discard DemoNet demo_sockets demo_clock gmap_order demo_env 7 None
    [mkCommand ($"FLUSHDB") []] new_handler demo_world eq_refl eq_refl).
  apply (bool_decide_unpack _). reflexivity.
Defined.

Lemma subscription_guard_witness :
  let w := mkWorld (demo_db 9000000000) ∅ 0 demo_pubsub demo_peer in
  ∃ r, @execute DemoNet demo_sockets demo_clock gmap_order demo_env 7 None
      (mkCommand ($"FLUSHDB") []) (new_handler, w) = (r, (new_handler, w)) ∧ serialize_response r = error r.
Proof.
  apply (@subscription_guard DemoNet demo_sockets demo_clock gmap_order demo_env 7 None
    (mkCommand ($"FLUSHDB") []) new_handler (mkWorld (demo_db 9000000000) ∅ 0 demo_pubsub demo_peer)).
  - intros E. apply (f_equal size) in E. vm_compute in E. discriminate E.
  - apply (bool_decide_unpack _). reflexivity.
Defined.

Lemma demo_lists_small t : lists_small (demo_db t).
Proof. intros k l. simpl. by intros [_ <-]%lookup_singleton_Some. Qed.

Lemma watch_detects_change_witness :
  fst (@key_modified demo_clock gmap_order demo_env
    (fst (@watch_key demo_clock gmap_order demo_env ($"k") (demo_db 9000000000, 0)))
    (set_db ($"k") ($"w") (demo_db 9000000000), 5)) = true.
Proof.
  rewrite (@watch_detects_change demo_clock gmap_order demo_env ($"k") (demo_db 9000000000) 0
    (set_db ($"k") ($"w") (demo_db 9000000000)) 5).
  - vm_compute. reflexivity.
  - apply wf_demo_db.
  - vm_compute. reflexivity.
  - apply demo_lists_small.
  - apply wf_set, wf_demo_db.
  - vm_compute. reflexivity.
  - intros k l. simpl. intros [_ Hl]%lookup_delete_Some. by apply (demo_lists_small 9000000000 k).
Defined.

Lemma exec_aborts_witness :
  let w := mkWorld (set_db ($"k") ($"w") (demo_db 9000000000)) ∅ 5 empty_pubsub demo_peer in
  let run cmds s := @execute_all DemoNet demo_sockets demo_clock gmap_order demo_env 7 None cmds s in
  let h := fst (snd (run [mkCommand ($"WATCH") [$"l"; $"k"]] (new_handler, demo_world))) in
  let '(rs, (h', w')) := run [plain_command ($"MULTI"); mkCommand ($"FLUSHDB") []; plain_command ($"EXEC")] (h, w) in
  rs = [$"OK"; $"QUEUED"; nil_reply] ∧ h' = new_handler ∧ w_net w' = w_net w.
Proof.
  intros w run h. pose proof (@exec_aborts DemoNet demo_sockets demo_clock gmap_order demo_env 7 None ($"l") [$"k"] ($"k")
    [mkCommand ($"FLUSHDB") []] (Some ($"v"), (-1)%Z) demo_world w eq_refl eq_refl
    ltac:(apply (bool_decide_unpack _); reflexivity)) as Hr.
  assert (@sound demo_clock (dbs demo_world)) as S0 by (split; [exact (proj1 demo_world_ok)|apply demo_lists_small]).
  assert (@sound demo_clock (dbs w)) as S1.
  { split; [split; [apply wf_set, wf_demo_db|]|]; intros k l; simpl.
    - intros [_ [_ <-]%lookup_singleton_Some]%lookup_delete_Some. unfold demo_time, INT_MAX, NS_PER_S. lia.
    - intros [_ Hl]%lookup_delete_Some. by apply (demo_lists_small 9000000000 k). }
  specialize (Hr S0 S1 ltac:(right; left)).
  destruct (run _ (h, w)) as [rs [h' w']] eqn:E.
  destruct (execute _ _ _ (new_handler, demo_world)) as [r0 [h0 w0']] eqn:E0.
  assert (Nat.leb (w_clock w0') 20 = true) as H20%Nat.leb_le.
  { change (w_clock w0') with (w_clock (snd (snd (r0, (h0, w0'))))). rewrite <- E0. vm_compute. reflexivity. }
  assert (Nat.leb (w_clock w') 40 = true) as H40%Nat.leb_le.
  { change (w_clock w') with (w_clock (snd (snd (rs, (h', w'))))). rewrite <- E. vm_compute. reflexivity. }
  assert (h0 = h) as -> by (unfold h, run, execute_all; rewrite foldM_cons, execute_one_run, E0; reflexivity).
  unfold run in E. cbn [app] in Hr. rewrite E in Hr.
  destruct Hr as (-> & -> & _ & -> & _); [| |split_and!; reflexivity].
  - intros m Hm. do 21 (destruct m as [|m]; [vm_compute; reflexivity|]). exfalso. lia.
  - intros m Hm. do 41 (destruct m as [|m]; [vm_compute; discriminate|]). exfalso. lia.
Defined.

Lemma set_get_wire_witness :
  ∃ r1 r2 w', @execute_all DemoNet demo_sockets demo_clock gmap_order demo_env 7 None
      [mkCommand ($"SET") [$"k"; [CR; LF]]; mkCommand ($"GET") [$"k"]] (new_handler, demo_world) =
      ([r1; r2], (new_handler, w')) ∧
    serialize_response r1 = simple_string ($"OK") ∧ serialize_response r2 = bulk_string [CR; LF].
Proof. apply (@set_get_wire DemoNet demo_sockets demo_clock gmap_order demo_env 7 None). reflexivity. Defined.

Lemma lrange_wire_witness :
  ∃ m, 0 < m ∧
    serialize_response (fst (@handle_lrange DemoNet demo_clock gmap_order demo_env
      (mkCommand ($"LRANGE") [$"l"; $"0"; $"1"]) demo_world)) =
    array (map bulk_string (match abs (@clock demo_clock m) (demo_db 9000000000) !! ($"l") with
                            | Some (VList l, _) => range_of l 0 1
                            | _ => []
                            end)).
Proof.
  apply (@lrange_wire DemoNet demo_clock gmap_order demo_env ($"l") ($"0") ($"1") 0 1 demo_world);
    [apply wf_demo_db|reflexivity|reflexivity|].
  intros l. simpl. intros [_ <-]%lookup_singleton_Some. apply (bool_decide_unpack _). vm_compute. reflexivity.
Defined.

Lemma set_bad_expiry_stores_witness :
  store_ (w_db (snd (@handle_set DemoNet demo_clock gmap_order demo_env
    (mkCommand ($"SET") [$"k"; $"new"; $"ex"; $"0"]) demo_world))) !! ($"k") = Some ($"new").
Proof.
  pose proof (@set_bad_expiry_stores DemoNet demo_clock gmap_order demo_env ($"k") ($"new") ($"ex") ($"0") 0 demo_world
    eq_refl eq_refl ltac:(lia)) as Hc.
  destruct (handle_set _ demo_world) as [r w']. apply Hc.
Defined.
