(* ===== verification/CommandSpec.v ===== *)
(** * What the commands on the data mean

    The command language over the abstract store of DatabaseSpec.v: a command
    is a sequence of abstract operations together with the RESP2 value it is to
    be answered with, as the documentation has it ([documented]).  The code
    differs from it in the reads of a key of the wrong type and where a length
    wraps to -1 ([actual]); [answer] is the resulting labelled transition system over
    stores with time.  The handlers of [CommandHandler.v], on the two maps with
    lazy expiry and with the expiry thread running in between, refine it, and
    their reply texts are sent as exactly those values. *)

From S2P Require Import Prelude CppString Parser Resp RespFacts Frames Database DatabaseFacts.
From S2P Require Import DatabaseSpec DatabaseClaims ExpiryThread Socket PubSub CommandHandler CommandFacts CommandClaims.

(** ** The specification *)

(** The operations of a command, and the value for their replies. *)
Inductive Meaning := MOps (ops : list Op) (render : list Reply → Frame).

Definition refuse (msg : bytes) : Meaning := MOps [] (λ _, FError msg).
Definition ok_frame : Frame := FSimple $"OK".
Definition as_bulk (v : option bytes) : Frame := match v with Some s => FBulk s | None => FNull end.
Definition as_list (l : list bytes) : Frame := FArray (map FBulk l).

(** docs/design_decisions.md, Decision 7. *)
Definition wrong_type : bytes := $"WRONGTYPE Operation against a key holding the wrong kind of value".

(** The value for the reply of one operation. *)
Definition as_frame (r : Reply) : Frame :=
  match r with
  | RUnit => ok_frame
  | RValue v => as_bulk v
  | RInt n => FInteger n
  | RBool b => FInteger (if b then 1 else 0)%Z
  | RList l => as_list l
  | RWrongType => FError wrong_type
  end.

Definition single (o : Op) : Meaning := MOps [o] (λ rs, match rs with [r] => as_frame r | _ => FNull end).

Definition on_key (name : bytes) (cmd : Command) (o : bytes → Op) : Meaning :=
  match args cmd with [k] => single (o k) | _ => refuse (wrong_args name) end.

Definition on_keys (name : bytes) (cmd : Command) (o : list bytes → Op) : Meaning :=
  match args cmd with [] => refuse (wrong_args name) | ks => single (o ks) end.

Definition set_meaning (cmd : Command) : Meaning :=
  match args cmd with
  | k :: v :: opts =>
      match opts with
      | option :: ex :: _ =>
          if bytes_eqb (to_upper option) $"EX" then
            match stoi ex with
            | Some s =>
                if (s <=? 0)%Z then MOps [OSet k v] (λ _, FError $"ERR invalid expire time in 'SET' command")
                else MOps [OSet k v; OExpire k s] (λ _, ok_frame)
            | None => MOps [OSet k v] (λ _, FError not_an_integer)
            end
          else single (OSet k v)
      | _ => single (OSet k v)
      end
  | _ => refuse (wrong_args $"SET")
  end.

Definition expire_meaning (cmd : Command) : Meaning :=
  match args cmd with
  | [k; e] =>
      match stoi e with
      | None => refuse not_an_integer
      | Some s =>
          if (s <=? 0)%Z then refuse $"ERR invalid expire time in 'EXPIRE' command"
          else single (OExpire k s)
      end
  | _ => refuse (wrong_args $"EXPIRE")
  end.

Definition push_meaning (name : bytes) (o : bytes → list bytes → Op) (cmd : Command) : Meaning :=
  match args cmd with
  | k :: v :: vs => single (o k (v :: vs))
  | _ => refuse (wrong_args name)
  end.

Definition lrange_meaning (cmd : Command) : Meaning :=
  match args cmd with
  | [k; a; b] =>
      match stoi a, stoi b with
      | Some start, Some stop => single (OLRange k start stop)
      | _, _ => refuse not_an_integer
      end
  | _ => refuse (wrong_args $"LRANGE")
  end.

Definition lindex_meaning (cmd : Command) : Meaning :=
  match args cmd with
  | [k; i] =>
      match stoi i with
      | None => refuse not_an_integer
      | Some index => single (OLIndex k index)
      end
  | _ => refuse (wrong_args $"LINDEX")
  end.

(** The commands on the data. *)
Definition data_commands : list (bytes * (Command → Meaning)) :=
  [($"SET", set_meaning);
   ($"GET", λ cmd, on_key $"GET" cmd OGet);
   ($"DEL", λ cmd, on_keys $"DEL" cmd ODel);
   ($"EXISTS", λ cmd, on_keys $"EXISTS" cmd OExists);
   ($"KEYS", λ _, single OKeys);
   ($"DBSIZE", λ _, single ODbsize);
   ($"FLUSHDB", λ _, single OFlush);
   ($"EXPIRE", expire_meaning);
   ($"TTL", λ cmd, on_key $"TTL" cmd OTtl);
   ($"PERSIST", λ cmd, on_key $"PERSIST" cmd OPersist);
   ($"LPUSH", push_meaning $"LPUSH" OLPush);
   ($"RPUSH", push_meaning $"RPUSH" ORPush);
   ($"LPOP", λ cmd, on_key $"LPOP" cmd OLPop);
   ($"RPOP", λ cmd, on_key $"RPOP" cmd ORPop);
   ($"LRANGE", lrange_meaning);
   ($"LLEN", λ cmd, on_key $"LLEN" cmd OLLen);
   ($"LINDEX", lindex_meaning)].

Fixpoint find_meaning (table : list (bytes * (Command → Meaning))) (cmd : Command) : option Meaning :=
  match table with
  | [] => None
  | (n, m) :: rest => if bytes_eqb (name cmd) n then Some (m cmd) else find_meaning rest cmd
  end.

Definition meaning (cmd : Command) : option Meaning := find_meaning data_commands cmd.

(** One command on the abstract store, which is also the time it takes: its
    operations are performed one after the other, and time may pass before,
    between and after them. *)
Inductive documented (cmd : Command) (a : AStore) : Frame → AStore → Prop :=
  | doc_ops ops render evs a' :
      meaning cmd = Some (MOps ops render) → arun a evs a' → ev_op <$> evs = ops →
      documented cmd a (render (ev_reply <$> evs)) a'.

(** Where the code answers something else: five commands that read a key of
    the wrong type answer that there is nothing, instead of the type error; and
    a length that is -1 as an [int] (of a list of 2^32 - 1 elements) is taken
    for the type error. *)
Definition actual (cmd : Command) (f : Frame) : Frame :=
  match f with
  | FInteger n =>
      if (n =? -1)%Z && existsb (bytes_eqb (name cmd)) [$"LPUSH"; $"RPUSH"; $"LLEN"] then FError wrong_type else f
  | FError e =>
      if bytes_eqb e wrong_type then
        if existsb (bytes_eqb (name cmd)) [$"GET"; $"LPOP"; $"RPOP"; $"LINDEX"] then FNull
        else if bytes_eqb (name cmd) $"LRANGE" then FArray []
        else f
      else f
  | _ => f
  end.

Definition answer (cmd : Command) (a : AStore) (f : Frame) (a' : AStore) : Prop :=
  ∃ f0, documented cmd a f0 a' ∧ f = actual cmd f0.

(** The text of a value, as the handlers write it. *)
Definition payload (f : Frame) : bytes := match f with FBulk s => s | _ => [] end.
Definition text (f : Frame) : bytes :=
  match f with
  | FSimple s | FError s => s
  | FInteger n => integer_text n
  | FBulk s => quoted s
  | FNull => nil_reply
  | FArray l => numbered_list (map payload l)
  end.

(** Values whose text is sent faithfully: an array has strings without line
    feeds, an integer fits 64 bits. *)
Definition clean (f : Frame) : Prop :=
  match f with
  | FInteger n => (INT64_MIN ≤ n ≤ INT64_MAX)%Z
  | FArray l => Forall (λ e, Forall (λ c, c ≠ LF) (payload e)) l
  | _ => True
  end.

(** Commands with a meaning. *)
Definition data_command (cmd : Command) : Prop := is_Some (meaning cmd).

(** Sequences of commands. *)
Inductive answers_all : list Command → AStore → list Frame → AStore → Prop :=
  | all_nil a : answers_all [] a [] a
  | all_cons cmd cmds a f a1 fs a2 :
      answer cmd a f a1 → answers_all cmds a1 fs a2 → answers_all (cmd :: cmds) a (f :: fs) a2.

Lemma answers_all_app cs1 a fs1 a1 cs2 fs2 a2 :
  answers_all cs1 a fs1 a1 → answers_all cs2 a1 fs2 a2 → answers_all (cs1 ++ cs2) a (fs1 ++ fs2) a2.
Proof. induction 1 as [|cmd cmds a f a1 fs a2' Ha _ IH]; intros H2; [done|]. by apply (all_cons _ _ _ _ a1), IH. Qed.

Lemma answers_all_length cs a fs a' : answers_all cs a fs a' → length fs = length cs.
Proof. induction 1; simpl; congruence. Qed.

(** ** The handlers refine it *)

Section Refinement.
Context {Net : Type} `{SocketApi Net} `{SteadyClock} `{HashOrder} `{Environ}.
Context (client_fd_ : Z) (server_ : option (Z * nat)).
Implicit Types (w : World Net) (cmd : Command).

(** The abstract store of a world. *)
Definition absw (w : World Net) : AStore := abs_store (dbs w).

(** A call: rounds of the expiry thread, then the operation. *)
Lemma call_run {A} (m : DbM A) w :
  ∃ w1, crun (dbs w) [] (dbs w1) ∧ call m w = db m w1.
Proof.
  destruct (background_run (w_db w) (w_clock w)) as (d & n & E & _ & _ & Hr).
  exists (mkWorld d (w_files w) n (w_pubsub w) (w_net w)). split; [done|].
  unfold call, db, locked, mbind, state_bind. by rewrite E.
Qed.

(** A call of one operation of the store, up to the type of its reply. *)
Lemma call_emits {A} (o : Op) (conv : A → Reply) (m : DbM A) w :
  op_ok o → (∀ s, exec_op o s = (let '(r, s') := m s in (conv r, s'))) →
  let '(r, w') := call m w in ∃ t t', crun (dbs w) [mkEvent t o (conv r) t'] (dbs w').
Proof.
  intros Hok E. destruct (call_run m w) as (w1 & Hr & ->). unfold db. specialize (E (w_db w1, w_clock w1)).
  destruct (m (w_db w1, w_clock w1)) as [r [d n]]. eexists _, _. apply (crun_app _ [] _ [_] _ Hr).
  eapply (crun_step _ (Some _) _ []); [by apply c_op|constructor].
Qed.

(** Code that answers a command as specified. *)
Definition answers_as (cmd : Command) (m : WM Net bytes) : Prop :=
  ∀ w, inv (dbs w) → let '(r, w') := m w in ∃ f, answer cmd (absw w) f (absw w') ∧ r = text f.

(** A run of the two maps answers, with the replies of the abstract run. *)
Lemma answer_ops cmd ops render evs w w' :
  meaning cmd = Some (MOps ops render) → inv (dbs w) → crun (dbs w) evs (dbs w') → ev_op <$> evs = ops →
  ∃ rs, answer cmd (absw w) (actual cmd (render rs)) (absw w') ∧
    Forall2 (λ e r, ev_reply e = reported (ev_op e) r) evs rs.
Proof.
  intros Hm Hi Hr Ho. destruct (crun_sim _ _ _ Hr Hi) as (_ & _ & ls & Ha & ->). exists (ev_reply <$> ls). split.
  - exists (render (ev_reply <$> ls)). split; [|done]. eapply doc_ops; [done|done|]. rewrite <- Ho.
    by rewrite <- list_fmap_compose.
  - clear. induction ls; by constructor.
Qed.

(** Refusals do nothing. *)
Lemma actual_other cmd e : bytes_eqb e wrong_type = false → actual cmd (FError e) = FError e.
Proof. intros He. unfold actual. by rewrite He. Qed.

Lemma refuse_answers cmd msg :
  bytes_eqb msg wrong_type = false → meaning cmd = Some (refuse msg) → answers_as cmd (mret msg).
Proof.
  intros He Hm w Hi. destruct (answer_ops cmd [] _ [] w w Hm Hi) as (rs & Ha & _); [constructor|done|].
  rewrite actual_other in Ha by done. by exists (FError msg).
Qed.

(** One operation and the text of its reply. *)
Lemma single_answers {A} cmd (o : Op) (conv : A → Reply) (m : DbM A) (k : A → WM Net bytes) :
  meaning cmd = Some (single o) → op_ok o → (∀ s, exec_op o s = (let '(r, s') := m s in (conv r, s'))) →
  (∀ r r0, conv r = reported o r0 → k r = mret (text (actual cmd (as_frame r0)))) → answers_as cmd (call m ≫= k).
Proof.
  intros Hm Hok E Hk w Hi. unfold mbind, state_bind. pose proof (call_emits o conv m w Hok E) as Hr.
  destruct (call m w) as [r w']. destruct Hr as (t & t' & Hr).
  destruct (answer_ops cmd [o] _ _ w w' Hm Hi Hr eq_refl) as (rs & Ha & Hrs).
  apply Forall2_cons_inv_l in Hrs as (r0 & rs' & Hr0 & ->%Forall2_nil_inv_l & ->). cbn [ev_reply ev_op] in Hr0.
  rewrite (Hk r r0 Hr0). cbn [mret state_ret]. by eexists.
Qed.

(** *** The commands, one by one *)

(** Commands for which the code follows the documentation. *)
Definition strict (cmd : Command) : Prop :=
  name cmd ∉ [$"GET"; $"LPOP"; $"RPOP"; $"LINDEX"; $"LRANGE"; $"LPUSH"; $"RPUSH"; $"LLEN"].

Lemma actual_strict cmd f : strict cmd → actual cmd f = f.
Proof.
  intros Hs. assert (∀ n, n ∈ [$"GET"; $"LPOP"; $"RPOP"; $"LINDEX"; $"LRANGE"; $"LPUSH"; $"RPUSH"; $"LLEN"] →
    bytes_eqb (name cmd) n = false) as Hne.
  { intros n Hn. apply bytes_eqb_neq. by intros <-. }
  destruct f as [|e|n| | |]; try done; cbn [actual existsb]; rewrite !Hne by set_solver.
  - by destruct (bytes_eqb e wrong_type).
  - by rewrite andb_false_r.
Qed.

(** Reads of a key of the wrong type. *)
Lemma actual_read cmd : name cmd ∈ [$"GET"; $"LPOP"; $"RPOP"; $"LINDEX"] → actual cmd (as_frame RWrongType) = FNull.
Proof.
  intros Hn. cbn [actual as_frame]. rewrite (proj2 (bytes_eqb_eq _ _)) by done.
  assert (existsb (bytes_eqb (name cmd)) [$"GET"; $"LPOP"; $"RPOP"; $"LINDEX"] = true) as ->; [|done].
  apply existsb_exists. exists (name cmd). split; [by apply list_elem_of_In|by apply bytes_eqb_eq].
Qed.

(** The reply of a read, whose member function returns an optional value. *)
Lemma read_text cmd o v r0 :
  name cmd ∈ [$"GET"; $"LPOP"; $"RPOP"; $"LINDEX"] → reported o RWrongType = RValue None →
  RValue v = reported o r0 → optional_text v = text (actual cmd (as_frame r0)).
Proof.
  intros Hn Ho Hr. destruct r0 as [| | | | |]; try (cbn in Hr; discriminate).
  - cbn in Hr. injection Hr as <-. by destruct v.
  - rewrite Ho in Hr. injection Hr as ->. by rewrite actual_read.
Qed.

Lemma get_answers cmd :
  name cmd = $"GET" → meaning cmd = Some (on_key $"GET" cmd OGet) → answers_as cmd (handle_get cmd).
Proof.
  intros Hn. unfold handle_get, on_key. destruct (args cmd) as [|k [|]]; try by apply refuse_answers.
  intros Hm. apply (single_answers cmd (OGet k) RValue); [done..|]. intros r r0 Hr.
  by rewrite <- (read_text cmd (OGet k) r r0) by (rewrite ?Hn; done || set_solver).
Qed.

Lemma set_answers cmd : strict cmd → meaning cmd = Some (set_meaning cmd) → answers_as cmd (handle_set cmd).
Proof.
  intros Hstrict. unfold handle_set, set_meaning. destruct (args cmd) as [|k [|v opts]]; try by apply refuse_answers.
  (** SET followed by a text that depends on nothing *)
  assert (∀ r f, text f = r → meaning cmd = Some (MOps [OSet k v] (λ _, f)) →
    answers_as cmd (call (set k v);; mret r)) as Hone.
  { intros r f <- Hm w Hi. unfold mbind, state_bind. pose proof (call_emits (OSet k v) (λ _, RUnit) (set k v) w I (λ _, eq_refl)) as Hr.
    destruct (call (set k v) w) as [[] w']. destruct Hr as (t & t' & Hr). exists f. split; [|done].
    destruct (answer_ops cmd _ _ _ w w' Hm Hi Hr eq_refl) as (rs & Ha & _). by rewrite actual_strict in Ha. }
  assert (meaning cmd = Some (single (OSet k v)) → answers_as cmd (call (set k v);; mret ($"OK"))) as Hok.
  { intros Hm. apply (single_answers cmd (OSet k v) (λ _, RUnit)); [done..|]. intros _ r0 Hr. rewrite actual_strict by done.
    by destruct r0. }
  destruct opts as [|opt [|ex opts]]; try exact Hok. destruct (bytes_eqb (to_upper opt) $"EX"); [|exact Hok].
  destruct (stoi ex) as [s|] eqn:Es; [|by apply Hone]. destruct (s <=? 0)%Z eqn:Ep; [by apply Hone|].
  intros Hm w Hi. unfold mbind, state_bind. pose proof (call_emits (OSet k v) (λ _, RUnit) (set k v) w I (λ _, eq_refl)) as Hr.
  destruct (call (set k v) w) as [[] w1]. destruct Hr as (t1 & t2 & Hr).
  assert (op_ok (OExpire k s)) as Hs by (apply stoi_range in Es; simpl; lia).
  pose proof (call_emits (OExpire k s) RBool (expire k s) w1 Hs (λ _, eq_refl)) as Hr1.
  destruct (call (expire k s) w1) as [b w2]. destruct Hr1 as (t3 & t4 & Hr1). exists ok_frame. split; [|done].
  destruct (answer_ops cmd _ _ _ w w2 Hm Hi (crun_app _ [_] _ [_] _ Hr Hr1) eq_refl) as (rs & Ha & _). by rewrite actual_strict in Ha.
Qed.

(** The reply of the other operations, by its type. *)
Lemma strict_answers {A} cmd (o : Op) (conv : A → Reply) (m : DbM A) (out : A → bytes) :
  strict cmd → meaning cmd = Some (single o) → op_ok o →
  (∀ s, exec_op o s = (let '(r, s') := m s in (conv r, s'))) →
  (∀ r r0, conv r = reported o r0 → out r = text (as_frame r0)) → answers_as cmd (r ← call m; mret (out r)).
Proof.
  intros Hs Hm Hok E Ho. apply (single_answers cmd o conv); [done..|]. intros r r0 Hr.
  by rewrite actual_strict, (Ho r r0 Hr).
Qed.

Lemma list_text l : numbered_list l = text (as_list l).
Proof. unfold as_list. cbn [text]. f_equal. rewrite map_map. symmetry. apply map_id. Qed.

Lemma del_answers cmd : strict cmd → meaning cmd = Some (on_keys $"DEL" cmd ODel) → answers_as cmd (handle_del cmd).
Proof.
  intros Hs. unfold handle_del, on_keys. destruct (args cmd) as [|k ks]; [by apply refuse_answers|].
  intros Hm. apply (strict_answers cmd (ODel (k :: ks)) RInt); [done..|]. by intros r [] [= ->].
Qed.

Lemma exists_answers cmd :
  strict cmd → meaning cmd = Some (on_keys $"EXISTS" cmd OExists) → answers_as cmd (handle_exists cmd).
Proof.
  intros Hs. unfold handle_exists, on_keys. destruct (args cmd) as [|k ks]; [by apply refuse_answers|].
  intros Hm. apply (strict_answers cmd (OExists (k :: ks)) RInt); [done..|]. by intros r [] [= ->].
Qed.

Lemma keys_answers cmd : strict cmd → meaning cmd = Some (single OKeys) → answers_as cmd (handle_keys cmd).
Proof.
  intros Hs Hm. apply (strict_answers cmd OKeys RList); [done..|]. intros r [] [= ->]. apply list_text.
Qed.

Lemma dbsize_answers cmd : strict cmd → meaning cmd = Some (single ODbsize) → answers_as cmd (handle_dbsize cmd).
Proof. intros Hs Hm. apply (strict_answers cmd ODbsize RInt); [done..|]. by intros r [] [= ->]. Qed.

Lemma flushdb_answers cmd : strict cmd → meaning cmd = Some (single OFlush) → answers_as cmd (handle_flushdb cmd).
Proof. intros Hs Hm. apply (strict_answers cmd OFlush (λ _, RUnit)); [done..|]. by intros r []. Qed.

Lemma expire_answers cmd : strict cmd → meaning cmd = Some (expire_meaning cmd) → answers_as cmd (handle_expire cmd).
Proof.
  intros Hstrict. unfold handle_expire, expire_meaning. destruct (args cmd) as [|k [|e [|]]]; try by apply refuse_answers.
  destruct (stoi e) as [s|] eqn:Es; [|by apply refuse_answers]. destruct (s <=? 0)%Z eqn:Ep; [by apply refuse_answers|].
  intros Hm. apply (strict_answers cmd (OExpire k s) RBool); [done|done| |done|by intros [] [] [= <-]].
  apply stoi_range in Es. simpl. lia.
Qed.

Lemma ttl_answers cmd : strict cmd → meaning cmd = Some (on_key $"TTL" cmd OTtl) → answers_as cmd (handle_ttl cmd).
Proof.
  intros Hs. unfold handle_ttl, on_key. destruct (args cmd) as [|k [|]]; try by apply refuse_answers.
  intros Hm. apply (strict_answers cmd (OTtl k) RInt); [done..|]. by intros r [] [= ->].
Qed.

Lemma persist_answers cmd :
  strict cmd → meaning cmd = Some (on_key $"PERSIST" cmd OPersist) → answers_as cmd (handle_persist cmd).
Proof.
  intros Hs. unfold handle_persist, on_key. destruct (args cmd) as [|k [|]]; try by apply refuse_answers.
  intros Hm. apply (strict_answers cmd (OPersist k) RBool); [done..|by intros [] [] [= <-]].
Qed.

(** Lengths: the sentinel becomes the type error. *)
Lemma length_text cmd o r r0 :
  name cmd ∈ [$"LPUSH"; $"RPUSH"; $"LLEN"] → reported o RWrongType = RInt (-1) → RInt r = reported o r0 →
  (if (r =? -1)%Z then WRONGTYPE_ERR else integer_text r) = text (actual cmd (as_frame r0)).
Proof.
  intros Hn Ho Hr.
  assert (existsb (bytes_eqb (name cmd)) [$"LPUSH"; $"RPUSH"; $"LLEN"] = true ∧
    existsb (bytes_eqb (name cmd)) [$"GET"; $"LPOP"; $"RPOP"; $"LINDEX"] = false ∧
    bytes_eqb (name cmd) $"LRANGE" = false) as (E1 & E2 & E3).
  { set_unfold in Hn. destruct Hn as [->|[->|[->|[]]]]; by vm_compute. }
  destruct r0; try (cbn in Hr; discriminate).
  - cbn in Hr. injection Hr as <-. cbn [as_frame actual]. rewrite E1, andb_true_r. by destruct (r =? -1)%Z.
  - rewrite Ho in Hr. injection Hr as ->. cbn [as_frame actual]. rewrite E2, E3. by vm_compute.
Qed.

Lemma push_answers cmd nm (o : bytes → list bytes → Op) push :
  name cmd ∈ [$"LPUSH"; $"RPUSH"; $"LLEN"] → (∀ k vs, reported (o k vs) RWrongType = RInt (-1)) →
  bytes_eqb (wrong_args nm) wrong_type = false → (∀ k v vs, op_ok (o k (v :: vs))) →
  (∀ k vs s, exec_op (o k vs) s = (let '(r, s') := push k vs s in (RInt r, s'))) →
  meaning cmd = Some (push_meaning nm o cmd) → answers_as cmd (handle_push push nm cmd).
Proof.
  intros Hn Ho Hw Hok E. unfold handle_push, push_meaning. destruct (args cmd) as [|k [|v vs]]; try by apply refuse_answers.
  intros Hm. apply (single_answers cmd (o k (v :: vs)) RInt); [done|apply Hok|apply E|].
  intros r r0 Hr. by rewrite <- (length_text cmd (o k (v :: vs)) r r0).
Qed.

Lemma llen_answers cmd :
  name cmd = $"LLEN" → meaning cmd = Some (on_key $"LLEN" cmd OLLen) → answers_as cmd (handle_llen cmd).
Proof.
  intros Hn. unfold handle_llen, on_key. destruct (args cmd) as [|k [|]]; try by apply refuse_answers.
  intros Hm. apply (single_answers cmd (OLLen k) RInt); [done..|]. intros r r0 Hr.
  by rewrite <- (length_text cmd (OLLen k) r r0) by (rewrite ?Hn; done || set_solver).
Qed.

Lemma pop_answers cmd nm (o : bytes → Op) pop :
  name cmd ∈ [$"GET"; $"LPOP"; $"RPOP"; $"LINDEX"] → (∀ k, reported (o k) RWrongType = RValue None) →
  bytes_eqb (wrong_args nm) wrong_type = false → (∀ k, op_ok (o k)) →
  (∀ k s, exec_op (o k) s = (let '(r, s') := pop k s in (RValue r, s'))) →
  meaning cmd = Some (on_key nm cmd o) → answers_as cmd (handle_pop pop nm cmd).
Proof.
  intros Hn Ho Hw Hok E. unfold handle_pop, on_key. destruct (args cmd) as [|k [|]]; try by apply refuse_answers.
  intros Hm. apply (single_answers cmd (o k) RValue); [done|apply Hok|apply E|]. intros r r0 Hr.
  by rewrite <- (read_text cmd (o k) r r0).
Qed.

Lemma lrange_answers cmd :
  name cmd = $"LRANGE" → meaning cmd = Some (lrange_meaning cmd) → answers_as cmd (handle_lrange cmd).
Proof.
  intros Hn. unfold handle_lrange, lrange_meaning. destruct (args cmd) as [|k [|a [|b [|]]]]; try by apply refuse_answers.
  destruct (stoi a) as [start|]; [|by apply refuse_answers]. destruct (stoi b) as [stop|]; [|by apply refuse_answers].
  intros Hm. apply (single_answers cmd (OLRange k start stop) RList); [done..|].
  intros l [] [= ->]; [by rewrite list_text|]. cbn [as_frame actual]. by rewrite Hn.
Qed.

Lemma lindex_answers cmd :
  name cmd = $"LINDEX" → meaning cmd = Some (lindex_meaning cmd) → answers_as cmd (handle_lindex cmd).
Proof.
  intros Hn. unfold handle_lindex, lindex_meaning. destruct (args cmd) as [|k [|i [|]]]; try by apply refuse_answers.
  destruct (stoi i) as [index|]; [|by apply refuse_answers].
  intros Hm. apply (single_answers cmd (OLIndex k index) RValue); [done..|]. intros r r0 Hr.
  by rewrite <- (read_text cmd (OLIndex k index) r r0) by (rewrite ?Hn; done || set_solver).
Qed.

(** *** Dispatch *)

Lemma data_command_answers cmd mng :
  meaning cmd = Some mng → answers_as cmd (execute_single client_fd_ server_ cmd).
Proof.
  intros Hm. pose proof Hm as Hm'. unfold meaning in Hm'. cbn [find_meaning data_commands] in Hm'.
  assert (∀ n, name cmd = n →
    bool_decide (n ∈ [$"GET"; $"LPOP"; $"RPOP"; $"LINDEX"; $"LRANGE"; $"LPUSH"; $"RPUSH"; $"LLEN"]) = false → strict cmd) as Hstrict.
  { intros n Hn Hb%bool_decide_eq_false. unfold strict. by rewrite Hn. }
  assert (∀ n (l : list bytes), name cmd = n → bool_decide (n ∈ l) = true → name cmd ∈ l) as Hin.
  { intros n l Hn Hb%bool_decide_eq_true. by rewrite Hn. }
  repeat (destruct (bytes_eqb (name cmd) _) eqn:E in Hm';
    [apply bytes_eqb_eq in E; injection Hm' as Em; rewrite <- Em in Hm; clear Em; unfold execute_single, handlers;
     cbn [dispatch]; pose proof (Hstrict _ E) as Hs; pose proof (λ l, Hin _ l E) as Hi; rewrite E|clear E]); [..|done].
  - by apply set_answers; [apply Hs; vm_compute|].
  - by apply get_answers.
  - by apply del_answers; [apply Hs; vm_compute|].
  - by apply exists_answers; [apply Hs; vm_compute|].
  - by apply keys_answers; [apply Hs; vm_compute|].
  - by apply dbsize_answers; [apply Hs; vm_compute|].
  - by apply flushdb_answers; [apply Hs; vm_compute|].
  - by apply expire_answers; [apply Hs; vm_compute|].
  - by apply ttl_answers; [apply Hs; vm_compute|].
  - by apply persist_answers; [apply Hs; vm_compute|].
  - by apply (push_answers cmd $"LPUSH" OLPush); [apply Hi; vm_compute|..].
  - by apply (push_answers cmd $"RPUSH" ORPush); [apply Hi; vm_compute|..].
  - by apply (pop_answers cmd $"LPOP" OLPop); [apply Hi; vm_compute|..].
  - by apply (pop_answers cmd $"RPOP" ORPop); [apply Hi; vm_compute|..].
  - by apply lrange_answers.
  - by apply llen_answers.
  - by apply lindex_answers.
Qed.

(** *** Data commands touch nothing but the database *)

Class DbOnly {A} (m : WM Net A) : Prop :=
  db_only : ∀ w, w_files (snd (m w)) = w_files w ∧ w_pubsub (snd (m w)) = w_pubsub w ∧ w_net (snd (m w)) = w_net w.

#[local] Instance ret_db_only {A} (a : A) : DbOnly (mret a).
Proof. by intros w. Qed.
#[local] Instance bind_db_only {A B} (m : WM Net A) (k : A → WM Net B) :
  DbOnly m → (∀ a, DbOnly (k a)) → DbOnly (m ≫= k).
Proof.
  intros Hm Hk w. unfold mbind, state_bind. specialize (Hm w). destruct (m w) as [a w1].
  destruct (Hk a w1) as (-> & -> & ->). exact Hm.
Qed.
#[local] Instance call_db_only {A} (m : DbM A) : DbOnly (call m).
Proof. intros w. unfold call, db. by destruct (locked m _) as [a [d n]]. Qed.

Definition data_handlers : list (Command → WM Net bytes) :=
  [handle_set; handle_get; handle_del; handle_exists; handle_keys; handle_dbsize; handle_flushdb; handle_expire;
   handle_ttl; handle_persist; handle_lpush; handle_rpush; handle_lpop; handle_rpop; handle_lrange; handle_llen;
   handle_lindex].

Lemma data_handler cmd mng :
  meaning cmd = Some mng → ∃ h, h ∈ data_handlers ∧ execute_single client_fd_ server_ cmd = h cmd.
Proof.
  unfold meaning. cbn [find_meaning data_commands].
  repeat (destruct (bytes_eqb (name cmd) _) eqn:E;
    [apply bytes_eqb_eq in E; intros _; unfold execute_single, handlers; cbn [dispatch]; rewrite E;
     eexists; split; [|reflexivity]; unfold data_handlers; set_solver|clear E]). done.
Qed.

Lemma data_handlers_only : Forall (λ h, ∀ cmd, DbOnly (h cmd)) data_handlers.
Proof.
  repeat apply Forall_cons_2; try apply Forall_nil_2; intros cmd;
    unfold handle_set, handle_get, handle_del, handle_exists, handle_keys, handle_dbsize, handle_flushdb, handle_expire,
      handle_ttl, handle_persist, handle_lpush, handle_rpush, handle_push, handle_lpop, handle_rpop, handle_pop,
      handle_lrange, handle_llen, handle_lindex; repeat case_match; apply _.
Qed.

Lemma data_command_only cmd mng : meaning cmd = Some mng → DbOnly (execute_single client_fd_ server_ cmd).
Proof.
  intros (h & Hh & ->)%data_handler. pose proof data_handlers_only as Ha. rewrite Forall_forall in Ha. by apply Ha.
Qed.

End Refinement.

(** ** The values on the wire *)

Definition wired (f : Frame) : Prop := clean f → serialize_response (text f) = encode f ∧ frame_ok f = true.

Lemma error_wired e : no_crlf ($"ERR" ++ e) = true → wired (FError ($"ERR" ++ e)).
Proof. intros He _. split; [apply serialize_error|done]. Qed.

Lemma as_list_wired l : wired (as_list l).
Proof.
  unfold as_list. intros Hl. cbn [clean text encode frame_ok] in *. rewrite Forall_map in Hl. rewrite !map_map. cbn [payload encode] in *.
  rewrite map_id. split; [by apply numbered_list_wire|]. apply forallb_forall. by intros f (v & <- & _)%in_map_iff.
Qed.

Lemma as_frame_wired r : wired (as_frame r).
Proof.
  destruct r as [|[v|]|n|b|l|].
  - intros _. by vm_compute.
  - intros _. split; [apply serialize_quoted|done].
  - intros _. by vm_compute.
  - intros Hn. split; [by apply serialize_integer|]. simpl in *. lia.
  - by destruct b; intros _; vm_compute.
  - apply as_list_wired.
  - intros _. by vm_compute.
Qed.

Lemma actual_wired cmd f : wired f → wired (actual cmd f).
Proof.
  intros Hf. assert (wired (FError wrong_type)) as Hw by (intros _; by vm_compute).
  destruct f; try done; cbn [actual]; repeat case_match; try done; intros _; by vm_compute.
Qed.

(** The value of a meaning. *)
Definition meaning_wired (m : Meaning) : Prop := match m with MOps _ render => ∀ rs, wired (render rs) end.

Lemma refuse_wired e : no_crlf ($"ERR" ++ e) = true → meaning_wired (refuse ($"ERR" ++ e)).
Proof. intros He rs. by apply error_wired. Qed.

Lemma single_wired o : meaning_wired (single o).
Proof. intros [|r [|]]; [|apply as_frame_wired|]; intros _; by vm_compute. Qed.

Create HintDb wire.
#[local] Hint Resolve as_frame_wired single_wired : wire.
#[local] Hint Extern 1 (meaning_wired (refuse _)) => apply refuse_wired; vm_compute; reflexivity : wire.
#[local] Hint Extern 1 (meaning_wired (MOps _ (λ _, FError _))) => intros rs; apply error_wired; vm_compute; reflexivity : wire.
#[local] Hint Extern 1 (meaning_wired (MOps _ (λ _, ok_frame))) => intros rs _; by vm_compute : wire.

Lemma data_commands_wired cmd : Forall (λ nm, meaning_wired (snd nm cmd)) data_commands.
Proof.
  repeat apply Forall_cons_2; try apply Forall_nil_2; cbn [snd];
    unfold set_meaning, on_key, on_keys, expire_meaning, push_meaning, lrange_meaning, lindex_meaning;
    repeat case_match; auto with wire; done.
Qed.

Lemma find_meaning_wired table cmd m :
  Forall (λ nm, meaning_wired (snd nm cmd)) table → find_meaning table cmd = Some m → meaning_wired m.
Proof.
  induction 1 as [|[n g] table Hm _ IH]; [done|]. cbn [find_meaning]. destruct (bytes_eqb (name cmd) n); [|done].
  by intros [= <-].
Qed.

Lemma answer_wired cmd a f a' : answer cmd a f a' → wired f.
Proof.
  intros (f0 & Hd & ->). apply actual_wired. destruct Hd as [ops render evs a' Hm _ _].
  eapply (find_meaning_wired _ _ (MOps ops render)); [apply data_commands_wired|exact Hm].
Qed.

Lemma answers_all_wired cmds a fs a' : answers_all cmds a fs a' → Forall wired fs.
Proof. induction 1; constructor; [by eapply answer_wired|done]. Qed.

(** ** Transactions *)

(** The reply of EXEC is one array whose elements are the values of the
    replies, when these are single lines. *)
Definition one_line (s : bytes) : Prop := s ≠ [] ∧ Forall (λ c, c ≠ LF) s.

Lemma serialize_exec_line i r : serialize_line serialize_response (exec_line i r) = serialize_response r.
Proof.
  unfold exec_line. rewrite serialize_line_numbered. destruct (is_quoted r) eqn:E; [|done].
  destruct (is_quoted_shape r E) as [v ->]. by rewrite unquote_quoted, serialize_quoted.
Qed.

Lemma exec_lines_wire rs j :
  map (serialize_line serialize_response) (imap (λ i r, exec_line (j + i) r) rs) = map serialize_response rs.
Proof.
  revert j. induction rs as [|r rs IH]; intros j; cbn [imap map]; [done|]. rewrite serialize_exec_line. f_equal.
  unfold compose. rewrite (imap_ext _ (λ i r, exec_line (S j + i) r)); [apply IH|]. intros i r' _. f_equal. lia.
Qed.

Lemma exec_lines_no_LF rs :
  Forall one_line rs → ∀ j, Forall (λ s, Forall (λ c, c ≠ LF) s ∧ s ≠ []) (imap (λ i r, exec_line (j + i) r) rs).
Proof.
  induction 1 as [|r rs [Hne Hr] _ IH]; intros j; cbn [imap]; constructor.
  - unfold exec_line. split.
    + apply Forall_app. split; [apply to_string_no_LF|]. apply Forall_app. split; [by repeat constructor|done].
    + pose proof (to_string_nonempty (Z.of_nat (j + 0))). by destruct (to_string (Z.of_nat (j + 0))).
  - unfold compose. rewrite (imap_ext _ (λ i r, exec_line (S j + i) r)); [apply IH|]. intros i r' _. f_equal. lia.
Qed.

Lemma exec_reply_wire rs :
  Forall one_line rs → serialize_response (exec_reply rs) = array (map serialize_response rs).
Proof.
  intros Hrs. destruct rs as [|r rs]; [by vm_compute|].
  assert (∃ c t, exec_reply (r :: rs) = $"1) " ++ c :: t) as (c & t & E).
  { apply Forall_cons in Hrs as [[Hne _] _]. destruct r as [|c r]; [done|]. unfold exec_reply. cbn [imap].
    destruct rs as [|r' rs]; [by eexists _, _|]. by eexists _, _. }
  rewrite E, serialize_array_reply, <- E. f_equal.
  change (exec_reply (r :: rs)) with (join_lines (imap (λ i r, exec_line (1 + i) r) (r :: rs))).
  rewrite getlines_join by by apply exec_lines_no_LF. apply exec_lines_wire.
Qed.

Section Claim.
Context {Net : Type} `{SocketApi Net} `{SteadyClock} `{HashOrder} `{Environ}.
Implicit Types (w : World Net).


(** A queue of data commands. *)
Lemma run_queue_data fd srv cmds acc w :
  Forall data_command cmds → inv (dbs w) →
  let '(rs, w') := foldM (run_one fd srv) acc cmds w in
  ∃ fs, rs = acc ++ map text fs ∧ answers_all cmds (absw w) fs (absw w').
Proof.
  intros Hd. revert acc w. induction Hd as [|cmd cmds [mng Hm] _ IH]; intros acc w Hi.
  - rewrite foldM_nil. exists []. split; [by rewrite app_nil_r|constructor].
  - rewrite foldM_cons. unfold run_one at 1, mbind, state_bind.
    pose proof (data_command_answers fd srv cmd mng Hm w Hi) as Ha.
    destruct (safe_db _ _ _ (execute_single_safe fd srv cmd w)) as [ls Hls].
    destruct (execute_single fd srv cmd w) as [r w1]. cbn [snd mret state_ret] in *. destruct Ha as (f & Ha & ->).
    specialize (IH (acc ++ [text f]) w1 (proj1 (crun_inv _ _ _ Hls Hi))).
    destruct (foldM _ _ cmds w1) as [rs w']. destruct IH as (fs & -> & Has). exists (f :: fs).
    split; [by rewrite <- app_assoc|by eapply all_cons].
Qed.

(** Transaction commands are not data commands. *)
Lemma data_queueable cmd : data_command cmd → queueable cmd.
Proof.
  intros [mng Hm] Hin. destruct cmd as [n l]. cbn [name] in *. set_unfold in Hin.
  destruct Hin as [->|[->|[->|[->|[]]]]]; done.
Qed.


End Claim.

(** ** Instances *)


(** The deviation: GET on the list "l" and LRANGE on the string "k" answer that
    there is nothing, where the documented value is the type error. *)
Theorem wrong_type_unreported :
  let run cmd := fst (@execute_single DemoNet demo_sockets demo_clock gmap_order demo_env 7 None cmd demo_world) in
  run (mkCommand ($"GET") [$"l"]) = nil_reply ∧ run (mkCommand ($"LINDEX") [$"k"; $"0"]) = nil_reply ∧
  run (mkCommand ($"LRANGE") [$"k"; $"0"; $"-1"]) = $"(empty list)" ∧ run (mkCommand ($"LLEN") [$"k"]) = wrong_type.
Proof. vm_compute. done. Qed.

Definition demo_queue : list Command :=
  [mkCommand ($"SET") [$"a"; $"1"]; mkCommand ($"GET") [$"a"]; mkCommand ($"LLEN") [$"l"]].


(** A list reply inside EXEC is flattened: the transaction LRANGE, LLEN on a
    list of three elements is answered with an array of four values (an array
    of the first element, the two others, the length) instead of two. *)
Theorem exec_flattens_lists :
  let '(rs, _) := @execute_all DemoNet demo_sockets demo_clock gmap_order demo_env 7 None
    [plain_command ($"MULTI"); mkCommand ($"LRANGE") [$"l"; $"0"; $"-1"]; mkCommand ($"LLEN") [$"l"];
     plain_command ($"EXEC")] (new_handler, demo_world) in
  match last rs with
  | Some r => serialize_response r = array [array [bulk_string ($"a")]; bulk_string ($"b"); bulk_string ($"c"); integer 3]
  | None => False
  end.
Proof. vm_compute. reflexivity. Qed.

(** The type of a reply is guessed from its text: the message of PING comes
    back as a null, an integer or an error if it looks like one. *)
Theorem ping_reply_guessed :
  let reply m := serialize_response (fst (handle_ping (Net := DemoNet) (mkCommand ($"PING") [m]) demo_world)) in
  reply ($"(nil)") = null_bulk_string ∧ reply ($"(integer) 5") = integer 5 ∧ reply ($"ERRATIC") = error ($"ERRATIC") ∧
  reply ($"hello") = bulk_string ($"hello").
Proof. vm_compute. done. Qed.
