(* ===== verification/Server.v ===== *)
(** * The event loop (networking/server.cpp, networking/server.h)

    [Server] holds the connected clients with their read buffers; the rest of
    the process is the [World].  [process_client] reads from one socket and
    executes every complete command of the buffer; one round of the select
    loop accepts, processes the ready clients and disconnects those that
    failed.  The set of ready sockets is an input of a round (EventLoop.v gets
    it from [select]).  The command loop carries
    fuel [size + 1]: every iteration that continues has consumed a byte
    ([process_loop_fuel]). *)

From S2P Require Import Prelude CppString Parser Resp Database Persistence Socket PubSub CommandHandler.

Record ClientState := mkClient {
  read_buffer : bytes;
  addr : bytes;
  authenticated : bool;
}.

Record Server := mkServer {
  clients_ : gmap Z ClientState;
  password_ : bytes;
  running_ : bool;
  start_time_ : Z;
}.

Definition READ_SIZE : nat := 4096.
Definition MAX_BUFFER : Z := (64 * 1024 * 1024)%Z.

(** [ClientState()]. *)
Definition no_client : ClientState := mkClient [] [] false.

Definition set_buffer (b : bytes) (c : ClientState) : ClientState := mkClient b (addr c) (authenticated c).
Definition set_authenticated (c : ClientState) : ClientState := mkClient (read_buffer c) (addr c) true.

Definition with_clients_ (f : gmap Z ClientState → gmap Z ClientState) (s : Server) : Server :=
  mkServer (f (clients_ s)) (password_ s) (running_ s) (start_time_ s).

Section Server.
Context {Net : Type} `{SocketApi Net} `{SteadyClock} `{HashOrder} `{Environ}.

Definition SrvM (A : Type) : Type := State (Server * World Net) A.

Definition world {A} (m : WM Net A) : SrvM A := λ '(s, w), let '(a, w') := m w in (a, (s, w')).
Definition server : SrvM Server := λ '(s, w), (s, (s, w)).
Definition modify_server (f : Server → Server) : SrvM unit := λ '(s, w), (tt, (f s, w)).

(** [clients_[fd]]. *)
Definition client (fd : Z) (s : Server) : ClientState := default no_client (clients_ s !! fd).
Definition update_client (fd : Z) (f : ClientState → ClientState) : SrvM unit :=
  modify_server (λ s, with_clients_ (insert fd (f (client fd s))) s).

(** [Resp::send_response(fd, data)]. *)
Definition send (fd : Z) (data : bytes) : SrvM bool := world (net (send_response fd data)).

(** ** One command *)

(** The reply text: the AUTH gate, or a fresh [CommandHandler]. *)
Definition run_command (fd : Z) (cmd : Command) : SrvM bytes :=
  s ← server;
  if negb (bytes_eqb (password_ s) []) && negb (authenticated (client fd s)) then
    if bytes_eqb (name cmd) $"AUTH" then
      match args cmd with
      | [pw] =>
          if bytes_eqb pw (password_ s)
          then update_client fd set_authenticated;; mret ($"OK")
          else mret ($"ERR invalid password")
      | _ => mret (wrong_args $"AUTH")
      end
    else mret ($"NOAUTH Authentication required.")
  else
    world (λ w,
      let '(r, (_, w')) :=
        execute fd (Some (start_time_ s, size (clients_ s))) cmd (new_handler, w) in (r, w')).

(** What follows the parse of a complete command; [false] disconnects. *)
Definition handle_command (fd : Z) (cmd : Command) : SrvM bool :=
  s ← server;
  if (MAX_BUFFER <? Z.of_nat (length (read_buffer (client fd s))))%Z then mret false
  else if bytes_eqb (name cmd) $"QUIT" then send fd (simple_string $"OK");; mret false
  else
    response ← run_command fd cmd;
    send fd (serialize_response response).

(** ** The command loop of [process_client] *)

Fixpoint process_loop (fuel : nat) (fd : Z) : SrvM bool :=
  match fuel with
  | O => mret true
  | S f =>
      s ← server;
      let buffer := read_buffer (client fd s) in
      match buffer with
      | [] => mret true
      | _ =>
          let parse := parse_command buffer in
          if rp_protocol_error parse then
            send fd (error $"ERR Protocol error");; mret false
          else if rp_need_more parse then
            if 0 <? rp_bytes_consumed parse then
              update_client fd (set_buffer (drop (rp_bytes_consumed parse) buffer));;
              process_loop f fd
            else mret true
          else if negb (rp_ok parse) then mret true
          else
            update_client fd (set_buffer (drop (rp_bytes_consumed parse) buffer));;
            ok ← handle_command fd (rp_command parse);
            if ok : bool then process_loop f fd else mret false
      end
  end.

Definition process_client (fd : Z) : SrvM bool :=
  r ← world (net (socket_read fd READ_SIZE));
  match r with
  | ReadWouldBlock => mret true
  | ReadClosed | ReadError => mret false
  | ReadData data =>
      s ← server;
      let buffer := read_buffer (client fd s) ++ data in
      update_client fd (set_buffer buffer);;
      process_loop (S (length buffer)) fd
  end.

(** ** Connections *)

(** [peer] formats the address of an accepted socket. *)
Definition accept_client (peer : Z → bytes) : SrvM unit :=
  r ← world (net accept_socket);
  match r with
  | None => mret tt
  | Some fd =>
      world (net (set_nonblocking fd));;
      modify_server (with_clients_ (insert fd (mkClient [] (peer fd) false)))
  end.

Definition disconnect_client (fd : Z) : SrvM unit :=
  world (pubsub (on_pubsub (client_disconnected fd)));;
  world (net (close_socket fd));;
  modify_server (with_clients_ (delete fd)).

(** ** One round of the select loop *)

(** One client of the loop over [clients_], [ready] being the descriptors
    that [select] left in the set. *)
Definition process_ready (ready : gset Z) (to_disconnect : list Z) (fd : Z) : SrvM (list Z) :=
  if bool_decide (fd ∈ ready) then
    ok ← process_client fd;
    mret (if ok : bool then to_disconnect else to_disconnect ++ [fd])
  else mret to_disconnect.

(** The clients with input are processed, and those that are done for are
    disconnected afterwards. *)
Definition serve_clients (ready : gset Z) : SrvM unit :=
  s ← server;
  to_disconnect ← foldM (process_ready ready) [] (iter_fds (dom (clients_ s)));
  foldM (λ _ fd, disconnect_client fd) tt to_disconnect.

(** What follows a [select] that reported something. *)
Definition select_round (peer : Z → bytes) (listen_ready : bool) (ready : gset Z) : SrvM unit :=
  (if listen_ready then accept_client peer else mret tt);;
  serve_clients ready.

(** The store [running_ = false] of [Server::stop]. *)
Definition clear_running : SrvM unit :=
  modify_server (λ s, mkServer (clients_ s) (password_ s) false (start_time_ s)).

End Server.
