(* ===== verification/ServerFacts.v ===== *)
(** * The event loop: lemmas

    Code that runs on behalf of one client ([ClientCode]) touches no other
    client's state and keeps what commands promise; the command loop ends by
    itself; complete commands in the buffer are served in order. *)

From S2P Require Import Prelude CppString Parser Resp RespFacts Database DatabaseFacts.
From S2P Require Import DatabaseSpec Persistence Socket PubSub PubSubFacts CommandHandler CommandFacts.
From S2P Require Import CommandClaims Server.

Section Client.
Context {Net : Type} `{SocketApi Net} `{SteadyClock} `{HashOrder} `{Environ}.
Implicit Types (s : Server) (w : World Net) (fd : Z).

(** ** Effects on behalf of one client *)

Record client_step (fd : Z) (st st' : Server * World Net) : Prop := {
  cs_safe : safe_step fd (snd st) (snd st');
  cs_others : ∀ fd', fd' ≠ fd → clients_ (fst st') !! fd' = clients_ (fst st) !! fd';
  cs_stays : is_Some (clients_ (fst st) !! fd) → is_Some (clients_ (fst st') !! fd);
  cs_password : password_ (fst st') = password_ (fst st);
  cs_running : running_ (fst st') = running_ (fst st);
}.

Class ClientCode (fd : Z) {A} (m : SrvM A) : Prop := client_code : ∀ st, client_step fd st (snd (m st)).

Lemma client_step_refl fd st : client_step fd st st.
Proof. constructor; [apply safe_refl|done..]. Qed.

Lemma client_step_trans fd st1 st2 st3 :
  client_step fd st1 st2 → client_step fd st2 st3 → client_step fd st1 st3.
Proof.
  intros [S1 O1 E1 P1 R1] [S2 O2 E2 P2 R2]. constructor; [by eapply safe_trans| |auto|congruence..].
  intros fd' Hfd. by rewrite O2, O1.
Qed.

#[global] Instance ret_client fd {A} (a : A) : ClientCode fd (mret a).
Proof. intros st. apply client_step_refl. Qed.

#[global] Instance bind_client fd {A B} (m : SrvM A) (k : A → SrvM B) :
  ClientCode fd m → (∀ a, ClientCode fd (k a)) → ClientCode fd (m ≫= k).
Proof.
  intros Hm Hk st. specialize (Hm st). unfold mbind, state_bind.
  destruct (m st) as [a st1]. eapply client_step_trans; [done|apply Hk].
Qed.

#[global] Instance server_client fd : ClientCode fd server.
Proof. intros [s w]. apply client_step_refl. Qed.

#[global] Instance world_client fd {A} (m : WM Net A) : Safe fd m → ClientCode fd (world m).
Proof. intros Hm [s w]. unfold world. specialize (Hm w). destruct (m w) as [a w']. by constructor. Qed.

#[global] Instance update_client_code fd f : ClientCode fd (update_client fd f).
Proof.
  intros [s w]. constructor; [apply safe_refl| | |done|done]; cbn.
  - intros fd' Hfd. by rewrite lookup_insert_ne.
  - intros _. rewrite lookup_insert_eq. eauto.
Qed.

(** Socket reads and writes. *)
Lemma net_safe fd {A} (m : State Net A) :
  (∀ n a n', m n = (a, n') → open_fds n' = open_fds n) → Safe fd (net m).
Proof.
  intros Hm w. unfold net. destruct (m (w_net w)) as [a n'] eqn:E.
  constructor; [by exists []; constructor|done|done|by eapply Hm].
Qed.

#[global] Instance send_client fd fd' data : ClientCode fd (send fd' data).
Proof. apply world_client, net_safe. intros n a n' E. by apply send_response_run in E as (_ & _ & ?). Qed.

#[global] Instance read_client fd fd' len : ClientCode fd (world (net (socket_read fd' len))).
Proof. apply world_client, net_safe. intros n a n' E. by eapply read_open. Qed.

(** A fresh handler's execution of a command. *)
#[global] Instance execute_client fd info cmd :
  ClientCode fd (world (λ w, let '(r, (_, w')) := execute fd info cmd (new_handler, w) in (r, w'))).
Proof.
  apply world_client. intros w. pose proof (execute_safe fd info cmd new_handler w) as Hs.
  by destruct (execute _ _ _ _) as [r [h w']].
Qed.

#[global] Instance run_command_client fd cmd : ClientCode fd (run_command fd cmd).
Proof. unfold run_command. apply bind_client; [apply _|]. intros s. repeat case_match; apply _. Qed.

#[global] Instance handle_command_client fd cmd : ClientCode fd (handle_command fd cmd).
Proof. unfold handle_command. apply bind_client; [apply _|]. intros s. repeat case_match; apply _. Qed.

#[global] Instance process_loop_client fuel fd : ClientCode fd (process_loop fuel fd).
Proof.
  induction fuel as [|f IH]; cbn [process_loop]; [apply _|].
  apply bind_client; [apply _|]. intros s. cbv zeta. repeat case_match; try apply _.
  apply bind_client; [apply _|]. intros _. apply bind_client; [apply _|]. intros ok. by case_match; try apply _.
Qed.

#[global] Instance process_client_code fd : ClientCode fd (process_client fd).
Proof. unfold process_client. apply bind_client; [apply _|]. intros r. case_match; apply _. Qed.

(** ** Termination *)

Lemma update_client_run fd f s w :
  update_client fd f (s, w) = (tt, (with_clients_ (insert fd (f (client fd s))) s, w)).
Proof. done. Qed.

Lemma client_insert fd c s : client fd (with_clients_ (insert fd c) s) = c.
Proof. unfold client. cbn. by rewrite lookup_insert_eq. Qed.

(** Executing a command leaves the client's read buffer alone. *)
Lemma run_command_buffer fd cmd s w :
  read_buffer (client fd (fst (snd (run_command fd cmd (s, w))))) = read_buffer (client fd s).
Proof.
  unfold run_command, mbind, state_bind, server. cbn beta iota.
  repeat case_match; try done; unfold world in *; simplify_eq; try done.
  all: try (by destruct (execute _ _ _ _) as [r [h w']]; simplify_eq).
  rewrite update_client_run in *. simplify_eq. cbn [fst snd mret state_ret].
  by rewrite client_insert.
Qed.

Lemma handle_command_buffer fd cmd s w :
  read_buffer (client fd (fst (snd (handle_command fd cmd (s, w))))) = read_buffer (client fd s).
Proof.
  unfold handle_command, mbind, state_bind, server. cbn beta iota.
  case_match; [done|]. case_match.
  - unfold send, world. by destruct (net _ w).
  - pose proof (run_command_buffer fd cmd s w) as Hb. destruct (run_command fd cmd (s, w)) as [r [s1 w1]].
    unfold send, world. by destruct (net _ w1).
Qed.

(** More fuel changes nothing once it exceeds the size of the buffer. *)
Lemma process_loop_enough f f' fd s w :
  length (read_buffer (client fd s)) < f → length (read_buffer (client fd s)) < f' →
  process_loop f fd (s, w) = process_loop f' fd (s, w).
Proof.
  revert f' s w. induction f as [|f IH]; intros f' s w Hf Hf'; [lia|]. destruct f' as [|f']; [lia|].
  cbn [process_loop]. unfold mbind, state_bind, server. cbn beta iota zeta.
  set (b := read_buffer (client fd s)) in *. destruct b as [|c b'] eqn:Eb; [done|]. rewrite <- Eb in *.
  destruct (parse_command_cases b) as (_ & Hle & Hok).
  case_match; [done|]. case_match.
  - destruct (Nat.ltb_spec 0 (rp_bytes_consumed (parse_command b))); [|done].
    rewrite update_client_run. apply IH; rewrite client_insert; cbn [set_buffer read_buffer];
      rewrite length_drop; lia.
  - destruct (rp_ok (parse_command b)) eqn:Er; cbn [negb]; [|done]. rewrite update_client_run.
    set (s1 := with_clients_ _ s). pose proof (handle_command_buffer fd (rp_command (parse_command b)) s1 w) as Hb.
    destruct (handle_command fd _ (s1, w)) as [ok [s2 w2]]. cbn [fst snd] in Hb. destruct ok; [|done].
    specialize (Hok eq_refl). unfold s1 in Hb. rewrite client_insert in Hb. cbn [set_buffer read_buffer] in Hb.
    apply IH; rewrite Hb, length_drop; lia.
Qed.

(** ** Commands in sequence *)

(** The commands of a buffer, served one after the other: [rest] is what the
    buffer holds after each. *)
Fixpoint serve (fd : Z) (css : list (list bytes)) (tail : bytes) : SrvM bool :=
  match css with
  | [] => mret true
  | parts :: css' =>
      update_client fd (set_buffer (concat (map encode_command css') ++ tail));;
      ok ← handle_command fd (mkCommand (to_upper (default [] (head parts))) (List.tl parts));
      if ok : bool then serve fd css' tail else mret false
  end.

(** Commands a client library sends. *)
Definition sendable (parts : list bytes) : Prop :=
  parts ≠ [] ∧ (Z.of_nat (length parts) ≤ INT_MAX)%Z ∧ Forall (λ p, (Z.of_nat (length p) ≤ INT_MAX)%Z) parts.

Lemma parse_sendable parts rest :
  sendable parts →
  parse_command (encode_command parts ++ rest) =
  resp_ok (mkCommand (to_upper (default [] (head parts))) (List.tl parts)) (length (encode_command parts)).
Proof.
  intros (Hne & Hl & Hp). destruct parts as [|n ts]; [done|].
  exact (parse_resp_array_encode n ts rest Hl Hp).
Qed.

Lemma encode_command_cons parts : ∃ c r, encode_command parts = c :: r.
Proof. unfold encode_command, array. by eexists _, _. Qed.

(** An incomplete command, or nothing. *)
Definition incomplete (tail : bytes) : Prop := tail = [] ∨ parse_command tail = resp_need_more 0.

Lemma process_loop_serve css tail fd f s w :
  Forall sendable css → incomplete tail →
  read_buffer (client fd s) = concat (map encode_command css) ++ tail →
  length (read_buffer (client fd s)) < f →
  process_loop f fd (s, w) = serve fd css tail (s, w).
Proof.
  intros Hs Ht. revert f s w. induction Hs as [|parts css Hp _ IH]; intros f s w Hb Hf.
  - destruct f as [|f]; [lia|]. cbn [process_loop serve]. unfold mbind, state_bind, server. cbn beta iota zeta.
    rewrite Hb. cbn [map concat app]. destruct Ht as [->| Ht]; [done|].
    destruct tail; [done|]. by rewrite Ht.
  - destruct f as [|f]; [lia|]. cbn [process_loop serve]. unfold mbind, state_bind, server. cbn beta iota zeta.
    assert (read_buffer (client fd s) = encode_command parts ++ concat (map encode_command css) ++ tail) as Eb.
    { rewrite Hb. cbn [map concat]. by rewrite <- app_assoc. }
    rewrite Eb in *. rewrite (parse_sendable parts _ Hp). cbn [resp_ok rp_protocol_error rp_need_more rp_ok
      rp_bytes_consumed rp_command negb]. rewrite drop_app_length.
    destruct (encode_command_cons parts) as (c & r & Ec). rewrite Ec in *. cbn [app].
    rewrite update_client_run. set (s1 := with_clients_ _ s).
    set (cmd := mkCommand _ _).
    pose proof (handle_command_buffer fd cmd s1 w) as Hb1.
    destruct (handle_command fd cmd (s1, w)) as [ok [s2 w2]]. cbn [fst snd] in Hb1. destruct ok; [|done].
    unfold s1 in Hb1. rewrite client_insert in Hb1. cbn [set_buffer read_buffer] in Hb1.
    apply IH; [done|]. rewrite Hb1. rewrite length_app in Hf. cbn [length] in Hf. lia.
Qed.

End Client.
