(* ===== verification/ServerClaims.v ===== *)
(** * The event loop: theorems *)

From S2P Require Import Prelude CppString Parser Resp RespFacts Database DatabaseFacts.
From S2P Require Import DatabaseSpec DatabaseClaims Persistence Socket PubSub PubSubFacts PubSubClaims.
From S2P Require Import CommandHandler CommandFacts CommandClaims Server ServerFacts.

Section Invariant.
Context {Net : Type} `{SocketApi Net} `{SteadyClock} `{HashOrder} `{Environ}.
Context (peer : Z → bytes).
Implicit Types (s : Server) (w : World Net) (fd : Z).

(** ** The server invariant *)

(** The stores are consistent, every client's socket is open, and only
    connected clients are subscribed to anything. *)
Record srv_ok (st : Server * World Net) : Prop := {
  so_world : world_ok (snd st);
  so_open : ∀ fd, is_Some (clients_ (fst st) !! fd) → fd ∈ open_fds (w_net (snd st));
  so_subs : ∀ fd, chans (w_pubsub (snd st)) fd ≠ ∅ → is_Some (clients_ (fst st) !! fd);
}.

Lemma srv_ok_client fd st st' :
  client_step fd st st' → is_Some (clients_ (fst st) !! fd) → srv_ok st → srv_ok st'.
Proof.
  intros [[[ls Hls] Hps Hch Ho] Hoth Hst _ _] Hfd [[Hi Hp] Hop Hsub]. constructor.
  - split; [by apply (crun_inv _ _ _ Hls)|auto].
  - intros x Hx. rewrite Ho. apply Hop. destruct (decide (x = fd)) as [->|Hne]; [done|].
    by rewrite <- Hoth.
  - intros x Hx. destruct (decide (x = fd)) as [->|Hne]; [by apply Hst|]. rewrite Hoth by done.
    apply Hsub. intros E. apply Hx. pose proof (Hch Hp x Hne). set_solver.
Qed.

Lemma client_stays fd st st' x :
  client_step fd st st' → is_Some (clients_ (fst st) !! x) → is_Some (clients_ (fst st') !! x).
Proof.
  intros [_ Ho Hs _ _] Hx. destruct (decide (x = fd)) as [->|Hne]; [auto|]. by rewrite Ho.
Qed.

Lemma process_ready_ok ready acc l st :
  Forall (λ fd, is_Some (clients_ (fst st) !! fd)) l → srv_ok st →
  srv_ok (snd (foldM (process_ready ready) acc l st)).
Proof.
  revert acc st. induction l as [|fd l IH]; intros acc st Hl Hok; [done|].
  apply Forall_cons in Hl as [Hfd Hl]. rewrite foldM_cons. unfold process_ready at 1.
  case_bool_decide; [|by apply IH]. unfold mbind, state_bind.
  pose proof (process_client_code fd st) as Hc. destruct (process_client fd st) as [ok st1]. cbn [snd] in Hc.
  unfold mret, state_ret. apply IH; [|by eapply srv_ok_client].
  eapply Forall_impl; [done|]. intros x Hx. by eapply client_stays.
Qed.

Lemma disconnect_ok fd st : srv_ok st → srv_ok (snd (disconnect_client fd st)).
Proof.
  destruct st as [s w]. intros [[Hi Hp] Hop Hsub]. cbn [fst snd] in *.
  unfold disconnect_client, modify_server, mbind, state_bind, world, pubsub, on_pubsub, net. cbn beta iota zeta.
  destruct (client_disconnected_run fd (w_pubsub w) Hp) as (p' & -> & Hwf & Hc). cbn [w_net].
  destruct (close_socket fd (w_net w)) as [[] n] eqn:En. apply close_open in En. cbn [w_net w_pubsub].
  constructor; cbn [fst snd clients_ with_clients_ w_net w_pubsub].
  - by split.
  - intros x Hx. rewrite En. apply lookup_delete_is_Some in Hx as [Hne Hx]. apply Hop in Hx. set_solver.
  - intros x Hx. rewrite Hc in Hx. apply lookup_delete_is_Some. case_decide; [done|]. split; [done|]. by apply Hsub.
Qed.

Lemma disconnect_all_ok l st : srv_ok st → srv_ok (snd (foldM (λ _ fd, disconnect_client fd) tt l st)).
Proof.
  revert st. induction l as [|fd l IH]; intros st Hok; [done|]. rewrite foldM_cons.
  pose proof (disconnect_ok fd st Hok) as Hd. destruct (disconnect_client fd st) as [[] st1]. by apply IH.
Qed.

Lemma accept_run s w :
  srv_ok (s, w) →
  ∃ w', snd (snd (accept_client peer (s, w))) = w' ∧ dbs w' = dbs w ∧ w_pubsub w' = w_pubsub w ∧ w_files w' = w_files w ∧
    ((fst (snd (accept_client peer (s, w))) = s ∧ open_fds (w_net w') = open_fds (w_net w)) ∨
     ∃ fd, clients_ s !! fd = None ∧ chans (w_pubsub w) fd = ∅ ∧ (0 ≤ fd)%Z ∧ (fd ∉ open_fds (w_net w)) ∧
       fst (snd (accept_client peer (s, w))) = with_clients_ (insert fd (mkClient [] (peer fd) false)) s ∧
       open_fds (w_net w') = {[fd]} ∪ open_fds (w_net w)).
Proof.
  intros [_ Hop Hsub]. unfold accept_client, modify_server, mbind, state_bind, world, net. cbn beta iota zeta.
  destruct (accept_socket (w_net w)) as [r n] eqn:E. apply accept_open in E. destruct r as [fd|].
  - destruct E as (Hpos & Hn & Eo). cbn [w_net]. destruct (set_nonblocking fd n) as [b n'] eqn:Es.
    apply set_nonblocking_open in Es. cbn [fst snd]. eexists. split; [done|]. split_and!; [done..|]. right. exists fd.
    assert (clients_ s !! fd = None) as Hc.
    { destruct (clients_ s !! fd) eqn:Ec; [|done]. destruct Hn. apply Hop. cbn. eauto. }
    split_and!; [done| |done|done|done|cbn; congruence]. destruct (decide (chans (w_pubsub w) fd = ∅)) as [|Hne]; [done|].
    apply Hsub in Hne as [x Hx]. cbn in Hx. congruence.
  - cbn [fst snd mret state_ret]. eexists. split; [done|]. split_and!; [done..|]. by left.
Qed.

Lemma accept_ok st : srv_ok st → srv_ok (snd (accept_client peer st)).
Proof.
  destruct st as [s w]. intros Hok. destruct (accept_run s w Hok) as (w' & Ew & Hd & Hp & _ & Hcase).
  destruct Hok as [[Hi Hps] Hop Hsub]. cbn [fst snd] in *.
  destruct (accept_client peer (s, w)) as [[] [s1 w1]]. cbn [fst snd] in *. subst w1.
  constructor; cbn [fst snd].
  - split; [by rewrite Hd|by rewrite Hp].
  - intros x Hx. destruct Hcase as [[-> ->]|(fd & _ & _ & _ & _ & -> & ->)]; [by apply Hop|].
    cbn in Hx. apply lookup_insert_is_Some in Hx as [->|[_ Hx]]; [set_solver|].
    apply elem_of_union_r. by apply Hop.
  - intros x Hx. rewrite Hp in Hx. apply Hsub in Hx.
    destruct Hcase as [[-> _]|(fd & _ & _ & _ & _ & -> & _)]; [done|]. cbn. apply lookup_insert_is_Some'. by right.
Qed.

(** ** Reachable states *)

(** The rounds of the loop, the rounds of the expiry thread between them, the
    shutdown flag, and what happens on the network meanwhile. *)
Inductive reachable : Server * World Net → Prop :=
  | reach_init pw r t d fs n net :
      inv (d, n) → reachable (mkServer ∅ pw r t, mkWorld d fs n empty_pubsub net)
  | reach_round st listen_ready ready :
      reachable st → reachable (snd (select_round peer listen_ready ready st))
  | reach_expiry s w :
      reachable (s, w) → reachable (s, snd (db expiry_cycle w))
  | reach_stop st : reachable st → reachable (snd (clear_running st))
  | reach_net s w n :
      reachable (s, w) → open_fds n = open_fds (w_net w) →
      reachable (s, mkWorld (w_db w) (w_files w) (w_clock w) (w_pubsub w) n).

Lemma iter_clients (m : gmap Z ClientState) : Forall (λ fd, is_Some (m !! fd)) (iter_fds (dom m)).
Proof. apply Forall_forall. intros fd Hfd. rewrite iter_fds_perm in Hfd. by apply elem_of_dom, elem_of_elements. Qed.

Lemma serve_clients_ok ready st : srv_ok st → srv_ok (snd (serve_clients ready st)).
Proof.
  destruct st as [s w]. intros Hok. unfold serve_clients, mbind, state_bind, server. cbn beta iota.
  pose proof (process_ready_ok ready [] _ (s, w) (iter_clients (clients_ s)) Hok) as Hp.
  destruct (foldM (process_ready ready) [] _ (s, w)) as [dead st2]. by apply disconnect_all_ok.
Qed.

Lemma round_ok listen_ready ready st : srv_ok st → srv_ok (snd (select_round peer listen_ready ready st)).
Proof.
  intros Hok. unfold select_round, mbind, state_bind. set (m := if listen_ready then _ else _).
  assert (srv_ok (snd (m st))) as Hok1 by (subst m; destruct listen_ready; [by apply accept_ok|done]).
  destruct (m st) as [[] st1]. by apply serve_clients_ok.
Qed.

Lemma reachable_ok st : reachable st → srv_ok st.
Proof.
  induction 1 as [pw r t d fs n net0 Hi|st lr ready _ IH|s w _ IH|st _ IH|s w n _ IH Hn].
  - constructor; cbn; [split; [done|apply ps_wf_empty]|intros fd []; simplify_map_eq|done].
  - by apply round_ok.
  - destruct IH as [[Hi Hp] Hop Hsub]. unfold db. destruct (expiry_cycle (w_db w, w_clock w)) as [[] [d n]] eqn:E.
    constructor; cbn [fst snd] in *; [|done..]. split; [|done]. cbn.
    destruct (crun_one _ _ _ (c_cycle _ _ E)) as [ls Hls]. by apply (crun_inv _ _ _ Hls).
  - destruct st as [s w]. destruct IH as [Hw Hop Hsub]. by constructor.
  - destruct IH as [Hw Hop Hsub]. constructor; [done| |done]. cbn. by rewrite Hn.
Qed.

(** C9: the server's state stays consistent.  In every state the event loop
    can reach, with any clients, input, network failures, disconnections
    and rounds of the expiry thread: the store and pub/sub invariants hold,
    every connected client's socket is open, and no disconnected client is
    subscribed to a channel. *)
Theorem server_invariant st : reachable st → srv_ok st.
Proof. apply reachable_ok. Qed.

(** A new connection starts clean.  When the server accepts a client, also
    on a descriptor that an earlier client used, the client has an empty read
    buffer, is not authenticated, is subscribed to nothing, and no existing
    client is replaced. *)
Theorem fresh_connection st :
  reachable st →
  let st' := snd (accept_client peer st) in
  clients_ (fst st') = clients_ (fst st) ∨
  ∃ fd, clients_ (fst st) !! fd = None ∧
    clients_ (fst st') = <[fd := mkClient [] (peer fd) false]> (clients_ (fst st)) ∧
    chans (w_pubsub (snd st')) fd = ∅.
Proof.
  intros Hr st'.
  pose proof (reachable_ok st Hr) as Hok.
  destruct st as [s w]. destruct (accept_run s w Hok) as (w' & Ew & _ & Hp & _ & Hcase). subst st'.
  destruct (accept_client peer (s, w)) as [[] [s1 w1]]. cbn [fst snd] in *. subst w1.
  destruct Hcase as [[-> _]|(fd & Hn & Hc & _ & _ & -> & _)]; [by left|]. right. exists fd. split_and!; [done|done|by rewrite Hp].
Qed.

End Invariant.

(** ** Authentication *)

Section Auth.
Context {Net : Type} `{SocketApi Net} `{SteadyClock} `{HashOrder} `{Environ}.
Implicit Types (s : Server) (w : World Net) (fd : Z) (st : Server * World Net).

(** Everything but the network, and what was sent to other sockets. *)
Record untouched (fd : Z) (w w' : World Net) : Prop := {
  un_db : dbs w' = dbs w;
  un_files : w_files w' = w_files w;
  un_pubsub : w_pubsub w' = w_pubsub w;
  un_sent : ∀ fd', fd' ≠ fd → sent (w_net w') fd' = sent (w_net w) fd';
}.

Lemma untouched_refl fd w : untouched fd w w.
Proof. by constructor. Qed.

Lemma untouched_trans fd w1 w2 w3 : untouched fd w1 w2 → untouched fd w2 w3 → untouched fd w1 w3.
Proof. intros [D1 F1 P1 S1] [D2 F2 P2 S2]. constructor; [congruence..|]. intros x Hx. by rewrite S2, S1. Qed.

Lemma send_run fd data s w :
  ∃ b w', send fd data (s, w) = (b, (s, w')) ∧ untouched fd w w'.
Proof.
  unfold send, world, net. destruct (send_response fd data (w_net w)) as [b n] eqn:E.
  apply send_response_run in E as (_ & Ho & _). by do 2 eexists.
Qed.

Definition locked_out (fd : Z) (s : Server) : Prop := password_ s ≠ [] ∧ authenticated (client fd s) = false.

(** The only way through the gate is AUTH with the password. *)
Lemma run_command_locked_out fd cmd s w :
  locked_out fd s →
  ∃ r s', run_command fd cmd (s, w) = (r, (s', w)) ∧ password_ s' = password_ s ∧
    (authenticated (client fd s') = true ↔ name cmd = $"AUTH" ∧ args cmd = [password_ s]).
Proof.
  intros [Hp Ha]. unfold run_command, mbind, state_bind, server. cbn beta iota.
  rewrite (proj2 (bytes_eqb_neq _ _)), Ha by done. cbn [negb andb].
  destruct (bytes_eqb (name cmd) ($"AUTH")) eqn:En.
  - apply bytes_eqb_eq in En. destruct (args cmd) as [|pw [|x l]]; try (do 2 eexists; split; [reflexivity|]; split; [reflexivity|]; rewrite Ha; split; [done|by intros [_ ?]]).
    destruct (bytes_eqb pw (password_ s)) eqn:Epw.
    + apply bytes_eqb_eq in Epw as ->. rewrite update_client_run. do 2 eexists. split; [done|]. split; [done|].
      by rewrite client_insert.
    + apply bytes_eqb_neq in Epw. do 2 eexists. split; [done|]. split; [done|].
      rewrite Ha. split; [done|]. by intros [_ [= ?]].
  - apply bytes_eqb_neq in En. do 2 eexists. split; [done|]. split; [done|].
    rewrite Ha. split; [done|]. by intros [? _].
Qed.

(** Once authenticated, a client stays so. *)
Lemma run_command_auth fd cmd s w :
  authenticated (client fd s) = true →
  authenticated (client fd (fst (snd (run_command fd cmd (s, w))))) = true.
Proof.
  intros Ha. unfold run_command, mbind, state_bind, server. cbn beta iota.
  rewrite Ha. cbn [negb]. rewrite andb_false_r. unfold world. by destruct (execute _ _ _ _) as [r [h w']].
Qed.

Lemma handle_command_gate fd cmd s w b s' w' :
  handle_command fd cmd (s, w) = (b, (s', w')) →
  (authenticated (client fd s) = true → authenticated (client fd s') = true) ∧
  (locked_out fd s → authenticated (client fd s') = false →
   untouched fd w w' ∧ password_ s' = password_ s).
Proof.
  unfold handle_command, mbind, state_bind, server. cbn beta iota.
  case_match; [intros [= <- <- <-]; split; [done|]; split; [apply untouched_refl|done]|]. case_match.
  - destruct (send_run fd (simple_string ($"OK")) s w) as (b1 & w1 & -> & Hu). intros [= <- <- <-].
    split; [done|]. by split.
  - destruct (run_command fd cmd (s, w)) as [r [s1 w1]] eqn:E.
    destruct (send_run fd (serialize_response r) s1 w1) as (b1 & w2 & -> & Hu). intros [= <- <- <-]. split.
    + intros Ha. pose proof (run_command_auth fd cmd s w Ha) as Hr. by rewrite E in Hr.
    + intros Hl _. destruct (run_command_locked_out fd cmd s w Hl) as (r' & s1' & E' & Hpw & _).
      rewrite E in E'. by simplify_eq.
Qed.

(** Changing the read buffer does not touch the flag. *)
Lemma locked_out_buffer fd b s : locked_out fd s → locked_out fd (with_clients_ (insert fd (set_buffer b (client fd s))) s).
Proof. intros [Hp Ha]. split; [done|]. by rewrite client_insert. Qed.

Lemma process_loop_auth f fd s w :
  authenticated (client fd s) = true → authenticated (client fd (fst (snd (process_loop f fd (s, w))))) = true.
Proof.
  revert s w. induction f as [|f IH]; intros s w Ha; [done|]. cbn [process_loop].
  unfold mbind, state_bind, server. cbn beta iota zeta.
  destruct (read_buffer (client fd s)) as [|c b]; [done|]. set (buf := c :: b).
  case_match; [by destruct (send_run fd (error ($"ERR Protocol error")) s w) as (b1 & w1 & -> & _)|].
  case_match.
  - case_match; [|done]. rewrite update_client_run. apply IH. by rewrite client_insert.
  - case_match; [done|]. rewrite update_client_run. set (s1 := with_clients_ _ s).
    destruct (handle_command fd _ (s1, w)) as [ok [s2 w2]] eqn:E.
    apply handle_command_gate in E as [Hm _]. assert (authenticated (client fd s2) = true) as Ha2.
    { apply Hm. unfold s1. by rewrite client_insert. }
    destruct ok; [by apply IH|done].
Qed.

Lemma process_loop_locked f fd s w b s' w' :
  locked_out fd s → process_loop f fd (s, w) = (b, (s', w')) → authenticated (client fd s') = false → untouched fd w w'.
Proof.
  revert s w. induction f as [|f IH]; intros s w Hl; [intros [= <- <- <-] _; apply untouched_refl|].
  cbn [process_loop]. unfold mbind, state_bind, server. cbn beta iota zeta.
  destruct (read_buffer (client fd s)) as [|c buf']; [intros [= <- <- <-] _; apply untouched_refl|].
  set (buf := c :: buf').
  case_match.
  { destruct (send_run fd (error ($"ERR Protocol error")) s w) as (b1 & w1 & -> & Hu). by intros [= <- <- <-] _. }
  case_match.
  - case_match; [|intros [= <- <- <-] _; apply untouched_refl].
    rewrite update_client_run. intros E Ha. eapply IH; [by apply locked_out_buffer|done|done].
  - case_match; [intros [= <- <- <-] _; apply untouched_refl|]. rewrite update_client_run. intros E Ha.
    pose proof (locked_out_buffer fd (drop (rp_bytes_consumed (parse_command buf)) buf) s Hl) as Hl1.
    set (s1 := with_clients_ _ s) in *.
    destruct (handle_command fd _ (s1, w)) as [ok [s2 w2]] eqn:E2. apply handle_command_gate in E2 as [_ Hg].
    assert (authenticated (client fd s2) = false) as Ha2.
    { destruct ok; [|by injection E as <- <- <-]. destruct (authenticated (client fd s2)) eqn:Ea; [|done].
      pose proof (process_loop_auth f fd s2 w2 Ea) as Hm. rewrite E in Hm. cbn [fst snd] in Hm. congruence. }
    destruct (Hg Hl1 Ha2) as [Hu Hpw]. destruct ok; [|by injection E as <- <- <-].
    eapply untouched_trans; [done|]. eapply IH; [|done|done]. split; [rewrite Hpw; apply Hl1|done].
Qed.

(** C17: a client that has not authenticated can do nothing.  With a password
    set, if a client is unauthenticated before and after the server processes
    its input, whatever that input, then the database, the clock cursor, the
    files, the subscriptions and the output of every other client are
    unchanged. *)
Theorem auth_required fd s w b s' w' :
  password_ s ≠ [] → authenticated (client fd s) = false →
  process_client fd (s, w) = (b, (s', w')) → authenticated (client fd s') = false →
  untouched fd w w'.
Proof.
  intros Hp Ha. unfold process_client, mbind, state_bind, server, world, net. cbn beta iota zeta.
  destruct (socket_read fd READ_SIZE (w_net w)) as [r n] eqn:E.
  set (w1 := mkWorld _ _ _ _ n).
  assert (untouched fd w w1) as Hu by (constructor; [done..|]; intros; by eapply read_sent).
  destruct r as [data| | |]; [|by intros [= <- <- <-] _..].
  rewrite update_client_run. intros El Ha'. eapply untouched_trans; [done|].
  eapply process_loop_locked; [|done|done]. apply locked_out_buffer. by split.
Qed.

(** The gate opens for the password only.  The command that authenticates
    a locked-out client is AUTH with exactly the configured password; every
    other command leaves it locked out, and none of them changes the world. *)
Theorem auth_needs_password fd cmd s w :
  password_ s ≠ [] → authenticated (client fd s) = false →
  ∃ r s', run_command fd cmd (s, w) = (r, (s', w)) ∧
    (authenticated (client fd s') = true ↔ name cmd = $"AUTH" ∧ args cmd = [password_ s]).
Proof.
  intros Hp Ha. destruct (run_command_locked_out fd cmd s w) as (r & s' & E & _ & Hiff); [by split|]. by exists r, s'.
Qed.

(** ** Commands *)

(** C39: over a connection, transactions do not work.  The server builds a new
    handler for every command, so MULTI is answered OK and forgotten, and
    EXEC is answered with an error and runs nothing, for every client that is
    past the gate and not in subscription mode, whatever was sent before. *)
Theorem transactions_lost fd s w :
  password_ s = [] ∨ authenticated (client fd s) = true → chans (w_pubsub w) fd = ∅ →
  run_command fd (plain_command ($"MULTI")) (s, w) = ($"OK", (s, w)) ∧
  run_command fd (plain_command ($"EXEC")) (s, w) = ($"ERR EXEC without MULTI", (s, w)).
Proof.
  intros Hg Hc.
  assert (negb (bytes_eqb (password_ s) []) && negb (authenticated (client fd s)) = false) as Hgate.
  { destruct Hg as [->| ->]; [done|]. by rewrite andb_false_r. }
  assert (in_subscription_mode fd w = false) as Hs.
  { unfold in_subscription_mode. rewrite is_subscribed_chans, bool_decide_eq_true_2; done. }
  unfold run_command, mbind, state_bind, server. cbn beta iota. rewrite Hgate.
  unfold world, execute. rewrite Hs. done.
Qed.

(** C22: pipelining.  When the unprocessed bytes of a client are the RESP
    encodings of commands followed by an incomplete command, one call of
    [process_client] serves exactly those commands in order, each with the
    remaining bytes in the buffer, and keeps the incomplete one, however
    the stream was cut into reads. *)
Theorem pipelining fd s w data n css tail :
  socket_read fd READ_SIZE (w_net w) = (ReadData data, n) →
  read_buffer (client fd s) ++ data = concat (map encode_command css) ++ tail →
  Forall sendable css → incomplete tail →
  let w1 := mkWorld (w_db w) (w_files w) (w_clock w) (w_pubsub w) n in
  let s1 := with_clients_ (insert fd (set_buffer (read_buffer (client fd s) ++ data) (client fd s))) s in
  process_client fd (s, w) = serve fd css tail (s1, w1).
Proof.
  intros Er Eb Hs Ht w1 s1. unfold process_client, mbind, state_bind, server, world, net. cbn beta iota zeta.
  rewrite Er, update_client_run. apply process_loop_serve; [done|done| |]; subst s1.
  - by rewrite client_insert.
  - rewrite client_insert. cbn [set_buffer read_buffer]. lia.
Qed.

(** The command loop terminates.  Every iteration that continues has
    consumed input, so one more round than the buffer has bytes is enough:
    any larger number of rounds gives the same result. *)
Theorem process_loop_terminates fd s w rounds :
  length (read_buffer (client fd s)) < rounds →
  process_loop rounds fd (s, w) = process_loop (S (length (read_buffer (client fd s)))) fd (s, w).
Proof. intros Hr. apply process_loop_enough; lia. Qed.

End Auth.

(** ** Instances *)

Definition demo_peer_addr (fd : Z) : bytes := $"127.0.0.1:" ++ to_string fd.

Definition demo_init : Server * World DemoNet := (mkServer ∅ [] true 0, demo_world).

(** One client connected on socket 7. *)
Definition demo_server (pw : bytes) : Server := mkServer {[ 7%Z := mkClient [] [] false ]} pw true 0.

Definition demo_input (input : bytes) : World DemoNet :=
  mkWorld (demo_db 9000000000) ∅ 0 empty_pubsub (mkNet ∅ {[ 7%Z := input ]} {[ 7%Z ]} ∅).

Lemma demo_reachable : @reachable DemoNet demo_sockets demo_clock gmap_order demo_env demo_peer_addr demo_init.
Proof. apply (@reach_init DemoNet demo_sockets demo_clock gmap_order demo_env). apply demo_world_ok. Qed.

Lemma server_invariant_witness :
  @srv_ok DemoNet demo_sockets demo_clock
    (snd (@select_round DemoNet demo_sockets demo_clock gmap_order demo_env demo_peer_addr true ∅ demo_init)).
Proof.
  apply (@server_invariant DemoNet demo_sockets demo_clock gmap_order demo_env demo_peer_addr).
  apply (@reach_round DemoNet demo_sockets demo_clock gmap_order demo_env demo_peer_addr).
  exact demo_reachable.
Defined.

Lemma fresh_connection_witness :
  let st' := snd (@accept_client DemoNet demo_sockets demo_peer_addr demo_init) in
  clients_ (fst st') = clients_ (fst demo_init) ∨
  ∃ fd, clients_ (fst demo_init) !! fd = None ∧
    clients_ (fst st') = <[fd := mkClient [] (demo_peer_addr fd) false]> (clients_ (fst demo_init)) ∧
    chans (w_pubsub (snd st')) fd = ∅.
Proof.
  apply (@fresh_connection DemoNet demo_sockets demo_clock gmap_order demo_env demo_peer_addr demo_init).
  exact demo_reachable.
Defined.

(** FLUSHDB from a client that has not authenticated. *)
Lemma auth_required_witness :
  let st := (demo_server ($"secret"), demo_input ($"FLUSHDB" ++ CRLF)) in
  @untouched DemoNet demo_sockets 7 (snd st)
    (snd (snd (@process_client DemoNet demo_sockets demo_clock gmap_order demo_env 7 st))).
Proof.
  intros st. destruct (@process_client DemoNet demo_sockets demo_clock gmap_order demo_env 7 st) as [b [s' w']] eqn:E.
  apply (@auth_required DemoNet demo_sockets demo_clock gmap_order demo_env 7 (demo_server ($"secret"))
    (demo_input ($"FLUSHDB" ++ CRLF)) b s' w'); [discriminate|reflexivity|exact E|].
  apply (f_equal (λ x, authenticated (client 7 (fst (snd x))))) in E. cbn [fst snd] in E. rewrite <- E.
  vm_compute. reflexivity.
Defined.

Lemma auth_needs_password_witness :
  ∃ r s', @run_command DemoNet demo_sockets demo_clock gmap_order demo_env 7 (mkCommand ($"AUTH") [$"wrong"])
      (demo_server ($"secret"), demo_world) = (r, (s', demo_world)) ∧
    authenticated (client 7 s') = false.
Proof.
  destruct (@auth_needs_password DemoNet demo_sockets demo_clock gmap_order demo_env 7
    (mkCommand ($"AUTH") [$"wrong"]) (demo_server ($"secret")) demo_world) as (r & s' & E & Hiff);
    [discriminate|reflexivity|]. exists r, s'. split; [exact E|].
  destruct (authenticated (client 7 s')); [|reflexivity]. exfalso.
  destruct (proj1 Hiff eq_refl) as [_ Ea]. discriminate Ea.
Defined.

Lemma transactions_lost_witness :
  let st := (demo_server [], demo_world) in
  @run_command DemoNet demo_sockets demo_clock gmap_order demo_env 7 (plain_command ($"MULTI")) st = ($"OK", st) ∧
  @run_command DemoNet demo_sockets demo_clock gmap_order demo_env 7 (plain_command ($"EXEC")) st =
    ($"ERR EXEC without MULTI", st).
Proof.
  apply (@transactions_lost DemoNet demo_sockets demo_clock gmap_order demo_env 7 (demo_server []) demo_world);
    [left; reflexivity|reflexivity].
Defined.

(** Two commands and the beginning of a third in one read. *)
Lemma pipelining_witness :
  let css := [[$"SET"; $"a"; $"1"]; [$"GET"; $"a"]] in
  let input := concat (map encode_command css) ++ $"*1" in
  let w1 := mkWorld (demo_db 9000000000) ∅ 0 empty_pubsub
              (snd (demo_read 7 READ_SIZE (w_net (demo_input input)))) in
  let s1 := with_clients_ (insert 7%Z (set_buffer input (client 7 (demo_server [])))) (demo_server []) in
  @process_client DemoNet demo_sockets demo_clock gmap_order demo_env 7 (demo_server [], demo_input input) =
  @serve DemoNet demo_sockets demo_clock gmap_order demo_env 7 css ($"*1") (s1, w1).
Proof.
  intros css input w1 s1.
  apply (@pipelining DemoNet demo_sockets demo_clock gmap_order demo_env 7 (demo_server []) (demo_input input)
    input _ css ($"*1")).
  - vm_compute. reflexivity.
  - reflexivity.
  - repeat apply Forall_cons_2; try apply Forall_nil_2;
      (split; [discriminate|split; [vm_compute; discriminate|]]);
      repeat apply Forall_cons_2; try apply Forall_nil_2; vm_compute; discriminate.
  - right. vm_compute. reflexivity.
Defined.

Lemma process_loop_terminates_witness :
  let st := (demo_server [], demo_world) in
  @process_loop DemoNet demo_sockets demo_clock gmap_order demo_env 1000 7 st =
  @process_loop DemoNet demo_sockets demo_clock gmap_order demo_env 1 7 st.
Proof.
  apply (@process_loop_terminates DemoNet demo_sockets demo_clock gmap_order demo_env 7 (demo_server []) demo_world 1000).
  vm_compute. lia.
Defined.
