(* ===== verification/ReplyClaims.v ===== *)
(** * One reply per command

    The server answers every command with exactly the number of RESP2 values
    the protocol prescribes: one, or one per channel for SUBSCRIBE and
    UNSUBSCRIBE.  [OneReply] states it for handler code and is resolved
    structurally, like [Safe]; [KeepsNet] says that code writes to no socket. *)

From S2P Require Import Prelude CppString Parser Resp RespFacts Frames Database.
From S2P Require Import DatabaseSpec ExpiryThread Persistence Socket PubSub PubSubFacts PubSubClaims.
From S2P Require Import CommandHandler CommandFacts CommandClaims Server ServerFacts ServerClaims.

Abbreviation no_LF := (Forall (λ c : ascii, c ≠ LF)).

(** The text is sent as [n] well-formed values. *)
Definition answers (n : nat) (r : bytes) : Prop :=
  ∃ fs, serialize_response r = concat (map encode fs) ∧ forallb frame_ok fs = true ∧ length fs = n.

(** The values a command is answered with. *)
Definition reply_count (cmd : Command) : nat :=
  if bytes_eqb (name cmd) $"SUBSCRIBE" || bytes_eqb (name cmd) $"UNSUBSCRIBE" then length (args cmd) else 1.

(** No line feed in what the reply echoes: the name of the command, the
    argument of PING and CONFIG, the channels of (UN)SUBSCRIBE (which names
    some). *)
Definition plain (cmd : Command) : Prop :=
  no_LF (name cmd) ∧
  (name cmd ∈ [$"PING"; $"CONFIG"; $"SUBSCRIBE"; $"UNSUBSCRIBE"] → Forall no_LF (args cmd)) ∧
  (name cmd ∈ [$"SUBSCRIBE"; $"UNSUBSCRIBE"] → args cmd ≠ []).

(** ** Texts *)

Lemma answers_one r : (∃ f, serialize_response r = encode f ∧ frame_ok f = true) → answers 1 r.
Proof. intros (f & E & Hf). exists [f]. cbn [map concat forallb length]. by rewrite E, app_nil_r, Hf. Qed.

Lemma answers_line r : no_LF r → answers 1 r.
Proof. intros Hr. by apply answers_one, serialize_line_reply. Qed.

Lemma answers_text r : is_error r = false → is_push r = false → answers 1 r.
Proof. intros He Hp. apply answers_one, serialize_single; [|done]. intros E. congruence. Qed.

Lemma no_LF_app a b : no_LF a → no_LF b → no_LF (a ++ b).
Proof. intros. by apply Forall_app. Qed.

(** Literals have no line feed. *)
Ltac line_solver :=
  lazymatch goal with
  | |- no_LF (_ ++ _) => apply no_LF_app; line_solver
  | |- no_LF (to_string _) => apply to_string_no_LF
  | |- no_LF (if ?b then _ else _) => destruct b; line_solver
  | |- no_LF ?t => first [assumption | apply (bool_decide_unpack _); vm_compute; reflexivity]
  end.

Lemma answers_integer n : answers 1 (integer_text n).
Proof. apply answers_line. unfold integer_text. line_solver. Qed.

Lemma answers_optional v : answers 1 (optional_text v).
Proof.
  destruct v as [v|]; [|apply answers_line; line_solver]. apply answers_one. exists (FBulk v).
  split; [apply serialize_quoted|done].
Qed.

Lemma answers_list l : answers 1 (numbered_list l).
Proof.
  destruct l as [|x l]; [apply answers_line; line_solver|]. rewrite numbered_list_cons. by apply answers_text.
Qed.

(** The text of INFO. *)
Lemma answers_info s t : answers 1 (line ("#"%char :: s) ++ t).
Proof.
  apply answers_text; unfold is_error, is_push; cbn [app line]; cbn [lit String.list_ascii_of_string];
    by rewrite !has_prefix_head.
Qed.

Lemma join_lines_cons l ls : ∃ t, join_lines (l :: ls) = l ++ t.
Proof. destruct ls as [|x ls]; [exists []; by rewrite app_nil_r|]. by eexists. Qed.

(** The confirmations of a subscription are one value per channel. *)
Lemma answers_results verb results :
  (verb = $"subscribe" ∨ verb = $"unsubscribe") → results ≠ [] → Forall (λ r, no_LF (fst r)) results →
  answers (length results) (results_text verb results).
Proof.
  intros Hv Hne Hr. unfold results_text. set (g := λ '(ch, n), verb ++ $" " ++ ch ++ $" " ++ to_string n).
  assert (is_push (join_lines (map g results)) = true) as Hp.
  { destruct results as [|[ch n] rs]; [done|]. cbn [map]. destruct (join_lines_cons (g (ch, n)) (map g rs)) as [t ->].
    unfold g. rewrite <- !app_assoc. destruct Hv as [-> | ->]; by vm_compute. }
  destruct (serialize_body_push serialize_response _ Hp) as (fs & E & Hfs & Hlen). exists fs.
  rewrite serialize_unfold. split_and!; [done|done|]. rewrite Hlen, getlines_join; [by rewrite length_map|].
  apply Forall_map. eapply Forall_impl; [done|]. intros [ch n] Hch. cbn [fst] in Hch. unfold g. split.
  - destruct Hv as [-> | ->]; line_solver.
  - by destruct Hv as [-> | ->].
Qed.

(** ** Confirmations *)

(** The confirmations name the channels in order. *)
Lemma subscribe_replies_fst cur chs : (subscribe_replies cur chs).*1 = chs.
Proof. revert cur. induction chs as [|c chs IH]; intros cur; [done|]. cbn. by rewrite IH. Qed.

Lemma unsubscribe_replies_fst cur chs : (unsubscribe_replies cur chs).*1 = chs.
Proof. revert cur. induction chs as [|c chs IH]; intros cur; [done|]. cbn. by rewrite IH. Qed.

Lemma subscribe_channels fd chs p rs p' : subscribe fd chs p = (rs, p') → rs.*1 = chs.
Proof.
  unfold subscribe. destruct (subscribe_fold fd chs [] p) as (p1 & -> & _). intros [= <- <-].
  apply subscribe_replies_fst.
Qed.

Lemma unsubscribe_channels `{HashOrder} fd chs p rs p' : chs ≠ [] → unsubscribe fd chs p = (rs, p') → rs.*1 = chs.
Proof.
  intros Hne. unfold unsubscribe, mbind, state_bind, get_st. cbn beta iota zeta. destruct chs as [|c l]; [done|].
  destruct (unsubscribe_fold fd (c :: l) [] p) as (p1 & -> & _). intros [= <- <-].
  apply (unsubscribe_replies_fst (chans p fd) (c :: l)).
Qed.

(** ** Handlers *)

Section Handlers.
Context {Net : Type} `{SocketApi Net} `{SteadyClock} `{HashOrder} `{Environ}.
Context (client_fd_ : Z) (server_ : option (Z * nat)).
Implicit Types (w : World Net).

Class OneReply (m : WM Net bytes) : Prop := one_reply : ∀ w, answers 1 (fst (m w)).

(** Code that reads and writes no socket. *)
Class KeepsNet {A} (m : WM Net A) : Prop := keeps_net : ∀ w, w_net (snd (m w)) = w_net w.

Lemma ret_one r : answers 1 r → OneReply (mret r).
Proof. intros Hr w. exact Hr. Qed.
#[local] Instance bind_one {A} (m : WM Net A) k : (∀ a, OneReply (k a)) → OneReply (m ≫= k).
Proof. intros Hk w. unfold mbind, state_bind. destruct (m w) as [a w']. apply Hk. Qed.

#[local] Instance ret_keeps {A} (a : A) : KeepsNet (mret a).
Proof. by intros w. Qed.
#[local] Instance bind_keeps {A B} (m : WM Net A) (k : A → WM Net B) :
  KeepsNet m → (∀ a, KeepsNet (k a)) → KeepsNet (m ≫= k).
Proof.
  intros Hm Hk w. unfold mbind, state_bind. specialize (Hm w). destruct (m w) as [a w'].
  by rewrite (Hk a w').
Qed.
#[local] Instance db_keeps {A} (m : DbM A) : KeepsNet (db m).
Proof. intros w. unfold db. by destruct (m _) as [a [d n]]. Qed.
#[local] Instance call_keeps {A} (m : DbM A) : KeepsNet (call m).
Proof. unfold call. apply _. Qed.
#[local] Instance pers_keeps {A} (m : PersM A) : KeepsNet (pers m).
Proof. intros w. unfold pers. by destruct (m _) as [a [[d fs] n]]. Qed.
#[local] Instance pubsub_keeps {A} (m : PubM A) : KeepsNet (pubsub (on_pubsub m)).
Proof. intros w. unfold pubsub, on_pubsub. by destruct (m _) as [a p]. Qed.

Ltac unfold_handlers := unfold handle_ping, handle_set, handle_get, handle_del, handle_exists, handle_keys,
  handle_dbsize, handle_flushdb, handle_expire, handle_ttl, handle_persist, handle_lpush, handle_rpush, handle_push,
  handle_lpop, handle_rpop, handle_pop, handle_lrange, handle_llen, handle_lindex, handle_config, handle_info,
  info_server.

Ltac one_solver :=
  lazymatch goal with
  | |- OneReply (_ ≫= _) => apply bind_one; intros; one_solver
  | |- OneReply (mret _) => apply ret_one; one_solver
  | |- OneReply (match _ with _ => _ end) => case_match; one_solver
  | |- answers 1 (integer_text _) => apply answers_integer
  | |- answers 1 (optional_text _) => apply answers_optional
  | |- answers 1 (numbered_list _) => apply answers_list
  | |- answers 1 (if _ then _ else _) => case_match; one_solver
  | |- answers 1 (line _ ++ _) => apply answers_info
  | |- answers 1 _ => apply answers_line; line_solver
  end.

(** PING and CONFIG echo an argument. *)
Lemma ping_answers cmd w : Forall no_LF (args cmd) → answers 1 (fst (handle_ping cmd w)).
Proof.
  intros Ha. unfold handle_ping. destruct (args cmd) as [|a l]; apply answers_line; [line_solver|].
  by apply Forall_cons in Ha as [Ha _].
Qed.

Lemma to_upper_no_LF s : no_LF s → no_LF (to_upper s).
Proof.
  intros Hs. apply Forall_map. eapply Forall_impl; [done|]. intros c Hc E. apply Hc.
  apply byte_val_inj. apply (f_equal byte_val) in E. unfold toupper in E.
  destruct ((97 <=? byte_val c) && (byte_val c <=? 122))%Z eqn:Er; [|done].
  rewrite byte_val_of in E. change (byte_val LF) with 10%Z in E. rewrite Z.mod_small in E by lia. lia.
Qed.

Lemma config_answers cmd w : Forall no_LF (args cmd) → answers 1 (fst (handle_config (Net := Net) cmd w)).
Proof.
  intros Ha. unfold handle_config. destruct (args cmd) as [|sub l]; [apply answers_line; line_solver|].
  apply Forall_cons in Ha as [Hs Hl]. apply to_upper_no_LF in Hs. cbv zeta.
  destruct (bytes_eqb (to_upper sub) ($"GET")).
  { destruct l as [|param [|]]; try (apply answers_line; line_solver).
    destruct (existsb _ _); [|apply answers_line; line_solver].
    change (join_lines [list_line 1 param; list_line 2 []]) with (numbered_list [param; []]). apply answers_list. }
  destruct (bytes_eqb (to_upper sub) ($"SET")); [by destruct l as [|? [|? [|]]]; apply answers_line; line_solver|].
  apply answers_line. unfold mret, state_ret. cbn [fst]. line_solver.
Qed.

(** SUBSCRIBE and UNSUBSCRIBE confirm each channel. *)
Lemma subscribe_answers cmd w :
  args cmd ≠ [] → Forall no_LF (args cmd) →
  answers (length (args cmd)) (fst (handle_subscribe (Net := Net) client_fd_ cmd w)).
Proof.
  intros Hne Ha. unfold handle_subscribe. destruct (args cmd) as [|c l] eqn:E; [done|]. rewrite <- E in *.
  unfold mbind, state_bind, pubsub, on_pubsub. destruct (subscribe client_fd_ (args cmd) (w_pubsub w)) as [rs p] eqn:Er.
  cbn [fst snd mret state_ret]. apply subscribe_channels in Er. rewrite <- Er, length_fmap.
  apply answers_results; [by left|by intros ->; rewrite <- Er in Hne|]. by rewrite <- Er, Forall_fmap in Ha.
Qed.

Lemma unsubscribe_answers cmd w :
  args cmd ≠ [] → Forall no_LF (args cmd) →
  answers (length (args cmd)) (fst (handle_unsubscribe (Net := Net) client_fd_ cmd w)).
Proof.
  intros Hne Ha. unfold handle_unsubscribe.
  unfold mbind, state_bind, pubsub, on_pubsub. destruct (unsubscribe client_fd_ (args cmd) (w_pubsub w)) as [rs p] eqn:Er.
  cbn [fst snd mret state_ret]. apply unsubscribe_channels in Er; [|done]. rewrite <- Er, length_fmap.
  apply answers_results; [by right|by intros ->; rewrite <- Er in Hne|]. by rewrite <- Er, Forall_fmap in Ha.
Qed.

Lemma watch_fold_net ks h w : w_net (snd (snd (foldM watch_one tt ks (h, w)))) = w_net w.
Proof.
  revert h w. induction ks as [|k ks IH]; intros h w; [done|]. rewrite foldM_cons.
  unfold watch_one at 1, on_world, self, set_self, mbind, state_bind. cbn beta iota zeta.
  pose proof (db_keeps (watch_key k) w) as Hk. destruct (db (watch_key k) w) as [snap w1]. cbn beta iota zeta.
  by rewrite IH.
Qed.

(** One entry of the dispatch table answers its commands. *)
Definition entry_answers (cmd : Command) (nh : bytes * (Command → WM Net bytes)) : Prop :=
  name cmd = nh.1 → ∀ w, answers (reply_count cmd) (fst (nh.2 cmd w)).

Lemma handlers_answer cmd : plain cmd → Forall (entry_answers cmd) (handlers client_fd_ server_).
Proof.
  intros (_ & Hecho & Hchan).
  assert (∀ n, name cmd = n → n ≠ $"SUBSCRIBE" → n ≠ $"UNSUBSCRIBE" → reply_count cmd = 1) as Hone.
  { intros n Hn Hs Hu. unfold reply_count. by rewrite Hn, !(proj2 (bytes_eqb_neq _ _)). }
  repeat apply Forall_cons_2; try apply Forall_nil_2; intros Hn; cbn [fst snd] in *;
    try (rewrite (Hone _ Hn) by done).
  1: intros w; apply ping_answers, Hecho; rewrite Hn; by left.
  11: { intros w. unfold handle_save. apply (bind_one (db background)). intros _. apply (bind_one (pers _)).
        intros []; apply ret_one, answers_line; line_solver. }
  18: intros w; unfold reply_count; rewrite Hn; apply subscribe_answers; [apply Hchan|apply Hecho]; rewrite Hn; set_solver.
  18: intros w; unfold reply_count; rewrite Hn; apply unsubscribe_answers; [apply Hchan|apply Hecho]; rewrite Hn; set_solver.
  19: intros w; apply config_answers, Hecho; rewrite Hn; set_solver.
  all: match goal with |- ∀ w, answers 1 (fst (?h w)) => change (OneReply h) end;
    unfold handle_publish; unfold_handlers; one_solver.
Qed.

Lemma dispatch_answers cmd w : plain cmd → answers (reply_count cmd) (fst (execute_single client_fd_ server_ cmd w)).
Proof.
  intros Hp. pose proof (handlers_answer cmd Hp) as Hall. unfold execute_single.
  assert (Forall (λ nh, bytes_eqb (name cmd) nh.1 = false) (handlers client_fd_ server_) → reply_count cmd = 1) as Hone.
  { intros Hne. unfold reply_count. rewrite Forall_forall in Hne.
    pose proof (Hne ($"SUBSCRIBE", handle_subscribe client_fd_) ltac:(unfold handlers; set_solver)) as Hs.
    pose proof (Hne ($"UNSUBSCRIBE", handle_unsubscribe client_fd_) ltac:(unfold handlers; set_solver)) as Hu.
    cbn [fst] in Hs, Hu. by rewrite Hs, Hu. }
  revert Hone. induction Hall as [|[n h] l Hh _ IH]; intros Hone; cbn [dispatch].
  - rewrite Hone by done. apply answers_line. destruct Hp as [Hp _]. unfold mret, state_ret. cbn [fst]. line_solver.
  - destruct (bytes_eqb (name cmd) n) eqn:E; [apply Hh; by apply bytes_eqb_eq|].
    apply IH. intros Hl. apply Hone. by constructor.
Qed.

(** Only PUBLISH writes to sockets. *)
Lemma handlers_keep :
  Forall (λ nh, nh.1 = $"PUBLISH" ∨ ∀ cmd, KeepsNet (nh.2 cmd)) (handlers client_fd_ server_).
Proof.
  repeat apply Forall_cons_2; try apply Forall_nil_2; cbn [fst snd];
    first [by left | right; intros cmd].
  12: intros w; apply (bind_keeps (db background)); apply _.
  all: unfold handle_subscribe, handle_unsubscribe; unfold_handlers; repeat case_match; apply _.
Qed.

Lemma publish_sent cmd w :
  ps_wf (w_pubsub w) → chans (w_pubsub w) client_fd_ = ∅ →
  sent (w_net (snd (handle_publish cmd w))) client_fd_ = sent (w_net w) client_fd_.
Proof.
  intros Hwf Hc. unfold handle_publish. destruct (args cmd) as [|ch [|msg [|]]]; try done.
  unfold mbind, state_bind, pubsub.
  destruct (publish ch msg (w_pubsub w, w_net w)) as [k [p' n']] eqn:E. apply publish_frame in E as [Ho _].
  cbn [snd mret state_ret w_net]. apply Ho. intros Hin. apply (ps_mirror _ Hwf) in Hin. by rewrite Hc in Hin.
Qed.

Lemma execute_publish cmd : name cmd = $"PUBLISH" → execute_single client_fd_ server_ cmd = handle_publish cmd.
Proof. intros Hn. unfold execute_single, handlers. cbn [dispatch]. by rewrite Hn. Qed.

Lemma execute_single_net cmd w :
  name cmd ≠ $"PUBLISH" → w_net (snd (execute_single client_fd_ server_ cmd w)) = w_net w.
Proof.
  intros Hn. unfold execute_single. induction handlers_keep as [|[n h] l Hh _ IH]; cbn [dispatch]; [done|].
  destruct (bytes_eqb (name cmd) n) eqn:E; [|done]. apply bytes_eqb_eq in E as <-.
  destruct Hh as [?|Hh]; [done|]. exact (Hh cmd w).
Qed.

(** A command writes nothing to its own client, unless that client is among
    the receivers of its PUBLISH. *)
Lemma execute_single_sent cmd w :
  ps_wf (w_pubsub w) → name cmd ≠ $"PUBLISH" ∨ chans (w_pubsub w) client_fd_ = ∅ →
  sent (w_net (snd (execute_single client_fd_ server_ cmd w))) client_fd_ = sent (w_net w) client_fd_.
Proof.
  intros Hwf Hc. destruct (decide (name cmd = $"PUBLISH")) as [Hn|Hn]; [|by rewrite execute_single_net].
  destruct Hc as [|Hc]; [done|]. rewrite execute_publish by done. by apply publish_sent.
Qed.

(** A command on a new handler. *)
Lemma execute_new_answers cmd w :
  ps_wf (w_pubsub w) → plain cmd →
  let '(r, (_, w')) := execute client_fd_ server_ cmd (new_handler, w) in
  answers (reply_count cmd) r ∧ sent (w_net w') client_fd_ = sent (w_net w) client_fd_.
Proof.
  intros Hwf Hp.
  assert (∀ n, name cmd = n → n ≠ $"SUBSCRIBE" → n ≠ $"UNSUBSCRIBE" → reply_count cmd = 1) as Hone.
  { intros n Hn Hs Hu. unfold reply_count. by rewrite Hn, !(proj2 (bytes_eqb_neq _ _)). }
  unfold execute. destruct (in_subscription_mode client_fd_ w && negb (allowed_in_subscription (name cmd))) eqn:Eg.
  { apply andb_true_iff in Eg as [_ Ha]. unfold allowed_in_subscription in Ha.
    rewrite negb_true_iff, !orb_false_iff, !bytes_eqb_neq in Ha. rewrite (Hone (name cmd)) by naive_solver.
    split; [|done]. apply answers_line. destruct Hp as [Hp _]. unfold subscription_error. line_solver. }
  destruct (bytes_eqb (name cmd) ($"MULTI")) eqn:E1; [apply bytes_eqb_eq in E1; rewrite (Hone _ E1) by done;
    split; [apply answers_line; line_solver|done]|].
  destruct (bytes_eqb (name cmd) ($"EXEC")) eqn:E2; [apply bytes_eqb_eq in E2; rewrite (Hone _ E2) by done;
    split; [apply answers_line; line_solver|done]|].
  destruct (bytes_eqb (name cmd) ($"DISCARD")) eqn:E3; [apply bytes_eqb_eq in E3; rewrite (Hone _ E3) by done;
    split; [apply answers_line; line_solver|done]|].
  destruct (bytes_eqb (name cmd) ($"WATCH")) eqn:E4.
  { apply bytes_eqb_eq in E4. rewrite (Hone _ E4) by done. unfold handle_watch.
    destruct (args cmd) as [|k ks]; [split; [apply answers_line; line_solver|done]|].
    unfold self, mbind, state_bind. cbn beta iota zeta. cbn [in_multi_ new_handler].
    pose proof (watch_fold_net (k :: ks) new_handler w) as Hw.
    destruct (foldM watch_one tt (k :: ks) (new_handler, w)) as [[] [h' w']]. cbn [snd] in Hw.
    split; [apply answers_line; line_solver|by rewrite Hw]. }
  cbn [in_multi_ new_handler]. unfold on_world. pose proof (dispatch_answers cmd w Hp) as Ha.
  pose proof (execute_single_sent cmd w Hwf) as Hs.
  destruct (execute_single client_fd_ server_ cmd w) as [r w']. cbn [fst snd] in *. split; [done|]. apply Hs.
  destruct (decide (name cmd = $"PUBLISH")) as [Hn|]; [right|by left].
  rewrite Hn in Eg. change (allowed_in_subscription ($"PUBLISH")) with false in Eg. cbn [negb] in Eg.
  rewrite andb_true_r in Eg. unfold in_subscription_mode in Eg. rewrite is_subscribed_chans in Eg.
  by apply negb_false_iff, bool_decide_eq_true in Eg.
Qed.

End Handlers.

(** ** The server *)

Section Replies.
Context {Net : Type} `{SocketApi Net} `{SteadyClock} `{HashOrder} `{Environ}.
Implicit Types (s : Server) (w : World Net) (fd : Z).

(** The client needs no (more) authentication. *)
Definition past_gate fd s : Prop := password_ s = [] ∨ authenticated (client fd s) = true.

(** The command a RESP array of strings stands for. *)
Definition command_of (parts : list bytes) : Command :=
  mkCommand (to_upper (default [] (head parts))) (List.tl parts).

Lemma past_gate_step fd cmd s w b s' w' :
  handle_command fd cmd (s, w) = (b, (s', w')) → past_gate fd s → past_gate fd s'.
Proof.
  intros E [Hp|Ha].
  - left. pose proof (handle_command_client fd cmd (s, w)) as Hc. rewrite E in Hc.
    pose proof (cs_password _ _ _ Hc) as Ep. cbn [fst snd] in Ep. congruence.
  - right. apply handle_command_gate in E as [Hm _]. auto.
Qed.

(** A client's commands and the values it is sent for them: each command is
    executed, by a handler of its own, in the world the one before it left;
    its reply text is sent as as many well-formed values as it is due, before
    the next command is looked at. *)
Inductive replied (fd : Z) : list Command → World Net → list (list Frame) → World Net → Prop :=
  | replied_nil w : replied fd [] w [] w
  | replied_cons info cmd cmds w r h w1 fs n fss w2 :
      execute fd info cmd (new_handler, w) = (r, (h, w1)) →
      serialize_response r = concat (map encode fs) → forallb frame_ok fs = true → length fs = reply_count cmd →
      delivers fd (concat (map encode fs)) (w_net w1) true n →
      replied fd cmds (mkWorld (w_db w1) (w_files w1) (w_clock w1) (w_pubsub w1) n) fss w2 →
      replied fd (cmd :: cmds) w (fs :: fss) w2.

Lemma delivers_true sock data (n n' : Net) : delivers sock data n true n' → sent n' sock = sent n sock ++ data.
Proof. intros [(m & _ & Hb & ->) _]%delivers_sent. f_equal. apply take_ge. by rewrite (proj1 Hb). Qed.

(** One command: its reply, and nothing else, is sent to the client. *)
Lemma handle_command_answers fd cmd s w s' w' :
  ps_wf (w_pubsub w) → past_gate fd s → plain cmd → handle_command fd cmd (s, w) = (true, (s', w')) →
  ∃ fs, sent (w_net w') fd = sent (w_net w) fd ++ concat (map encode fs) ∧
    ∀ cmds fss w2, replied fd cmds w' fss w2 → replied fd (cmd :: cmds) w (fs :: fss) w2.
Proof.
  intros Hwf Hg Hp. unfold handle_command, mbind, state_bind, server. cbn beta iota.
  case_match; [done|]. case_match; [by destruct (send _ _ _) as [? [? ?]]|].
  unfold run_command, mbind, state_bind, server. cbn beta iota.
  assert (negb (bytes_eqb (password_ s) []) && negb (authenticated (client fd s)) = false) as ->.
  { destruct Hg as [->| ->]; [done|]. by rewrite andb_false_r. }
  unfold world. pose proof (execute_new_answers fd (Some (start_time_ s, size (clients_ s))) cmd w Hwf Hp) as Ha.
  destruct (execute _ _ cmd (new_handler, w)) as [r [h w1]] eqn:Ex. destruct Ha as [(fs & Er & Hfs & Hlen) Hs].
  unfold send, world, net. destruct (send_response fd (serialize_response r) (w_net w1)) as [ok n] eqn:E.
  intros [= -> <- <-]. apply send_response_delivers in E. rewrite Er in E. exists fs. split.
  - cbn [w_net]. by rewrite (delivers_true _ _ _ _ E), Hs.
  - intros cmds fss w2 Hr. by eapply replied_cons.
Qed.

Lemma handle_command_wf fd cmd s w b s' w' :
  handle_command fd cmd (s, w) = (b, (s', w')) → ps_wf (w_pubsub w) → ps_wf (w_pubsub w').
Proof.
  intros E Hwf. pose proof (handle_command_client fd cmd (s, w)) as Hc. rewrite E in Hc. by apply (cs_safe _ _ _ Hc).
Qed.

Lemma serve_answers fd css tail s w s' w' :
  ps_wf (w_pubsub w) → past_gate fd s → Forall (λ c, plain (command_of c)) css →
  serve fd css tail (s, w) = (true, (s', w')) →
  ∃ fss, replied fd (map command_of css) w fss w' ∧
    sent (w_net w') fd = sent (w_net w) fd ++ concat (map encode (concat fss)).
Proof.
  intros Hwf Hg Hp. revert s w Hwf Hg. induction Hp as [|parts css Hpl _ IH]; intros s w Hwf Hg; cbn [serve].
  - intros [= <- <-]. exists []. split; [constructor|]. by rewrite app_nil_r.
  - unfold mbind, state_bind. rewrite update_client_run. set (s1 := with_clients_ _ s).
    assert (past_gate fd s1) as Hg1.
    { destruct Hg as [Hg|Hg]; [by left|right]. unfold s1. by rewrite client_insert. }
    fold (command_of parts). destruct (handle_command fd (command_of parts) (s1, w)) as [ok [s2 w2]] eqn:E.
    destruct ok; [|done]. intros Hr.
    destruct (handle_command_answers _ _ _ _ _ _ Hwf Hg1 Hpl E) as (fs & Hs1 & Hcons).
    destruct (IH s2 w2 (handle_command_wf _ _ _ _ _ _ _ E Hwf) (past_gate_step _ _ _ _ _ _ _ E Hg1) Hr)
      as (fss & Hr2 & Hs2).
    exists (fs :: fss). split; [by apply Hcons|]. cbn [concat]. by rewrite Hs2, Hs1, map_app, concat_app, <- app_assoc.
Qed.

Lemma replied_counts fd cmds w fss w' :
  replied fd cmds w fss w' → Forall2 (λ cmd fs, length fs = reply_count cmd ∧ forallb frame_ok fs = true) cmds fss.
Proof. induction 1; by constructor. Qed.

(** C11: one reply per command, in order.  The unprocessed bytes of a client
    that is past the authentication gate are complete commands in RESP form
    followed by an incomplete one; what their replies echo (the command's
    name, the argument of PING and CONFIG, the channels of SUBSCRIBE and
    UNSUBSCRIBE, which name some) has no line feed; and the server goes on
    with the client.  Then it was sent, group after group in the order of its
    commands, the well-formed RESP2 values of the reply of each: of the reply
    the command gets when executed in the world its predecessor left, as many
    values as are due (one, or one per channel of SUBSCRIBE and UNSUBSCRIBE),
    all of them written before the next command is executed.  Messages
    published meanwhile are not mixed in. *)
Theorem replies_match_commands fd s w data n css tail s' w' :
  ps_wf (w_pubsub w) → past_gate fd s →
  socket_read fd READ_SIZE (w_net w) = (ReadData data, n) →
  read_buffer (client fd s) ++ data = concat (map encode_command css) ++ tail →
  Forall sendable css → incomplete tail → Forall (λ c, plain (command_of c)) css →
  process_client fd (s, w) = (true, (s', w')) →
  ∃ fss, replied fd (map command_of css) (mkWorld (w_db w) (w_files w) (w_clock w) (w_pubsub w) n) fss w' ∧
    Forall2 (λ cmd fs, length fs = reply_count cmd ∧ forallb frame_ok fs = true) (map command_of css) fss ∧
    sent (w_net w') fd = sent (w_net w) fd ++ concat (map encode (concat fss)).
Proof.
  intros Hwf Hg Er Eb Hs Ht Hp. unfold process_client, mbind, state_bind, server, world, net. cbn beta iota zeta.
  rewrite Er, update_client_run.
  rewrite (process_loop_serve css tail); [|done|done|by rewrite client_insert|rewrite client_insert; simpl; lia].
  intros Hr. apply serve_answers in Hr as (fss & Hr & Hse); [|done| |done].
  - exists fss. split_and!; [done|by eapply replied_counts|]. cbn [w_net] in Hse. by rewrite Hse, (read_sent _ _ _ _ _ fd Er).
  - destruct Hg as [Hg|Hg]; [by left|right]. by rewrite client_insert.
Qed.

End Replies.

(** ** Instances *)

(** Three commands in one read: the third is answered with two values. *)
Definition demo_css : list (list bytes) := [[$"SET"; $"a"; $"1"]; [$"get"; $"a"]; [$"SUBSCRIBE"; $"x"; $"y"]].

Lemma demo_plain : Forall (λ c, plain (command_of c)) demo_css.
Proof.
  repeat apply Forall_cons_2; try apply Forall_nil_2; unfold plain;
    (split_and!; [apply (bool_decide_unpack _); vm_compute; reflexivity|intros _..]);
    first [apply (bool_decide_unpack _); vm_compute; reflexivity | discriminate].
Qed.

Lemma replies_match_commands_witness :
  let input := concat (map encode_command demo_css) in
  let st := (demo_server [], demo_input input) in
  ∃ fss, Forall2 (λ cmd fs, length fs = reply_count cmd ∧ forallb frame_ok fs = true) (map command_of demo_css) fss ∧
    @sent DemoNet demo_sockets
      (w_net (snd (snd (@process_client DemoNet demo_sockets demo_clock gmap_order demo_env 7 st)))) 7 =
    concat (map encode (concat fss)).
Proof.
  intros input st. destruct (@process_client DemoNet demo_sockets demo_clock gmap_order demo_env 7 st) as [b [s' w']] eqn:E.
  assert (b = true) as -> by (apply (f_equal fst) in E; vm_compute in E; by rewrite <- E).
  destruct (@replies_match_commands DemoNet demo_sockets demo_clock gmap_order demo_env 7 (demo_server []) (demo_input input)
    input (snd (demo_read 7 READ_SIZE (w_net (demo_input input)))) demo_css [] s' w') as (fss & _ & Hc & Hs).
  - apply ps_wf_empty.
  - by left.
  - vm_compute. reflexivity.
  - reflexivity.
  - repeat apply Forall_cons_2; try apply Forall_nil_2;
      (split; [discriminate|split; [vm_compute; discriminate|]]);
      repeat apply Forall_cons_2; try apply Forall_nil_2; vm_compute; discriminate.
  - by left.
  - exact demo_plain.
  - exact E.
  - exists fss. split; [exact Hc|exact Hs].
Defined.
