(* ===== verification/ServerSpec.v ===== *)
(** * What the clients of the server observe

    The commands on the data that the server executes for all its clients take
    effect in one order on the abstract store, and every client receives the
    values its own commands are answered with, in the order it sent them.  A
    message one client publishes reaches the connections of the subscribers. *)

From S2P Require Import Prelude CppString Parser Resp RespFacts Frames Database DatabaseSpec DatabaseClaims.
From S2P Require Import ExpiryThread Persistence Socket PubSub PubSubFacts PubSubClaims CommandHandler.
From S2P Require Import CommandFacts CommandClaims CommandSpec Server ServerFacts ServerClaims ReplyClaims.

Section Spec.
Context {Net : Type} `{SocketApi Net} `{SteadyClock} `{HashOrder} `{Environ}.
Implicit Types (s : Server) (w : World Net) (fd : Z).

(** ** One client *)

(** The bytes of some values. *)
Definition wire (fs : list Frame) : bytes := concat (map encode fs).

(** What commands of one client leave of the world. *)
Record effect (fd : Z) (w : World Net) (fs : list Frame) (w' : World Net) : Prop := {
  eff_inv : inv (dbs w');
  eff_pubsub : w_pubsub w' = w_pubsub w;
  eff_sent : Forall clean fs → sent (w_net w') fd = sent (w_net w) fd ++ wire fs;
  eff_others : ∀ fd', fd' ≠ fd → sent (w_net w') fd' = sent (w_net w) fd';
}.

Lemma effect_nil fd w : inv (dbs w) → effect fd w [] w.
Proof. intros Hi. split; [done|done| |done]. intros _. by rewrite app_nil_r. Qed.

Lemma effect_app fd w fs w1 fs' w2 : effect fd w fs w1 → effect fd w1 fs' w2 → effect fd w (fs ++ fs') w2.
Proof.
  intros [I1 P1 S1 O1] [I2 P2 S2 O2]. split; [done|congruence| |].
  - intros [? ?]%Forall_app. unfold wire. by rewrite map_app, concat_app, app_assoc, S2, S1 by done.
  - intros fd' Hne. by rewrite O2, O1.
Qed.

Lemma data_not_quit cmd mng : meaning cmd = Some mng → bytes_eqb (name cmd) $"QUIT" = false.
Proof.
  intros Hm. apply bytes_eqb_neq. intros Hn. unfold meaning in Hm. cbn [find_meaning data_commands] in Hm. by rewrite Hn in Hm.
Qed.

(** A data command on a new handler is executed at once. *)
Lemma execute_data fd info cmd mng w :
  meaning cmd = Some mng → in_subscription_mode fd w = false →
  execute fd info cmd (new_handler, w) = (let '(r, w') := execute_single fd info cmd w in (r, (new_handler, w'))).
Proof.
  intros Hm Hs. unfold execute. rewrite Hs. cbn [andb].
  assert (∀ n, meaning (mkCommand n (args cmd)) = None → bytes_eqb (name cmd) n = false) as Hne.
  { intros n En. apply bytes_eqb_neq. intros <-. destruct cmd as [n l]. cbn [name args] in En. by rewrite En in Hm. }
  by rewrite !Hne by done.
Qed.

(** One command of a client. *)
Lemma handle_data fd cmd mng s w s' w' :
  meaning cmd = Some mng → inv (dbs w) → past_gate fd s → in_subscription_mode fd w = false →
  handle_command fd cmd (s, w) = (true, (s', w')) →
  ∃ f, answer cmd (absw w) f (absw w') ∧ effect fd w [f] w'.
Proof.
  intros Hm Hi Hg Hs. unfold handle_command, mbind, state_bind, server. cbn beta iota.
  case_match; [done|]. rewrite (data_not_quit _ _ Hm).
  unfold run_command, mbind, state_bind, server. cbn beta iota.
  assert (negb (bytes_eqb (password_ s) []) && negb (authenticated (client fd s)) = false) as ->.
  { destruct Hg as [->| ->]; [done|]. by rewrite andb_false_r. }
  unfold world. rewrite (execute_data _ _ _ _ _ Hm Hs).
  set (info := Some _). pose proof (data_command_answers fd info cmd mng Hm w Hi) as Hr.
  destruct (data_command_only fd info cmd mng Hm w) as (_ & Hp & Hn).
  pose proof (execute_safe fd info cmd new_handler w) as Hsafe. rewrite (execute_data _ _ _ _ _ Hm Hs) in Hsafe.
  destruct (execute_single fd info cmd w) as [r w1]. cbn [snd] in *. destruct Hr as (f & Ha & ->). pose proof (answer_wired _ _ _ _ Ha) as Hw.
  unfold send, world, net. destruct (send_response fd (serialize_response (text f)) (w_net w1)) as [ok n] eqn:E.
  intros [= -> <- <-]. exists f. split; [done|]. split.
  - destruct (safe_db _ _ _ Hsafe) as [ls Hls]. exact (proj1 (crun_inv _ _ _ Hls Hi)).
  - done.
  - intros [Hc _]%Forall_cons. cbn [w_net]. apply send_response_true in E. rewrite E, Hn, (proj1 (Hw Hc)).
    unfold wire. cbn. by rewrite app_nil_r.
  - intros fd' Hne. cbn [w_net]. apply send_response_run in E as (_ & Ho & _). by rewrite Ho, Hn.
Qed.

(** A sequence of commands. *)
Lemma serve_data fd css tail s w s' w' :
  Forall (λ c, data_command (command_of c)) css → inv (dbs w) → past_gate fd s → in_subscription_mode fd w = false →
  serve fd css tail (s, w) = (true, (s', w')) →
  ∃ fs, answers_all (map command_of css) (absw w) fs (absw w') ∧ effect fd w fs w'.
Proof.
  intros Hd. revert s w. induction Hd as [|parts css [mng Hm] _ IH]; intros s w Hi Hg Hs; cbn [serve].
  - intros [= <- <-]. exists []. split; [constructor|by apply effect_nil].
  - unfold mbind, state_bind. rewrite update_client_run. set (s1 := with_clients_ _ s).
    assert (past_gate fd s1) as Hg1.
    { destruct Hg as [Hg|Hg]; [by left|right]. unfold s1. by rewrite client_insert. }
    fold (command_of parts). destruct (handle_command fd (command_of parts) (s1, w)) as [ok [s2 w2]] eqn:E.
    destruct ok; [|done]. intros Hr. destruct (handle_data _ _ _ _ _ _ _ Hm Hi Hg1 Hs E) as (f & Ha & He).
    destruct (IH s2 w2) as (fs & Has & Hes); [apply He|by eapply past_gate_step| |done|].
    { unfold in_subscription_mode in *. by rewrite (eff_pubsub _ _ _ _ He). }
    exists (f :: fs). split; [by eapply all_cons|]. by apply (effect_app fd w [f] w2).
Qed.

(** The loop around the commands, after a read. *)
Lemma process_data fd s w data n css tail s' w' :
  inv (dbs w) → past_gate fd s → in_subscription_mode fd w = false →
  socket_read fd READ_SIZE (w_net w) = (ReadData data, n) →
  read_buffer (client fd s) ++ data = concat (map encode_command css) ++ tail →
  Forall sendable css → incomplete tail → Forall (λ c, data_command (command_of c)) css →
  process_client fd (s, w) = (true, (s', w')) →
  ∃ fs, answers_all (map command_of css) (absw w) fs (absw w') ∧ effect fd w fs w'.
Proof.
  intros Hi Hg Hs Er Eb Hsd Ht Hd. unfold process_client, mbind, state_bind, server, world, net. cbn beta iota zeta.
  rewrite Er, update_client_run. set (w1 := mkWorld _ _ _ _ n).
  rewrite (process_loop_serve css tail); [|done|done|by rewrite client_insert|rewrite client_insert; simpl; lia].
  intros Hr. apply serve_data in Hr as (fs & Ha & [I1 P1 S1 O1]); [|done|done| |done].
  - exists fs. split; [exact Ha|]. split; [done|done| |].
    + intros Hc. rewrite (S1 Hc). change (w_net w1) with n. by rewrite (read_sent _ _ _ _ _ fd Er).
    + intros fd' Hne. rewrite (O1 fd' Hne). change (w_net w1) with n. by rewrite (read_sent _ _ _ _ _ fd' Er).
  - destruct Hg as [Hg|Hg]; [by left|right]. by rewrite client_insert.
Qed.

(** ** All clients *)

(** Turns of clients, in the order in which the loop serves them: each has
    sent complete data commands (and perhaps the beginning of another), is
    authenticated, subscribed to nothing and stays connected.  Between the
    turns the network may change, but for what has been sent. *)
Inductive turns : Server * World Net → list (Z * list (list bytes)) → Server * World Net → Prop :=
  | turns_nil st : turns st [] st
  | turns_arrive n s w ts st2 :
      (∀ fd, sent n fd = sent (w_net w) fd) →
      turns (s, mkWorld (w_db w) (w_files w) (w_clock w) (w_pubsub w) n) ts st2 → turns (s, w) ts st2
  | turns_cons fd css tail s w data n st1 rest st2 :
      past_gate fd s → in_subscription_mode fd w = false →
      socket_read fd READ_SIZE (w_net w) = (ReadData data, n) →
      read_buffer (client fd s) ++ data = concat (map encode_command css) ++ tail →
      Forall sendable css → incomplete tail → Forall (λ c, data_command (command_of c)) css →
      process_client fd (s, w) = (true, st1) → turns st1 rest st2 →
      turns (s, w) ((fd, css) :: rest) st2.

(** The commands of the turns, with the client each came from. *)
Definition history (ts : list (Z * list (list bytes))) : list (Z * Command) :=
  concat (map (λ '(fd, css), (λ c, (fd, command_of c)) <$> css) ts).

(** The values for one client. *)
Definition received (fd : Z) (cs : list (Z * Command)) (fs : list Frame) : list Frame :=
  (filter (λ x : (Z * Command) * Frame, fst (fst x) = fd) (zip cs fs)).*2.

Lemma received_app fd cs fs cs' fs' :
  length fs = length cs → received fd (cs ++ cs') (fs ++ fs') = received fd cs fs ++ received fd cs' fs'.
Proof. intros Hl. unfold received. by rewrite zip_with_app, filter_app, fmap_app. Qed.

Lemma received_own fd (cs : list (list bytes)) fs :
  length fs = length cs → received fd ((λ c, (fd, command_of c)) <$> cs) fs = fs.
Proof.
  revert fs. induction cs as [|c cs IH]; intros [|f fs]; try done. intros [= Hl]. unfold received in *.
  cbn [fmap list_fmap zip zip_with]. rewrite filter_cons_True by done. cbn. by rewrite IH.
Qed.

Lemma received_other fd fd' (cs : list (list bytes)) fs :
  fd' ≠ fd → received fd ((λ c, (fd', command_of c)) <$> cs) fs = [].
Proof.
  intros Hne. revert fs. induction cs as [|c cs IH]; intros [|f fs]; try done. unfold received in *.
  cbn [fmap list_fmap zip zip_with]. by rewrite filter_cons_False.
Qed.

Lemma turns_linear s w ts s' w' :
  turns (s, w) ts (s', w') → inv (dbs w) →
  inv (dbs w') ∧ w_pubsub w' = w_pubsub w ∧
  ∃ fs, answers_all (history ts).*2 (absw w) fs (absw w') ∧
    ∀ fd, Forall clean (received fd (history ts) fs) →
      sent (w_net w') fd = sent (w_net w) fd ++ wire (received fd (history ts) fs).
Proof.
  intros Ht. remember (s, w) as st eqn:E. remember (s', w') as st' eqn:E'. revert s w E s' w' E'.
  induction Ht as [st|n s w ts st2 Hn _ IH|fd css tail s w data n [s1 w1] rest st2 Hg Hs Er Eb Hsd Hin Hd Hr _ IH];
    intros s0 w0 E s' w' E' Hi; simplify_eq.
  - split_and!; [done|done|]. exists []. split; [constructor|]. intros fd _. by rewrite app_nil_r.
  - destruct (IH _ _ eq_refl _ _ eq_refl Hi) as (Hi' & Hp & fs & Ha & Hs). split_and!; [done|done|]. exists fs.
    split; [exact Ha|]. intros fd Hc. rewrite (Hs fd Hc). cbn [w_net]. by rewrite Hn.
  - destruct (process_data _ _ _ _ _ _ _ _ _ Hi Hg Hs Er Eb Hsd Hin Hd Hr) as (fs1 & Ha1 & He).
    destruct (IH s1 w1 eq_refl s' w' eq_refl (eff_inv _ _ _ _ He)) as (Hi2 & Hp2 & fs2 & Ha2 & Hs2).
    assert (length fs1 = length css) as Hl by (by rewrite (answers_all_length _ _ _ _ Ha1), length_map).
    split_and!; [done|by rewrite Hp2; apply (eff_pubsub _ _ _ _ He)|].
    exists (fs1 ++ fs2). unfold history. cbn [map concat]. rewrite fmap_app. split.
    + eapply answers_all_app; [|done]. by rewrite <- list_fmap_compose.
    + intros fd'. rewrite received_app by (by rewrite length_fmap). fold (history rest).
      intros [Hc1 Hc2]%Forall_app. unfold wire. rewrite map_app, concat_app, app_assoc, (Hs2 fd' Hc2). f_equal.
      destruct (decide (fd = fd')) as [->|Hne].
      * rewrite received_own in Hc1 |- * by done. by apply (eff_sent _ _ _ _ He).
      * rewrite received_other by done. rewrite app_nil_r. by apply (eff_others _ _ _ _ He).
Qed.


(** ** Messages *)

Definition message_frame (ch msg : bytes) : Frame := FArray [FBulk $"message"; FBulk ch; FBulk msg].

Lemma push_message_frame ch msg : push_message ch msg = encode (message_frame ch msg).
Proof. done. Qed.

(** PUBLISH on a connection: what the network has seen afterwards. *)
Lemma handle_publish_command fd ch msg s w s' w' :
  ps_wf (w_pubsub w) → past_gate fd s → in_subscription_mode fd w = false →
  handle_command fd (mkCommand $"PUBLISH" [ch; msg]) (s, w) = (true, (s', w')) →
  ∃ k p n, publish ch msg (w_pubsub w, w_net w) = (k, (p, n)) ∧ w_pubsub w' = p ∧ dbs w' = dbs w ∧
    delivers fd (serialize_response (integer_text k)) n true (w_net w').
Proof.
  intros Hwf Hg Hs. unfold handle_command, mbind, state_bind, server. cbn beta iota.
  case_match; [done|]. change (bytes_eqb _ $"QUIT") with false. cbn iota.
  unfold run_command, mbind, state_bind, server. cbn beta iota.
  assert (negb (bytes_eqb (password_ s) []) && negb (authenticated (client fd s)) = false) as ->.
  { destruct Hg as [->| ->]; [done|]. by rewrite andb_false_r. }
  unfold world, execute. rewrite Hs. cbn [andb name]. repeat (change (bytes_eqb $"PUBLISH" _) with false; cbn iota).
  cbn [in_multi_ new_handler]. unfold on_world. rewrite execute_publish by done.
  unfold handle_publish, mbind, state_bind, pubsub. cbn [args].
  destruct (publish ch msg (w_pubsub w, w_net w)) as [k [p n]]. cbn [mret state_ret].
  unfold send, world, net. cbn [w_net]. destruct (send_response fd _ n) as [ok n'] eqn:E.
  intros [= -> <- <-]. exists k, p, n. cbn [w_net w_pubsub]. split_and!; [done|done|done|].
  by apply send_response_delivers.
Qed.

(** C21: a published message reaches the subscribers' connections.  When a
    client that is past the gate and not subscribed itself has sent PUBLISH (in
    RESP form) and the server goes on with it, the message was offered to every
    subscriber of the channel, lowest descriptor first, until write(2) took all
    of it or refused to take more; those that took it have been sent exactly
    that one push message, the publisher is sent their number, no other
    connection anything, and the data is untouched; a subscriber whose
    connection refused loses this subscription and no other, and nobody else
    loses any. *)
Theorem publish_over_server fd ch msg s w data n s' w' :
  ps_wf (w_pubsub w) → past_gate fd s → in_subscription_mode fd w = false →
  socket_read fd READ_SIZE (w_net w) = (ReadData data, n) →
  read_buffer (client fd s) ++ data = encode_command [$"PUBLISH"; ch; msg] → sendable [$"PUBLISH"; ch; msg] →
  (Z.of_nat (size (subs (w_pubsub w) ch)) ≤ INT64_MAX)%Z →
  process_client fd (s, w) = (true, (s', w')) →
  ∃ outs n1, outs.*1 = ordered (subs (w_pubsub w) ch) ∧
    deliveries (encode (message_frame ch msg)) n outs n1 ∧
    delivers fd (encode (FInteger (Z.of_nat (length (took outs))))) n1 true (w_net w') ∧
    (∀ x, x ∈ took outs → sent (w_net w') x = sent (w_net w) x ++ encode (message_frame ch msg)) ∧
    sent (w_net w') fd = sent (w_net w) fd ++ encode (FInteger (Z.of_nat (length (took outs)))) ∧
    (∀ x, x ≠ fd → x ∉ subs (w_pubsub w) ch → sent (w_net w') x = sent (w_net w) x) ∧
    (∀ x, chans (w_pubsub w') x = if decide (x ∈ failed outs) then chans (w_pubsub w) x ∖ {[ch]} else chans (w_pubsub w) x) ∧
    dbs w' = dbs w.
Proof.
  intros Hwf Hg Hs Er Eb Hsd Hsz. unfold process_client, mbind, state_bind, server, world, net. cbn beta iota zeta.
  rewrite Er, update_client_run. set (w1 := mkWorld _ _ _ _ n).
  rewrite (process_loop_serve [[$"PUBLISH"; ch; msg]] []);
    [|by constructor|by left|rewrite client_insert; cbn; by rewrite app_nil_r, app_nil_r|rewrite client_insert; simpl; lia].
  cbn [serve]. unfold mbind, state_bind. rewrite update_client_run. set (s1 := with_clients_ _ _).
  change (mkCommand _ _) with (mkCommand $"PUBLISH" [ch; msg]).
  destruct (handle_command fd _ (s1, w1)) as [[] [s2 w2]] eqn:E; [|done]. intros [= <- <-].
  apply handle_publish_command in E as (k & p & n' & Ep & Hp & Hd & Hme); [|done| |done].
  2: { destruct Hg as [Hg|Hg]; [by left|right]. unfold s1. by rewrite !client_insert. }
  destruct (publish_run ch msg (w_pubsub w) n Hwf) as (outs & p' & n'' & Ep' & Ho & Hds & _ & Hch).
  change (w_pubsub w1) with (w_pubsub w) in Ep. change (w_net w1) with n in Ep. rewrite Ep in Ep'. injection Ep' as -> <- <-.
  assert (fd ∉ outs.*1) as Hnot.
  { rewrite Ho, ordered_perm, elem_of_elements, (ps_mirror _ Hwf). unfold in_subscription_mode in Hs.
    rewrite is_subscribed_chans in Hs. apply negb_false_iff, bool_decide_eq_true in Hs. rewrite Hs. set_solver. }
  assert (Z.of_nat (length (took outs)) ≤ INT64_MAX)%Z as Hk.
  { pose proof (Permutation_length (took_failed outs)) as Hl. rewrite Ho, ordered_perm, length_app in Hl.
    unfold size, set_size in Hsz. simpl in Hsz. lia. }
  unfold integer_text in Hme. rewrite serialize_integer in Hme by (unfold INT64_MIN; lia).
  destruct (deliveries_sent _ _ _ _ Hds) as (Htook & _ & Hrest & _); [rewrite Ho; apply ordered_NoDup|].
  destruct (delivers_sent _ _ _ _ _ Hme) as (_ & Hoth & _).
  exists outs, n'. split_and!; [done|done|done| | | |by rewrite Hp|exact Hd].
  - intros x Hx. rewrite Hoth, Htook, (read_sent _ _ _ _ _ x Er); [done|done|]. intros ->. apply Hnot. rewrite <- took_failed. set_solver.
  - by rewrite (delivers_true _ _ _ _ Hme), Hrest, (read_sent _ _ _ _ _ fd Er).
  - intros x Hne Hx. rewrite Hoth, Hrest, (read_sent _ _ _ _ _ x Er); [done| |done]. rewrite Ho, ordered_perm. set_solver.
Qed.

End Spec.

(** ** Instances *)

(** Two clients: one stores a value, the other reads it. *)
Definition demo_turns : list (Z * list (list bytes)) :=
  [(7%Z, [[$"SET"; $"a"; $"1"]; [$"rpush"; $"q"; $"x"; $"y"]]); (8%Z, [[$"GET"; $"a"]; [$"LRANGE"; $"q"; $"0"; $"-1"]])].

Definition demo_two : Server * World DemoNet :=
  (mkServer {[ 7%Z := mkClient [] [] false; 8%Z := mkClient [] [] false ]} [] true 0,
   mkWorld (demo_db 9000000000) ∅ 0 empty_pubsub
     (mkNet ∅ (list_to_map ((λ '(fd, css), (fd, concat (map encode_command css))) <$> demo_turns)) {[ 7%Z; 8%Z ]} ∅)).

Definition demo_serve (fd : Z) (st : Server * World DemoNet) : Server * World DemoNet :=
  snd (@process_client DemoNet demo_sockets demo_clock gmap_order demo_env fd st).

Lemma demo_turn fd css st rest st2 :
  past_gate fd (fst st) → in_subscription_mode fd (snd st) = false →
  demo_read fd READ_SIZE (w_net (snd st)) =
    (ReadData (concat (map encode_command css)), snd (demo_read fd READ_SIZE (w_net (snd st)))) →
  read_buffer (client fd (fst st)) = [] → Forall sendable css → Forall (λ c, data_command (command_of c)) css →
  fst (@process_client DemoNet demo_sockets demo_clock gmap_order demo_env fd st) = true →
  @turns DemoNet demo_sockets demo_clock gmap_order demo_env (demo_serve fd st) rest st2 →
  @turns DemoNet demo_sockets demo_clock gmap_order demo_env st ((fd, css) :: rest) st2.
Proof.
  destruct st as [s w]. cbn [fst snd]. intros Hg Hs Er Eb Hsd Hd Hok Hr.
  eapply (@turns_cons DemoNet demo_sockets demo_clock gmap_order demo_env fd css []);
    [exact Hg|exact Hs|exact Er|by rewrite Eb, app_nil_r|exact Hsd|by left|exact Hd| |exact Hr].
  unfold demo_serve. by rewrite <- Hok, <- surjective_pairing.
Qed.

Ltac small_commands :=
  repeat apply Forall_cons_2; try apply Forall_nil_2; (split; [discriminate|split; [vm_compute; discriminate|]]);
  repeat apply Forall_cons_2; try apply Forall_nil_2; vm_compute; discriminate.


(** Client 7 is subscribed to "news", client 8 publishes there. *)
Definition demo_published : Server * World DemoNet :=
  (fst demo_two,
   mkWorld (w_db (snd demo_two)) ∅ 0 demo_pubsub
     (mkNet ∅ {[ 8%Z := encode_command [$"PUBLISH"; $"news"; $"hello"] ]} {[ 7%Z; 8%Z ]} ∅)).

Lemma publish_over_server_witness :
  ∃ outs : list (Z * bool), outs.*1 = [7%Z] ∧
    @sent DemoNet demo_sockets (w_net (snd (demo_serve 8 demo_published))) 8 = encode (FInteger (Z.of_nat (length (took outs)))) ∧
    @sent DemoNet demo_sockets (w_net (snd (demo_serve 8 demo_published))) 7 = encode (message_frame ($"news") ($"hello")).
Proof.
  destruct (@publish_over_server DemoNet demo_sockets demo_clock gmap_order demo_env 8 ($"news") ($"hello")
    (fst demo_published) (snd demo_published) (encode_command [$"PUBLISH"; $"news"; $"hello"])
    (snd (demo_read 8 READ_SIZE (w_net (snd demo_published))))
    (fst (demo_serve 8 demo_published)) (snd (demo_serve 8 demo_published))) as (outs & n1 & Hp & _ & _ & _ & Hme & _).
  - exact ps_wf_demo.
  - by left.
  - vm_compute. reflexivity.
  - vm_compute. reflexivity.
  - vm_compute. reflexivity.
  - split; [discriminate|split; [vm_compute; discriminate|]].
    repeat apply Forall_cons_2; try apply Forall_nil_2; vm_compute; discriminate.
  - vm_compute. discriminate.
  - vm_compute. reflexivity.
  - exists outs. split; [rewrite Hp; vm_compute; reflexivity|]. split; [exact Hme|vm_compute; reflexivity].
Defined.
