(* ===== verification/EventLoop.v ===== *)
(** * Starting, running and stopping the server (networking/server.cpp, lines 18-180)

    The set-up of the listening socket, the [select] loop around the rounds of
    [Server.v], [stop] and the destructor.  The operating system's calls are
    the operations of [ListenApi].  The loop may run for ever: it is given a
    list with one entry per iteration that says whether a termination signal
    arrives in it and at which point (its handler calls [stop], which closes
    the listening socket and overwrites [listen_fd_] under the loop's feet);
    theorems quantify over the list.  The handler runs at that point and
    nowhere else; when the iteration ends before the point is reached (the
    timeout of [select]), it runs at the end of the iteration.  A signal may
    also arrive during the set-up ([Early]).  [FD_SET] and [FD_ISSET] are undefined
    for descriptors outside [0, FD_SETSIZE): the model stops there with
    [BadDescriptor]. *)

From S2P Require Import Prelude CppString Database DatabaseSpec ExpiryThread Persistence Socket.
From S2P Require Import PubSub PubSubFacts PubSubClaims CommandHandler CommandFacts CommandClaims.
From S2P Require Import Server ServerFacts ServerClaims.

(** ** The system calls *)

Inductive SelectResult := SelectError | SelectTimeout | SelectReady (fds : gset Z).

Class ListenApi (Net : Type) `{SocketApi Net} := {
  (** socket(2), setsockopt(2) with SO_REUSEADDR, bind(2) to an IPv4 address
      and port, listen(2), select(2) for reading with a 100 ms timeout. *)
  create_socket : State Net Z;
  set_reuseaddr : Z → State Net unit;
  bind_socket : Z → Z → Z → State Net bool;
  listen_socket : Z → Z → State Net bool;
  select : Z → gset Z → State Net SelectResult;
  (** signal(2) that sets SIGPIPE to be ignored. *)
  ignore_sigpipe : State Net unit;
  (** inet_pton(3) for AF_INET; [None] is a string that is no address. *)
  inet_pton : bytes → option Z;
  create_open : ∀ w fd w', create_socket w = (fd, w') →
    if is_valid fd then (fd ∉ open_fds w) ∧ open_fds w' = {[fd]} ∪ open_fds w else open_fds w' = open_fds w;
  ignore_open : ∀ w r w', ignore_sigpipe w = (r, w') → open_fds w' = open_fds w;
  reuse_open : ∀ fd w r w', set_reuseaddr fd w = (r, w') → open_fds w' = open_fds w;
  bind_open : ∀ fd a p w r w', bind_socket fd a p w = (r, w') → open_fds w' = open_fds w;
  (** EBADF. *)
  bind_closed : ∀ fd a p w, is_valid fd = false → fst (bind_socket fd a p w) = false;
  listen_closed : ∀ fd n w, is_valid fd = false → fst (listen_socket fd n w) = false;
  listen_open : ∀ fd n w r w', listen_socket fd n w = (r, w') → open_fds w' = open_fds w;
  (** select(2) reports only descriptors below [nfds] that were in the set. *)
  select_run : ∀ nfds fds w r w', select nfds fds w = (r, w') →
    open_fds w' = open_fds w ∧
    match r with SelectReady ready => ∀ fd, fd ∈ ready → fd ∈ fds ∧ (fd < nfds)%Z | _ => True end;
  (** EBADF: it fails when one of them is closed. *)
  select_closed : ∀ nfds fds w fd, fd ∈ fds → (fd < nfds)%Z → fd ∉ open_fds w → fst (select nfds fds w) = SelectError;
}.

Definition FD_SETSIZE : Z := 1024%Z.
Definition INADDR_ANY : Z := 0%Z.
Definition BACKLOG : Z := 128%Z.

(** ** State *)

(** The members of [Server] that only set-up and shutdown use. *)
Record Endpoint := mkEndpoint { host_ : bytes; port_ : Z; listen_fd_ : Z }.

(** [Server::Server]. *)
Definition new_endpoint (host : bytes) (port : Z) : Endpoint := mkEndpoint host port INVALID_SOCKET_VAL.

(** The point of an iteration at which a termination signal arrives, if it
    does: before the listening socket is put into the set, before [max_fd] is
    initialised with it, before [select], while blocked in it, between
    [select] and the test of the listening socket, between that test and
    [accept], or later.  What comes later, the service of the clients, uses
    neither [running_] nor the listening socket: the effect of the handler is
    placed after it. *)
Inductive Signal := NoSignal | BeforeSet | BeforeMax | BeforeSelect | InSelect | AfterSelect | BeforeAccept | InRound.

#[global] Instance Signal_eq_dec : EqDecision Signal.
Proof. solve_decision. Defined.

(** A signal before the loop: before [socket], [bind] or [listen] is called,
    between the set-up of the listener and [running_ = true], or between that
    and the first test of the loop. *)
Inductive Early := NoEarly | BeforeSocket | BeforeBind | BeforeListen | BeforeRunning | AfterRunning.

#[global] Instance Early_eq_dec : EqDecision Early.
Proof. solve_decision. Defined.

(** How the loop ended; [StillRunning] when the list of iterations did. *)
Inductive LoopEnd := FlagDown | SelectFailed | BadDescriptor | StillRunning.

(** How [start] returned. *)
Inductive StartEnd := SocketFailed | BindFailed | ListenFailed | LoopLeft (e : LoopEnd).

Section EventLoop.
Context {Net : Type} `{ListenApi Net} `{SteadyClock} `{HashOrder} `{Environ}.
Context (peer : Z → bytes).

Definition LoopM (A : Type) : Type := State (Endpoint * (Server * World Net)) A.

Definition srv {A} (m : SrvM A) : LoopM A := λ '(e, st), let '(a, st') := m st in (a, (e, st')).
Definition endpoint : LoopM Endpoint := λ '(e, st), (e, (e, st)).
Definition set_listen_fd (fd : Z) : LoopM unit := λ '(e, st), (tt, (mkEndpoint (host_ e) (port_ e) fd, st)).
Definition sys {A} (m : State Net A) : LoopM A := srv (world (net m)).

(** ** Shutdown *)

Definition close_listener : LoopM unit :=
  e ← endpoint; sys (close_socket (listen_fd_ e));; set_listen_fd INVALID_SOCKET_VAL.

Definition stop : LoopM unit :=
  srv clear_running;;
  e ← endpoint;
  if is_valid (listen_fd_ e) then close_listener else mret tt.

(** [Server::~Server]. *)
Definition destroy : LoopM unit :=
  stop;;
  s ← srv server;
  foldM (λ _ fd, sys (close_socket fd)) tt (iter_fds (dom (clients_ s)));;
  e ← endpoint;
  if is_valid (listen_fd_ e) then sys (close_socket (listen_fd_ e)) else mret tt.

(** ** The loop *)

(** The set built with [FD_SET], when that is defined for all of them, and
    the highest descriptor in it. *)
Definition watched (e : Endpoint) (s : Server) : gset Z := {[listen_fd_ e]} ∪ dom (clients_ s).
Definition fd_in_range (fd : Z) : bool := ((0 <=? fd) && (fd <? FD_SETSIZE))%Z.
Definition read_fds (e : Endpoint) (s : Server) : option (gset Z) :=
  if forallb fd_in_range (listen_fd_ e :: iter_fds (dom (clients_ s))) then Some (watched e s) else None.
Definition max_fd (e : Endpoint) (s : Server) : Z :=
  foldl (λ m fd, if (m <? fd)%Z then fd else m) (listen_fd_ e) (iter_fds (dom (clients_ s))).

(** The handler of SIGINT and SIGTERM, when the signal arrives here. *)
Definition signal_handler (here : bool) : LoopM unit := if here then stop else mret tt.
Definition signal_at (point sg : Signal) : LoopM unit := signal_handler (bool_decide (point = sg)).

(** After [select]: a new connection is accepted, the clients are served.
    [accept] on the closed listener fails with EBADF.  [Some] is a [break] (or
    the end of what is defined). *)
Definition serve_ready (sg : Signal) (r : gset Z) : LoopM (option LoopEnd) :=
  e ← endpoint;
  if negb (fd_in_range (listen_fd_ e)) then mret (Some BadDescriptor)
  else
    signal_at BeforeAccept sg;;
    e' ← endpoint;
    (if bool_decide (listen_fd_ e ∈ r) && is_valid (listen_fd_ e') then srv (accept_client peer) else mret tt);;
    s ← srv server;
    if negb (forallb fd_in_range (iter_fds (dom (clients_ s)))) then mret (Some BadDescriptor)
    else srv (serve_clients r);; signal_at InRound sg;; mret None.

(** One iteration. *)
Definition iteration (sg : Signal) : LoopM (option LoopEnd) :=
  signal_at BeforeSet sg;;
  e ← endpoint;
  s ← srv server;
  match read_fds e s with
  | None => mret (Some BadDescriptor)
  | Some fds =>
      signal_at BeforeMax sg;;
      e' ← endpoint;
      signal_at BeforeSelect sg;;
      ready ← (if bool_decide (sg = InSelect) then stop;; mret SelectError
               else sys (select (max_fd e' s + 1) fds));
      match ready with
      | SelectError => mret (Some SelectFailed)
      | SelectTimeout => signal_handler (bool_decide (sg ∈ [AfterSelect; BeforeAccept; InRound]));; mret None
      | SelectReady r => signal_at AfterSelect sg;; serve_ready sg r
      end
  end.

(** [while (running_)]. *)
Fixpoint event_loop (script : list Signal) : LoopM LoopEnd :=
  s ← srv server;
  if negb (running_ s) then mret FlagDown
  else
    match script with
    | [] => mret StillRunning
    | sg :: rest =>
        r ← iteration sg;
        match r with
        | Some e => mret e
        | None => event_loop rest
        end
    end.

(** ** [Server::start] *)

Definition to_uint16 (z : Z) : Z := (z mod 2 ^ 16)%Z.

(** The address [bind] is called with: [sockaddr_in] is zero-initialised, and
    the result of [inet_pton] is not looked at. *)
Definition bind_address (host : bytes) : Z :=
  if bytes_eqb host $"0.0.0.0" || bytes_eqb host [] then INADDR_ANY
  else default INADDR_ANY (inet_pton host).

Definition read_clock : SrvM (Net := Net) Z := world (db now).

(** Steps 1 to 3: the listening socket; [None] is success. *)
Definition open_listener (early : Early) : LoopM (option StartEnd) :=
  fd ← sys create_socket;
  set_listen_fd fd;;
  if negb (is_valid fd) then mret (Some SocketFailed)
  else
    sys (set_reuseaddr fd);;
    signal_handler (bool_decide (early = BeforeBind));;
    e ← endpoint;
    bound ← sys (bind_socket (listen_fd_ e) (bind_address (host_ e)) (to_uint16 (port_ e)));
    if negb bound then close_listener;; mret (Some BindFailed)
    else
      signal_handler (bool_decide (early = BeforeListen));;
      e ← endpoint;
      listening ← sys (listen_socket (listen_fd_ e) BACKLOG);
      if negb listening then close_listener;; mret (Some ListenFailed)
      else
        e ← endpoint;
        sys (set_nonblocking (listen_fd_ e));; mret None.

(** Step 4: the loop. *)
Definition start (early : Early) (script : list Signal) : LoopM StartEnd :=
  signal_handler (bool_decide (early = BeforeSocket));;
  r ← open_listener early;
  match r with
  | Some failed => mret failed
  | None =>
      signal_handler (bool_decide (early = BeforeRunning));;
      srv (modify_server (λ s, mkServer (clients_ s) (password_ s) true (start_time_ s)));;
      signal_handler (bool_decide (early = AfterRunning));;
      t ← srv read_clock;
      srv (modify_server (λ s, mkServer (clients_ s) (password_ s) (running_ s) t));;
      r ← event_loop script;
      mret (LoopLeft r)
  end.

(** ** Runs *)

Definition with_net (n : Net) (w : World Net) : World Net :=
  mkWorld (w_db w) (w_files w) (w_clock w) (w_pubsub w) n.

Lemma sys_run {A} (m : State Net A) e s w :
  sys m (e, (s, w)) = (let '(a, n) := m (w_net w) in (a, (e, (s, with_net n w)))).
Proof. unfold sys, srv, world, net. by destruct (m (w_net w)). Qed.

Definition flag_down (s : Server) : Server := mkServer (clients_ s) (password_ s) false (start_time_ s).

Lemma close_listener_run e s w :
  close_listener (e, (s, w)) =
  (tt, (mkEndpoint (host_ e) (port_ e) INVALID_SOCKET_VAL,
        (s, with_net (snd (close_socket (listen_fd_ e) (w_net w))) w))).
Proof.
  unfold close_listener, mbind, state_bind, endpoint. cbn beta iota zeta. rewrite sys_run.
  by destruct (close_socket _ _) as [[] n].
Qed.

Lemma stop_run e s w :
  stop (e, (s, w)) =
  if is_valid (listen_fd_ e) then close_listener (e, (flag_down s, w)) else (tt, (e, (flag_down s, w))).
Proof.
  unfold stop, mbind, state_bind, endpoint. unfold srv, clear_running, modify_server. cbn beta iota zeta.
  by destruct (is_valid _).
Qed.

(** ** The descriptor set *)

Lemma foldl_max l m : (m ≤ foldl (λ m fd, if (m <? fd)%Z then fd else m) m l)%Z ∧
  Forall (λ fd, (fd ≤ foldl (λ m fd, if (m <? fd)%Z then fd else m) m l)%Z) l.
Proof.
  revert m. induction l as [|x l IH]; intros m; cbn [foldl]; [by split; [|constructor]|].
  destruct (IH (if (m <? x)%Z then x else m)) as [Hm Hl]. destruct (Z.ltb_spec m x); (split; [lia|]); constructor; try done; lia.
Qed.

Lemma iter_fds_dom (s : Server) fd : fd ∈ iter_fds (dom (clients_ s)) ↔ fd ∈ dom (clients_ s).
Proof. rewrite iter_fds_perm. apply elem_of_elements. Qed.

(** C30: [select] watches every socket.  When the descriptor set is built, it
    holds exactly the listening socket and every client, all within the
    bounds of [fd_set], and the number of descriptors passed covers them all;
    it cannot be built exactly when some descriptor is outside of
    [0, FD_SETSIZE), which the code does not test. *)
Theorem select_watches_all e s :
  (∀ fds, read_fds e s = Some fds →
     fds = {[listen_fd_ e]} ∪ dom (clients_ s) ∧ ∀ fd, fd ∈ fds → (0 ≤ fd < FD_SETSIZE)%Z ∧ (fd < max_fd e s + 1)%Z) ∧
  (read_fds e s = None ↔ ∃ fd, fd ∈ watched e s ∧ ¬ (0 ≤ fd < FD_SETSIZE)%Z).
Proof.
  assert (∀ fd, fd ∈ watched e s ↔ fd ∈ listen_fd_ e :: iter_fds (dom (clients_ s))) as Hw.
  { intros fd. unfold watched. rewrite elem_of_cons, iter_fds_dom. set_solver. }
  unfold read_fds. destruct (forallb fd_in_range _) eqn:E.
  - rewrite forallb_forall in E. split; [|split; [done|]].
    + intros fds [= <-]. split; [done|]. intros fd Hfd%Hw. split.
      * apply list_elem_of_In, E in Hfd. unfold fd_in_range in Hfd. lia.
      * unfold max_fd. destruct (foldl_max (iter_fds (dom (clients_ s))) (listen_fd_ e)) as [Hm Hl].
        rewrite Forall_forall in Hl. apply elem_of_cons in Hfd as [->|Hfd%Hl]; lia.
    + intros (fd & Hfd%Hw%list_elem_of_In%E & Hr). unfold fd_in_range in Hfd. lia.
  - split; [done|]. split; [|done]. intros _. apply not_true_iff_false in E. rewrite forallb_forall in E.
    destruct (decide (Exists (λ fd, fd_in_range fd = false) (listen_fd_ e :: iter_fds (dom (clients_ s))))) as [Hx|Hx].
    + apply Exists_exists in Hx as (fd & Hfd & Hr). exists fd. split; [by apply Hw|]. unfold fd_in_range in Hr. lia.
    + destruct E. intros fd Hfd%list_elem_of_In. destruct (fd_in_range fd) eqn:Er; [done|]. destruct Hx.
      apply Exists_exists. by exists fd.
Qed.

(** ** Shutdown by a signal *)

Definition is_running (st : Endpoint * (Server * World Net)) : bool := running_ (fst (snd st)).

Lemma stop_running st : is_running (snd (stop st)) = false.
Proof.
  destruct st as [e [s w]]. rewrite stop_run, close_listener_run. by destruct (is_valid _).
Qed.

Lemma event_loop_down script st : is_running st = false → event_loop script st = (FlagDown, st).
Proof. destruct st as [e [s w]]. unfold is_running. cbn. intros Hr. by destruct script; cbn; unfold mbind, state_bind; cbn; rewrite Hr. Qed.

Lemma signal_handler_false st : signal_handler false st = (tt, st).
Proof. done. Qed.

Lemma event_loop_cons sg rest st :
  is_running st = true →
  event_loop (sg :: rest) st =
  (let '(r, st1) := iteration sg st in match r with Some e => (e, st1) | None => event_loop rest st1 end).
Proof.
  destruct st as [e [s w]]. unfold is_running. cbn [fst snd]. intros Hr.
  cbn [event_loop]. unfold mbind at 1, state_bind at 1, srv at 1, server at 1. cbn beta iota. rewrite Hr. cbn [negb].
  unfold mbind at 1, state_bind at 1. destruct (iteration sg (e, (s, w))) as [r st1]. by destruct r.
Qed.

(** The handler has run: the flag is down and the listening socket closed. *)
Definition stopped (st : Endpoint * (Server * World Net)) : Prop :=
  is_running st = false ∧ is_valid (listen_fd_ (fst st)) = false.

Lemma stop_stopped st : stopped (snd (stop st)).
Proof. destruct st as [e [s w]]. rewrite stop_run, close_listener_run. destruct (is_valid (listen_fd_ e)) eqn:E; by split. Qed.

Lemma signal_handler_run b st :
  ∃ st', signal_handler b st = (tt, st') ∧ (b = true → stopped st') ∧ (stopped st → stopped st').
Proof.
  destruct b; cbn [signal_handler]; [|by exists st]. pose proof (stop_stopped st) as Hs. destruct (stop st) as [[] st'].
  by exists st'.
Qed.

Lemma signal_at_run point sg st :
  ∃ st', signal_at point sg st = (tt, st') ∧ (point = sg → stopped st') ∧ (stopped st → stopped st').
Proof.
  destruct (signal_handler_run (bool_decide (point = sg)) st) as (st' & E & H1' & H2'). exists st'. split; [done|].
  split; [|done]. intros Hp. apply H1'. by apply bool_decide_eq_true.
Qed.

(** The work of a round does not touch the flag. *)
Lemma accept_running (st : Server * World Net) : running_ (fst (snd (accept_client peer st))) = running_ (fst st).
Proof.
  destruct st as [s w]. unfold accept_client, mbind, state_bind, world, net. destruct (accept_socket (w_net w)) as [[fd|] n]; [|done].
  cbn [w_net]. by destruct (set_nonblocking fd n) as [b n'].
Qed.

Lemma serve_clients_running r (st : Server * World Net) : running_ (fst (snd (serve_clients r st))) = running_ (fst st).
Proof.
  unfold serve_clients, mbind, state_bind. assert (server st = (fst st, st)) as -> by (by destruct st).
  assert (∀ l acc st, running_ (fst (snd (foldM (process_ready r) acc l st))) = running_ (fst st)) as Hp.
  { induction l as [|fd l IH]; intros acc st'; [done|]. rewrite foldM_cons. unfold process_ready at 1.
    case_bool_decide; [|apply IH]. unfold mbind, state_bind. pose proof (process_client_code fd st') as Hc.
    destruct (process_client fd st') as [ok st1]. cbn [snd mret state_ret] in *. rewrite IH. apply (cs_running _ _ _ Hc). }
  specialize (Hp (iter_fds (dom (clients_ (fst st)))) [] st). destruct (foldM (process_ready r) _ _ st) as [dead st1].
  cbn [snd] in Hp. rewrite <- Hp. clear. revert st1. induction dead as [|fd dead IH]; intros st1; [done|].
  rewrite foldM_cons. assert (running_ (fst (snd (disconnect_client fd st1))) = running_ (fst st1)) as E.
  { destruct st1 as [s w]. unfold disconnect_client, modify_server, mbind, state_bind, world, pubsub, on_pubsub, net. cbn beta iota zeta.
    destruct (client_disconnected fd (w_pubsub w)) as [u p]. cbn [w_net]. by destruct (close_socket fd (w_net w)). }
  destruct (disconnect_client fd st1) as [[] st2]. cbn [snd] in E. by rewrite IH.
Qed.

Lemma srv_stopped {A} (m : SrvM A) st :
  running_ (fst (snd (m (snd st)))) = running_ (fst (snd st)) →
  fst (snd (srv m st)) = fst st ∧ is_running (snd (srv m st)) = is_running st ∧ (stopped st → stopped (snd (srv m st))).
Proof.
  destruct st as [e st]. unfold srv, stopped, is_running. cbn [fst snd]. intros Hr. destruct (m st) as [a st'].
  cbn [fst snd] in *. by rewrite Hr.
Qed.

(** An iteration in which a signal arrives breaks the loop or has stopped the
    server when it is over. *)
Definition over (r : option LoopEnd) (st : Endpoint * (Server * World Net)) : Prop :=
  match r with Some e => e = SelectFailed ∨ e = BadDescriptor | None => stopped st end.

Lemma serve_ready_over sg r st :
  sg = BeforeAccept ∨ sg = InRound ∨ stopped st → let '(x, st') := serve_ready sg r st in over x st'.
Proof.
  intros Hsg. unfold serve_ready, mbind, state_bind. assert (∀ st, endpoint st = (fst st, st)) as Hend by (by intros []).
  rewrite Hend. destruct (negb (fd_in_range _)); [by right|]. destruct (signal_at_run BeforeAccept sg st) as (st1 & -> & P1 & K1).
  rewrite Hend. set (m := if _ && _ then _ else _).
  assert (stopped st1 → stopped (snd (m st1))) as K2.
  { subst m. case_match; [|done]. apply srv_stopped, accept_running. }
  destruct (m st1) as [[] st2]. cbn [snd] in K2.
  assert (srv server st2 = (fst (snd st2), st2)) as -> by (by destruct st2 as [? []]).
  destruct (negb (forallb _ _)); [by right|].
  pose proof (srv_stopped (serve_clients r) st2 (serve_clients_running _ _)) as (_ & _ & K3).
  destruct (srv (serve_clients r) st2) as [[] st3]. cbn [snd] in K3.
  destruct (signal_at_run InRound sg st3) as (st4 & -> & P4 & K4). cbn.
  destruct Hsg as [->|[->|Hs]]; [by apply K4, K3, K2, P1|by apply P4|by apply K4, K3, K2, K1].
Qed.

Lemma iteration_over sg st : sg ≠ NoSignal → let '(r, st') := iteration sg st in over r st'.
Proof.
  intros Hsg. unfold iteration, mbind, state_bind. assert (∀ st, endpoint st = (fst st, st)) as Hend by (by intros []).
  assert (∀ st, srv server st = (fst (snd st), st)) as Hsrv by (by intros [? []]).
  destruct (signal_at_run BeforeSet sg st) as (st1 & -> & P1 & K1). rewrite Hend, Hsrv.
  destruct (read_fds _ _) as [fds|]; [|by right].
  destruct (signal_at_run BeforeMax sg st1) as (st2 & -> & P2 & K2). rewrite Hend.
  destruct (signal_at_run BeforeSelect sg st2) as (st3 & -> & P3 & K3).
  case_bool_decide as Hin; [destruct (stop st3) as [[] st4]; by left|].
  assert (stopped st3 → stopped (snd (sys (select (max_fd (fst st2) (fst (snd st1)) + 1) fds) st3))) as K4.
  { apply srv_stopped. unfold world, net. destruct (snd st3) as [s w]. by destruct (select _ _ (w_net w)). }
  destruct (sys _ st3) as [[| |r] st4]; cbn [snd] in K4; [by left|..];
    (assert (stopped st4 ∨ sg ∈ [AfterSelect; BeforeAccept; InRound]) as Hwhen
      by (destruct sg; [done|left; by apply K4, K3, K2, P1|left; by apply K4, K3, P2|left; by apply K4, P3|done|right; set_solver..])).
  - destruct (signal_handler_run (bool_decide (sg ∈ [AfterSelect; BeforeAccept; InRound])) st4) as (st5 & -> & P5 & K5).
    rewrite bool_decide_eq_true in P5. cbn. by destruct Hwhen as [?|?]; auto.
  - destruct (signal_at_run AfterSelect sg st4) as (st5 & -> & P5 & K5). apply serve_ready_over.
    destruct Hwhen as [Hs|Hs]; [by auto|]. destruct sg; try (by auto); set_solver.
Qed.

(** A [break] is one of the other two ends. *)
Lemma iteration_end sg st : fst (iteration sg st) ∈ [None; Some SelectFailed; Some BadDescriptor].
Proof.
  unfold iteration, serve_ready, mbind, state_bind. repeat case_match; simplify_eq/=; set_solver.
Qed.

(** ** Descriptors *)

(** The listening socket, if there is one. *)
Definition listener (e : Endpoint) : gset Z := if is_valid (listen_fd_ e) then {[listen_fd_ e]} else ∅.

(** The open sockets are those of [base] (not this server's), one per client
    and the listening socket, all different. *)
Record fds_ok (base : gset Z) (e : Endpoint) (st : Server * World Net) : Prop := {
  fo_open : open_fds (w_net (snd st)) = base ∪ dom (clients_ (fst st)) ∪ listener e;
  fo_clients : base ## dom (clients_ (fst st));
  fo_listener : listener e ## base ∪ dom (clients_ (fst st));
}.

Lemma client_step_fds base e fd st st' :
  client_step fd st st' → fd ∈ dom (clients_ (fst st)) → fds_ok base e st → fds_ok base e st'.
Proof.
  intros [[_ _ _ Ho] Hoth Hst _ _] Hfd [Ha Hb Hc3].
  assert (dom (clients_ (fst st')) = dom (clients_ (fst st))) as Ed.
  { apply set_eq. intros x. rewrite !elem_of_dom. destruct (decide (x = fd)) as [->|Hne].
    - apply elem_of_dom in Hfd. split; auto.
    - by rewrite Hoth. }
  constructor; rewrite ?Ed; [by rewrite Ho|done|done].
Qed.

Lemma client_step_dom fd st st' x :
  client_step fd st st' → fd ∈ dom (clients_ (fst st)) → x ∈ dom (clients_ (fst st)) → x ∈ dom (clients_ (fst st')).
Proof. rewrite !elem_of_dom. intros Hc _. by apply (client_stays fd). Qed.

(** The loop over the clients keeps the account; the clients it gives up on
    are among those it visits. *)
Lemma process_ready_fds base e ready l acc st :
  Forall (λ fd, fd ∈ dom (clients_ (fst st))) l → fds_ok base e st →
  fds_ok base e (snd (foldM (process_ready ready) acc l st)) ∧
  ∀ fd, fd ∈ fst (foldM (process_ready ready) acc l st) → fd ∈ acc ∨ fd ∈ l.
Proof.
  revert acc st. induction l as [|fd l IH]; intros acc st Hl Hok; [by split; [|left]|].
  apply Forall_cons in Hl as [Hfd Hl]. rewrite foldM_cons. unfold process_ready at 1 3.
  case_bool_decide; [|destruct (IH acc st Hl Hok) as [Ha Hb]; split; [done|]; intros x Hx; apply Hb in Hx; set_solver].
  unfold mbind, state_bind. pose proof (process_client_code fd st) as Hc.
  destruct (process_client fd st) as [ok st1]. cbn [snd] in Hc. unfold mret, state_ret.
  destruct (IH (if ok then acc else acc ++ [fd]) st1) as [Hf Hd].
  - eapply Forall_impl; [done|]. intros x Hx. by eapply client_step_dom.
  - by eapply client_step_fds.
  - split; [done|]. intros x Hx. apply Hd in Hx. destruct ok; set_solver.
Qed.

Lemma disconnect_fds base e fd st :
  fd ∉ base ∪ listener e → fds_ok base e st → fds_ok base e (snd (disconnect_client fd st)).
Proof.
  destruct st as [s w]. intros Hfd [Ha Hb Hc3].
  unfold disconnect_client, modify_server, mbind, state_bind, world, pubsub, on_pubsub, net. cbn beta iota zeta.
  destruct (client_disconnected fd (w_pubsub w)) as [u p]. cbn [w_net].
  destruct (close_socket fd (w_net w)) as [[] n] eqn:En. apply close_open in En. cbn [fst snd clients_ with_clients_ w_net] in *.
  constructor; cbn [fst snd clients_ with_clients_ w_net]; rewrite ?dom_delete_L; [|set_solver..].
  rewrite En, Ha. set_solver.
Qed.

Lemma disconnect_all_fds base e l st :
  Forall (λ fd, fd ∉ base ∪ listener e) l → fds_ok base e st →
  fds_ok base e (snd (foldM (λ _ fd, disconnect_client fd) tt l st)).
Proof.
  intros Hl. revert st. induction Hl as [|fd l Hfd _ IH]; intros st Hok; [done|]. rewrite foldM_cons.
  pose proof (disconnect_fds base e fd st Hfd Hok) as Hd. destruct (disconnect_client fd st) as [[] st1]. by apply IH.
Qed.

Lemma accept_fds base e st : srv_ok st → fds_ok base e st → fds_ok base e (snd (accept_client peer st)).
Proof.
  destruct st as [s w]. intros Hok [Ha Hb Hc3]. destruct (accept_run peer s w Hok) as (w' & Ew & _ & _ & _ & Hcase).
  destruct (accept_client peer (s, w)) as [[] [s1 w1]]. cbn [fst snd] in *. subst w1.
  destruct Hcase as [[-> Ho]|(fd & Hn & _ & _ & Hfd & -> & Ho)]; constructor; cbn [fst snd clients_ with_clients_];
    rewrite ?Ho, ?dom_insert_L; try done; rewrite Ha in *; set_solver.
Qed.

Lemma serve_clients_fds base e ready st :
  srv_ok st → fds_ok base e st → fds_ok base e (snd (serve_clients ready st)).
Proof.
  destruct st as [s1 w1]. intros Hok Hf1. unfold serve_clients, mbind, state_bind, server. cbn beta iota.
  destruct (process_ready_fds base e ready (iter_fds (dom (clients_ s1))) [] (s1, w1)) as [Hf2 Hd]; [|done|].
  { apply Forall_forall. intros fd. apply iter_fds_dom. }
  destruct (foldM (process_ready ready) [] _ (s1, w1)) as [dead st2]. cbn [fst snd] in *.
  apply disconnect_all_fds; [|done]. apply Forall_forall. intros fd Hfd. apply Hd in Hfd as [?%elem_of_nil|Hfd]; [done|].
  apply iter_fds_dom in Hfd. destruct Hf1 as [_ Hb Hc3]. cbn [fst] in *. set_solver.
Qed.

(** ** The invariant of the running server *)

Definition loop_ok (base : gset Z) (st : Endpoint * (Server * World Net)) : Prop :=
  srv_ok (snd st) ∧ fds_ok base (fst st) (snd st).

Lemma with_net_ok base e s w n :
  open_fds n = open_fds (w_net w) → loop_ok base (e, (s, w)) → loop_ok base (e, (s, with_net n w)).
Proof.
  intros Hn [[Hw Hop Hsub] [Ha Hb Hc3]]. cbn in *. split; constructor; cbn; try done; by rewrite Hn.
Qed.

Lemma close_listener_ok base st :
  is_valid (listen_fd_ (fst st)) = true → loop_ok base st →
  loop_ok base (snd (close_listener st)) ∧ listener (fst (snd (close_listener st))) = ∅.
Proof.
  destruct st as [e [s w]]. intros Hv [[Hw Hop Hsub] [Ha Hb Hc3]]. rewrite close_listener_run. unfold listener in *.
  cbn [fst snd] in *. rewrite Hv in *. destruct (close_socket (listen_fd_ e) (w_net w)) as [[] n] eqn:En.
  apply close_open in En. cbn [fst snd listen_fd_]. split; [|done].
  assert (open_fds n = base ∪ dom (clients_ s)) as Ho by (rewrite En, Ha; set_solver).
  split; constructor; unfold listener; cbn; try done; [|set_solver..].
  intros fd Hfd. rewrite Ho. apply elem_of_union_r. by apply elem_of_dom.
Qed.

Lemma server_stop_ok base st : loop_ok base st → loop_ok base (snd (stop st)) ∧ listener (fst (snd (stop st))) = ∅.
Proof.
  destruct st as [e [s w]]. intros [[Hw Hop Hsub] [Ha Hb Hc3]]. rewrite stop_run.
  assert (loop_ok base (e, (flag_down s, w))) as Hok by (by split; constructor).
  destruct (is_valid (listen_fd_ e)) eqn:Ev; [by apply close_listener_ok|]. split; [done|].
  unfold listener. cbn. by rewrite Ev.
Qed.

(** Programs that keep the invariant. *)
Class Keeps (base : gset Z) {A} (m : LoopM A) : Prop :=
  keeps : ∀ st, loop_ok base st → loop_ok base (snd (m st)).

#[local] Instance ret_keeps base {A} (a : A) : Keeps base (mret a).
Proof. by intros st. Qed.
#[local] Instance bind_keeps base {A B} (m : LoopM A) (k : A → LoopM B) :
  Keeps base m → (∀ a, Keeps base (k a)) → Keeps base (m ≫= k).
Proof.
  intros Hm Hk st Hst. unfold mbind, state_bind. apply Hm in Hst. destruct (m st) as [a st1]. by apply Hk.
Qed.
#[local] Instance endpoint_keeps base : Keeps base endpoint.
Proof. by intros [e st]. Qed.
#[local] Instance server_keeps base : Keeps base (srv server).
Proof. by intros [e [s w]]. Qed.
#[local] Instance stop_keeps base : Keeps base stop.
Proof. intros st Hst. by apply server_stop_ok. Qed.
#[local] Instance handler_keeps base b : Keeps base (signal_handler b).
Proof. destruct b; apply _. Qed.
#[local] Instance select_keeps base nfds fds : Keeps base (sys (select nfds fds)).
Proof.
  intros [e [s w]] Hst. rewrite sys_run. destruct (select nfds fds (w_net w)) as [r n] eqn:E.
  apply select_run in E as [Ho _]. by apply with_net_ok.
Qed.
#[local] Instance accept_keeps base : Keeps base (srv (accept_client peer)).
Proof.
  intros [e st] [Hok Hf]. unfold srv. pose proof (accept_ok peer st Hok). pose proof (accept_fds base e st Hok Hf).
  by destruct (accept_client peer st) as [[] st1].
Qed.
#[local] Instance serve_clients_keeps base r : Keeps base (srv (serve_clients r)).
Proof.
  intros [e st] [Hok Hf]. unfold srv. pose proof (serve_clients_ok peer r st Hok). pose proof (serve_clients_fds base e r st Hok Hf).
  by destruct (serve_clients r st) as [[] st1].
Qed.

#[local] Instance iteration_keeps base sg : Keeps base (iteration sg).
Proof. unfold iteration, serve_ready, signal_at. repeat (case_match || apply _ || apply bind_keeps || intros ?). Qed.

#[local] Instance event_loop_keeps base script : Keeps base (event_loop script).
Proof. induction script as [|sg script IH]; cbn [event_loop]; repeat (case_match || apply _ || apply bind_keeps || intros ?). Qed.

(** Set-up calls that open and close nothing. *)
Lemma sys_ok {A} (m : State Net A) base st :
  (∀ w r w', m w = (r, w') → open_fds w' = open_fds w) → loop_ok base st →
  loop_ok base (snd (sys m st)) ∧ fst (snd (sys m st)) = fst st ∧ fst (snd (snd (sys m st))) = fst (snd st) ∧
  open_fds (w_net (snd (snd (snd (sys m st))))) = open_fds (w_net (snd (snd st))).
Proof.
  intros Hm Hok. destruct st as [e [s w]]. rewrite sys_run. destruct (m (w_net w)) as [a n] eqn:E. apply Hm in E.
  split_and!; [by apply with_net_ok|done..].
Qed.

Lemma create_ok e s w :
  listener e = ∅ → clients_ s = ∅ → srv_ok (s, w) →
  let '(fd, st) := (fd ← sys create_socket; set_listen_fd fd;; mret fd : LoopM Z) (e, (s, w)) in
  loop_ok (open_fds (w_net w)) st ∧ listen_fd_ (fst st) = fd ∧ fst (snd st) = s ∧
  (is_valid fd = false → open_fds (w_net (snd (snd st))) = open_fds (w_net w)).
Proof.
  intros Hl Hcl [Hw Hop Hsub]. unfold mbind, state_bind. rewrite sys_run.
  destruct (create_socket (w_net w)) as [fd n] eqn:E. apply create_open in E.
  unfold set_listen_fd, mret, state_ret. cbn [fst snd listen_fd_ with_net w_net] in *.
  split_and!; [|done|done|by intros Hv; rewrite Hv in E].
  split; constructor; cbn [fst snd] in *; rewrite ?Hcl, ?dom_empty_L; try done.
  - intros x Hx. rewrite lookup_empty in Hx. by destruct Hx.
  - by rewrite Hcl in Hsub.
  - unfold listener. cbn. destruct (is_valid fd); [destruct E as [_ ->]|rewrite E]; set_solver.
  - unfold listener. cbn. destruct (is_valid fd); [destruct E as [Hfd _]|]; set_solver.
Qed.

(** The stores to [running_] and [start_time_]. *)
Lemma set_running_ok base b st :
  loop_ok base st →
  loop_ok base (snd (srv (modify_server (λ s, mkServer (clients_ s) (password_ s) b (start_time_ s))) st)).
Proof. destruct st as [e [s w]]. intros [[Hi Hop Hsub] [Ha Hb Hc3]]. cbn in *. by split; constructor. Qed.

Lemma set_start_time_ok base st :
  loop_ok base st →
  let '(t, st1) := srv read_clock st in
  loop_ok base (snd (srv (modify_server (λ s, mkServer (clients_ s) (password_ s) (running_ s) t)) st1)).
Proof.
  destruct st as [e [s w]]. intros [[[Hi Hp] Hop Hsub] [Ha Hb Hc3]]. cbn in *.
  split; constructor; cbn; try done. split; [|done]. apply (inv_later (w_db w) (w_clock w) (S (w_clock w))); [lia|done].
Qed.

(** A state of the set-up of the server [s]: the listening socket is open, or
    a signal has closed it. *)
Record setup (base : gset Z) (s : Server) (st : Endpoint * (Server * World Net)) : Prop := {
  su_ok : loop_ok base st;
  su_server : fst (snd st) = s;
  su_listener : is_valid (listen_fd_ (fst st)) = true ∨ listen_fd_ (fst st) = INVALID_SOCKET_VAL;
}.

Lemma flag_down_same s : running_ s = false → flag_down s = s.
Proof. intros Hr. unfold flag_down. rewrite <- Hr. by destruct s. Qed.

Lemma setup_handler base s b st : running_ s = false → setup base s st → setup base s (snd (signal_handler b st)).
Proof.
  destruct b; [|done]. intros Hr [Hok Hs Hl]. cbn [signal_handler]. pose proof (server_stop_ok base st Hok) as [Hok' _].
  destruct st as [e [s0 w]]. cbn [fst snd] in *. subst s0. rewrite stop_run, close_listener_run, flag_down_same in * by done.
  destruct (is_valid (listen_fd_ e)) eqn:Ev; (split; [done|done|]); [by right|]. cbn [fst snd]. by rewrite Ev.
Qed.

Lemma setup_sys {A} (m : State Net A) base s st :
  (∀ w r w', m w = (r, w') → open_fds w' = open_fds w) → setup base s st →
  setup base s (snd (sys m st)) ∧ fst (snd (sys m st)) = fst st.
Proof.
  intros Hm [Hok Hs Hl]. destruct (sys_ok m base st Hm Hok) as (Hok' & He & Hs' & _). split; [|done].
  split; [done|congruence|by rewrite He].
Qed.

(** Closing the listener leaves none, also when a signal has closed it before. *)
Lemma setup_close base s st :
  INVALID_SOCKET_VAL ∉ base → clients_ s = ∅ → setup base s st →
  loop_ok base (snd (close_listener st)) ∧ fst (snd (snd (close_listener st))) = s ∧
  listener (fst (snd (close_listener st))) = ∅.
Proof.
  destruct st as [e [s0 w]]. intros Hb Hcl [Hok Hs Hl]. cbn [fst snd] in *. subst s0.
  destruct (is_valid (listen_fd_ e)) eqn:Ev.
  - destruct (close_listener_ok base (e, (s, w)) Ev Hok) as [Ho Hn]. rewrite close_listener_run in *. by split_and!.
  - destruct Hl as [|Hl]; [done|]. rewrite close_listener_run. cbn [fst snd]. split_and!; [|done|done].
    destruct (close_socket (listen_fd_ e) (w_net w)) as [[] n] eqn:En. apply close_open in En. cbn [snd].
    assert (mkEndpoint (host_ e) (port_ e) INVALID_SOCKET_VAL = e) as -> by (destruct e; cbn in *; congruence).
    apply with_net_ok; [|done]. destruct Hok as [_ [Ha _ _]]. unfold listener in Ha. cbn [fst snd] in Ha.
    rewrite Ev, Hcl, dom_empty_L in Ha. rewrite En, Ha, Hl. set_solver.
Qed.

(** The listening socket is set up, or nothing is left behind. *)
Lemma open_listener_run early e s w :
  listener e = ∅ → clients_ s = ∅ → running_ s = false → INVALID_SOCKET_VAL ∉ open_fds (w_net w) → srv_ok (s, w) →
  let '(r, st) := open_listener early (e, (s, w)) in
  loop_ok (open_fds (w_net w)) st ∧ fst (snd st) = s ∧ (is_Some r → listener (fst st) = ∅).
Proof.
  intros Hl Hcl Hr Hinv Hok. pose proof (create_ok e s w Hl Hcl Hok) as Hc. set (base := open_fds (w_net w)) in *.
  unfold open_listener. unfold mbind at 1, state_bind at 1. unfold mbind at 1 in Hc. unfold state_bind at 1 in Hc.
  destruct (sys create_socket (e, (s, w))) as [fd st0]. unfold mbind at 1, state_bind at 1.
  unfold mbind, state_bind in Hc. destruct (set_listen_fd fd st0) as [[] st1].
  cbn [mret state_ret] in Hc. destruct Hc as (Hok1 & Hfd & Hs & _).
  destruct (is_valid fd) eqn:Hv; cbn [negb]; [|split_and!; [done..|]; intros _; unfold listener; by rewrite Hfd, Hv].
  assert (∀ st failed, setup base s st →
    let '(r, st') := (close_listener;; mret (Some failed) : LoopM (option StartEnd)) st in
    loop_ok base st' ∧ fst (snd st') = s ∧ (is_Some r → listener (fst st') = ∅)) as Hclose.
  { intros st failed Hst. unfold mbind, state_bind. pose proof (setup_close base s st Hinv Hcl Hst) as (? & ? & ?).
    by destruct (close_listener st) as [[] st']. }
  assert (∀ st, endpoint st = (fst st, st)) as Hend by (by intros []).
  assert (setup base s st1) as Hst1 by (split; [done|done|left; by rewrite Hfd]).
  unfold mbind at 1, state_bind at 1. destruct (setup_sys (set_reuseaddr fd) base s st1) as [Hst2 _]; [by apply reuse_open|done|].
  destruct (sys (set_reuseaddr fd) st1) as [[] st2]. cbn [snd] in *.
  unfold mbind at 1, state_bind at 1. pose proof (setup_handler base s (bool_decide (early = BeforeBind)) st2 Hr Hst2) as Hst3.
  destruct (signal_handler _ st2) as [[] st3]. cbn [snd] in Hst3.
  unfold mbind at 1, state_bind at 1. rewrite Hend. unfold mbind at 1, state_bind at 1. set (bnd := bind_socket _ _ _).
  destruct (setup_sys bnd base s st3) as [Hst4 _]; [by apply bind_open|done|].
  destruct (sys bnd st3) as [[] st4]; cbn [snd negb] in *; [|by apply Hclose].
  unfold mbind at 1, state_bind at 1. pose proof (setup_handler base s (bool_decide (early = BeforeListen)) st4 Hr Hst4) as Hst5.
  destruct (signal_handler _ st4) as [[] st5]. cbn [snd] in Hst5.
  unfold mbind at 1, state_bind at 1. rewrite Hend. unfold mbind at 1, state_bind at 1. set (lst := listen_socket _ _).
  destruct (setup_sys lst base s st5) as [Hst6 _]; [by apply listen_open|done|].
  destruct (sys lst st5) as [[] st6]; cbn [snd negb] in *; [|by apply Hclose].
  unfold mbind, state_bind. rewrite Hend. set (nb := set_nonblocking _).
  destruct (setup_sys nb base s st6) as [[Ha Hb _] _]; [by apply set_nonblocking_open|done|].
  destruct (sys nb st6) as [b st7]. split_and!; [done|done|by intros []].
Qed.

(** A signal before the set-up lowers a flag that is down already. *)
Lemma early_signal early e s w :
  listener e = ∅ → running_ s = false → signal_handler (bool_decide (early = BeforeSocket)) (e, (s, w)) = (tt, (e, (s, w))).
Proof.
  intros Hl Hr. case_bool_decide; [|done]. cbn [signal_handler]. rewrite stop_run. unfold listener in Hl.
  destruct (is_valid (listen_fd_ e)); [set_solver|]. by rewrite flag_down_same.
Qed.

(** The whole of [start], for a system on which -1 is no open descriptor (a
    signal in the set-up makes it close -1). *)
Lemma start_run early script e s w :
  listener e = ∅ → clients_ s = ∅ → running_ s = false → INVALID_SOCKET_VAL ∉ open_fds (w_net w) → srv_ok (s, w) →
  let '(r, st) := start early script (e, (s, w)) in
  loop_ok (open_fds (w_net w)) st ∧
  match r with
  | LoopLeft _ => True
  | _ => listener (fst st) = ∅ ∧ fst (snd st) = s
  end.
Proof.
  intros Hl Hcl Hrun Hinv Hok. pose proof (open_listener_run early e s w Hl Hcl Hrun Hinv Hok) as Hr. unfold start, mbind, state_bind.
  rewrite early_signal by done.
  destruct (open_listener early (e, (s, w))) as [[failed|] st]; destruct Hr as (Hok1 & Hs & Hf).
  - split; [done|]. destruct failed; [by split; [apply Hf|]..|done].
  - pose proof (handler_keeps _ (bool_decide (early = BeforeRunning)) st Hok1) as Hok0.
    destruct (signal_handler _ st) as [[] st0]. cbn [snd] in Hok0.
    apply (set_running_ok _ true) in Hok0. destruct (srv (modify_server _) st0) as [[] st1]. cbn [snd] in Hok0.
    apply (handler_keeps _ (bool_decide (early = AfterRunning))) in Hok0. destruct (signal_handler _ st1) as [[] st2].
    apply set_start_time_ok in Hok0. cbn [snd] in Hok0. destruct (srv read_clock st2) as [t st3].
    destruct (srv (modify_server _) st3) as [[] st4]. cbn [snd] in Hok0.
    pose proof (event_loop_keeps (open_fds (w_net w)) script st4 Hok0) as Hok3. by destruct (event_loop script st4).
Qed.

Lemma close_all_run l e s w :
  ∃ n, foldM (λ _ fd, sys (close_socket fd)) tt l (e, (s, w)) = (tt, (e, (s, with_net n w))) ∧
    open_fds n = open_fds (w_net w) ∖ list_to_set l.
Proof.
  revert w. induction l as [|fd l IH]; intros w.
  - exists (w_net w). split; [by destruct w|set_solver].
  - rewrite foldM_cons, sys_run. destruct (close_socket fd (w_net w)) as [[] n] eqn:E. apply close_open in E.
    destruct (IH (with_net n w)) as (n' & -> & Hn). exists n'. split; [done|]. cbn [with_net w_net] in Hn. set_solver.
Qed.

Lemma destroy_fds base st : loop_ok base st → open_fds (w_net (snd (snd (snd (destroy st))))) = base.
Proof.
  intros Hok. destruct (server_stop_ok base st Hok) as [[_ [Ha Hb Hc3]] Hl]. unfold destroy. unfold mbind at 1, state_bind at 1.
  destruct (stop st) as [[] [e [s w]]]. cbn [fst snd] in *. unfold mbind, state_bind, srv, server, endpoint. cbn beta iota zeta.
  destruct (close_all_run (iter_fds (dom (clients_ s))) e s w) as (n & -> & Hn). cbn beta iota zeta.
  unfold listener in *. destruct (is_valid (listen_fd_ e)); [set_solver|]. cbn [mret state_ret snd with_net w_net].
  rewrite Hn, Ha, iter_fds_perm, list_to_set_elements_L. set_solver.
Qed.

Lemma no_leak early script host port s w :
  clients_ s = ∅ → running_ s = false → INVALID_SOCKET_VAL ∉ open_fds (w_net w) → srv_ok (s, w) →
  let st := snd (start early script (new_endpoint host port, (s, w))) in
  open_fds (w_net (snd (snd (snd (destroy st))))) = open_fds (w_net w).
Proof.
  intros Hcl Hrun Hinv Hok st. pose proof (start_run early script (new_endpoint host port) s w eq_refl Hcl Hrun Hinv Hok) as Hr. subst st.
  destruct (start early script _) as [r st]. destruct Hr as [Hr _]. by apply destroy_fds.
Qed.

(** ** Theorems *)

(** C10: the running server stays consistent.  From the construction of a
    server on any consistent database, with any behaviour of the operating
    system, clients and signals, at every iteration of the loop and when
    [start] returns: the stores, subscriptions and clients satisfy their
    invariants, and the open sockets are exactly those that were open before,
    one per client, and the listening socket. *)
Theorem start_invariant early script host port s w :
  clients_ s = ∅ → running_ s = false → INVALID_SOCKET_VAL ∉ open_fds (w_net w) → srv_ok (s, w) →
  let st := snd (start early script (new_endpoint host port, (s, w))) in
  srv_ok (snd st) ∧ fds_ok (open_fds (w_net w)) (fst st) (snd st).
Proof.
  intros Hcl Hrun Hinv Hok st. pose proof (start_run early script (new_endpoint host port) s w eq_refl Hcl Hrun Hinv Hok) as Hr. subst st.
  destruct (start early script _) as [r st]. by destruct Hr.
Qed.

(** C28: a failed start leaves nothing behind.  When the socket cannot be
    created, bound or listened on, [start] returns without entering the loop:
    the server's members are as before, it has no listening socket, and the
    open sockets are those that were open before. *)
Theorem failed_start early script host port s w :
  clients_ s = ∅ → running_ s = false → INVALID_SOCKET_VAL ∉ open_fds (w_net w) → srv_ok (s, w) →
  let '(r, (e, (s', w'))) := start early script (new_endpoint host port, (s, w)) in
  (∀ x, r ≠ LoopLeft x) → s' = s ∧ is_valid (listen_fd_ e) = false ∧ open_fds (w_net w') = open_fds (w_net w).
Proof.
  intros Hcl Hrun Hinv Hok. pose proof (start_run early script (new_endpoint host port) s w eq_refl Hcl Hrun Hinv Hok) as Hr.
  destruct (start early script _) as [r [e [s' w']]]. destruct Hr as [[_ [Ha _ _]] Hr]. cbn [fst snd] in *. intros Hx.
  assert (listener e = ∅ ∧ s' = s) as [Hl ->] by (destruct r; [done..|by destruct (Hx e0)]).
  rewrite Ha, Hl, Hcl, dom_empty_L. unfold listener in Hl. split_and!; [done| |set_solver].
  destruct (is_valid _); [set_solver|done].
Qed.

(** *** Signals and undefined behaviour *)

Lemma stop_clients e s w : ∃ e' w', stop (e, (s, w)) = (tt, (e', (flag_down s, w'))) ∧ is_valid (listen_fd_ e') = false.
Proof.
  rewrite stop_run, close_listener_run. destruct (is_valid (listen_fd_ e)) eqn:E; by eexists _, _.
Qed.

Lemma handler_clients b base e s w :
  loop_ok base (e, (s, w)) →
  ∃ e' s' w', signal_handler b (e, (s, w)) = (tt, (e', (s', w'))) ∧ clients_ s' = clients_ s ∧ srv_ok (s', w').
Proof.
  intros Hok. pose proof (handler_keeps base b _ Hok) as [Hk _]. destruct b; [|by eexists _, _, _].
  cbn [signal_handler] in *. destruct (stop_clients e s w) as (e' & w' & E & _). rewrite E in *. by eexists _, _, _.
Qed.

Definition in_range_fds (m : gmap Z ClientState) : Prop := ∀ fd, is_Some (m !! fd) → fd_in_range fd = true.

Lemma in_range_iter (m : gmap Z ClientState) : forallb fd_in_range (iter_fds (dom m)) = true ↔ in_range_fds m.
Proof.
  rewrite forallb_forall. unfold in_range_fds. setoid_rewrite <- elem_of_dom. split; intros Hf fd Hfd; apply Hf.
  - by rewrite <- list_elem_of_In, iter_fds_perm, elem_of_elements.
  - by rewrite <- list_elem_of_In, iter_fds_perm, elem_of_elements in Hfd.
Qed.

(** Serving is defined up to a client that is accepted just then. *)
Lemma serve_ready_defined base sg r e s w :
  loop_ok base (e, (s, w)) → fd_in_range (listen_fd_ e) = true → in_range_fds (clients_ s) →
  let '(end_, (_, (s', _))) := serve_ready sg r (e, (s, w)) in
  end_ = Some BadDescriptor → ∃ fd, clients_ s !! fd = None ∧ is_Some (clients_ s' !! fd) ∧ (FD_SETSIZE ≤ fd)%Z.
Proof.
  intros Hok Hl Hc. unfold serve_ready, signal_at, mbind, state_bind, endpoint. cbn beta iota. rewrite Hl. cbn [negb].
  destruct (handler_clients (bool_decide (BeforeAccept = sg)) base e s w Hok) as (e1 & s1 & w1 & -> & Hs1 & Hok1).
  cbn beta iota. set (m := if _ && _ then _ else _).
  assert (∃ s2 w2, m (e1, (s1, w1)) = (tt, (e1, (s2, w2))) ∧
    (clients_ s2 = clients_ s ∨ ∃ fd c, clients_ s !! fd = None ∧ (0 ≤ fd)%Z ∧ clients_ s2 = <[fd := c]> (clients_ s)))
    as (s2 & w2 & -> & Hs2).
  { subst m. destruct (_ && _); [|eexists _, _; split; [done|by left]]. unfold srv.
    destruct (accept_run peer s1 w1 Hok1) as (w' & _ & _ & _ & _ & Hcase).
    destruct (accept_client peer (s1, w1)) as [[] [s2 w2]]. cbn [fst snd] in Hcase. eexists _, _. split; [done|].
    destruct Hcase as [[-> _]|(fd & Hn & _ & Hpos & _ & -> & _)]; [by left|right]. rewrite Hs1 in Hn.
    eexists fd, _. split_and!; [done|done|]. cbn [clients_ with_clients_]. by rewrite Hs1. }
  unfold srv at 1, server at 1. cbn beta iota. destruct (forallb fd_in_range _) eqn:Ef; cbn [negb].
  - destruct (srv (serve_clients r) (e1, (s2, w2))) as [[] st3].
    destruct (signal_handler _ st3) as [[] [e4 [s4 w4]]]. done.
  - intros _. apply not_true_iff_false in Ef. rewrite in_range_iter in Ef.
    destruct Hs2 as [E|(fd & c & Hn & Hpos & E)]; rewrite E in *; [done|]. exists fd. split; [done|].
    split; [rewrite lookup_insert_eq; eauto|]. destruct (decide (fd < FD_SETSIZE)%Z) as [Hlt|]; [|lia]. destruct Ef.
    intros x [->|[_ Hx]]%lookup_insert_is_Some; [|by apply Hc]. unfold fd_in_range. lia.
Qed.

Lemma read_fds_some e s :
  fd_in_range (listen_fd_ e) = true → in_range_fds (clients_ s) → read_fds e s = Some (watched e s).
Proof. intros Hl Hc%in_range_iter. unfold read_fds. cbn [forallb]. by rewrite Hl, Hc. Qed.

(** [select] with the listening socket closed in the meantime. *)
Lemma select_after_stop base e s w :
  loop_ok base (e, (s, w)) → fd_in_range (listen_fd_ e) = true →
  fst (sys (select (max_fd e s + 1) (watched e s)) (snd (stop (e, (s, w))))) = SelectError.
Proof.
  intros [_ [Ha _ Hc3]] Hl. assert (is_valid (listen_fd_ e) = true) as Hv by (unfold fd_in_range, is_valid in *; lia).
  rewrite stop_run, Hv, close_listener_run. cbn [snd]. rewrite sys_run. cbn [w_net with_net].
  pose proof (select_closed (max_fd e s + 1) (watched e s) (snd (close_socket (listen_fd_ e) (w_net w))) (listen_fd_ e)) as Hs.
  destruct (select _ _ _) as [x n]. cbn [fst] in *. apply Hs.
  - unfold watched. set_solver.
  - destruct (foldl_max (iter_fds (dom (clients_ s))) (listen_fd_ e)) as [Hm _]. unfold max_fd. lia.
  - destruct (close_socket (listen_fd_ e) (w_net w)) as [[] n'] eqn:E. apply close_open in E. cbn [snd]. rewrite E. set_solver.
Qed.

(** An iteration is defined as long as the descriptors are in range. *)
Lemma iteration_defined base sg e s w :
  loop_ok base (e, (s, w)) → fd_in_range (listen_fd_ e) = true → in_range_fds (clients_ s) →
  sg ∉ [BeforeSet; BeforeMax; AfterSelect] →
  let '(end_, (_, (s', _))) := iteration sg (e, (s, w)) in
  end_ = Some BadDescriptor → ∃ fd, clients_ s !! fd = None ∧ is_Some (clients_ s' !! fd) ∧ (FD_SETSIZE ≤ fd)%Z.
Proof.
  intros Hok Hl Hc Hsg. unfold iteration, signal_at, mbind, state_bind.
  rewrite (bool_decide_eq_false_2 (BeforeSet = sg)), (bool_decide_eq_false_2 (BeforeMax = sg)),
    (bool_decide_eq_false_2 (AfterSelect = sg)) by set_solver.
  rewrite !signal_handler_false. unfold endpoint, srv, server. cbn beta iota. rewrite read_fds_some by done.
  rewrite !signal_handler_false. cbn beta iota.
  case_bool_decide as Hb; [|clear Hb; case_bool_decide as Hi].
  - subst sg. cbn [signal_handler]. rewrite (bool_decide_eq_false_2 (BeforeSelect = InSelect)) by done.
    pose proof (select_after_stop base e s w Hok Hl) as Hs. destruct (stop (e, (s, w))) as [[] st]. cbn [snd] in Hs.
    destruct (sys _ st) as [x [e1 [s1 w1]]]. cbn [fst] in Hs. by subst x.
  - rewrite signal_handler_false. by destruct (stop (e, (s, w))) as [[] [e1 [s1 w1]]].
  - rewrite signal_handler_false. rewrite sys_run. destruct (select _ _ (w_net w)) as [x n] eqn:E.
    apply select_run in E as [Ho _]. destruct x as [| |r]; [done|by destruct (signal_handler _ _) as [[] [? []]]|].
    rewrite signal_handler_false.
    apply (serve_ready_defined base); [by apply with_net_ok|done|done].
Qed.

(** C25: where signals are harmless.  While all descriptors are within the
    bounds of [fd_set], an iteration in which no signal arrives, or one just
    before or in [select], just before [accept] or later, never calls [FD_SET]
    or [FD_ISSET] out of bounds, except for a client that is accepted in it
    with a descriptor beyond [FD_SETSIZE]. *)
Theorem signal_safe_points base sg e s w :
  loop_ok base (e, (s, w)) → fd_in_range (listen_fd_ e) = true → in_range_fds (clients_ s) →
  sg ∉ [BeforeSet; BeforeMax; AfterSelect] →
  let '(end_, (_, (s', _))) := iteration sg (e, (s, w)) in
  end_ = Some BadDescriptor → ∃ fd, clients_ s !! fd = None ∧ is_Some (clients_ s' !! fd) ∧ (FD_SETSIZE ≤ fd)%Z.
Proof. apply iteration_defined. Qed.

(** Elsewhere they are not: a signal between the test of [running_] and
    [FD_SET], or between a [select] that reports something and the test of
    the listening socket, makes the loop call [FD_SET] or [FD_ISSET] with the
    descriptor -1. *)
Theorem signal_race e s w :
  fst (iteration BeforeSet (e, (s, w))) = Some BadDescriptor ∧
  (∀ r n, fd_in_range (listen_fd_ e) = true → in_range_fds (clients_ s) →
    select (max_fd e s + 1) (watched e s) (w_net w) = (SelectReady r, n) →
    fst (iteration AfterSelect (e, (s, w))) = Some BadDescriptor).
Proof.
  assert (∀ e', is_valid (listen_fd_ e') = false → fd_in_range (listen_fd_ e') = false) as Hv
    by (intros e'; unfold is_valid, fd_in_range; lia).
  unfold iteration, signal_at, mbind, state_bind. split.
  - rewrite bool_decide_eq_true_2 by done. cbn [signal_handler]. destruct (stop_clients e s w) as (e' & w' & -> & He').
    unfold endpoint, srv, server, read_fds. cbn beta iota. cbn [forallb]. by rewrite Hv.
  - intros r n Hl Hc Hs. rewrite !(bool_decide_eq_false_2 (_ = AfterSelect)) by done.
    rewrite (bool_decide_eq_false_2 (AfterSelect = _)), (bool_decide_eq_true_2 (AfterSelect = AfterSelect)) by done.
    rewrite !signal_handler_false. unfold endpoint, srv, server. cbn beta iota. rewrite read_fds_some by done.
    rewrite !signal_handler_false. cbn beta iota. rewrite ?signal_handler_false, sys_run, Hs. cbn [signal_handler].
    destruct (stop_clients e s (with_net n w)) as (e' & w' & -> & He').
    unfold serve_ready, mbind, state_bind, endpoint. cbn beta iota. by rewrite Hv.
Qed.

(** *** The end of the loop *)

Lemma serve_clients_dom r (st : Server * World Net) :
  (dom (clients_ (fst (snd (serve_clients r st)))) : gset Z) ⊆ dom (clients_ (fst st)).
Proof.
  unfold serve_clients, mbind, state_bind. assert (server st = (fst st, st)) as -> by (by destruct st).
  assert (∀ l acc st, Forall (λ fd, fd ∈ dom (clients_ (fst st))) l →
    dom (clients_ (fst (snd (foldM (process_ready r) acc l st)))) = dom (clients_ (fst st))) as Hp.
  { induction l as [|fd l IH]; intros acc st' Hl; [done|]. apply Forall_cons in Hl as [Hfd Hl].
    rewrite foldM_cons. unfold process_ready at 1. case_bool_decide; [|by apply IH]. unfold mbind, state_bind.
    pose proof (process_client_code fd st') as [_ Hoth Hst _ _]. destruct (process_client fd st') as [ok st1].
    cbn [snd mret state_ret] in *. assert (dom (clients_ (fst st1)) = dom (clients_ (fst st'))) as E.
    { apply set_eq. intros x. rewrite !elem_of_dom. destruct (decide (x = fd)) as [->|]; [|by rewrite Hoth].
      apply elem_of_dom in Hfd. split; auto. }
    rewrite IH; [done|]. eapply Forall_impl; [done|]. intros x. by rewrite E. }
  specialize (Hp (iter_fds (dom (clients_ (fst st)))) [] st ltac:(apply Forall_forall; intros fd; apply iter_fds_dom)).
  destruct (foldM (process_ready r) _ _ st) as [dead st1]. cbn [snd] in Hp. rewrite <- Hp. clear. revert st1.
  induction dead as [|fd dead IH]; intros st1; [rewrite foldM_nil; set_solver|]. rewrite foldM_cons.
  assert ((dom (clients_ (fst (snd (disconnect_client fd st1)))) : gset Z) ⊆ dom (clients_ (fst st1))) as E.
  { destruct st1 as [s w]. unfold disconnect_client, modify_server, mbind, state_bind, world, pubsub, on_pubsub, net. cbn beta iota zeta.
    destruct (client_disconnected fd (w_pubsub w)) as [u p]. cbn [w_net]. destruct (close_socket fd (w_net w)) as [[] n].
    cbn. rewrite dom_delete_L. set_solver. }
  destruct (disconnect_client fd st1) as [[] st2]. cbn [snd] in E. etransitivity; [apply IH|done].
Qed.

Lemma in_range_dom (m m' : gmap Z ClientState) : (dom m' : gset Z) ⊆ dom m → in_range_fds m → in_range_fds m'.
Proof. unfold in_range_fds. setoid_rewrite <- elem_of_dom. set_solver. Qed.

(** An iteration without a signal that goes on leaves flag and listening socket
    as they are, and has clients in range only. *)
Lemma iteration_quiet st :
  in_range_fds (clients_ (fst (snd st))) →
  let '(r, st') := iteration NoSignal st in
  r = None → fst st' = fst st ∧ is_running st' = is_running st ∧ in_range_fds (clients_ (fst (snd st'))).
Proof.
  intros Hc. unfold iteration, signal_at, mbind, state_bind. rewrite !(bool_decide_eq_false_2 (_ = NoSignal)) by done.
  rewrite (bool_decide_eq_false_2 (NoSignal = _)), (bool_decide_eq_false_2 (NoSignal ∈ _)) by set_solver.
  assert (∀ st, endpoint st = (fst st, st)) as Hend by (by intros []).
  assert (∀ st, srv server st = (fst (snd st), st)) as Hsrv by (by intros [? []]).
  rewrite !signal_handler_false, Hend, Hsrv. destruct (read_fds _ _) as [fds|]; [|done].
  rewrite !signal_handler_false, Hend, ?signal_handler_false.
  destruct st as [e [s w]]. rewrite sys_run. cbn [fst snd] in *. destruct (select _ _ _) as [[| |r] n]; [done|done|].
  rewrite signal_handler_false. unfold serve_ready, signal_at, mbind, state_bind. rewrite Hend. destruct (negb (fd_in_range _)); [done|].
  rewrite !(bool_decide_eq_false_2 (_ = NoSignal)) by done. rewrite signal_handler_false, Hend. set (m := if _ && _ then _ else _).
  set (st1 := (e, (s, with_net n w))).
  assert (fst (snd (m st1)) = e ∧ is_running (snd (m st1)) = running_ s) as [E1 R1].
  { subst m. case_match; [|done]. pose proof (srv_stopped (accept_client peer) st1 (accept_running _)) as (-> & -> & _). done. }
  destruct (m st1) as [[] st2]. cbn [snd] in E1, R1. rewrite Hsrv.
  destruct (forallb fd_in_range (iter_fds (dom (clients_ (fst (snd st2)))))) eqn:Ef; cbn [negb]; [|done].
  apply in_range_iter in Ef. pose proof (srv_stopped (serve_clients r) st2 (serve_clients_running _ _)) as (E3 & R3 & _).
  pose proof (serve_clients_dom r (snd st2)) as D3. unfold srv in *. destruct st2 as [e2 st2']. cbn [fst snd] in *.
  destruct (serve_clients r st2') as [[] st3]. cbn [fst snd] in *. rewrite signal_handler_false. intros _. cbn [fst snd].
  split_and!; [done|by rewrite R3|]. by eapply in_range_dom.
Qed.

(** C24: a signal ends the loop.  When a termination signal arrives in an
    iteration, at whatever point of it, and the loop gets that far, no
    iteration follows.  The loop then ends with its flag down and the listening
    socket closed, or with a failing [select]; it can also run into [FD_SET] or
    [FD_ISSET] with a descriptor out of bounds, but only if a signal arrives at
    one of three points ([BeforeSet], [BeforeMax], [AfterSelect]) or there is a
    client with a descriptor beyond [FD_SETSIZE], given that all descriptors
    were in range at first. *)
Theorem signal_ends_loop base pre sg post st :
  sg ≠ NoSignal → loop_ok base st → is_running st = true →
  fd_in_range (listen_fd_ (fst st)) = true → in_range_fds (clients_ (fst (snd st))) →
  event_loop (pre ++ sg :: post) st = event_loop (pre ++ [sg]) st ∧
  let '(r, st') := event_loop (pre ++ [sg]) st in
  match r with
  | StillRunning => False
  | FlagDown => is_running st' = false ∧ is_valid (listen_fd_ (fst st')) = false
  | SelectFailed => True
  | BadDescriptor =>
      (∃ x, x ∈ pre ++ [sg] ∧ x ∈ [BeforeSet; BeforeMax; AfterSelect]) ∨
      ∃ fd, is_Some (clients_ (fst (snd st')) !! fd) ∧ (FD_SETSIZE ≤ fd)%Z
  end.
Proof.
  intros Hsg. revert st. induction pre as [|s0 pre IH]; intros st Hok Hr Hl Hc; cbn [app].
  - rewrite !event_loop_cons by done. pose proof (iteration_over sg st Hsg) as Ho.
    pose proof (iteration_defined base sg (fst st) (fst (snd st)) (snd (snd st))) as Hd.
    rewrite <- !surjective_pairing in Hd. destruct (iteration sg st) as [[e|] st1].
    + split; [done|]. destruct Ho as [->| ->]; [done|]. destruct (decide (sg ∈ [BeforeSet; BeforeMax; AfterSelect])); [left; exists sg; by split; [left|]|].
      right. destruct st1 as [e1 [s1 w1]]. destruct (Hd Hok Hl Hc ltac:(done) eq_refl) as (fd & _ & ? & ?). by exists fd.
    + destruct Ho as [Hdown Hv]. by rewrite !event_loop_down.
  - rewrite !event_loop_cons by done. pose proof (iteration_keeps base s0 st Hok) as Hok1.
    pose proof (iteration_over s0 st) as Ho. pose proof (iteration_quiet st Hc) as Hq. pose proof (iteration_end s0 st) as He.
    pose proof (iteration_defined base s0 (fst st) (fst (snd st)) (snd (snd st))) as Hd. rewrite <- !surjective_pairing in Hd.
    destruct (decide (s0 = NoSignal)) as [->|Hs0].
    + destruct (iteration NoSignal st) as [[e|] st1]; cbn [fst snd] in *.
      * split; [done|]. apply elem_of_cons in He as [?|[[= ->]|[[= ->]|He%elem_of_nil]%elem_of_cons]%elem_of_cons]; [done|done| |done]. right.
        destruct st1 as [e1 [s1 w1]]. destruct (Hd Hok Hl Hc ltac:(clear; set_solver) eq_refl) as (fd & _ & ? & ?). by exists fd.
      * destruct (Hq eq_refl) as (He1 & Hr1 & Hc1). destruct (IH st1 Hok1) as [-> Hm]; [congruence|congruence|done|]. split; [done|].
        destruct (event_loop (pre ++ [sg]) st1) as [[] st']; try done. destruct Hm as [(x & Hx & Hu)|Hm]; [left; exists x; by split; [right|]|by right].
    + specialize (Ho Hs0). destruct (iteration s0 st) as [[e|] st1]; cbn [fst snd] in *.
      * split; [done|]. destruct Ho as [->| ->]; [done|]. destruct (decide (s0 ∈ [BeforeSet; BeforeMax; AfterSelect])); [left; exists s0; by split; [left|]|].
        right. destruct st1 as [e1 [s1 w1]]. destruct (Hd Hok Hl Hc ltac:(done) eq_refl) as (fd & _ & ? & ?). by exists fd.
      * destruct Ho as [Hdown Hv]. by rewrite !event_loop_down.
Qed.

(** *** Signals before the loop *)

Lemma iteration_invalid sg st : is_valid (listen_fd_ (fst st)) = false → fst (iteration sg st) = Some BadDescriptor.
Proof.
  destruct st as [e [s w]]. intros Hv. unfold iteration, signal_at, mbind, state_bind.
  assert (∃ e' s' w', signal_handler (bool_decide (BeforeSet = sg)) (e, (s, w)) = (tt, (e', (s', w'))) ∧
    is_valid (listen_fd_ e') = false) as (e' & s' & w' & -> & He').
  { case_bool_decide; [|by eexists _, _, _]. cbn [signal_handler]. destruct (stop_clients e s w) as (e' & w' & E & He').
    by eexists _, _, _. }
  unfold endpoint, srv, server, read_fds. cbn beta iota. cbn [forallb].
  assert (fd_in_range (listen_fd_ e') = false) as -> by (unfold is_valid, fd_in_range in *; lia). done.
Qed.

(** A signal that arrives between the construction of the server and its
    listening socket is lost: [start] does exactly what it would have done
    without it. *)
Theorem early_signal_lost script host port s w :
  running_ s = false →
  start BeforeSocket script (new_endpoint host port, (s, w)) = start NoEarly script (new_endpoint host port, (s, w)).
Proof.
  intros Hr. unfold start, mbind, state_bind. rewrite (early_signal BeforeSocket), (early_signal NoEarly) by done.
  set (st0 := (new_endpoint host port, (s, w))). change (open_listener BeforeSocket st0) with (open_listener NoEarly st0).
  destruct (open_listener NoEarly st0) as [[failed|] st]; [done|].
  by rewrite !(bool_decide_eq_false_2 (_ = BeforeRunning)), !(bool_decide_eq_false_2 (_ = AfterRunning)).
Qed.

Lemma bind_fst {A B} (m : LoopM A) (k : A → LoopM B) st : fst ((m ≫= k) st) = fst (k (fst (m st)) (snd (m st))).
Proof. unfold mbind, state_bind. by destruct (m st). Qed.

(** The ends of a set-up that fails. *)
Lemma open_listener_end early st x : fst (open_listener early st) ≠ Some (LoopLeft x).
Proof.
  unfold open_listener. repeat (rewrite bind_fst || case_match); done.
Qed.

(** With the listening socket closed by a signal, [bind] or [listen] fails. *)
Lemma setup_signal_fails early st : early ∈ [BeforeBind; BeforeListen] → is_Some (fst (open_listener early st)).
Proof.
  intros He. assert (∀ st, is_valid (listen_fd_ (fst (snd (stop st)))) = false) as Hstop.
  { intros [e [s w]]. destruct (stop_clients e s w) as (e' & w' & -> & Hv). done. }
  assert (∀ {A} (m : State Net A) st, fst (sys m st) = fst (m (w_net (snd (snd st))))) as Hsys.
  { intros A m [e [s w]]. rewrite sys_run. cbn [fst snd]. by destruct (m (w_net w)). }
  assert (∀ st, fst (endpoint st) = fst st ∧ snd (endpoint st) = st) as Hend by (by intros []).
  unfold open_listener. rewrite !bind_fst. case_match; [done|]. rewrite !bind_fst.
  apply elem_of_cons in He as [He|He%list_elem_of_singleton]; subst early.
  - rewrite bool_decide_eq_true_2 by done. cbn [signal_handler]. rewrite Hsys, bind_closed; [cbn [negb]; by rewrite bind_fst|]. rewrite (proj1 (Hend _)). apply Hstop.
  - case_match; [by rewrite bind_fst|]. rewrite !bind_fst, (bool_decide_eq_true_2 (BeforeListen = BeforeListen)) by done.
    cbn [signal_handler]. rewrite Hsys, listen_closed; [cbn [negb]; by rewrite bind_fst|]. rewrite (proj1 (Hend _)). apply Hstop.
Qed.

(** One that arrives after the set-up of the listener is overwritten by
    [running_ = true]: the loop starts, with the descriptor -1. *)
Theorem late_signal_undefined sg script st st1 :
  open_listener BeforeRunning st = (None, st1) → fst (start BeforeRunning (sg :: script) st) = LoopLeft BadDescriptor.
Proof.
  intros E. unfold start, mbind, state_bind. rewrite bool_decide_eq_false_2, signal_handler_false, E by done.
  rewrite bool_decide_eq_true_2 by done. cbn [signal_handler]. destruct st1 as [e [s w]].
  destruct (stop_clients e s w) as (e' & w' & -> & He'). rewrite bool_decide_eq_false_2 by done.
  unfold srv, read_clock, world, db, now, modify_server. cbn beta iota. rewrite signal_handler_false. cbn beta iota.
  rewrite event_loop_cons by done. set (st2 := (e', _)). pose proof (iteration_invalid sg st2 He') as Hi.
  destruct (iteration sg st2) as [r st3]. cbn [fst] in Hi. by subst r.
Qed.

(** After [running_ = true] it is effective again: the loop is not entered. *)
Theorem signal_before_loop script st st1 :
  open_listener AfterRunning st = (None, st1) → fst (start AfterRunning script st) = LoopLeft FlagDown.
Proof.
  intros E. unfold start, mbind, state_bind. rewrite bool_decide_eq_false_2, signal_handler_false, E by done.
  rewrite (bool_decide_eq_false_2 (AfterRunning = BeforeRunning)), signal_handler_false, bool_decide_eq_true_2 by done.
  cbn [signal_handler]. destruct st1 as [e [s w]]. set (s1 := mkServer (clients_ s) (password_ s) true (start_time_ s)).
  change (srv (modify_server _) (e, (s, w))) with (tt, (e, (s1, w))). cbn beta iota.
  destruct (stop_clients e s1 w) as (e' & w' & -> & He'). unfold srv, read_clock, world, db, now, modify_server. cbn beta iota.
  by rewrite event_loop_down.
Qed.

(** Between them it is effective and harmless: [bind] or [listen] fails on the
    descriptor -1, and [start] returns without entering the loop. *)
Theorem setup_signal_stops early script st x :
  early ∈ [BeforeBind; BeforeListen] → fst (start early script st) ≠ LoopLeft x.
Proof.
  intros He. enough (is_Some (fst (open_listener early (snd (signal_handler (bool_decide (early = BeforeSocket)) st))))) as Hr.
  { unfold start, mbind, state_bind. destruct (signal_handler _ st) as [[] st0]. cbn [snd] in Hr.
    pose proof (open_listener_end early st0) as Hend.
    destruct (open_listener early st0) as [[failed|] st1]; [|by destruct Hr]. intros Hf. destruct (Hend x). by cbn in *; subst. }
  by apply setup_signal_fails.
Qed.

(** A bind address that is not a dotted quad is silently replaced by
    "any": the server listens on every interface. *)
Theorem bad_host_binds_any host : inet_pton host = None → bind_address host = INADDR_ANY.
Proof. intros E. unfold bind_address. rewrite E. by case_match. Qed.

End EventLoop.

(** ** Instances *)

(** A system on which set-up succeeds and [select] reports every socket with
    input; only "127.0.0.1" is an address. *)
#[refine] Definition demo_listen : @ListenApi DemoNet demo_sockets := {|
  create_socket := λ w, let fd := demo_fresh (net_open w) in
    (fd, mkNet (net_sent w) (net_in w) ({[fd]} ∪ net_open w) (net_broken w));
  set_reuseaddr _ := mret tt;
  bind_socket fd _ _ := mret (is_valid fd);
  listen_socket fd _ := mret (is_valid fd);
  select nfds fds := λ w,
    let asked := filter (λ fd, (fd < nfds)%Z) fds in
    (if bool_decide (asked ⊆ net_open w) then SelectReady asked else SelectError, w);
  ignore_sigpipe := mret tt;
  inet_pton h := if bytes_eqb h $"127.0.0.1" then Some 2130706433%Z else None;
|}.
Proof.
  - intros w fd w' [= <- <-]. destruct (demo_fresh_spec (net_open w)) as [H0 Hn].
    unfold is_valid. rewrite (proj2 (Z.leb_le _ _)) by done. by split.
  - by intros w r w' [= <- <-].
  - by intros fd w r w' [= <- <-].
  - by intros fd a p w r w' [= <- <-].
  - by intros fd a p w.
  - by intros fd n w.
  - by intros fd n w r w' [= <- <-].
  - intros nfds fds w r w' [= <- <-]. split; [done|]. case_bool_decide; [|done]. intros fd. rewrite elem_of_filter. tauto.
  - intros nfds fds w fd Hfd Hn Ho. cbn. rewrite bool_decide_eq_false_2; [done|]. set_solver.
Defined.

Definition demo_fresh_server : Server := mkServer ∅ ($"secret") false 0.

Lemma demo_srv_ok : @srv_ok DemoNet demo_sockets demo_clock (demo_fresh_server, demo_world).
Proof.
  constructor; [apply demo_world_ok|intros fd []; simplify_map_eq|].
  intros fd Hfd. by destruct Hfd.
Qed.

(** The descriptor -1 is not open. *)
Lemma demo_no_invalid : INVALID_SOCKET_VAL ∉ @open_fds DemoNet demo_sockets (w_net demo_world).
Proof. apply (bool_decide_unpack _). vm_compute. exact I. Qed.

(** The same system with the port taken. *)
#[refine] Definition busy_port : @ListenApi DemoNet demo_sockets := {|
  create_socket := @create_socket DemoNet demo_sockets demo_listen;
  set_reuseaddr _ := mret tt;
  bind_socket _ _ _ := mret false;
  listen_socket fd _ := mret (is_valid fd);
  select nfds fds := mret SelectError;
  ignore_sigpipe := mret tt;
  inet_pton _ := None;
|}.
Proof.
  - apply (@create_open DemoNet demo_sockets demo_listen).
  - by intros w r w' [= <- <-].
  - by intros fd w r w' [= <- <-].
  - by intros fd a p w r w' [= <- <-].
  - done.
  - by intros fd n w.
  - by intros fd n w r w' [= <- <-].
  - by intros nfds fds w r w' [= <- <-].
  - done.
Defined.

Lemma start_invariant_witness :
  @srv_ok DemoNet demo_sockets demo_clock
    (snd (snd (@start DemoNet demo_sockets demo_listen demo_clock gmap_order demo_env demo_peer_addr
      NoEarly [NoSignal; NoSignal; InRound] (new_endpoint ($"127.0.0.1") 6399, (demo_fresh_server, demo_world))))).
Proof.
  apply (@start_invariant DemoNet demo_sockets demo_listen demo_clock gmap_order demo_env demo_peer_addr
    NoEarly [NoSignal; NoSignal; InRound] ($"127.0.0.1") 6399 demo_fresh_server demo_world); [reflexivity|reflexivity|exact demo_no_invalid|exact demo_srv_ok].
Defined.

Lemma failed_start_witness :
  let '(r, (e, (s', w'))) := @start DemoNet demo_sockets busy_port demo_clock gmap_order demo_env demo_peer_addr
    NoEarly [NoSignal] (new_endpoint [] 6399, (demo_fresh_server, demo_world)) in
  r = BindFailed ∧ s' = demo_fresh_server ∧ is_valid (listen_fd_ e) = false.
Proof.
  pose proof (@failed_start DemoNet demo_sockets busy_port demo_clock gmap_order demo_env demo_peer_addr
    NoEarly [NoSignal] [] 6399 demo_fresh_server demo_world eq_refl eq_refl demo_no_invalid demo_srv_ok) as Hf.
  destruct (start _ _ _) as [r [e [s' w']]] eqn:E. apply (f_equal fst) in E. vm_compute in E. subst r.
  destruct Hf as (Hs & Hl & _); [discriminate|]. split; [reflexivity|]. split; [exact Hs|exact Hl].
Defined.

(** A running server with the listening socket 5. *)
Definition demo_listening : Endpoint * (Server * World DemoNet) :=
  (mkEndpoint [] 6399 5, (mkServer ∅ [] true 0, with_net (mkNet ∅ ∅ {[5%Z]} ∅) demo_world)).

Lemma demo_listening_ok : @loop_ok DemoNet demo_sockets demo_clock ∅ demo_listening.
Proof.
  split; constructor; cbn; [apply demo_world_ok|intros fd []; simplify_map_eq|by intros fd []|set_solver..].
Qed.

(** Two clients connect, then SIGTERM: the last two entries are never used. *)
Lemma signal_ends_loop_witness :
  let st := demo_listening in
  let loop := @event_loop DemoNet demo_sockets demo_listen demo_clock gmap_order demo_env demo_peer_addr in
  loop ([NoSignal; NoSignal] ++ InRound :: [NoSignal; NoSignal]) st = loop ([NoSignal; NoSignal] ++ [InRound]) st ∧
  fst (loop ([NoSignal; NoSignal] ++ [InRound]) st) = FlagDown.
Proof.
  intros st loop. split; [|vm_compute; reflexivity].
  destruct (@signal_ends_loop DemoNet demo_sockets demo_listen demo_clock gmap_order demo_env demo_peer_addr ∅
    [NoSignal; NoSignal] InRound [NoSignal; NoSignal] st) as [E _]; [..|exact E].
  - discriminate.
  - exact demo_listening_ok.
  - reflexivity.
  - reflexivity.
  - intros fd []; simplify_map_eq.
Defined.

(** A connection is waiting and SIGTERM arrives just before [accept]. *)
Lemma signal_safe_points_witness :
  fst (@iteration DemoNet demo_sockets demo_listen demo_clock gmap_order demo_env demo_peer_addr BeforeAccept demo_listening) =
    None ∧
  ∀ sg, sg ∉ [BeforeSet; BeforeMax; AfterSelect] →
  let '(end_, (_, (s', _))) :=
    @iteration DemoNet demo_sockets demo_listen demo_clock gmap_order demo_env demo_peer_addr sg demo_listening in
  end_ = Some BadDescriptor → ∃ fd, is_Some (clients_ s' !! fd) ∧ (FD_SETSIZE ≤ fd)%Z.
Proof.
  split; [vm_compute; reflexivity|]. intros sg Hsg.
  pose proof (@signal_safe_points DemoNet demo_sockets demo_listen demo_clock gmap_order demo_env demo_peer_addr ∅ sg
    _ _ _ demo_listening_ok eq_refl) as Hs.
  unfold demo_listening at 1. destruct (iteration _ _ _) as [r [e' [s' w']]]. intros ->.
  destruct Hs as (fd & _ & Hfd); [intros x []; simplify_map_eq|exact Hsg|reflexivity|]. by exists fd.
Defined.

(** With one client too many, [FD_SET] is called out of bounds. *)
Theorem too_many_clients :
  let s := mkServer (gset_to_gmap no_client (list_to_set (seqZ 4 1021))) [] true 0 in
  @read_fds gmap_order (mkEndpoint [] 6399 3) s = None.
Proof. vm_compute. reflexivity. Qed.

Lemma bad_host_binds_any_witness :
  @bind_address DemoNet demo_sockets demo_listen ($"localhost") = INADDR_ANY.
Proof. apply (@bad_host_binds_any DemoNet demo_sockets demo_listen). vm_compute. reflexivity. Defined.
