(* ===== verification/Client.v ===== *)
(** * The command-line client (networking/client.cpp, networking/client.h)

    [parse_resp_value] turns the RESP value at the head of the read buffer
    into the text shown to the user; [None] is [ok = false] (more data
    needed).  Array elements are parsed from the rest of the buffer, which is
    strictly shorter, so fuel [size + 1] is enough.  [send_command] writes a
    line, then reads until a whole value has arrived.  That loop need not end,
    nor need a read return: [reads] is the number of reads that return, and
    when they are used up the result is that the call is still waiting, which
    is different from every result it can return with. *)

From S2P Require Import Prelude CppString Parser Resp RespFacts Socket Protocol CommandHandler.

(** ** Parsing a reply *)

(** The value [+...], [-...] or [:...] up to the line end. *)
Definition first_line (buf : bytes) (prefix : bytes) : option (bytes * nat) :=
  match find_crlf buf 0 with
  | None => None
  | Some crlf => Some (prefix ++ substr 1 (crlf - 1) buf, crlf + 2)
  end.

(** The loop over the elements of an array, [rec] the recursive call on the
    buffer from [pos]. *)
Fixpoint parse_values (rec : bytes → option (bytes * nat)) (count : nat) (saved : bytes) (pos : nat)
    (elems : list bytes) : option (list bytes * nat) :=
  match count with
  | O => Some (elems, pos)
  | S n =>
      match rec (drop pos saved) with
      | None => None
      | Some (elem, sub_consumed) => parse_values rec n saved (pos + sub_consumed) (elems ++ [elem])
      end
  end.

(** The switch on the type character: the text and the bytes consumed. *)
Definition parse_typed (rec : bytes → option (bytes * nat)) (type : ascii) (buf : bytes)
    : option (bytes * nat) :=
  if Ascii.eqb type "+" then first_line buf []
  else if Ascii.eqb type "-" then first_line buf []
  else if Ascii.eqb type ":" then first_line buf $"(integer) "
  else if Ascii.eqb type "$" then
    match find_crlf buf 0 with
    | None => None
    | Some crlf =>
        match stoi (substr 1 (crlf - 1) buf) with
        | None => Some ($"(error) invalid bulk string length", crlf + 2)
        | Some len =>
            if (len <? 0)%Z then Some (nil_reply, crlf + 2)
            else
              let data_start := crlf + 2 in
              if (Z.of_nat (length buf) <? Z.of_nat data_start + len + 2)%Z then None
              else Some (quoted (substr data_start (Z.to_nat len) buf), data_start + Z.to_nat len + 2)
        end
    end
  else if Ascii.eqb type "*" then
    match find_crlf buf 0 with
    | None => None
    | Some crlf =>
        match stoi (substr 1 (crlf - 1) buf) with
        | None => Some ($"(error) invalid array count", crlf + 2)
        | Some count =>
            if (count <? 0)%Z then Some (nil_reply, crlf + 2)
            else if (count =? 0)%Z then Some ($"(empty array)", crlf + 2)
            else
              match parse_values rec (Z.to_nat count) buf (crlf + 2) [] with
              | None => None
              | Some (elems, pos) => Some (join_lines (imap (λ i e, exec_line (S i) e) elems), pos)
              end
        end
    end
  else
    match find_crlf buf 0 with
    | None => None
    | Some crlf => Some (substr 0 crlf buf, crlf + 2)
    end.

Definition parse_value_body (rec : bytes → option (bytes * nat)) (buf : bytes) : option (bytes * nat) :=
  match buf with [] => None | type :: _ => parse_typed rec type buf end.

Fixpoint parse_value_fuel (fuel : nat) : bytes → option (bytes * nat) :=
  match fuel with
  | O => λ _, None
  | S f => parse_value_body (parse_value_fuel f)
  end.

Definition parse_resp_value (buf : bytes) : option (bytes * nat) := parse_value_fuel (S (length buf)) buf.

(** ** Talking to the server *)

Record Client := mkCli { fd_ : Z; read_buffer_ : bytes }.

(** What has become of a call of [read_resp_response]. *)
Inductive Response := ReadOk (text : bytes) | ReadFailed | Waiting.

Section Io.
Context {Net : Type} `{SocketApi Net}.

Definition CliM (A : Type) : Type := State (Client * Net) A.

Definition cli : CliM Client := λ '(c, w), (c, (c, w)).
Definition set_cli (c : Client) : CliM unit := λ '(_, w), (tt, (c, w)).
Definition cli_net {A} (m : State Net A) : CliM A := λ '(c, w), let '(a, w') := m w in (a, (c, w')).

Definition disconnect : CliM unit :=
  c ← cli;
  (if is_valid (fd_ c) then cli_net (close_socket (fd_ c));; set_cli (mkCli INVALID_SOCKET_VAL (read_buffer_ c))
   else mret tt);;
  c ← cli;
  set_cli (mkCli (fd_ c) []).

(** The loop of reads: it returns with [ok = true] and a text, or with
    [ok = false], or it is still waiting after [reads] reads. *)
Fixpoint read_resp_response (reads : nat) : CliM Response :=
  c ← cli;
  match parse_resp_value (read_buffer_ c) with
  | Some (result, consumed) =>
      set_cli (mkCli (fd_ c) (drop consumed (read_buffer_ c)));; mret (ReadOk result)
  | None =>
      match reads with
      | O => mret Waiting
      | S n =>
          r ← cli_net (socket_read (fd_ c) 4096);
          match r with
          | ReadData data => set_cli (mkCli (fd_ c) (read_buffer_ c ++ data));; read_resp_response n
          | _ => mret ReadFailed
          end
      end
  end.

(** [None] when the call is still waiting. *)
Definition send_command (reads : nat) (command : bytes) : CliM (option bytes) :=
  c ← cli;
  if negb (is_valid (fd_ c)) then mret (Some $"Error: Not connected")
  else
    ok ← cli_net (write_exact (fd_ c) (command ++ CRLF));
    if negb ok then disconnect;; mret (Some $"Error: Failed to send command")
    else
      response ← read_resp_response reads;
      match response with
      | Waiting => mret None
      | ReadFailed => disconnect;; mret (Some $"Error: Failed to read response")
      | ReadOk r => mret (Some r)
      end.

End Io.
