(* ===== verification/ClientClaims.v ===== *)
(** * The client: lemmas and theorems

    What the user sees is what the command handler answered: the client's
    parser inverts the server's serializer on reply texts, and the reading
    loop finds the reply however the stream is cut. *)

From S2P Require Import Prelude CppString Parser Resp RespFacts Frames Socket Protocol.
From S2P Require Import CommandHandler CommandClaims Client.

(** ** A parsed value stays parsed when more bytes arrive *)

(** A parser that stays within the buffer and ignores what follows. *)
Definition stable_parser (rec : bytes → option (bytes * nat)) : Prop :=
  ∀ s t n, rec s = Some (t, n) → n ≤ length s ∧ ∀ x, rec (s ++ x) = Some (t, n).

Lemma parse_values_stable rec count saved pos elems out n :
  stable_parser rec → pos ≤ length saved → parse_values rec count saved pos elems = Some (out, n) →
  n ≤ length saved ∧ ∀ x, parse_values rec count (saved ++ x) pos elems = Some (out, n).
Proof.
  intros Hrec. revert pos elems. induction count as [|c IH]; intros pos elems Hp; cbn [parse_values].
  - intros [= <- <-]. by split.
  - destruct (rec (drop pos saved)) as [[e k]|] eqn:E; [|done]. apply Hrec in E as [Hk Hx].
    rewrite length_drop in Hk. intros (Hn & Hs)%IH; [|lia]. split; [done|]. intros x.
    rewrite drop_app_le by done. rewrite Hx. apply Hs.
Qed.

(** Rewrites the searches of a body over an extended buffer. *)
Lemma find_crlf_stable b x crlf :
  find_crlf b 0 = Some crlf →
  find_crlf (b ++ x) 0 = Some crlf ∧ crlf + 2 ≤ length b ∧
  substr 1 (crlf - 1) (b ++ x) = substr 1 (crlf - 1) b ∧ substr 0 crlf (b ++ x) = substr 0 crlf b.
Proof.
  intros E. pose proof (find_crlf_bound _ _ _ E). split_and!; [by apply find_crlf_extend|lia|..];
    [|apply substr_extend; lia]. destruct crlf; [|apply substr_extend; lia].
  unfold substr. by rewrite !take_0.
Qed.

Lemma first_line_stable buf p : ∀ t n, first_line buf p = Some (t, n) →
  n ≤ length buf ∧ ∀ x, first_line (buf ++ x) p = Some (t, n).
Proof.
  intros t n. unfold first_line. destruct (find_crlf buf 0) as [crlf|] eqn:E; [|done]. intros [= <- <-].
  split; [by apply (find_crlf_stable _ [])|]. intros x.
  by destruct (find_crlf_stable _ x _ E) as (-> & _ & -> & _).
Qed.

Lemma parse_value_body_stable rec : stable_parser rec → stable_parser (parse_value_body rec).
Proof.
  intros Hrec buf t n. destruct buf as [|c b]; [done|]. set (buf := c :: b).
  change (parse_typed rec c buf = Some (t, n) →
    n ≤ length buf ∧ ∀ x, parse_typed rec c (buf ++ x) = Some (t, n)). clearbody buf. unfold parse_typed.
  repeat (match goal with |- context [if Ascii.eqb c ?y then _ else _] => destruct (Ascii.eqb c y) end;
    [try apply first_line_stable|]).
  - destruct (find_crlf buf 0) as [crlf|] eqn:E; [|done]. pose proof (find_crlf_stable _ [] _ E) as (_ & Hb & _).
    destruct (stoi (substr 1 (crlf - 1) buf)) as [len|] eqn:El.
    + destruct (Z.ltb_spec len 0) as [Hl|Hl].
      * intros [= <- <-]. split; [done|]. intros x.
        destruct (find_crlf_stable _ x _ E) as (-> & _ & -> & _). rewrite El.
        by rewrite (proj2 (Z.ltb_lt _ _)).
      * destruct (Z.ltb_spec (Z.of_nat (length buf)) (Z.of_nat (crlf + 2) + len + 2)); [done|].
        intros [= <- <-]. split; [lia|]. intros x.
        destruct (find_crlf_stable _ x _ E) as (-> & _ & -> & _). rewrite El.
        rewrite (proj2 (Z.ltb_ge len 0)) by done. rewrite (proj2 (Z.ltb_ge _ _)) by (rewrite length_app; lia).
        by rewrite substr_extend by lia.
    + intros [= <- <-]. split; [done|]. intros x.
      destruct (find_crlf_stable _ x _ E) as (-> & _ & -> & _). by rewrite El.
  - destruct (find_crlf buf 0) as [crlf|] eqn:E; [|done]. pose proof (find_crlf_stable _ [] _ E) as (_ & Hb & _).
    destruct (stoi (substr 1 (crlf - 1) buf)) as [count|] eqn:El.
    + destruct (count <? 0)%Z eqn:Hneg; [|destruct (count =? 0)%Z eqn:Hz].
      1,2: intros [= <- <-]; split; [done|]; intros x;
        destruct (find_crlf_stable _ x _ E) as (-> & _ & -> & _); by rewrite El, Hneg, ?Hz.
      destruct (parse_values rec (Z.to_nat count) buf (crlf + 2) []) as [[es pos]|] eqn:Ev; [|done].
      apply parse_values_stable in Ev as [Hp Hx]; [|done|done]. intros [= <- <-]. split; [done|]. intros x.
      destruct (find_crlf_stable _ x _ E) as (-> & _ & -> & _). by rewrite El, Hneg, Hz, Hx.
    + intros [= <- <-]. split; [done|]. intros x.
      destruct (find_crlf_stable _ x _ E) as (-> & _ & -> & _). by rewrite El.
  - destruct (find_crlf buf 0) as [crlf|] eqn:E; [|done]. intros [= <- <-].
    split; [by apply (find_crlf_stable _ [])|]. intros x.
    by destruct (find_crlf_stable _ x _ E) as (-> & _ & _ & ->).
Qed.

Lemma parse_value_fuel_stable f : stable_parser (parse_value_fuel f).
Proof. induction f as [|f IH]; [done|]. by apply parse_value_body_stable. Qed.

(** ** Fuel *)

Definition extends (rec rec' : bytes → option (bytes * nat)) : Prop :=
  ∀ s r, rec s = Some r → rec' s = Some r.

Lemma parse_values_mono rec rec' count saved pos elems r :
  extends rec rec' → parse_values rec count saved pos elems = Some r →
  parse_values rec' count saved pos elems = Some r.
Proof.
  intros He. revert pos elems. induction count as [|c IH]; intros pos elems; cbn [parse_values]; [done|].
  destruct (rec (drop pos saved)) as [[e k]|] eqn:E; [|done]. apply He in E. rewrite E. apply IH.
Qed.

Lemma parse_value_body_mono rec rec' : extends rec rec' → extends (parse_value_body rec) (parse_value_body rec').
Proof.
  intros He s r. destruct s as [|c s]; [done|]. unfold parse_value_body, parse_typed.
  repeat (match goal with |- context [if Ascii.eqb c ?y then _ else _] => destruct (Ascii.eqb c y) end; [try done|]);
    try done.
  destruct (find_crlf (c :: s) 0) as [crlf|]; [|done]. destruct (stoi _) as [count|]; [|done].
  destruct (count <? 0)%Z; [done|]. destruct (count =? 0)%Z; [done|].
  destruct (parse_values rec _ _ _ _) as [[es pos]|] eqn:E; [|done].
  by rewrite (parse_values_mono _ _ _ _ _ _ _ He E).
Qed.

Lemma parse_value_fuel_mono f f' : f ≤ f' → extends (parse_value_fuel f) (parse_value_fuel f').
Proof.
  revert f'. induction f as [|f IH]; intros f' Hf s r; [done|]. destruct f' as [|f']; [lia|].
  apply parse_value_body_mono, IH. lia.
Qed.

(** A complete value is recognised in any longer buffer, with the same text
    and the same number of bytes. *)
Lemma parse_value_stable b t n :
  parse_resp_value b = Some (t, n) → n ≤ length b ∧ ∀ x, parse_resp_value (b ++ x) = Some (t, n).
Proof.
  intros E. apply parse_value_fuel_stable in E as [Hn Hx]. split; [done|]. intros x.
  apply (parse_value_fuel_mono (S (length b))); [rewrite length_app; lia|apply Hx].
Qed.

Lemma parse_value_app b x t n : parse_resp_value b = Some (t, n) → parse_resp_value (b ++ x) = Some (t, n).
Proof. intros E. by apply parse_value_stable in E as [_ E]. Qed.

(** ** Every value is read back *)

(** The text the client shows for a value. *)
Fixpoint display (f : Frame) : bytes :=
  match f with
  | FSimple s | FError s => s
  | FInteger n => integer_text n
  | FBulk s => quoted s
  | FNull => nil_reply
  | FArray [] => $"(empty array)"
  | FArray l => join_lines (imap (λ i e, exec_line (S i) e) (map display l))
  end.

Lemma find_crlf_none_shift s i j : find_crlf_from s i = None → find_crlf_from s j = None.
Proof.
  revert i j. induction s as [|c s IH]; intros i j; [done|]. destruct s as [|d s]; [done|].
  cbn [find_crlf_from]. case_match; [done|]. apply IH.
Qed.

Lemma find_crlf_from_line s rest i :
  find_crlf_from s i = None → find_crlf_from (s ++ CR :: LF :: rest) i = Some (i + length s).
Proof.
  revert i. induction s as [|c s IH]; intros i Hs; [simpl; f_equal; lia|]. destruct s as [|d s].
  - cbn. rewrite andb_false_r. f_equal. lia.
  - cbn [find_crlf_from app length] in *. case_match; [done|].
    specialize (IH (S i) Hs). cbn [app] in IH. rewrite IH. f_equal. simpl. lia.
Qed.

(** The line that a type character and a text without CRLF start. *)
Lemma find_crlf_line c s rest :
  c ≠ CR → no_crlf s = true → find_crlf (c :: s ++ CR :: LF :: rest) 0 = Some (S (length s)).
Proof.
  intros Hc Hs. unfold find_crlf. rewrite drop_0. apply (find_crlf_from_line (c :: s) rest 0).
  unfold no_crlf, find_crlf in Hs. rewrite drop_0 in Hs. destruct (find_crlf_from s 0) eqn:E; [done|].
  destruct s as [|d s]; [done|]. set (t := d :: s) in *.
  change (find_crlf_from (c :: t) 0) with (if Ascii.eqb c CR && Ascii.eqb d LF then Some 0 else find_crlf_from t 1).
  rewrite (proj2 (Ascii.eqb_neq c CR)) by done. by apply (find_crlf_none_shift _ 0).
Qed.

Lemma to_string_no_crlf n : no_crlf (to_string n) = true.
Proof. apply line_no_crlf, to_string_no_LF. Qed.

Lemma first_line_app c text rest p :
  c ≠ CR → no_crlf text = true →
  first_line (c :: text ++ CR :: LF :: rest) p = Some (p ++ text, length text + 3).
Proof.
  intros Hc Ht. unfold first_line. rewrite find_crlf_line by done.
  rewrite (substr_middle [c] text (CR :: LF :: rest)) by (simpl; lia). do 2 f_equal. lia.
Qed.

(** The number after a type character. *)
Lemma header_number c n rest :
  (INT_MIN ≤ n ≤ INT_MAX)%Z →
  stoi (substr 1 (S (length (to_string n)) - 1) (c :: to_string n ++ CR :: LF :: rest)) = Some n.
Proof.
  intros Hn. rewrite (substr_middle [c] (to_string n) (CR :: LF :: rest)) by (simpl; lia). by apply stoi_to_string.
Qed.

Lemma line_app c s rest : (c :: s ++ CRLF) ++ rest = c :: s ++ CR :: LF :: rest.
Proof. cbn. by rewrite <- app_assoc. Qed.

Lemma length_line c s : length (c :: s ++ CRLF) = length s + 3.
Proof. cbn. rewrite length_app. simpl. lia. Qed.

Lemma body_bulk rec v rest :
  (Z.of_nat (length v) ≤ INT_MAX)%Z →
  parse_value_body rec (bulk_string v ++ rest) = Some (quoted v, length (bulk_string v)).
Proof.
  intros Hv. rewrite bulk_string_app. set (ls := to_string (Z.of_nat (length v))).
  set (buf := "$"%char :: ls ++ CR :: LF :: v ++ CR :: LF :: rest).
  assert (length (bulk_string v) = S (length ls) + 2 + length v + 2) as El.
  { unfold bulk_string, CRLF. rewrite !length_app. cbn [length lit String.list_ascii_of_string]. fold ls. lia. }
  assert (length buf = S (length ls) + 2 + length v + 2 + length rest) as Eb.
  { unfold buf. cbn [length]. rewrite length_app. cbn [length]. rewrite length_app. cbn [length]. lia. }
  change (parse_value_body rec buf) with (parse_typed rec "$" buf). unfold parse_typed.
  change (Ascii.eqb "$" "+") with false. change (Ascii.eqb "$" "-") with false.
  change (Ascii.eqb "$" ":") with false. change (Ascii.eqb "$" "$") with true. cbn iota.
  unfold buf at 1. rewrite find_crlf_line by (done || apply to_string_no_crlf).
  unfold buf at 1, ls at 1 2. rewrite header_number by (unfold INT_MIN, INT_MAX in *; lia). fold ls.
  assert (substr (S (length ls) + 2) (length v) buf = v) as Ev.
  { replace buf with (("$"%char :: ls ++ [CR; LF]) ++ v ++ CR :: LF :: rest)
      by (unfold buf; cbn [app]; by rewrite <- app_assoc).
    apply substr_middle; [|done]. cbn [length]. rewrite length_app. simpl. lia. }
  rewrite (proj2 (Z.ltb_ge _ _)) by lia. cbv zeta. rewrite (proj2 (Z.ltb_ge _ _)) by (rewrite Eb; lia).
  by rewrite Nat2Z.id, El, Ev.
Qed.

(** [rec] reads the values of [l] and shows them. *)
Definition reads_all (rec : bytes → option (bytes * nat)) (l : list Frame) : Prop :=
  Forall (λ f, ∀ rest, rec (encode f ++ rest) = Some (display f, length (encode f))) l.

Lemma parse_values_frames rec l pre rest elems :
  reads_all rec l →
  parse_values rec (length l) (pre ++ concat (map encode l) ++ rest) (length pre) elems =
  Some (elems ++ map display l, length (pre ++ concat (map encode l))).
Proof.
  intros Hl. revert pre elems. induction Hl as [|f l Hf _ IH]; intros pre elems; cbn [length parse_values map concat].
  - by rewrite !app_nil_r.
  - rewrite drop_app_length, <- app_assoc, Hf.
    rewrite (app_assoc pre), <- length_app, IH. by rewrite <- !app_assoc.
Qed.

Lemma body_array rec l rest :
  reads_all rec l → (Z.of_nat (length l) ≤ INT_MAX)%Z →
  parse_value_body rec (array (map encode l) ++ rest) = Some (display (FArray l), length (array (map encode l))).
Proof.
  intros Hrec Hn. unfold array. rewrite length_map. set (ls := to_string (Z.of_nat (length l))).
  set (pre := "*"%char :: ls ++ [CR; LF]). set (body := concat (map encode l)).
  assert ((($"*" ++ ls ++ CRLF ++ body) ++ rest) = pre ++ body ++ rest) as Eb.
  { unfold pre, CRLF. cbn. by rewrite <- !app_assoc. }
  assert (pre ++ body ++ rest = "*"%char :: ls ++ CR :: LF :: body ++ rest) as Eb2.
  { unfold pre. cbn [app]. by rewrite <- app_assoc. }
  assert (length pre = S (length ls) + 2) as Ep by (unfold pre; cbn [length]; rewrite length_app; simpl; lia).
  assert (length ($"*" ++ ls ++ CRLF ++ body) = length (pre ++ body)) as El.
  { f_equal. rewrite (app_assoc pre) in Eb. by apply app_inv_tail in Eb. }
  rewrite Eb, El. change (parse_value_body rec (pre ++ ?x)) with (parse_typed rec "*" (pre ++ x)). unfold parse_typed.
  change (Ascii.eqb "*" "+") with false. change (Ascii.eqb "*" "-") with false.
  change (Ascii.eqb "*" ":") with false. change (Ascii.eqb "*" "$") with false.
  change (Ascii.eqb "*" "*") with true. cbn iota.
  rewrite Eb2 at 1. rewrite find_crlf_line by (done || apply to_string_no_crlf).
  rewrite Eb2 at 1. unfold ls at 1 2. rewrite header_number by (unfold INT_MIN, INT_MAX in *; lia). fold ls.
  rewrite (proj2 (Z.ltb_ge _ _)) by lia. destruct l as [|x l']; [simpl; do 2 f_equal; rewrite length_app, Ep; simpl; lia|].
  set (l := x :: l') in *. rewrite (proj2 (Z.eqb_neq _ _)) by (unfold l; cbn [length]; lia).
  rewrite Nat2Z.id, <- Ep. unfold body. by rewrite parse_values_frames.
Qed.

Lemma encode_pos f : 0 < length (encode f).
Proof. destruct f; cbn; lia. Qed.

Lemma encode_element f l : f ∈ l → length (encode f) < length (encode (FArray l)).
Proof.
  intros Hf. change (encode (FArray l)) with (array (map encode l)). unfold array. rewrite !length_app. simpl.
  assert (length (encode f) ≤ length (concat (map encode l))); [|lia].
  induction Hf as [|x f l _ IH]; cbn [map concat]; rewrite length_app; lia.
Qed.

(** Fuel of the size of the value is enough. *)
Lemma parse_value_frame f n rest :
  frame_ok f = true → frame_fits f = true → length (encode f) ≤ n →
  parse_value_fuel n (encode f ++ rest) = Some (display f, length (encode f)).
Proof.
  revert n rest. induction f as [s|s|z|s| |l IH] using Frame_nested_ind; intros n rest Hok Hfit Hn;
    (match type of Hn with length (encode ?f) ≤ _ => pose proof (encode_pos f) end; destruct n as [|n]; [lia|]);
    cbn [parse_value_fuel].
  - simpl in Hok. change (encode (FSimple s)) with ("+"%char :: s ++ CRLF). rewrite line_app, length_line.
    cbn [parse_value_body]. unfold parse_typed. change (Ascii.eqb "+" "+") with true. cbn iota. by rewrite first_line_app.
  - simpl in Hok. change (encode (FError s)) with ("-"%char :: s ++ CRLF). rewrite line_app, length_line.
    cbn [parse_value_body]. unfold parse_typed. change (Ascii.eqb "-" "+") with false.
    change (Ascii.eqb "-" "-") with true. cbn iota. by rewrite first_line_app.
  - change (encode (FInteger z)) with (":"%char :: to_string z ++ CRLF). rewrite line_app, length_line.
    cbn [parse_value_body]. unfold parse_typed. change (Ascii.eqb ":" "+") with false.
    change (Ascii.eqb ":" "-") with false. change (Ascii.eqb ":" ":") with true. cbn iota.
    by rewrite first_line_app by (done || apply to_string_no_crlf).
  - apply body_bulk. simpl in Hfit. lia.
  - apply parse_value_body_stable; [apply parse_value_fuel_stable|]. by vm_compute.
  - cbn [encode] in *. cbn [frame_ok frame_fits] in Hok, Hfit. apply andb_true_iff in Hfit as [Hlen Hfit].
    apply body_array; [|lia]. unfold reads_all. apply Forall_forall. intros f Hf rest'.
    rewrite Forall_forall in IH. rewrite forallb_forall in Hok, Hfit. apply list_elem_of_In in Hf as Hin.
    apply (IH f Hf); [by apply Hok|by apply Hfit|].
    pose proof (encode_element f l Hf) as He. cbn [encode] in He. lia.
Qed.

Lemma parse_frame f rest :
  frame_ok f = true → frame_fits f = true →
  parse_resp_value (encode f ++ rest) = Some (display f, length (encode f)).
Proof. intros Hok Hfit. apply parse_value_frame; [done|done|]. rewrite length_app. lia. Qed.

(** C16: the client reads every value.  For every well-formed RESP2 value, of
    any type and nesting, whose lengths fit an [int], with anything after
    it, the client's parser consumes exactly the value and shows its
    text. *)
Theorem client_reads_frame f rest :
  frame_ok f = true → frame_fits f = true →
  parse_resp_value (encode f ++ rest) = Some (display f, length (encode f)).
Proof. apply parse_frame. Qed.

(** ** The texts of the server's replies *)

(** Reply texts whose serialization the client shows unchanged. *)
Inductive displayable : bytes → Prop :=
  | show_ok : displayable ($"OK")
  | show_pong : displayable ($"PONG")
  | show_queued : displayable ($"QUEUED")
  | show_nil : displayable nil_reply
  | show_integer n : (INT64_MIN ≤ n ≤ INT64_MAX)%Z → displayable (integer_text n)
  | show_value v : (Z.of_nat (length v) ≤ INT_MAX)%Z → displayable (quoted v)
  | show_error e : no_crlf ($"ERR" ++ e) = true → displayable ($"ERR" ++ e)
  | show_list l : l ≠ [] → (Z.of_nat (length l) ≤ INT_MAX)%Z →
      Forall (λ v, (Z.of_nat (length v) ≤ INT_MAX)%Z) l → Forall (Forall (λ c, c ≠ LF)) l →
      displayable (numbered_list l).

Lemma display_list l : l ≠ [] → display (FArray (map FBulk l)) = numbered_list l.
Proof.
  intros Hl. destruct l as [|x l]; [done|]. unfold numbered_list. cbn [map display]. f_equal.
  rewrite map_map.
  change (quoted x :: map (λ x0, display (FBulk x0)) l) with (quoted <$> (x :: l)). by rewrite imap_fmap.
Qed.

(** Each of them is sent as a value that shows as the text. *)
Lemma displayable_frame r :
  displayable r → ∃ f, serialize_response r = encode f ∧ display f = r ∧ frame_ok f = true ∧ frame_fits f = true.
Proof.
  intros Hd. destruct Hd as [| | | |n Hn|v Hv|e He|l Hne Hl Hs HLF].
  - by exists (FSimple ($"OK")).
  - by exists (FSimple ($"PONG")).
  - by exists (FSimple ($"QUEUED")).
  - by exists FNull.
  - exists (FInteger n). unfold integer_text. rewrite serialize_integer by done. split_and!; [done..| |done]. simpl. lia.
  - exists (FBulk v). unfold quoted. rewrite serialize_quoted. split_and!; [done..|]. simpl. lia.
  - exists (FError ($"ERR" ++ e)). by rewrite serialize_error.
  - exists (FArray (map FBulk l)). rewrite numbered_list_wire, display_list by done.
    change (encode (FArray (map FBulk l))) with (array (map encode (map FBulk l))).
    cbn [frame_ok frame_fits]. rewrite map_map, length_map. split_and!; [done|done| |].
    + apply forallb_forall. by intros f (v & <- & _)%in_map_iff.
    + apply andb_true_iff. split; [lia|]. apply forallb_forall. intros f (v & <- & Hv%list_elem_of_In)%in_map_iff.
      rewrite Forall_forall in Hs. specialize (Hs v Hv). simpl in *. lia.
Qed.

Lemma parse_displayable r rest :
  displayable r →
  parse_resp_value (serialize_response r ++ rest) = Some (r, length (serialize_response r)).
Proof. intros (f & -> & <- & Hok & Hfit)%displayable_frame. by apply parse_frame. Qed.

(** The client shows what the handler answered.  For every reply text of
    the listed forms, the client's parser applied to the server's
    serialization, with anything after it, returns the same text and
    consumes exactly the reply. *)
Theorem client_displays_reply r rest :
  displayable r →
  parse_resp_value (serialize_response r ++ rest) = Some (r, length (serialize_response r)).
Proof. apply parse_displayable. Qed.

Section Reading.
Context {Net : Type} `{SocketApi Net}.

(** While [G] holds a read returns data as long as some has been sent, and [G]
    goes on to hold. *)
Definition readable (G : Net → Prop) (sock : Z) : Prop :=
  ∀ w len, G w → 0 < len → incoming w sock ≠ [] → ∃ data w', socket_read sock len w = (ReadData data, w') ∧ G w'.

Lemma reliable_readable sock : reliable sock → readable (λ _, True) sock.
Proof. intros Hr w len _ Hl Hi. destruct (Hr w len Hl Hi) as (data & w' & E). by exists data, w'. Qed.

Lemma read_response_loop G reads c w resp t :
  readable G (fd_ c) → G w → parse_resp_value resp = Some (t, length resp) →
  ∀ rest, read_buffer_ c ++ incoming w (fd_ c) = resp ++ rest →
  length resp - length (read_buffer_ c) ≤ reads →
  ∃ b' w', read_resp_response reads (c, w) = (ReadOk t, (mkCli (fd_ c) b', w')) ∧
    b' ++ incoming w' (fd_ c) = rest ∧ G w'.
Proof.
  intros Hr Hg Hp rest. revert c w Hr Hg. induction reads as [|n IH]; intros c w Hr Hg Hb Hn.
  all: cbn [read_resp_response]; unfold mbind, state_bind, cli, set_cli; cbn beta iota zeta.
  all: destruct (decide (length resp ≤ length (read_buffer_ c))) as [Hle|Hgt].
  1,3: assert (read_buffer_ c = resp ++ drop (length resp) (read_buffer_ c)) as E
    by (rewrite <- (take_drop (length resp) (read_buffer_ c)) at 1; f_equal;
        apply (f_equal (take (length resp))) in Hb; rewrite take_app_le, take_app_length in Hb by lia; done);
    rewrite E; destruct (parse_value_stable _ _ _ Hp) as [_ Hx]; rewrite Hx, drop_app_length;
    do 2 eexists; (split; [done|]); (split; [|done]); rewrite E, <- app_assoc in Hb; by apply app_inv_head in Hb.
  - lia.
  - assert (parse_resp_value (read_buffer_ c) = None) as ->.
    { destruct (parse_resp_value (read_buffer_ c)) as [[t' m]|] eqn:E; [|done].
      apply parse_value_stable in E as [Hm Hx].
      assert (resp = read_buffer_ c ++ drop (length (read_buffer_ c)) resp) as Er.
      { rewrite <- (take_drop (length (read_buffer_ c)) resp) at 1. f_equal.
        apply (f_equal (take (length (read_buffer_ c)))) in Hb. by rewrite take_app_length, take_app_le in Hb by lia. }
      rewrite Er in Hp at 1. rewrite Hx in Hp. simplify_eq. lia. }
    assert (incoming w (fd_ c) ≠ []) as Hin.
    { intros Hi. rewrite Hi, app_nil_r in Hb. apply (f_equal length) in Hb. rewrite length_app in Hb. lia. }
    destruct (Hr w 4096 Hg ltac:(lia) Hin) as (data & w1 & E & Hg1). unfold cli_net. rewrite E.
    apply read_data in E as [Hl Hi]. apply (IH (mkCli (fd_ c) (read_buffer_ c ++ data)) w1); [done|done|..]; cbn [fd_ read_buffer_].
    + by rewrite <- app_assoc, <- Hi.
    + rewrite length_app. lia.
Qed.

(** The client's reading loop returns the server's reply.  When the bytes
    the server sends begin with the serialization of a displayable reply,
    the loop returns its text after at most as many reads as the reply has
    bytes, however the bytes arrive; what follows stays for the next
    command. *)
Theorem client_reads_reply fd w r rest :
  reliable fd → displayable r → incoming w fd = serialize_response r ++ rest →
  ∃ b' w', read_resp_response (length (serialize_response r)) (mkCli fd [], w) = (ReadOk r, (mkCli fd b', w')) ∧
    b' ++ incoming w' fd = rest.
Proof.
  intros Hr Hd Hi.
  destruct (read_response_loop (λ _, True) (length (serialize_response r)) (mkCli fd []) w (serialize_response r) r)
    with (rest := rest) as (b' & w' & E & Hb & _); [by apply reliable_readable|done| |done|simpl; lia|by exists b', w'].
  rewrite <- (app_nil_r (serialize_response r)) at 1. by apply parse_displayable.
Qed.

End Reading.

(** ** Instances *)

Lemma client_reads_frame_witness :
  let f := FArray [FInteger 3; FArray [FBulk ($"a"); FNull]; FError ($"ERR x")] in
  parse_resp_value (encode f ++ $"+OK") = Some (display f, length (encode f)).
Proof.
  intros f. apply (client_reads_frame f ($"+OK")); vm_compute; reflexivity.
Defined.

Lemma client_displays_reply_witness :
  parse_resp_value (serialize_response (numbered_list [$"a"; $"b"]) ++ $"+OK") =
  Some (numbered_list [$"a"; $"b"], length (serialize_response (numbered_list [$"a"; $"b"]))).
Proof.
  apply (client_displays_reply (numbered_list [$"a"; $"b"]) ($"+OK")).
  apply show_list; [discriminate|vm_compute; discriminate|..];
    repeat apply Forall_cons_2; try apply Forall_nil_2; vm_compute; discriminate.
Defined.

Lemma client_reads_reply_witness :
  let w := demo_net (serialize_response (quoted ($"v")) ++ $"+OK") in
  ∃ b' w', @read_resp_response DemoNet demo_sockets (length (serialize_response (quoted ($"v")))) (mkCli 7 [], w) =
      (ReadOk (quoted ($"v")), (mkCli 7 b', w')) ∧
    b' ++ @incoming DemoNet demo_sockets w' 7 = $"+OK".
Proof.
  apply (@client_reads_reply DemoNet demo_sockets 7 (demo_net (serialize_response (quoted ($"v")) ++ $"+OK"))
    (quoted ($"v")) ($"+OK"));
    [apply demo_reliable|apply show_value; vm_compute; discriminate|
     apply (f_equal (default []) (lookup_singleton_eq _ _))].
Defined.

(** Part of a reply: the loop waits for more, and fails when the connection is
    closed instead. *)
Theorem partial_reply_waits :
  let run reads := fst (@read_resp_response DemoNet demo_sockets reads (mkCli 7 [], demo_net ($"$5" ++ CRLF ++ $"hel"))) in
  run 1 = Waiting ∧ run 2 = ReadFailed.
Proof. vm_compute. done. Qed.
