(* ===== verification/Config.v ===== *)
(** * Configuration (config/config.cpp, config/config.h)

    The configuration map, its defaults, the file reader and the typed
    accessors.  A file is [None] when it cannot be opened. *)

From S2P Require Import Prelude CppString RespFacts.

(** ** Code *)

Module Config.

Definition Config : Type := gmap bytes bytes.

Definition WHITESPACE : bytes := [" "%char; TAB; CR; LF].

(** [set_defaults], run by the constructor. *)
Definition set_defaults (c : Config) : Config :=
  <[$"maxmemory" := $"0"]> (<[$"loglevel" := $"notice"]> (<[$"save" := $"0"]>
    (<[$"requirepass" := []]> (<[$"bind" := $"0.0.0.0"]> (<[$"port" := $"6399"]> c))))).
Definition new_config : Config := set_defaults ∅.

(** Trailing white space removed, unless there is nothing else. *)
Definition trim_end (value : bytes) : bytes :=
  match find_last_not_of WHITESPACE value with
  | Some e => take (e + 1) value
  | None => value
  end.

(** One iteration of the loop of [load_file]. *)
Definition load_line (c : Config) (line : bytes) : Config :=
  match find_first_not_of WHITESPACE line with
  | None => c
  | Some start =>
      let line := drop start line in
      if bool_decide (head line = Some "#"%char) then c
      else
        let '(key, rest) := read_word line in
        match key with
        | [] => c
        | _ => <[key := trim_end (ws_getline rest)]> c
        end
  end.

Definition load_file (file : option bytes) (c : Config) : bool * Config :=
  match file with
  | None => (false, c)
  | Some contents => (true, foldl load_line c (getlines contents))
  end.

Definition get (c : Config) (key : bytes) : bytes := default [] (c !! key).
Definition set (key value : bytes) (c : Config) : Config := <[key := value]> c.

Definition port (c : Config) : Z := default 6399%Z (stoi (get c $"port")).
Definition bind_addr (c : Config) : bytes :=
  let addr := get c $"bind" in match addr with [] => $"0.0.0.0" | _ => addr end.
Definition password (c : Config) : bytes := get c $"requirepass".
Definition save_interval (c : Config) : Z := default 0%Z (stoi (get c $"save")).

End Config.
Import Config.

(** ** Writing a file *)

(** Keys are words that do not begin a comment; values have no line feed, do
    not begin with white space, and do not end with it. *)
Record entry_ok (kv : bytes * bytes) : Prop := {
  key_nonempty : fst kv ≠ [];
  key_word : Forall (λ c, isspace c = false) (fst kv);
  key_no_comment : head (fst kv) ≠ Some "#"%char;
  value_line : Forall (λ c, c ≠ LF) (snd kv);
  value_start : ∀ c, head (snd kv) = Some c → isspace c = false;
  value_end : ∀ c, last (snd kv) = Some c → char_in c WHITESPACE = false;
}.

Definition render_entry (kv : bytes * bytes) : bytes := fst kv ++ " "%char :: snd kv ++ [LF].
Definition render (entries : list (bytes * bytes)) : bytes := concat (map render_entry entries).

Definition put_entry (c : Config) (kv : bytes * bytes) : Config := <[fst kv := snd kv]> c.

(** ** Lemmas *)

Lemma isspace_not_in_whitespace c : isspace c = false → char_in c WHITESPACE = false ∧ c ≠ LF.
Proof.
  intros Hc. split.
  - unfold char_in, WHITESPACE. cbn [existsb].
    repeat match goal with |- context [Ascii.eqb c ?d] =>
      destruct (Ascii.eqb_spec c d) as [->|]; [by vm_compute in Hc|] end. done.
  - intros ->. by vm_compute in Hc.
Qed.

Lemma trim_end_id v : (∀ c, last v = Some c → char_in c WHITESPACE = false) → trim_end v = v.
Proof.
  intros Hv. destruct v as [|c v _] using rev_ind; [done|].
  specialize (Hv c). rewrite last_snoc in Hv. specialize (Hv eq_refl).
  unfold trim_end, find_last_not_of. rewrite rev_unit. cbn [find_idx]. rewrite Hv. cbn.
  apply take_ge. rewrite length_app. simpl. lia.
Qed.

Lemma ws_getline_value v :
  Forall (λ c, c ≠ LF) v → (∀ c, head v = Some c → isspace c = false) → ws_getline (" "%char :: v) = v.
Proof.
  intros Hv Hh. unfold ws_getline, skip_ws. cbn [span]. change (isspace " ") with true. cbn iota.
  assert (span isspace v = ([], v)) as ->.
  { destruct v as [|c v]; [done|]. cbn [span]. by rewrite (Hh c). }
  cbn [snd]. rewrite span_all; [done|]. eapply Forall_impl; [done|].
  intros c Hc. by rewrite (proj2 (Ascii.eqb_neq _ _)).
Qed.

Lemma load_line_entry c kv : entry_ok kv → load_line c (fst kv ++ " "%char :: snd kv) = put_entry c kv.
Proof.
  destruct kv as [k v]. intros [Hne Hw Hcm Hl Hs He]. cbn [fst snd] in *.
  destruct k as [|x k]; [done|]. apply Forall_cons in Hw as [Hx Hk]. unfold load_line.
  cbn [app]. rewrite find_first_not_of_head by by apply isspace_not_in_whitespace.
  rewrite drop_0. cbn [head] in *. rewrite bool_decide_eq_false_2 by done.
  unfold read_word. rewrite skip_ws_nonspace by done.
  change (x :: k ++ " "%char :: v) with ((x :: k) ++ " "%char :: v).
  rewrite span_stop; [|constructor; [by rewrite Hx|]|done].
  - rewrite ws_getline_value, trim_end_id by done. done.
  - eapply Forall_impl; [done|]. by intros y ->.
Qed.

Lemma render_lines entries :
  Forall entry_ok entries → getlines (render entries) = map (λ kv, fst kv ++ " "%char :: snd kv) entries.
Proof.
  induction 1 as [|kv entries Hkv _ IH]; [done|]. unfold render. cbn [map concat]. unfold render_entry at 1.
  fold (render entries).
  replace ((fst kv ++ " "%char :: snd kv ++ [LF]) ++ render entries) with
    ((fst kv ++ " "%char :: snd kv) ++ LF :: render entries)
    by (rewrite <- !app_assoc; cbn [app]; by rewrite <- app_assoc).
  rewrite getlines_cons, IH; [done|]. apply Forall_app. split.
  - eapply Forall_impl; [by apply key_word|]. by intros c []%isspace_not_in_whitespace.
  - constructor; [done|by apply value_line].
Qed.

(** ** Theorems *)

(** Configuration files are read as written.  Loading a file of well-formed
    "key value" lines sets exactly those keys, in order (a later line wins),
    on top of the configuration there was, and reports success. *)
Theorem config_roundtrip entries c :
  Forall entry_ok entries → load_file (Some (render entries)) c = (true, foldl put_entry c entries).
Proof.
  intros He. unfold load_file. rewrite render_lines by done. f_equal.
  revert c. induction He as [|kv entries Hkv _ IH]; intros c; [done|]. cbn [map foldl].
  by rewrite load_line_entry, IH.
Qed.

(** The accessors never fail.  The port is an [int] whatever the file
    says, the default when the value is no number in range; the address is
    never empty; a missing file changes nothing. *)
Theorem config_defaults c :
  (INT_MIN ≤ port c ≤ INT_MAX)%Z ∧ (stoi (get c ($"port")) = None → port c = 6399%Z) ∧
  bind_addr c ≠ [] ∧ load_file None c = (false, c) ∧ password new_config = [] ∧ port new_config = 6399%Z.
Proof.
  split; [|split; [|split; [|split; [done|split; by vm_compute]]]].
  - unfold port. destruct (stoi _) as [p|] eqn:E; simpl; [by apply stoi_range in E|done].
  - intros E. unfold port. by rewrite E.
  - unfold bind_addr. by destruct (get c ($"bind")).
Qed.

Lemma config_roundtrip_witness :
  load_file (Some (render [($"port", $"7000"); ($"requirepass", $"two words")])) new_config =
  (true, foldl put_entry new_config [($"port", $"7000"); ($"requirepass", $"two words")]).
Proof.
  apply (config_roundtrip [($"port", $"7000"); ($"requirepass", $"two words")] new_config).
  repeat apply Forall_cons_2; try apply Forall_nil_2.
  all: constructor; try discriminate; cbn [fst snd];
    try (intros c; vm_compute; intros [= <-]; reflexivity);
    repeat apply Forall_cons_2; try apply Forall_nil_2; try discriminate; vm_compute; reflexivity.
Defined.
