(* ===== verification/Main.v ===== *)
(** * Server start-up (server/main.cpp)

    The command line, the configuration, the dump file and the server that
    [main] builds before it enters the event loop.  [argv] is the list of
    arguments after the program name; files are looked up in the world. *)

From S2P Require Import Prelude CppString Database DatabaseFacts DatabaseSpec DatabaseClaims Persistence.
From S2P Require Import PersistenceFacts PersistenceClaims Socket PubSub CommandHandler CommandFacts CommandClaims.
From S2P Require Import Config Server ServerClaims PubSubClaims EventLoop.
Import Config.

(** ** Code *)

(** The first loop over the arguments: every "--config" followed by a file. *)
Fixpoint load_configs (argv : list bytes) (fs : gmap bytes bytes) (c : Config) : Config :=
  match argv with
  | [] => c
  | a :: rest =>
      if bytes_eqb a $"--config" then
        match rest with
        | f :: rest' => load_configs rest' fs (snd (load_file (fs !! f) c))
        | [] => c
        end
      else load_configs rest fs c
  end.

(** [std::atoi] for values in the range of [int] (its behaviour is undefined
    for others): 0 when there is no number. *)
Definition atoi (s : bytes) : Z := default 0%Z (strtol s).

(** The second loop: a bare number in the range of ports overrides. *)
Fixpoint pick_port (argv : list bytes) (port : Z) : Z :=
  match argv with
  | [] => port
  | a :: rest =>
      if bytes_eqb a $"--config" then
        match rest with _ :: rest' => pick_port rest' port | [] => port end
      else
        let p := atoi a in
        pick_port rest (if ((0 <? p) && (p <=? 65535))%Z then p else port)
  end.

Section Startup.
Context {Net : Type} `{ListenApi Net} `{SteadyClock} `{HashOrder} `{Environ}.

(** [platform::init] on POSIX: SIGPIPE is ignored, so that a write to a closed
    socket is an error (Platform.v); [platform::cleanup] does nothing. *)
Definition platform_init : State Net bool := ignore_sigpipe;; mret true.

Lemma platform_init_run network :
  fst (platform_init network) = true ∧ open_fds (snd (platform_init network)) = open_fds network.
Proof.
  unfold platform_init, mbind, state_bind. destruct (ignore_sigpipe network) as [[] n] eqn:E. split; [done|].
  by apply ignore_open in E.
Qed.

(** [main] up to [server.start()]: the configuration, the port, the database
    loaded from the dump when that succeeds, and the server with its
    password. *)
Definition construct (argv : list bytes) (fs : gmap bytes bytes) (n : nat) (network : Net)
    : Endpoint * (Server * World Net) :=
  let config := load_configs argv fs new_config in
  let port := pick_port argv (Config.port config) in
  let bind_addr := Config.bind_addr config in
  let '(_, ((d, fs'), n')) := load dump_path ((empty_db, fs), n) in
  let pw := match password config with [] => [] | p => p end in
  (new_endpoint bind_addr port, (mkServer ∅ pw false 0, mkWorld d fs' n' empty_pubsub network)).

(** All of [main]: the exit status, and the state after the destructors.  The
    expiry thread runs between [start_expiry_thread] and [stop_expiry_thread]
    (ExpiryThread.v); its rounds are those of [Environ]. *)
Definition server_main (peer : Z → bytes) (argv : list bytes) (fs : gmap bytes bytes) (n : nat) (network : Net)
    (early : Early) (script : list Signal) : Z * (Endpoint * (Server * World Net)) :=
  let '(ok, network) := platform_init network in
  if negb ok then (1%Z, construct argv fs n network)
  else
    let '(_, st) := start peer early script (construct argv fs n network) in
    (0%Z, snd (destroy st)).

(** ** Theorems *)

Lemma deadlines_restored d n n' :
  wf d → deadlines_ok d (clock n) → deadlines_ok (restored (clock n) (clock n') d) (clock n').
Proof.
  intros Hwf Hd k dl' Hk. unfold restored, restored_expiry in Hk. cbn [expiry_] in Hk.
  rewrite lookup_omap in Hk. destruct (expiry_ d !! k) as [dl|] eqn:E; [|done]. simpl in Hk.
  destruct (0 <? ms_left dl (clock n))%Z eqn:Hms; [|done]. simplify_eq.
  pose proof (ms_left_bounds _ _ _ _ _ (times_ok_clock d n n' Hd) E) as Hb.
  pose proof (clock_range n'). unfold NS_PER_MS in *. lia.
Qed.

(** The server [main] has built, around the database it has loaded. *)
Lemma construct_run argv fs n network r d fs' n' :
  load dump_path ((empty_db, fs), n) = (r, ((d, fs'), n')) → inv (d, n') →
  ∃ host port s w, construct argv fs n network = (new_endpoint host port, (s, w)) ∧
    clients_ s = ∅ ∧ running_ s = false ∧ srv_ok (s, w) ∧ w_db w = d ∧ w_net w = network.
Proof.
  intros E Hi. unfold construct. rewrite E. do 4 eexists. split; [done|]. split_and!; [done|done| |done|done].
  constructor; cbn; [split; [done|apply ps_wf_empty]|intros fd []; simplify_map_eq|by intros fd ?].
Qed.

(** C31: a restart restores the saved data.  After a successful SAVE of a
    consistent database, a server started on those files, with any
    configuration and at any later clock reading, begins with exactly what a
    load restores and no client, and whatever happens afterwards satisfies
    its invariants at every iteration of its loop. *)
Theorem restart_restores d fs n network argv peer :
  inv (d, n) → sizes_ok (snapshot_of d) → INVALID_SOCKET_VAL ∉ open_fds network →
  ∃ fs', save io_ok dump_path ((d, fs), n) = (true, ((d, fs'), S n)) ∧
    ∀ m, let '(e, (s, w)) := construct argv fs' m network in
      w_db w = restored (clock n) (clock m) d ∧ clients_ s = ∅ ∧
      ∀ early script, srv_ok (snd (snd (start peer early script (e, (s, w))))).
Proof.
  intros [Hwf Hd] Hs Hinv. cbn [fst snd] in *. eexists. split; [apply save_run|]. intros m.
  assert (inv (restored (clock n) (clock m) d, S m)) as Hi.
  { apply (inv_later _ m); [lia|]. split; [by apply wf_restored|by apply deadlines_restored]. }
  destruct (construct_run argv (saved_files dump_path d (clock n) fs) m network true
    (restored (clock n) (clock m) d) (saved_files dump_path d (clock n) fs) (S m))
    as (host & port & s & w & -> & Hcl & Hrun & Hok & Hdb & Hn); [|done|].
  - erewrite load_run by apply lookup_insert_eq.
    by rewrite check_header_dump, load_entries_dump; [|done|done|by apply times_ok_clock].
  - split_and!; [done|done|]. intros early script.
    pose proof (start_run peer early script (new_endpoint host port) s w eq_refl Hcl Hrun) as Hr. rewrite Hn in Hr. specialize (Hr Hinv Hok).
    destruct (start peer early script _) as [r st]. by destruct Hr as [[? _] _].
Qed.

(** C26: the server process leaves nothing open.  Whatever the command line,
    the operating system, the clients and the signals do, when [main] returns
    (the database having been loaded consistently, or there being no dump),
    exactly the sockets that were open before it are open.  Its exit status
    is 0, also when the server could not be started. *)
Theorem main_closes_everything peer argv fs n network early script r d fs' n' :
  load dump_path ((empty_db, fs), n) = (r, ((d, fs'), n')) → inv (d, n') → INVALID_SOCKET_VAL ∉ open_fds network →
  let '(code, (_, (_, w))) := server_main peer argv fs n network early script in
  open_fds (w_net w) = open_fds network ∧ code = 0%Z.
Proof.
  intros E Hi Hinv. unfold server_main. destruct (platform_init_run network) as [Hi1 Ho].
  destruct (platform_init network) as [ok network']. cbn [fst snd] in *. subst ok. cbn [negb].
  destruct (construct_run argv fs n network' r d fs' n' E Hi) as (host & port & s & w & Ec & Hcl & Hrun & Hok & _ & Hn).
  rewrite Ec. rewrite <- Ho, <- Hn in Hinv.
  pose proof (no_leak peer early script host port s w Hcl Hrun Hinv Hok) as Hl. cbv zeta in Hl.
  destruct (start peer early script _) as [x st]. cbn [snd] in Hl. destruct (snd (destroy st)) as [e' [s' w']].
  split; [|done]. cbn [snd] in Hl. congruence.
Qed.

End Startup.

(** ** Command line *)

Lemma strtol_number p : (INT_MIN ≤ p ≤ INT_MAX)%Z → strtol (to_string p) = Some p.
Proof.
  intros Hp%stoi_to_string. unfold stoi, in_range in Hp. destruct (strtol (to_string p)); [|done].
  destruct (_ && _)%Z; congruence.
Qed.

(** A bare port argument in range overrides the configured port; the operand of
    "--config" is never taken for a port. *)
Theorem port_selection p q f :
  (0 < p ≤ 65535)%Z →
  pick_port [to_string p] q = p ∧ pick_port [$"--config"; f; to_string p] q = p ∧
  pick_port [$"--config"; to_string p] q = q.
Proof.
  intros Hp. assert (strtol (to_string p) = Some p) as E by (apply strtol_number; unfold INT_MIN, INT_MAX; lia).
  assert (bytes_eqb (to_string p) ($"--config") = false) as En.
  { apply bytes_eqb_neq. intros Et. rewrite Et in E. by vm_compute in E. }
  assert (pick_port [to_string p] q = p) as H1.
  { cbn [pick_port]. rewrite En. unfold atoi. rewrite E. simpl.
    rewrite (proj2 (Z.ltb_lt _ _)), (proj2 (Z.leb_le _ _)) by lia. done. }
  split_and!; [done|exact H1|done].
Qed.

(** A port in the configuration file is not checked: it is bound modulo
    65536. *)
Theorem config_port_wraps :
  let config := $"port 70000" ++ [LF] in
  to_uint16 (port_ (fst (@construct DemoNet demo_clock [$"--config"; $"c"] {[ $"c" := config ]} 0 demo_peer))) = 4464%Z.
Proof. vm_compute. reflexivity. Qed.

(** ** Instances *)

Lemma restart_restores_witness :
  ∃ fs', @save demo_clock gmap_order io_ok dump_path ((demo_db 9000000000, ∅), 0) =
      (true, ((demo_db 9000000000, fs'), 1)) ∧
    w_db (snd (snd (@construct DemoNet demo_clock [$"7000"] fs' 3 demo_peer))) =
      restored (@clock demo_clock 0) (@clock demo_clock 3) (demo_db 9000000000).
Proof.
  destruct (@restart_restores DemoNet demo_sockets demo_listen demo_clock gmap_order demo_env (demo_db 9000000000) ∅ 0
    demo_peer [$"7000"] demo_peer_addr) as (fs' & E & Hm).
  - split; [apply wf_demo_db|apply demo_deadlines].
  - apply demo_sizes.
  - exact demo_no_invalid.
  - exists fs'. split; [exact E|]. specialize (Hm 3).
    destruct (construct [$"7000"] fs' 3 demo_peer) as [e [s w]]. apply Hm.
Defined.

(** A server without a dump, two connections, SIGTERM. *)
Lemma main_closes_everything_witness :
  let '(code, (_, (_, w))) := @server_main DemoNet demo_sockets demo_listen demo_clock gmap_order demo_env demo_peer_addr
    [$"7000"] ∅ 0 demo_peer NoEarly [NoSignal; NoSignal; InSelect] in
  net_open (w_net w) = net_open demo_peer ∧ code = 0%Z.
Proof.
  apply (@main_closes_everything DemoNet demo_sockets demo_listen demo_clock gmap_order demo_env demo_peer_addr
    [$"7000"] ∅ 0 demo_peer NoEarly [NoSignal; NoSignal; InSelect] false empty_db ∅ 0); [vm_compute; reflexivity| |exact demo_no_invalid].
  split; [apply wf_empty|]. intros k dl. simpl. by rewrite lookup_empty.
Defined.
