(* ===== verification/NetworkFrame.v ===== *)
(** * What every system call keeps, the server keeps

    A property of the network that each socket call preserves is preserved by
    every command, every round of the event loop, and the whole of the server's
    [main]: the server touches the network through those calls only. *)

From S2P Require Import Prelude CppString Parser Resp RespFacts Database ExpiryThread Persistence Socket PubSub PubSubFacts PubSubClaims.
From S2P Require Import CommandHandler CommandFacts CommandClaims Server ServerFacts ServerClaims ReplyClaims EventLoop Main.

(** ** What writes keep, commands keep *)

Section WriteClosed.
Context {Net : Type} `{SocketApi Net} `{SteadyClock} `{HashOrder} `{Environ}.
Context (client_fd : Z) (info : option (Z * nat)).
Context (Q : Net → Prop).

Definition write_closed : Prop := ∀ fd buf w n w', socket_write fd buf w = (n, w') → Q w → Q w'.

Hypothesis Hclosed : write_closed.

Lemma send_response_closed fd data w : Q w → Q (snd (send_response fd data w)).
Proof.
  unfold send_response, write_exact. generalize (S (length data)) 0. intros f total. revert total w.
  induction f as [|f IH]; intros total w Hw; cbn [write_loop]; [done|].
  destruct (total <? length data)%nat; [|done].
  unfold mbind, state_bind. destruct (socket_write _ _ w) as [n w1] eqn:E. pose proof (Hclosed _ _ _ _ _ E Hw).
  destruct (n <=? 0)%Z; [done|by apply IH].
Qed.

Lemma publish_closed ch msg p n : Q n → Q (snd (snd (publish ch msg (p, n)))).
Proof.
  intros Hn. unfold publish, on_pubsub, get_st, mbind, state_bind. cbn beta iota zeta.
  destruct (channels_ p !! ch) as [subs|]; [|done].
  destruct (foldM (publish_one (push_message ch msg)) (0%Z, []) (ordered subs) (p, n)) as [acc [p1 n1]] eqn:E.
  apply (foldM_inv (λ _ st, Q (snd st))) in E; [| |done].
  - by destruct (foldM _ tt (snd acc) p1) as [[] p2].
  - intros b a [p0 n0] b' [p0' n0'] _ Hq. unfold publish_one, on_net, mbind, state_bind.
    pose proof (send_response_closed a (push_message ch msg) n0 Hq) as Hs.
    destruct (send_response a _ n0) as [ok n2]. by intros [= <- <- <-].
Qed.

(** Executing a command keeps what every write keeps. *)
Lemma execute_closed cmd w :
  Q (w_net w) → Q (w_net (snd (snd (execute client_fd info cmd (new_handler, w))))).
Proof.
  intros Hw. assert (Q (w_net (snd (execute_single client_fd info cmd w)))) as Hx.
  { destruct (decide (name cmd = $"PUBLISH")) as [Hn|Hn].
    - rewrite execute_publish by done. unfold handle_publish. destruct (args cmd) as [|ch [|msg [|]]]; try done.
      unfold mbind, state_bind, pubsub. pose proof (publish_closed ch msg (w_pubsub w) (w_net w) Hw) as Hp.
      by destruct (publish ch msg _) as [r [p n]].
    - by rewrite execute_single_net. }
  unfold execute. destruct (_ && _); [done|]. repeat (destruct (bytes_eqb _ _); [try done|]).
  - unfold handle_watch. destruct (args cmd) as [|k ks]; [done|].
    unfold self, mbind, state_bind. cbn beta iota zeta. cbn [in_multi_ new_handler].
    pose proof (watch_fold_net (k :: ks) new_handler w) as Hk.
    destruct (foldM watch_one tt (k :: ks) (new_handler, w)) as [[] [h' w']]. cbn [snd] in Hk. cbn. by rewrite Hk.
  - cbn [in_multi_ new_handler]. unfold on_world. by destruct (execute_single client_fd info cmd w).
Qed.

End WriteClosed.

(** ** The server *)

Section Closed.
Context {Net : Type} `{ListenApi Net} `{SteadyClock} `{HashOrder} `{Environ}.
Context (Q : Net → Prop).

(** A call keeps [Q]. *)
Definition stable_under {A} (m : State Net A) : Prop := ∀ w, Q w → Q (snd (m w)).

(** Every call of the interface does. *)
Record calls_closed : Prop := {
  closed_write : ∀ fd buf, stable_under (socket_write fd buf);
  closed_read : ∀ fd len, stable_under (socket_read fd len);
  closed_accept : stable_under accept_socket;
  closed_close : ∀ fd, stable_under (close_socket fd);
  closed_getfl : ∀ fd, stable_under (fcntl_getfl fd);
  closed_setfl : ∀ fd f, stable_under (fcntl_setfl fd f);
  closed_create : stable_under create_socket;
  closed_reuse : ∀ fd, stable_under (set_reuseaddr fd);
  closed_bind : ∀ fd a p, stable_under (bind_socket fd a p);
  closed_listen : ∀ fd n, stable_under (listen_socket fd n);
  closed_select : ∀ n fds, stable_under (select n fds);
}.

Hypothesis Hcalls : calls_closed.

Lemma calls_write_closed : write_closed Q.
Proof. intros fd buf w n w' E Hw. pose proof (closed_write Hcalls fd buf w Hw) as Hq. by rewrite E in Hq. Qed.

Lemma set_nonblocking_closed fd : stable_under (set_nonblocking fd).
Proof.
  intros w Hw. unfold set_nonblocking, mbind, state_bind. pose proof (closed_getfl Hcalls fd w Hw) as H1'.
  destruct (fcntl_getfl fd w) as [flags w1]. cbn [snd] in H1'. case_match; [done|].
  pose proof (closed_setfl Hcalls fd (Z.lor flags O_NONBLOCK) w1 H1') as H2'. by destruct (fcntl_setfl _ _ w1).
Qed.

(** *** Programs of the server *)

Class SrvClosed {A} (m : SrvM (Net := Net) A) : Prop :=
  srv_closed : ∀ st, Q (w_net (snd st)) → Q (w_net (snd (snd (m st)))).

#[local] Instance srv_ret {A} (a : A) : SrvClosed (mret a).
Proof. by intros st. Qed.
#[local] Instance srv_bind {A B} (m : SrvM A) (k : A → SrvM B) :
  SrvClosed m → (∀ a, SrvClosed (k a)) → SrvClosed (m ≫= k).
Proof.
  intros Hm Hk st Hst. unfold mbind, state_bind. apply Hm in Hst. destruct (m st) as [a st1]. by apply Hk.
Qed.
#[local] Instance srv_fold {A B} (f : A → B → SrvM A) a l : (∀ a b, SrvClosed (f a b)) → SrvClosed (foldM f a l).
Proof.
  intros Hf. revert a. induction l as [|b l IH]; intros a st Hst; [done|]. rewrite foldM_cons.
  apply (Hf a b) in Hst. destruct (f a b st) as [a' st']. by apply IH.
Qed.
#[local] Instance srv_server : SrvClosed server.
Proof. by intros [s w]. Qed.
#[local] Instance srv_modify f : SrvClosed (modify_server f).
Proof. by intros [s w]. Qed.
#[local] Instance srv_update fd f : SrvClosed (update_client fd f).
Proof. apply _. Qed.
Lemma srv_net {A} (m : State Net A) : stable_under m → SrvClosed (world (net m)).
Proof. intros Hm [s w] Hst. unfold world, net. specialize (Hm _ Hst). cbn [snd] in *. by destruct (m (w_net w)). Qed.
#[local] Instance srv_send fd data : SrvClosed (send fd data).
Proof. apply srv_net. intros w Hw. apply send_response_closed; [apply calls_write_closed|done]. Qed.
#[local] Instance srv_read fd len : SrvClosed (world (net (socket_read fd len))).
Proof. apply srv_net, closed_read, Hcalls. Qed.
#[local] Instance srv_accept : SrvClosed (world (net accept_socket)).
Proof. apply srv_net, closed_accept, Hcalls. Qed.
#[local] Instance srv_close fd : SrvClosed (world (net (close_socket fd))).
Proof. apply srv_net, closed_close, Hcalls. Qed.
#[local] Instance srv_nonblocking fd : SrvClosed (world (net (set_nonblocking fd))).
Proof. apply srv_net, set_nonblocking_closed. Qed.
#[local] Instance srv_disconnected fd : SrvClosed (world (pubsub (on_pubsub (client_disconnected fd)))).
Proof. intros [s w] Hst. unfold world, pubsub, on_pubsub. by destruct (client_disconnected fd (w_pubsub w)). Qed.
#[local] Instance srv_execute fd info cmd :
  SrvClosed (world (λ w, let '(r, (_, w')) := execute fd info cmd (new_handler, w) in (r, w'))).
Proof.
  intros [s w] Hst. unfold world. pose proof (execute_closed fd info Q calls_write_closed cmd w Hst) as Hx.
  by destruct (execute fd info cmd (new_handler, w)) as [r [h w']].
Qed.

(** Splits a program into its calls. *)
Ltac closed := repeat (case_match || apply _ || apply srv_bind || intros ?).

#[local] Instance run_command_closed fd cmd : SrvClosed (run_command fd cmd).
Proof. unfold run_command. closed. Qed.
#[local] Instance handle_command_closed fd cmd : SrvClosed (handle_command fd cmd).
Proof. unfold handle_command. closed. Qed.
#[local] Instance process_loop_closed f fd : SrvClosed (process_loop f fd).
Proof. induction f as [|f IH]; cbn [process_loop]; closed. Qed.
#[local] Instance process_client_closed fd : SrvClosed (process_client fd).
Proof. unfold process_client. closed. Qed.
#[local] Instance accept_client_closed peer : SrvClosed (accept_client peer).
Proof. unfold accept_client. closed. Qed.
#[local] Instance disconnect_client_closed fd : SrvClosed (disconnect_client fd).
Proof. unfold disconnect_client. closed. Qed.
#[local] Instance process_ready_closed ready acc fd : SrvClosed (process_ready ready acc fd).
Proof. unfold process_ready. closed. Qed.
#[local] Instance serve_clients_closed ready : SrvClosed (serve_clients ready).
Proof. unfold serve_clients. closed. Qed.

(** *** Programs of the loop *)

Class LoopClosed {A} (m : LoopM (Net := Net) A) : Prop :=
  loop_closed : ∀ st, Q (w_net (snd (snd st))) → Q (w_net (snd (snd (snd (m st))))).

#[local] Instance loop_ret {A} (a : A) : LoopClosed (mret a).
Proof. by intros st. Qed.
#[local] Instance loop_bind {A B} (m : LoopM A) (k : A → LoopM B) :
  LoopClosed m → (∀ a, LoopClosed (k a)) → LoopClosed (m ≫= k).
Proof.
  intros Hm Hk st Hst. unfold mbind, state_bind. apply Hm in Hst. destruct (m st) as [a st1]. by apply Hk.
Qed.
#[local] Instance loop_fold {A B} (f : A → B → LoopM A) a l : (∀ a b, LoopClosed (f a b)) → LoopClosed (foldM f a l).
Proof.
  intros Hf. revert a. induction l as [|b l IH]; intros a st Hst; [done|]. rewrite foldM_cons.
  apply (Hf a b) in Hst. destruct (f a b st) as [a' st']. by apply IH.
Qed.
#[local] Instance loop_endpoint : LoopClosed endpoint.
Proof. by intros [e st]. Qed.
#[local] Instance loop_set_fd fd : LoopClosed (set_listen_fd fd).
Proof. by intros [e st]. Qed.
#[local] Instance loop_srv {A} (m : SrvM A) : SrvClosed m → LoopClosed (srv m).
Proof. intros Hm [e st] Hst. unfold srv. specialize (Hm _ Hst). cbn [snd] in *. by destruct (m st). Qed.
Lemma loop_sys {A} (m : State Net A) : stable_under m → LoopClosed (sys m).
Proof. intros Hm. by apply loop_srv, srv_net. Qed.

#[local] Hint Extern 1 (LoopClosed (sys _)) => apply loop_sys; solve [apply Hcalls | apply set_nonblocking_closed] : typeclass_instances.

Ltac loop_closed := repeat (case_match || apply _ || apply loop_bind || intros ?).

#[local] Instance close_listener_closed : LoopClosed close_listener.
Proof. unfold close_listener. loop_closed. Qed.
#[local] Instance clear_running_closed : SrvClosed clear_running.
Proof. unfold clear_running. closed. Qed.
#[local] Instance stop_closed : LoopClosed stop.
Proof. unfold stop. loop_closed. Qed.
#[local] Instance handler_closed b : LoopClosed (signal_handler b).
Proof. unfold signal_handler. loop_closed. Qed.
#[local] Instance iteration_closed peer sg : LoopClosed (iteration peer sg).
Proof. unfold iteration, serve_ready, signal_at. loop_closed. Qed.
#[local] Instance event_loop_closed peer script : LoopClosed (event_loop peer script).
Proof. induction script as [|sg script IH]; cbn [event_loop]; loop_closed. Qed.
#[local] Instance open_listener_closed early : LoopClosed (open_listener early).
Proof. unfold open_listener. loop_closed. Qed.
#[local] Instance read_clock_closed : SrvClosed read_clock.
Proof. by intros [s w]. Qed.
#[local] Instance start_closed peer early script : LoopClosed (start peer early script).
Proof. unfold start. loop_closed. Qed.
#[local] Instance destroy_closed : LoopClosed destroy.
Proof. unfold destroy. loop_closed. Qed.

(** The whole of [main] after [platform::init]. *)
Lemma server_main_closed peer argv fs n network early script :
  Q (snd (platform_init network)) → Q (w_net (snd (snd (snd (server_main peer argv fs n network early script))))).
Proof.
  intros Hq. unfold server_main. destruct (platform_init network) as [ok network']. cbn [snd] in Hq.
  assert (Q (w_net (snd (snd (construct argv fs n network'))))) as Hc.
  { unfold construct. by destruct (load dump_path _) as [? [[? ?] ?]]. }
  destruct ok; cbn [negb]; [|done]. apply (start_closed peer early script) in Hc.
  destruct (start peer early script _) as [r st]. cbn [snd] in *. by apply destroy_closed.
Qed.

End Closed.
