(* ===== verification/Platform.v ===== *)
(** * The platform layer (platform/platform.h)

    [Posix] is the operating system below the layer: the system calls with
    their return values, [errno] and the disposition of SIGPIPE.  The functions
    of the layer are defined on it, and with them the interfaces [SocketApi]
    and [ListenApi] that the server is verified against, so every theorem about
    the server holds on POSIX.  A write to a socket whose peer is gone raises
    SIGPIPE, which ends a process that does not ignore it; the server ignores
    it from the start.  [Windows] is the other branch of the conditional
    compilation. *)

From S2P Require Import Prelude CppString Database DatabaseClaims ExpiryThread Persistence Socket PubSub PubSubFacts PubSubClaims.
From S2P Require Import CommandHandler CommandClaims Server ServerClaims EventLoop Main NetworkFrame.

(** ** POSIX *)

Module Posix.

(** The values on Linux. *)
Definition EAGAIN : Z := 11%Z.
Definition EWOULDBLOCK : Z := 11%Z.

(** A call that leaves the process and its signal dispositions alone. *)
Definition inert {OS A} (alive ignored : OS → bool) (m : State OS A) : Prop :=
  ∀ w, alive (snd (m w)) = alive w ∧ ignored (snd (m w)) = ignored w.

Class Posix (OS : Type) := {
  (** read(2) returns its value and what it put into the buffer. *)
  sys_read : Z → nat → State OS (Z * bytes);
  sys_write : Z → bytes → State OS Z;
  sys_close : Z → State OS Z;
  sys_accept : State OS Z;
  sys_getfl : Z → State OS Z;
  sys_setfl : Z → Z → State OS Z;
  sys_socket : State OS Z;
  sys_reuseaddr : Z → State OS Z;
  sys_bind : Z → Z → Z → State OS Z;
  sys_listen : Z → Z → State OS Z;
  sys_select : Z → gset Z → State OS (Z * gset Z);
  sys_ignore_sigpipe : State OS unit;
  sys_inet_pton : bytes → option Z;
  errno : OS → Z;
  strerror : Z → bytes;
  (** What the peers have received and sent, the open sockets, whether SIGPIPE
      is ignored, and whether the process still runs. *)
  os_sent : OS → Z → bytes;
  os_incoming : OS → Z → bytes;
  os_open : OS → gset Z;
  pipe_ignored : OS → bool;
  alive : OS → bool;
  read_law : ∀ fd len w n buf w', sys_read fd len w = ((n, buf), w') →
    (n ≤ Z.of_nat len)%Z ∧ ((0 < n)%Z → length buf = Z.to_nat n ∧ os_incoming w fd = buf ++ os_incoming w' fd) ∧
    (∀ fd', os_sent w' fd' = os_sent w fd') ∧ os_open w' = os_open w;
  write_law : ∀ fd buf w n w', sys_write fd buf w = (n, w') →
    (n ≤ Z.of_nat (length buf))%Z ∧ os_sent w' fd = os_sent w fd ++ take (Z.to_nat n) buf ∧
    (∀ fd', fd' ≠ fd → os_sent w' fd' = os_sent w fd') ∧ os_open w' = os_open w;
  close_law : ∀ fd w r w', sys_close fd w = (r, w') → os_open w' = os_open w ∖ {[fd]};
  accept_law : ∀ w fd w', sys_accept w = (fd, w') →
    if is_valid fd then (fd ∉ os_open w) ∧ os_open w' = {[fd]} ∪ os_open w else os_open w' = os_open w;
  socket_law : ∀ w fd w', sys_socket w = (fd, w') →
    if is_valid fd then (fd ∉ os_open w) ∧ os_open w' = {[fd]} ∪ os_open w else os_open w' = os_open w;
  getfl_law : ∀ fd w r w', sys_getfl fd w = (r, w') → os_open w' = os_open w;
  setfl_law : ∀ fd f w r w', sys_setfl fd f w = (r, w') → os_open w' = os_open w;
  reuse_law : ∀ fd w r w', sys_reuseaddr fd w = (r, w') → os_open w' = os_open w;
  bind_law : ∀ fd a p w r w', sys_bind fd a p w = (r, w') → os_open w' = os_open w;
  listen_law : ∀ fd n w r w', sys_listen fd n w = (r, w') → os_open w' = os_open w;
  (** EBADF: a negative descriptor is never open. *)
  bind_bad : ∀ fd a p w, is_valid fd = false → (fst (sys_bind fd a p w) < 0)%Z;
  listen_bad : ∀ fd n w, is_valid fd = false → (fst (sys_listen fd n w) < 0)%Z;
  select_law : ∀ nfds fds w r ready w', sys_select nfds fds w = ((r, ready), w') →
    os_open w' = os_open w ∧ (∀ fd, fd ∈ ready → fd ∈ fds ∧ (fd < nfds)%Z) ∧
    (∀ fd, fd ∈ fds → (fd < nfds)%Z → fd ∉ os_open w → (r < 0)%Z);
  ignore_law : ∀ w r w', sys_ignore_sigpipe w = (r, w') →
    os_open w' = os_open w ∧ pipe_ignored w' = true ∧ alive w' = alive w;
  (** signal(7): a process that ignores SIGPIPE survives a write; the other
      calls do not raise it, and only signal(2) changes the disposition. *)
  write_survives : ∀ fd buf w, pipe_ignored w = true →
    alive (snd (sys_write fd buf w)) = alive w ∧ pipe_ignored (snd (sys_write fd buf w)) = true;
  read_inert : ∀ fd len, inert alive pipe_ignored (sys_read fd len);
  close_inert : ∀ fd, inert alive pipe_ignored (sys_close fd);
  accept_inert : inert alive pipe_ignored sys_accept;
  socket_inert : inert alive pipe_ignored sys_socket;
  getfl_inert : ∀ fd, inert alive pipe_ignored (sys_getfl fd);
  setfl_inert : ∀ fd f, inert alive pipe_ignored (sys_setfl fd f);
  reuse_inert : ∀ fd, inert alive pipe_ignored (sys_reuseaddr fd);
  bind_inert : ∀ fd a p, inert alive pipe_ignored (sys_bind fd a p);
  listen_inert : ∀ fd n, inert alive pipe_ignored (sys_listen fd n);
  select_inert : ∀ n fds, inert alive pipe_ignored (sys_select n fds);
}.

Section Layer.
Context {OS : Type} `{Posix OS}.

(** *** The functions of the layer *)

Definition init : State OS bool := sys_ignore_sigpipe;; mret true.
Definition cleanup : State OS unit := mret tt.
Definition close_socket (sock : Z) : State OS Z := sys_close sock.
Definition socket_read (sock : Z) (len : nat) : State OS (Z * bytes) := sys_read sock len.
Definition socket_write (sock : Z) (buf : bytes) : State OS Z := sys_write sock buf.
Definition last_error (w : OS) : bytes := strerror (errno w).

(** How [Server::process_client] reads the outcome of [socket_read]. *)
Definition classify (n : Z) (buf : bytes) (err : Z) : ReadResult :=
  if (n <=? 0)%Z then
    if (n <? 0)%Z && ((err =? EAGAIN)%Z || (err =? EWOULDBLOCK)%Z) then ReadWouldBlock
    else if (n =? 0)%Z then ReadClosed else ReadError
  else ReadData (take (Z.to_nat n) buf).

(** *** The interfaces *)

Definition outcome (sock : Z) (len : nat) : State OS ReadResult := λ w,
  let '((n, buf), w') := socket_read sock len w in (classify n buf (errno w'), w').

Definition accepted : State OS (option Z) := fd ← sys_accept; mret (if is_valid fd then Some fd else None).

#[refine] Instance posix_sockets : SocketApi OS := {|
  Socket.socket_write := socket_write;
  Socket.socket_read := outcome;
  accept_socket := accepted;
  Socket.close_socket sock := close_socket sock;; mret tt;
  fcntl_getfl := sys_getfl;
  fcntl_setfl := sys_setfl;
  sent := os_sent;
  incoming := os_incoming;
  open_fds := os_open;
|}.
Proof.
  - intros fd buf w n w' E. by apply write_law in E as (? & _).
  - intros fd buf w n w' E. by apply write_law in E as (_ & ? & _).
  - intros fd buf w n w' fd' E Hne. apply write_law in E as (_ & _ & Ho & _). by apply Ho.
  - intros fd buf w n w' E. by apply write_law in E as (_ & _ & _ & ?).
  - intros fd len w data w'. unfold outcome. destruct (socket_read fd len w) as [[n buf] w1] eqn:E.
    apply read_law in E as (Hn & Hd & _). unfold classify. destruct (Z.leb_spec n 0) as [|Hpos].
    { destruct ((n <? 0)%Z && _); [done|]. by destruct (n =? 0)%Z. }
    intros [= <- <-]. destruct (Hd Hpos) as [Hl Hi]. rewrite <- Hl, firstn_all. split; [lia|done].
  - intros fd len w r w' fd'. unfold outcome. destruct (socket_read fd len w) as [[n buf] w1] eqn:E.
    apply read_law in E as (_ & _ & Hs & _). intros [= <- <-]. by apply Hs.
  - intros fd len w r w'. unfold outcome. destruct (socket_read fd len w) as [[n buf] w1] eqn:E.
    apply read_law in E as (_ & _ & _ & Ho). by intros [= <- <-].
  - intros w r w'. unfold accepted, mbind, state_bind. destruct (sys_accept w) as [fd w1] eqn:E. apply accept_law in E.
    intros [= <- <-]. destruct (is_valid fd) eqn:Ev; [|done]. unfold is_valid in Ev. split; [lia|done].
  - intros fd w r w'. unfold mbind, state_bind. destruct (close_socket fd w) as [x w1] eqn:E. apply close_law in E.
    by intros [= <- <-].
  - intros fd w r w' E. by eapply getfl_law.
  - intros fd f w r w' E. by eapply setfl_law.
Defined.

(** [select] reports -1, the number of ready descriptors, or 0. *)
Definition selected (nfds : Z) (fds : gset Z) : State OS SelectResult := λ w,
  let '((r, ready), w') := sys_select nfds fds w in
  (if (r <? 0)%Z then SelectError else if (r =? 0)%Z then SelectTimeout else SelectReady ready, w').

#[refine] Instance posix_listen : ListenApi OS := {|
  create_socket := sys_socket;
  set_reuseaddr fd := sys_reuseaddr fd;; mret tt;
  bind_socket fd a p := r ← sys_bind fd a p; mret (negb (r <? 0)%Z);
  listen_socket fd n := r ← sys_listen fd n; mret (negb (r <? 0)%Z);
  select := selected;
  ignore_sigpipe := sys_ignore_sigpipe;
  inet_pton := sys_inet_pton;
|}.
Proof.
  - intros w fd w' E. by apply socket_law in E.
  - intros w r w' E. by apply ignore_law in E as (? & _).
  - intros fd w r w'. unfold mbind, state_bind. destruct (sys_reuseaddr fd w) as [x w1] eqn:E. apply reuse_law in E.
    by intros [= <- <-].
  - intros fd a p w r w'. unfold mbind, state_bind. destruct (sys_bind fd a p w) as [x w1] eqn:E. apply bind_law in E.
    by intros [= <- <-].
  - intros fd a p w Hv. unfold mbind, state_bind. pose proof (bind_bad fd a p w Hv) as Hb.
    destruct (sys_bind fd a p w) as [x w1]. cbn in *. by rewrite (proj2 (Z.ltb_lt _ _)).
  - intros fd n w Hv. unfold mbind, state_bind. pose proof (listen_bad fd n w Hv) as Hb.
    destruct (sys_listen fd n w) as [x w1]. cbn in *. by rewrite (proj2 (Z.ltb_lt _ _)).
  - intros fd n w r w'. unfold mbind, state_bind. destruct (sys_listen fd n w) as [x w1] eqn:E. apply listen_law in E.
    by intros [= <- <-].
  - intros nfds fds w r w'. unfold selected. destruct (sys_select nfds fds w) as [[x ready] w1] eqn:E.
    apply select_law in E as (Ho & Hr & _). intros [= <- <-]. split; [done|].
    destruct (x <? 0)%Z; [done|]. by destruct (x =? 0)%Z.
  - intros nfds fds w fd Hfd Hn Ho. unfold selected. destruct (sys_select nfds fds w) as [[x ready] w1] eqn:E.
    apply select_law in E as (_ & _ & Hc). cbn [fst]. by rewrite (proj2 (Z.ltb_lt _ _)) by (by eapply Hc).
Defined.

(** *** SIGPIPE *)

(** The process runs and ignores SIGPIPE. *)
Definition safe_from_pipe (w : OS) : Prop := alive w = true ∧ pipe_ignored w = true.

Lemma inert_safe {A B} (m : State OS A) (f : A → OS → B) (w : OS) :
  inert alive pipe_ignored m → safe_from_pipe w → safe_from_pipe (snd (let '(a, w') := m w in (f a w', w'))).
Proof. intros Hm [Ha Hp]. destruct (Hm w) as [Ea Ep]. destruct (m w) as [a w']. cbn in *. split; congruence. Qed.

Lemma posix_calls_closed : calls_closed safe_from_pipe.
Proof.
  split; intros; intros w Hw.
  - destruct Hw as [Ha Hp]. destruct (write_survives fd buf w Hp). split; cbn; unfold socket_write; congruence.
  - apply (inert_safe (sys_read fd len) (λ '(n, buf) w', classify n buf (errno w'))) in Hw; [|apply read_inert].
    cbn. unfold outcome, socket_read. by destruct (sys_read fd len w) as [[n buf] w'].
  - by apply (inert_safe sys_accept (λ fd _, if is_valid fd then Some fd else None)), Hw; apply accept_inert.
  - by apply (inert_safe (sys_close fd) (λ _ _, tt)), Hw; apply close_inert.
  - apply (inert_safe (sys_getfl fd) (λ a _, a)) in Hw; [|apply getfl_inert]. cbn. by destruct (sys_getfl fd w).
  - apply (inert_safe (sys_setfl fd f) (λ a _, a)) in Hw; [|apply setfl_inert]. cbn. by destruct (sys_setfl fd f w).
  - apply (inert_safe sys_socket (λ a _, a)) in Hw; [|apply socket_inert]. cbn. by destruct (sys_socket w).
  - by apply (inert_safe (sys_reuseaddr fd) (λ _ _, tt)), Hw; apply reuse_inert.
  - by apply (inert_safe (sys_bind fd a p) (λ r _, negb (r <? 0)%Z)), Hw; apply bind_inert.
  - by apply (inert_safe (sys_listen fd n) (λ r _, negb (r <? 0)%Z)), Hw; apply listen_inert.
  - apply (inert_safe (sys_select n fds) (λ a _, a)) in Hw; [|apply select_inert].
    cbn. unfold selected. by destruct (sys_select n fds w) as [[r ready] w'].
Qed.

Context `{SteadyClock} `{HashOrder} `{Environ}.

(** C27: no client can kill the server through SIGPIPE.  On POSIX, where a write
    to a connection whose peer is gone raises a signal that ends the process
    unless it is ignored, the server process is still running when [main]
    returns, whatever the command line, the files, the operating system, the
    clients (closing their connections at any moment included) and the
    termination signals do. *)
Theorem server_survives_sigpipe peer argv fs n network early script :
  alive network = true →
  alive (w_net (snd (snd (snd (server_main peer argv fs n network early script))))) = true.
Proof.
  intros Ha. apply (server_main_closed safe_from_pipe posix_calls_closed peer argv fs n network early script).
  unfold platform_init, mbind, state_bind. cbn [ignore_sigpipe posix_listen].
  destruct (sys_ignore_sigpipe network) as [[] w] eqn:E. apply ignore_law in E as (_ & Hp & Hal). cbn. split; congruence.
Qed.

End Layer.
End Posix.

(** ** Windows *)

Module Windows.

(** A SOCKET is an unsigned 64-bit integer. *)
Definition INVALID_SOCKET : Z := (2 ^ 64 - 1)%Z.
Definition INVALID_SOCKET_VAL : Z := INVALID_SOCKET.

(** The calls of Winsock; the lengths of recv and send are of type [int]. *)
Class Winsock (OS : Type) := {
  WSAStartup : State OS Z;
  WSACleanup : State OS Z;
  closesocket : Z → State OS Z;
  recv : Z → Z → State OS (Z * bytes);
  send : Z → bytes → Z → State OS Z;
  WSAGetLastError : OS → Z;
  (** The text it puts into a buffer of 256 bytes, none when it fails. *)
  FormatMessageA : Z → bytes;
}.

Section Layer.
Context {OS : Type} `{Winsock OS}.

Definition init : State OS bool := r ← WSAStartup; mret (r =? 0)%Z.
Definition cleanup : State OS unit := WSACleanup;; mret tt.
Definition close_socket (sock : Z) : State OS Z := closesocket sock.
Definition socket_read (sock : Z) (len : nat) : State OS (Z * bytes) := recv sock (to_int32 (Z.of_nat len)).
Definition socket_write (sock : Z) (buf : bytes) : State OS Z := send sock buf (to_int32 (Z.of_nat (length buf))).
Definition is_valid (sock : Z) : bool := negb (sock =? INVALID_SOCKET)%Z.
Definition last_error (w : OS) : bytes := FormatMessageA (WSAGetLastError w).

(** Buffers below 2^31 bytes are passed with their length. *)
Lemma lengths_passed sock len buf :
  (Z.of_nat len ≤ INT_MAX)%Z → (Z.of_nat (length buf) ≤ INT_MAX)%Z →
  socket_read sock len = recv sock (Z.of_nat len) ∧ socket_write sock buf = send sock buf (Z.of_nat (length buf)).
Proof. intros Hl Hb. unfold socket_read, socket_write. rewrite !to_int32_id by (unfold INT_MIN; lia). done. Qed.

(** A longer one is passed with a negative length, although the function takes
    a [size_t]. *)
Theorem long_write_negative sock buf :
  (2 ^ 31 ≤ Z.of_nat (length buf) < 2 ^ 32)%Z →
  ∃ len, (len < 0)%Z ∧ socket_write sock buf = send sock buf len.
Proof.
  intros Hb. eexists. split; [|reflexivity]. unfold to_int32.
  rewrite <- (Z.mod_unique_pos _ _ 1 (Z.of_nat (length buf) + 2 ^ 31 - 2 ^ 32)); lia.
Qed.

End Layer.
End Windows.

(** ** Instances *)

Module DemoOs.
Import Posix.

(** A process over the demonstration network: a write to a broken connection
    raises SIGPIPE. *)
Record Process := mkProcess { p_net : DemoNet; p_errno : Z; p_ignored : bool; p_alive : bool }.

Definition EPIPE : Z := 32%Z.
Definition with_p_net (n : DemoNet) (p : Process) : Process := mkProcess n (p_errno p) (p_ignored p) (p_alive p).
Definition on_p_net {A} (m : State DemoNet A) : State Process A := λ p, let '(a, n) := m (p_net p) in (a, with_p_net n p).

Definition demo_sys_write (fd : Z) (buf : bytes) : State Process Z := λ p,
  if bool_decide (fd ∈ net_broken (p_net p)) then ((-1)%Z, mkProcess (p_net p) EPIPE (p_ignored p) (p_alive p && p_ignored p))
  else on_p_net (demo_write fd buf) p.

Definition demo_sys_read (fd : Z) (len : nat) : State Process (Z * bytes) := λ p,
  match on_p_net (demo_read fd len) p with
  | (ReadData data, p') => ((Z.of_nat (length data), data), p')
  | (_, p') => ((0%Z, []), p')
  end.

Definition demo_sys_accept : State Process Z := λ p,
  let fd := demo_fresh (net_open (p_net p)) in
  (fd, with_p_net (mkNet (net_sent (p_net p)) (net_in (p_net p)) ({[fd]} ∪ net_open (p_net p)) (net_broken (p_net p))) p).

Definition demo_sys_close (fd : Z) : State Process Z := λ p,
  let n := p_net p in (0%Z, with_p_net (mkNet (net_sent n) (net_in n) (net_open n ∖ {[fd]}) (net_broken n)) p).

Definition demo_sys_select (nfds : Z) (fds : gset Z) : State Process (Z * gset Z) := λ p,
  let asked := filter (λ fd, (fd < nfds)%Z) fds in
  if bool_decide (asked ⊆ net_open (p_net p)) then ((Z.of_nat (size asked), asked), p) else (((-1)%Z, ∅), p).

#[refine] Instance demo_posix : Posix Process := {|
  sys_read := demo_sys_read; sys_write := demo_sys_write; sys_close := demo_sys_close; sys_accept := demo_sys_accept;
  sys_getfl _ := mret 2%Z; sys_setfl _ _ := mret 0%Z; sys_socket := demo_sys_accept; sys_reuseaddr _ := mret 0%Z;
  sys_bind fd _ _ := mret (if is_valid fd then 0%Z else (-1)%Z); sys_listen fd _ := mret (if is_valid fd then 0%Z else (-1)%Z); sys_select := demo_sys_select;
  sys_ignore_sigpipe := λ p, (tt, mkProcess (p_net p) (p_errno p) true (p_alive p));
  sys_inet_pton _ := None; errno := p_errno; strerror _ := [];
  os_sent p fd := default [] (net_sent (p_net p) !! fd); os_incoming p fd := default [] (net_in (p_net p) !! fd);
  os_open p := net_open (p_net p); pipe_ignored := p_ignored; alive := p_alive;
|}.
Proof.
  - intros fd len p n buf p'. unfold demo_sys_read, on_p_net, demo_read.
    destruct (take len (default [] (net_in (p_net p) !! fd))) as [|c data] eqn:E.
    { intros [= <- <- <-]. split_and!; [lia|lia|done|done]. }
    intros [= <- <- <-]. cbn [p_net with_p_net net_in net_sent net_open]. rewrite lookup_insert_eq. cbn [default].
    assert (length (c :: data) ≤ len) by (rewrite <- E, length_take; lia). split_and!; [cbn [length] in *; lia| |done|done].
    intros _. split; [by rewrite Nat2Z.id|]. rewrite <- E. symmetry. apply take_drop.
  - intros fd buf p n p'. unfold demo_sys_write, on_p_net, demo_write. case_bool_decide as Hb.
    + intros [= <- <-]. cbn. split_and!; [lia|by rewrite app_nil_r|done|done].
    + intros [= <- <-]. cbn [p_net with_p_net net_sent net_open]. rewrite lookup_insert_eq, Nat2Z.id.
      split_and!; [rewrite length_take; lia| | |done].
      { rewrite length_take. destruct (Nat.min_spec 16 (length buf)) as [[_ ->]|[Hl ->]]; [done|]. by rewrite firstn_all, take_ge. }
      intros fd' Hne. by rewrite lookup_insert_ne.
  - by intros fd p r p' [= <- <-].
  - intros p fd p' [= <- <-]. destruct (demo_fresh_spec (net_open (p_net p))) as [Hf Hn].
    unfold is_valid. by rewrite (proj2 (Z.leb_le _ _)).
  - intros p fd p' [= <- <-]. destruct (demo_fresh_spec (net_open (p_net p))) as [Hf Hn].
    unfold is_valid. by rewrite (proj2 (Z.leb_le _ _)).
  - by intros fd p r p' [= <- <-].
  - by intros fd f p r p' [= <- <-].
  - by intros fd p r p' [= <- <-].
  - by intros fd a q p r p' [= <- <-].
  - by intros fd n p r p' [= <- <-].
  - intros fd a q p Hv. cbn. by rewrite Hv.
  - intros fd n p Hv. cbn. by rewrite Hv.
  - intros nfds fds p r ready p'. unfold demo_sys_select. case_bool_decide as Hb; intros [= <- <- <-].
    + split_and!; [done|intros fd; rewrite elem_of_filter; tauto|]. intros fd Hfd Hn Ho. set_solver.
    + split_and!; [done|set_solver|lia].
  - by intros p r p' [= <- <-].
  - intros fd buf p Hp. unfold demo_sys_write, on_p_net. case_bool_decide; cbn; [by rewrite Hp, andb_true_r|].
    by destruct (demo_write fd buf (p_net p)).
  - intros fd len p. unfold demo_sys_read, on_p_net. by destruct (demo_read fd len (p_net p)) as [[] n].
  - by intros fd p.
  - by intros p.
  - by intros p.
  - by intros fd p.
  - by intros fd f p.
  - by intros fd p.
  - by intros fd a q p.
  - by intros fd n p.
  - intros nfds fds p. unfold demo_sys_select. by case_bool_decide.
Defined.

Definition demo_process : Process := mkProcess (mkNet ∅ {[ 4%Z := $"PING" ++ CRLF ]} {[ 0%Z; 1%Z; 2%Z ]} {[ 4%Z ]}) 0 false true.

(** A client that is gone when its reply is written: the server goes on. *)
Lemma server_survives_sigpipe_witness :
  p_alive (w_net (snd (snd (snd (@server_main Process _ posix_listen demo_clock gmap_order demo_env demo_peer_addr
    [] ∅ 0 demo_process NoEarly [NoSignal; NoSignal; InRound]))))) = true.
Proof.
  apply (@server_survives_sigpipe Process demo_posix demo_clock gmap_order demo_env demo_peer_addr
    [] ∅ 0 demo_process NoEarly [NoSignal; NoSignal; InRound]). reflexivity.
Defined.

(** Without [platform::init] the same reply ends the process. *)
Theorem sigpipe_would_kill :
  p_alive (snd (@send_response Process posix_sockets 4 ($"+PONG" ++ CRLF) demo_process)) = false ∧
  p_alive (snd (@send_response Process posix_sockets 4 ($"+PONG" ++ CRLF) (snd (init demo_process)))) = true.
Proof. split; vm_compute; reflexivity. Qed.

End DemoOs.
