(* ===== verification/ClientMain.v ===== *)
(** * The client program (client/main.cpp, Client::connect)

    The terminal is a [Console]: what is still to be read from standard input
    and what has been written to the two outputs.  The program connects, then
    reads lines, sends each to the server and prints the reply, until the end
    of the input, QUIT, or a lost connection.  Every iteration consumes at
    least one character of the input, so fuel [size + 1] is enough
    ([repl_enough]).  When the server has not answered after [reads] reads for
    a line, the program is still waiting: the loop is not left ([false]), and
    [main] has no exit status ([None]). *)

From S2P Require Import Prelude CppString Parser Resp RespFacts Frames Socket Protocol CommandHandler.
From S2P Require Import Client ClientClaims EventLoop Config Main.

(** ** Code *)

(** connect(2), and the text of errno. *)
Class ConnectApi (Net : Type) `{ListenApi Net} := {
  connect_socket : Z → Z → Z → State Net bool;
  last_error : Net → bytes;
  connect_open : ∀ fd a p w r w', connect_socket fd a p w = (r, w') → open_fds w' = open_fds w;
}.

Record Console := mkConsole { stdin : bytes; stdout : bytes; stderr : bytes }.

(** [std::getline(std::cin, line)] on what is left of the input. *)
Definition read_line (s : bytes) : option (bytes * bytes) :=
  match s with
  | [] => None
  | _ => match find_char LF s with
         | Some i => Some (take i s, drop (S i) s)
         | None => Some (s, [])
         end
  end.

Definition BLANKS : bytes := [" "%char; TAB].

(** The upper-cased line without blanks at either end. *)
Definition trim_upper (line : bytes) : bytes :=
  let upper_line := to_upper line in
  let upper_line := match find_first_not_of BLANKS upper_line with Some i => drop i upper_line | None => upper_line end in
  match find_last_not_of BLANKS upper_line with Some e => take (e + 1) upper_line | None => upper_line end.

Definition endl : bytes := [LF].
Definition prompt : bytes := $"myredis> ".

(** [Client::Client]. *)
Definition new_client : Client := mkCli INVALID_SOCKET_VAL [].

Section Program.
Context {Net : Type} `{ConnectApi Net}.
Context (reads : nat).

Definition ProgM (A : Type) : Type := State (Console * (Client * Net)) A.

Definition console : ProgM Console := λ '(t, st), (t, (t, st)).
Definition set_stdin (s : bytes) : ProgM unit := λ '(t, st), (tt, (mkConsole s (stdout t) (stderr t), st)).
Definition print (s : bytes) : ProgM unit := λ '(t, st), (tt, (mkConsole (stdin t) (stdout t ++ s) (stderr t), st)).
Definition print_err (s : bytes) : ProgM unit := λ '(t, st), (tt, (mkConsole (stdin t) (stdout t) (stderr t ++ s), st)).
Definition lift_cli {A} (m : CliM (Net := Net) A) : ProgM A := λ '(t, st), let '(a, st') := m st in (a, (t, st')).
Definition errno_text : ProgM bytes := λ '(t, (c, w)), (last_error w, (t, (c, w))).

(** [fd_ = fd]. *)
Definition set_fd (fd : Z) : ProgM unit := lift_cli (c ← cli; set_cli (mkCli fd (read_buffer_ c))).

(** The failure paths of [Client::connect] after the socket was created. *)
Definition abandon (fd : Z) (message : bytes) : ProgM bool :=
  print_err (message ++ endl);;
  lift_cli (cli_net (close_socket fd));;
  set_fd INVALID_SOCKET_VAL;;
  mret false.

Definition connect (host : bytes) (port : Z) : ProgM bool :=
  fd ← lift_cli (cli_net create_socket);
  set_fd fd;;
  if negb (is_valid fd) then
    e ← errno_text;
    print_err ($"Error: Failed to create socket: " ++ e ++ endl);;
    mret false
  else
    match inet_pton host with
    | None => abandon fd ($"Error: Invalid address: " ++ host)
    | Some addr =>
        ok ← lift_cli (cli_net (connect_socket fd addr (to_uint16 port)));
        if negb ok then
          e ← errno_text;
          abandon fd ($"Error: Connection failed: " ++ e)
        else lift_cli (set_cli (mkCli fd []));; mret true
    end.

Definition is_connected : CliM (Net := Net) bool := c ← cli; mret (is_valid (fd_ c)).

(** The read-eval-print loop; [true] when it is left. *)
Fixpoint repl (fuel : nat) : ProgM bool :=
  match fuel with
  | O => mret false
  | S f =>
      print prompt;;
      t ← console;
      match read_line (stdin t) with
      | None => print endl;; mret true
      | Some (line, rest) =>
          set_stdin rest;;
          if bytes_eqb line [] then repl f
          else if forallb isspace line then repl f
          else
            response ← lift_cli (send_command reads line);
            match response with
            | None => mret false
            | Some response =>
                print (response ++ endl);;
                if bytes_eqb (trim_upper line) $"QUIT" then mret true
                else
                  ok ← lift_cli is_connected;
                  if negb ok then print_err ($"Disconnected from server." ++ endl);; mret true else repl f
            end
      end
  end.

Definition default_host : bytes := $"127.0.0.1".
Definition default_port : Z := 6399%Z.

(** [main] on the arguments after the program name: the exit status, or [None]
    while it waits for the server.  The last [disconnect] of each path is the
    destructor of [client]. *)
Definition client_main (argv : list bytes) : ProgM (option Z) :=
  ready ← lift_cli (cli_net platform_init);
  if negb ready then print_err ($"ERROR: Failed to initialize networking." ++ endl);; mret (Some 1%Z)
  else
    let host := default default_host (argv !! 0) in
    let port := match argv !! 1 with Some a => atoi a | None => default_port end in
    let address := host ++ $":" ++ to_string port in
    lift_cli (set_cli new_client);;
    print ($"Connecting to " ++ address ++ $"..." ++ endl);;
    ok ← connect host port;
    if negb ok then
      print_err ($"Could not connect to myredis at " ++ address ++ endl);;
      print_err ($"Is the server running?" ++ endl);;
      lift_cli disconnect;;
      mret (Some 1%Z)
    else
      print ($"Connected to myredis at " ++ address ++ endl);;
      print ($"Type commands (QUIT to exit)." ++ endl);;
      print endl;;
      t ← console;
      ended ← repl (S (length (stdin t)));
      if negb ended then mret None
      else
        lift_cli disconnect;;
        print ($"Goodbye!" ++ endl);;
        lift_cli disconnect;;
        mret (Some 0%Z).

End Program.

(** ** Lemmas *)

Lemma read_line_shorter s line rest : read_line s = Some (line, rest) → length rest < length s.
Proof.
  unfold read_line. destruct s as [|c s]; [done|]. destruct (find_char LF (c :: s)) as [i|].
  - intros [= <- <-]. rewrite length_drop. simpl. lia.
  - intros [= <- <-]. simpl. lia.
Qed.

Lemma read_line_app l s : Forall (λ c, c ≠ LF) l → read_line (l ++ LF :: s) = Some (l, s).
Proof.
  intros Hl. assert (find_char LF (l ++ LF :: s) = Some (length l)) as E.
  { unfold find_char. rewrite find_idx_app; [done| |done]. eapply Forall_impl; [exact Hl|].
    intros c Hc. apply Ascii.eqb_neq. congruence. }
  unfold read_line. rewrite E, take_app_length, drop_app_ge, Nat.sub_succ_l, Nat.sub_diag by lia.
  by destruct l.
Qed.

Section Facts.
Context {Net : Type} `{ConnectApi Net}.
Context (reads : nat).
Implicit Types (t : Console) (c : Client) (w : Net).

(** The loop ends by itself: more fuel changes nothing. *)
Lemma repl_enough f f' t c w :
  length (stdin t) < f → length (stdin t) < f' → repl reads f (t, (c, w)) = repl reads f' (t, (c, w)).
Proof.
  revert f' t c w. induction f as [|f IH]; intros f' t c w Hf Hf'; [lia|]. destruct f' as [|f']; [lia|].
  cbn [repl]. unfold print, console, set_stdin, lift_cli, mbind, state_bind. cbn beta iota zeta. cbn [stdin stdout stderr].
  destruct (read_line (stdin t)) as [[line rest]|] eqn:E; [|done]. apply read_line_shorter in E.
  destruct (bytes_eqb line []); [apply IH; cbn [stdin]; lia|].
  destruct (forallb isspace line); [apply IH; cbn [stdin]; lia|].
  destruct (send_command reads line (c, w)) as [[r|] [c1 w1]]; [|done]. case_match; [done|].
  destruct (is_connected (c1, w1)) as [ok [c2 w2]]. destruct ok; cbn [negb]; [|done]. apply IH; cbn [stdin]; lia.
Qed.

(** *** The descriptor of the client *)

(** Besides [base] only the client's own descriptor is open. *)
Definition holds (base : gset Z) (st : Client * Net) : Prop :=
  if is_valid (fd_ (fst st)) then (fd_ (fst st) ∉ base) ∧ open_fds (snd st) = {[fd_ (fst st)]} ∪ base
  else open_fds (snd st) = base.

Lemma holds_open base c c' w w' :
  fd_ c' = fd_ c → open_fds w' = open_fds w → holds base (c, w) → holds base (c', w').
Proof. unfold holds. cbn [fst snd]. by intros -> ->. Qed.

Lemma disconnect_holds base st :
  holds base st → holds base (snd (disconnect st)) ∧ is_valid (fd_ (fst (snd (disconnect st)))) = false.
Proof.
  destruct st as [c w]. unfold holds, disconnect, cli, set_cli, cli_net, mbind, state_bind. cbn beta iota zeta.
  cbn [fst snd]. destruct (is_valid (fd_ c)) eqn:E; cbn beta iota zeta.
  - intros [Hn Ho]. destruct (close_socket (fd_ c) w) as [[] w'] eqn:Ec. apply close_open in Ec.
    cbn [fst snd fd_]. change (is_valid INVALID_SOCKET_VAL) with false. split; [|done]. cbn iota.
    rewrite Ec, Ho. set_solver.
  - cbn [fst snd mret state_ret fd_]. by rewrite E.
Qed.

Lemma read_response_holds base n st : holds base st → holds base (snd (read_resp_response n st)).
Proof.
  revert st. induction n as [|n IH]; intros [c w] Hst; cbn [read_resp_response]; unfold cli, set_cli, cli_net, mbind, state_bind;
    cbn beta iota zeta; (destruct (parse_resp_value _) as [[t m]|]; [by eapply holds_open|]); [done|].
  destruct (socket_read (fd_ c) 4096 w) as [r w'] eqn:Er. apply read_open in Er.
  destruct r; try by eapply holds_open. by apply IH, (holds_open _ c _ w).
Qed.

(** Reads return at least one byte each, so a loop that waits has received as
    many bytes as it made reads, and they are no whole value. *)
Lemma read_response_waits n c w :
  let '(r, (c', w')) := read_resp_response n (c, w) in
  r = Waiting → fd_ c' = fd_ c ∧ length (read_buffer_ c) + n ≤ length (read_buffer_ c') ∧ parse_resp_value (read_buffer_ c') = None.
Proof.
  revert c w. induction n as [|n IH]; intros c w; cbn [read_resp_response]; unfold cli, set_cli, cli_net, mbind, state_bind;
    cbn beta iota zeta; (destruct (parse_resp_value (read_buffer_ c)) as [[t m]|] eqn:Ep; [done|]);
    [intros _; split_and!; [done|lia|done]|].
  destruct (socket_read (fd_ c) 4096 w) as [r w'] eqn:Er. destruct r as [data| | |]; try done. apply read_data in Er as [Hl _].
  specialize (IH (mkCli (fd_ c) (read_buffer_ c ++ data)) w'). destruct (read_resp_response n _) as [r [c' w'']].
  intros Hr. destruct (IH Hr) as (Hf & Hn & Hp). cbn [fd_ read_buffer_] in *. rewrite length_app in Hn. split_and!; [done|lia|done].
Qed.

(** A client that waits for the server, on an open connection. *)
Definition waits (st : Client * Net) : Prop :=
  is_valid (fd_ (fst st)) = true ∧ reads ≤ length (read_buffer_ (fst st)) ∧ parse_resp_value (read_buffer_ (fst st)) = None.

Lemma send_command_holds base l st :
  holds base st →
  let '(r, st') := send_command reads l st in holds base st' ∧ (r = None → waits st').
Proof.
  destruct st as [c w]. intros Hst. unfold send_command, cli, cli_net, mbind, state_bind. cbn beta iota zeta.
  destruct (is_valid (fd_ c)) eqn:Ev; cbn [negb]; [|done].
  destruct (write_exact (fd_ c) (l ++ CRLF) w) as [ok w1] eqn:Ew. apply write_loop_frame in Ew as [_ Ho].
  assert (holds base (c, w1)) as Hh by (by eapply holds_open). destruct ok; cbn [negb].
  - apply (read_response_holds base reads) in Hh. pose proof (read_response_waits reads c w1) as Hw.
    destruct (read_resp_response reads (c, w1)) as [[r| |] [c2 w2]]; [done| |].
    + cbn [snd] in Hh. apply disconnect_holds in Hh as [Hh _]. by destruct (disconnect (c2, w2)).
    + split; [done|]. intros _. destruct (Hw eq_refl) as (Hf & Hn & Hp). split_and!; cbn [fst]; [by rewrite Hf|lia|done].
  - apply disconnect_holds in Hh as [Hh _]. by destruct (disconnect (c, w1)).
Qed.

Lemma repl_holds base f t st :
  holds base st → length (stdin t) < f →
  let '(ended, (_, st')) := repl reads f (t, st) in holds base st' ∧ (ended = false → waits st').
Proof.
  revert t st. induction f as [|f IH]; intros t st Hst Hf; cbn [repl]; [lia|].
  unfold print, print_err, console, set_stdin, lift_cli, mbind, state_bind. cbn beta iota zeta. cbn [stdin stdout stderr].
  destruct (read_line (stdin t)) as [[line rest]|] eqn:E; [|done]. apply read_line_shorter in E.
  destruct (bytes_eqb line []); [apply IH; [done|cbn [stdin]; lia]|].
  destruct (forallb isspace line); [apply IH; [done|cbn [stdin]; lia]|].
  apply (send_command_holds base line) in Hst. destruct (send_command reads line st) as [[r|] [c1 w1]];
    destruct Hst as [Hst Hw]; [|by split; [|intros _; apply Hw]].
  destruct (bytes_eqb (trim_upper line) _); [done|]. unfold is_connected, cli, mbind, state_bind. cbn beta iota zeta.
  cbn [mret state_ret]. destruct (is_valid (fd_ c1)); cbn [negb]; [apply IH; [done|cbn [stdin]; lia]|done].
Qed.

(** [Client::connect] keeps a descriptor exactly when it succeeds. *)
Lemma connect_holds host port t c w :
  let '(ok, (_, st)) := connect host port (t, (c, w)) in
  holds (open_fds w) st ∧ is_valid (fd_ (fst st)) = ok.
Proof.
  unfold connect, abandon, set_fd, errno_text, lift_cli, cli_net, cli, set_cli, print_err, mbind, state_bind.
  cbn beta iota zeta. destruct (create_socket w) as [fd w1] eqn:Ec. apply create_open in Ec.
  destruct (is_valid fd) eqn:Ev; cbn [negb]; [|unfold holds; cbn; by rewrite Ev].
  destruct Ec as [Hn Ho].
  assert (∀ b w2 w3, open_fds w2 = open_fds w1 → close_socket fd w2 = (b, w3) → open_fds w3 = open_fds w) as Hclose.
  { intros b w2 w3 E Ecl%close_open. rewrite Ecl, E, Ho. set_solver. }
  destruct (inet_pton host) as [addr|].
  - destruct (connect_socket fd addr (to_uint16 port) w1) as [ok w2] eqn:Ek. apply connect_open in Ek.
    destruct ok; cbn [negb].
    + unfold holds. cbn. rewrite Ev. split; [|done]. split; [done|congruence].
    + cbn beta iota zeta. destruct (close_socket fd w2) as [[] w3] eqn:Ecl. split; [|done]. by eapply Hclose.
  - destruct (close_socket fd w1) as [[] w3] eqn:Ecl. split; [|done]. by eapply Hclose.
Qed.

(** C29: the client program leaves nothing behind.  Whatever the user types and
    however the network behaves, one of two things is the case.  The program
    has ended, with exit status 1 if it could not connect and 0 otherwise, and
    every descriptor it opened is closed: after an invalid address, a refused
    connection, a failed read or write, QUIT or the end of input.  Or it is
    waiting for the server: all of the reads for one command have returned data
    (each at least a byte, all of it still in the buffer) that is not a whole
    reply, and of the descriptors it opened exactly its connection is open. *)
Theorem client_main_closes argv t c w :
  let host := default default_host (argv !! 0) in
  let port := match argv !! 1 with Some a => atoi a | None => default_port end in
  let hello := $"Connecting to " ++ (host ++ $":" ++ to_string port) ++ $"..." ++ endl in
  let connected :=
    fst (connect host port (mkConsole (stdin t) (stdout t ++ hello) (stderr t), (new_client, snd (platform_init w)))) in
  let '(code, (_, (c', w'))) := client_main reads argv (t, (c, w)) in
  match code with
  | Some n => n = (if connected then 0%Z else 1%Z) ∧ open_fds w' = open_fds w
  | None => connected = true ∧ is_valid (fd_ c') = true ∧ (fd_ c' ∉ open_fds w) ∧ open_fds w' = {[fd_ c']} ∪ open_fds w ∧
      reads ≤ length (read_buffer_ c') ∧ parse_resp_value (read_buffer_ c') = None
  end.
Proof.
  intros host port hello. unfold client_main. unfold mbind at 1, state_bind at 1, lift_cli at 1, cli_net at 1.
  destruct (platform_init_run w) as [Hi Ho]. destruct (platform_init w) as [ready w0]. cbn [fst snd] in *. subst ready.
  cbn [negb]. rewrite <- Ho. clear w Ho. rename w0 into w. fold host port. cbv zeta.
  assert (∀ st, holds (open_fds w) st → open_fds (snd (snd (disconnect st))) = open_fds w) as Hd.
  { intros st [Hh Hv]%disconnect_holds. unfold holds in Hh. by rewrite Hv in Hh. }
  unfold lift_cli, print, print_err, console, set_cli, mbind, state_bind. cbn beta iota zeta. cbn [stdin stdout stderr].
  fold hello. pose proof (connect_holds host port (mkConsole (stdin t) (stdout t ++ hello) (stderr t)) new_client w) as Hc.
  destruct (connect host port _) as [ok [t1 st1]]. destruct Hc as [Hh Hok]. cbn [fst].
  destruct ok; cbn [negb]; cbn beta iota zeta; cbn [stdin stdout stderr].
  - set (t2 := mkConsole _ _ _). apply (repl_holds (open_fds w) (S (length (stdin t1))) t2) in Hh; [|subst t2; cbn [stdin]; lia].
    destruct (repl reads _ (t2, st1)) as [ended [t3 st3]]. destruct Hh as [Hh Hw]. destruct ended; cbn [negb].
    + apply disconnect_holds in Hh as [Hh _]. destruct (disconnect st3) as [[] st4]. cbn [snd] in Hh. specialize (Hd st4 Hh).
      by destruct (disconnect st4) as [[] [c5 w5]].
    + destruct (Hw eq_refl) as (Hv & Hn & Hp). destruct st3 as [c3 w3]. unfold holds in Hh. cbn [fst snd] in *.
      rewrite Hv in Hh. cbn [mret state_ret]. destruct Hh. by split_and!.
  - specialize (Hd st1 Hh). by destruct (disconnect st1) as [[] [c5 w5]].
Qed.

End Facts.
