(* ===== verification/Session.v ===== *)
(** * A session at the terminal

    What the user of the client program sees, line by line, over any network
    and with any peer: [Linked] is what is expected of a connection that holds
    (bytes are taken, delivered in order and answered), [Answers] what is
    expected of the peer (one RESP2 value per line).  EndToEnd.v shows that the
    server of this repository answers so. *)

From S2P Require Import Prelude CppString Parser Resp RespFacts Frames Socket Protocol CommandHandler.
From S2P Require Import Client ClientClaims EventLoop Main ClientMain.

(** ** The expected dialogue *)

Definition quits (l : bytes) : bool := bytes_eqb (trim_upper l) $"QUIT".

(** The lines that are sent: those that are not blank, up to QUIT. *)
Fixpoint asked (lines : list bytes) : list bytes :=
  match lines with
  | [] => []
  | l :: ls => if forallb isspace l then asked ls else l :: (if quits l then [] else asked ls)
  end.

(** What appears on the screen when the replies read [texts]. *)
Fixpoint dialogue (lines texts : list bytes) : bytes :=
  match lines with
  | [] => prompt ++ endl
  | l :: ls =>
      prompt ++
      if forallb isspace l then dialogue ls texts
      else match texts with
           | [] => []
           | t :: ts => t ++ endl ++ (if quits l then [] else dialogue ls ts)
           end
  end.

(** The text of one reply. *)
Definition shown (reply : bytes) : bytes :=
  match parse_resp_value reply with Some (text, _) => text | None => [] end.

(** The user's input. *)
Definition typed (lines : list bytes) : bytes := concat (map (λ l, l ++ endl) lines).

(** ** Connections and peers *)

(** A network with processes at the other ends of its connections: the state of
    the process, and the relation between a line it is sent, its reply and its
    next state.  While a connection is [online] it takes bytes, hands over the
    bytes that have arrived, and remains so; a line that was written completely
    is exchanged for a reply. *)
Class Linked (Net : Type) `{SocketApi Net} (P : Type) := {
  peer : Net → Z → P;
  online : Net → Z → Prop;
  exchange : P → bytes → bytes → P → Prop;
  online_willing : ∀ fd, willing (λ w, online w fd) fd;
  online_readable : ∀ fd p, readable (λ w, online w fd ∧ peer w fd = p) fd;
  line_exchanged : ∀ fd l w w', online w fd → write_exact fd (l ++ CRLF) w = (true, w') →
    ∃ reply, exchange (peer w fd) l reply (peer w' fd) ∧ incoming w' fd = incoming w fd ++ reply;
}.

(** A peer that answers: in the states it is meant for, a line that it accepts
    is answered with one value. *)
Class Answers (Net : Type) `{Linked Net P} := {
  good : P → Prop;
  accepts : bytes → Prop;
  exchange_value : ∀ p l r p', good p → accepts l → exchange p l r p' → ∃ f, r = encode f ∧ frame_ok f = true;
  exchange_good : ∀ p l r p', good p → accepts l → exchange p l r p' → quits l = false → good p';
}.

(** Lines one after the other. *)
Inductive exchanges `{Linked Net P} : P → list bytes → list bytes → P → Prop :=
  | exchanges_nil p : exchanges p [] [] p
  | exchanges_cons p l r p1 ls rs p2 :
      exchange p l r p1 → exchanges p1 ls rs p2 → exchanges p (l :: ls) (r :: rs) p2.

(** The replies to the first lines, however many, have sizes within [int] and
    the number of reads. *)
Definition replies_fit `{Linked Net P} (reads : nat) (p : P) (ls : list bytes) : Prop :=
  ∀ k rs p', exchanges p (take k ls) rs p' → Forall (λ r, length r ≤ reads ∧ (Z.of_nat (length r) ≤ INT_MAX)%Z) rs.

(** ** Lemmas *)

(** A value whose encoding fits an [int] has lengths that do. *)
Lemma encode_fits f : (Z.of_nat (length (encode f)) ≤ INT_MAX)%Z → frame_fits f = true.
Proof.
  induction f as [s|s|z|s| |l IH] using Frame_nested_ind; intros Hf; try done.
  - change (encode (FBulk s)) with (bulk_string s) in Hf. cbn [frame_fits]. unfold bulk_string in Hf.
    rewrite !length_app in Hf. apply Z.leb_le. lia.
  - cbn [frame_fits]. apply andb_true_iff. split.
    + assert (length l ≤ length (encode (FArray l))); [|apply Z.leb_le; lia].
      change (encode (FArray l)) with (array (map encode l)). unfold array.
      rewrite !length_app. assert (length l ≤ length (concat (map encode l))); [|lia].
      clear. induction l as [|f l IHl]; [done|]. pose proof (encode_pos f). cbn. rewrite length_app. lia.
    + apply forallb_forall. intros f Hin%list_elem_of_In. rewrite Forall_forall in IH. apply IH; [done|].
      pose proof (encode_element f l Hin). lia.
Qed.

Lemma replies_fit_head `{Linked Net P} reads p l ls r p1 :
  replies_fit reads p (l :: ls) → exchange p l r p1 →
  (length r ≤ reads ∧ (Z.of_nat (length r) ≤ INT_MAX)%Z) ∧ replies_fit reads p1 ls.
Proof.
  intros Hf He. split.
  - specialize (Hf 1 [r] p1). cbn [take] in Hf. rewrite take_0 in Hf.
    by destruct (proj1 (Forall_cons _ _ _) (Hf (exchanges_cons _ _ _ _ _ _ _ He (exchanges_nil _)))).
  - intros k rs p' Hx. specialize (Hf (S k) (r :: rs) p' (exchanges_cons _ _ _ _ _ _ _ He Hx)). by apply Forall_cons in Hf as [_ Hf].
Qed.

Section Session.
Context {Net : Type} `{ConnectApi Net} {P : Type} `{!Linked Net P} `{!Answers Net}.
Context (reads : nat).
Implicit Types (w : Net) (l : bytes) (fd : Z).

(** One command: its reply is shown, and the client is in step again. *)
Lemma send_command_exchange fd l b w :
  is_valid fd = true → online w fd → good (peer w fd) → accepts l → b ++ incoming w fd = [] →
  (∀ r p', exchange (peer w fd) l r p' → length r ≤ reads ∧ (Z.of_nat (length r) ≤ INT_MAX)%Z) →
  ∃ r b' w', send_command reads l (mkCli fd b, w) = (Some (shown r), (mkCli fd b', w')) ∧
    exchange (peer w fd) l r (peer w' fd) ∧ b' ++ incoming w' fd = [] ∧ online w' fd.
Proof.
  intros Hv Hon Hg Ha Hb Hfit. unfold send_command, cli, cli_net, mbind, state_bind. cbn beta iota zeta. cbn [fd_].
  rewrite Hv. cbn [negb].
  destruct (send_response_willing _ fd (l ++ CRLF) w (online_willing fd) Hon) as (w1 & E & Hon1 & _).
  unfold send_response in E. rewrite E. cbn [negb]. destruct (line_exchanged _ _ _ _ Hon E) as (r & Hx & Hi).
  destruct (exchange_value _ _ _ _ Hg Ha Hx) as (f & -> & Hok). destruct (Hfit _ _ Hx) as [Hr Hz].
  pose proof (parse_frame f [] Hok (encode_fits f Hz)) as Hparse. rewrite app_nil_r in Hparse.
  apply app_eq_nil in Hb as [-> Hin]. rewrite Hin in Hi. cbn [app] in Hi.
  destruct (read_response_loop _ reads (mkCli fd []) w1 (encode f) _ (online_readable fd (peer w1 fd)) (conj Hon1 eq_refl) Hparse [])
    as (b' & w' & Er & Hrest & Hon2 & Hp2); [cbn [app fd_ read_buffer_]; by rewrite app_nil_r|simpl; lia|].
  rewrite Er. cbn [fd_] in *. exists (encode f), b', w'. unfold shown. rewrite Hparse, Hp2. by split_and!.
Qed.

(** The loop follows the dialogue. *)
Lemma repl_session lines fd f t b w :
  is_valid fd = true → Forall (Forall (λ c, c ≠ LF)) lines → Forall accepts (asked lines) → online w fd → good (peer w fd) →
  stdin t = typed lines → b ++ incoming w fd = [] → replies_fit reads (peer w fd) (asked lines) → length (stdin t) < f →
  ∃ rs si b' w', repl reads f (t, (mkCli fd b, w)) =
    (true, (mkConsole si (stdout t ++ dialogue lines (map shown rs)) (stderr t), (mkCli fd b', w'))) ∧
    exchanges (peer w fd) (asked lines) rs (peer w' fd).
Proof.
  intros Hv Hlf. revert f t b w. induction Hlf as [|l ls Hl _ IH]; intros f t b w Ha Hon Hg Hin Hb Hfit Hf;
    (destruct f as [|f]; [lia|]); cbn [repl]; unfold print, console, set_stdin, lift_cli, mbind, state_bind;
    cbn beta iota zeta; cbn [stdin stdout stderr]; rewrite Hin.
  - exists [], [], b, w. cbn. rewrite <- app_assoc. split; [done|constructor].
  - rewrite Hin in Hf. unfold typed in *. cbn [map concat] in *. unfold endl in *. rewrite <- app_assoc in *. cbn [app] in *.
    rewrite read_line_app by done. rewrite length_app in Hf. cbn [length] in Hf.
    cbn [asked dialogue] in *. destruct (forallb isspace l) eqn:Esp.
    + assert (∀ t', stdin t' = concat (map (λ l, l ++ [LF]) ls) → stderr t' = stderr t → stdout t' = stdout t ++ prompt →
        ∃ rs si b' w', repl reads f (t', (mkCli fd b, w)) =
          (true, (mkConsole si (stdout t ++ prompt ++ dialogue ls (map shown rs)) (stderr t), (mkCli fd b', w'))) ∧
          exchanges (peer w fd) (asked ls) rs (peer w' fd)) as Hnext.
      { intros t' Hi1 He1 Ho1. destruct (IH f t' b w Ha Hon Hg Hi1 Hb Hfit ltac:(rewrite Hi1; lia)) as (rs & si & b' & w' & E & Hrest).
        exists rs, si, b', w'. split; [|done]. by rewrite E, Ho1, He1, <- app_assoc. }
      destruct (bytes_eqb l []); by apply Hnext.
    + assert (bytes_eqb l [] = false) as -> by (destruct l; [done|by apply bytes_eqb_neq]).
      apply Forall_cons in Ha as [Hal Ha].
      destruct (send_command_exchange fd l b w Hv Hon Hg Hal Hb) as (r & b1 & w1 & -> & Hx & Hb1 & Hon1).
      { intros r p' Hx. by destruct (replies_fit_head _ _ _ _ _ _ Hfit Hx). }
      destruct (replies_fit_head _ _ _ _ _ _ Hfit Hx) as [_ Hfit1].
      fold (quits l). destruct (quits l) eqn:Eq.
      * eexists [r], _, b1, w1. cbn. rewrite <- !app_assoc. split; [done|]. eapply exchanges_cons; [done|constructor].
      * unfold is_connected, cli, mbind, state_bind. cbn beta iota zeta. cbn [mret state_ret fd_]. rewrite Hv. cbn [negb].
        set (t1 := mkConsole _ _ _).
        destruct (IH f t1 b1 w1 Ha Hon1) as (rs & si & b' & w' & E & Hrest);
          [by eapply exchange_good|done|done|done|subst t1; cbn [stdin]; lia|].
        exists (r :: rs), si, b', w'. rewrite E. subst t1. cbn [stdout stderr stdin map].
        split; [by rewrite <- !app_assoc|by eapply exchanges_cons].
Qed.

(** What the program prints around the dialogue. *)
Definition welcome (host : bytes) (port : Z) : bytes :=
  let address := host ++ $":" ++ to_string port in
  $"Connecting to " ++ address ++ $"..." ++ endl ++ $"Connected to myredis at " ++ address ++ endl ++
  $"Type commands (QUIT to exit)." ++ endl ++ endl.
Definition goodbye : bytes := $"Goodbye!" ++ endl.

(** The console and the network when the program calls [connect]. *)
Definition dialling (host : bytes) (port : Z) (t : Console) (w : Net) : Console * (Client * Net) :=
  (mkConsole (stdin t) (stdout t ++ $"Connecting to " ++ (host ++ $":" ++ to_string port) ++ $"..." ++ endl) (stderr t),
   (new_client, snd (platform_init w))).

Lemma connect_true host port t c w t1 c1 w1 :
  connect host port (t, (c, w)) = (true, (t1, (c1, w1))) → t1 = t ∧ c1 = mkCli (fd_ c1) [].
Proof.
  unfold connect, abandon, set_fd, errno_text, lift_cli, cli_net, cli, set_cli, print_err, mbind, state_bind.
  cbn beta iota zeta. destruct (create_socket w) as [fd w0]. destruct (is_valid fd); cbn [negb]; [|done].
  destruct (inet_pton host) as [addr|].
  - destruct (connect_socket fd addr (to_uint16 port) w0) as [[] w2]; cbn [negb].
    + by intros [= <- <- <-].
    + cbn beta iota zeta. by destruct (close_socket fd w2).
  - by destruct (close_socket fd w0).
Qed.

(** A session from start to end. *)
Lemma session_run argv lines t c w t1 c1 w1 :
  let host := default default_host (argv !! 0) in
  let port := match argv !! 1 with Some a => atoi a | None => default_port end in
  connect host port (dialling host port t w) = (true, (t1, (c1, w1))) →
  online w1 (fd_ c1) → good (peer w1 (fd_ c1)) → incoming w1 (fd_ c1) = [] →
  stdin t = typed lines → Forall (Forall (λ c, c ≠ LF)) lines → Forall accepts (asked lines) →
  replies_fit reads (peer w1 (fd_ c1)) (asked lines) →
  let '(code, (t', (_, w'))) := client_main reads argv (t, (c, w)) in
  ∃ rs p', exchanges (peer w1 (fd_ c1)) (asked lines) rs p' ∧
    stdout t' = stdout t ++ welcome host port ++ dialogue lines (map shown rs) ++ goodbye ∧ stderr t' = stderr t ∧
    open_fds w' = open_fds w ∧ code = Some 0%Z.
Proof.
  intros host port Ec Hon Hg Hi Hin Hlf Ha Hfit. unfold dialling in Ec.
  unfold client_main. unfold mbind at 1, state_bind at 1, lift_cli at 1, cli_net at 1.
  destruct (platform_init_run w) as [Hinit Ho]. destruct (platform_init w) as [ready w0]. cbn [fst snd] in *. subst ready.
  cbn [negb]. fold host port. cbv zeta. unfold lift_cli, print, console, set_cli, mbind, state_bind. cbn beta iota zeta.
  cbn [stdin stdout stderr]. pose proof (connect_holds host port (mkConsole (stdin t)
    (stdout t ++ $"Connecting to " ++ (host ++ $":" ++ to_string port) ++ $"..." ++ endl) (stderr t)) new_client w0) as Hh.
  rewrite Ec in *. destruct Hh as [Hh Hv]. cbn [fst] in Hv. destruct (connect_true _ _ _ _ _ _ _ _ Ec) as [-> Hc1]. cbn [negb].
  cbn beta iota zeta. cbn [stdin stdout stderr]. set (t2 := mkConsole _ _ _).
  destruct (repl_session lines (fd_ c1) (S (length (stdin t))) t2 [] w1) as (rs & si & b' & w' & E & Hx); try done; [subst t2; cbn [stdin]; lia|].
  rewrite <- Hc1 in E. pose proof (repl_holds reads (open_fds w0) (S (length (stdin t))) t2 (c1, w1) Hh) as Hh2.
  rewrite E in Hh2 |- *. cbn [negb]. destruct Hh2 as [Hh2 _]; [subst t2; cbn [stdin]; lia|].
  apply disconnect_holds in Hh2 as [Hh3 Hv3]. destruct (disconnect (mkCli (fd_ c1) b', w')) as [[] [c4 w4]]. cbn [fst snd] in Hh3, Hv3.
  apply disconnect_holds in Hh3 as [Hh4 Hv4]. destruct (disconnect (c4, w4)) as [[] [c5 w5]]. cbn [fst snd] in Hh4, Hv4.
  unfold holds in Hh4. cbn [fst snd] in Hh4. rewrite Hv4 in Hh4. cbn [stdin stdout stderr mret state_ret].
  exists rs, (peer w' (fd_ c1)). subst t2. cbn [stdout stderr]. unfold welcome, goodbye. rewrite <- !app_assoc.
  split_and!; [done|done|done|congruence|done].
Qed.


End Session.
