(* ===== verification/EndToEnd.v ===== *)
(** * The client program and the server, connected

    The server of this repository as the peer of a terminal session, over any
    network: while a client waits at its prompt, the server serves other
    clients and at some point reads the line and processes it ([line_turn]).
    Such a peer answers as the session expects, so the dialogue on the user's
    screen consists of the values that the specification of the commands
    answers with.  At the end, a concrete network that joins the two programs
    shows that the hypotheses can be met. *)

From S2P Require Import Prelude CppString Parser Resp RespFacts Frames Database DatabaseSpec.
From S2P Require Import ExpiryThread Persistence Socket Protocol PubSub PubSubFacts PubSubClaims CommandHandler.
From S2P Require Import CommandFacts CommandClaims CommandSpec Server ServerFacts ServerClaims ReplyClaims.
From S2P Require Import ServerSpec EventLoop.
From S2P Require Import Client ClientClaims Main NetworkFrame ClientMain Session.

(** ** The server and a client at its prompt *)

(** The user's line is this command on the data. *)
Definition types (l : bytes) (cmd : Command) : Prop :=
  length (l ++ CRLF) ≤ READ_SIZE ∧ parse_command (l ++ CRLF) = resp_ok cmd (length (l ++ CRLF)) ∧
  data_command cmd ∧ quits l = false.

Lemma data_plain cmd mng : meaning cmd = Some mng → plain cmd ∧ reply_count cmd = 1.
Proof.
  unfold meaning. cbn [find_meaning data_commands].
  repeat (destruct (bytes_eqb (name cmd) _) eqn:E;
    [apply bytes_eqb_eq in E; intros _; unfold plain, reply_count; rewrite E; split; [|done];
     split; [line_solver|split; intros Hin; exfalso; revert Hin; apply (bool_decide_unpack _); by vm_compute]|clear E]). done.
Qed.

Section Server.
Context {Net : Type} `{SocketApi Net} `{SteadyClock} `{HashOrder} `{Environ}.
Context (conn : Z).
Implicit Types (s : Server) (w : World Net) (p : Server * World Net).

(** The connection [conn] is known, past the gate, not subscribed and has no
    unfinished command; the database and the subscriptions are consistent. *)
Record ready p : Prop := {
  ready_inv : inv (dbs (snd p));
  ready_pubsub : ps_wf (w_pubsub (snd p));
  ready_gate : past_gate conn (fst p);
  ready_client : is_Some (clients_ (fst p) !! conn);
  ready_buffer : read_buffer (client conn (fst p)) = [];
  ready_unsubscribed : in_subscription_mode conn (snd p) = false;
}.

(** The server's part in an exchange: turns of other clients, then the line is
    read in one piece and processed, and the reply is sent. *)
Definition line_turn p (l reply : bytes) (p' : Server * World Net) : Prop :=
  ∃ ts p1 n, turns p ts p1 ∧ Forall (λ t, fst t ≠ conn) ts ∧
    socket_read conn READ_SIZE (w_net (snd p1)) = (ReadData (l ++ CRLF), n) ∧
    process_client conn p1 = (true, p') ∧
    sent (w_net (snd p')) conn = sent (w_net (snd p)) conn ++ reply.

(** *** Turns of others *)

Lemma ready_elsewhere fd s w s' w' fs :
  fd ≠ conn → client_step fd (s, w) (s', w') → effect fd w fs w' → ready (s, w) → ready (s', w').
Proof.
  intros Hne [[_ Hps _ _] Hoth _ Hpw _] [I1 P1 _ _] [Ri Rp Rg Rc Rb Rs]. cbn [fst snd] in *.
  assert (clients_ s' !! conn = clients_ s !! conn) as E by (apply Hoth; congruence).
  assert (client conn s' = client conn s) as Ec by (unfold client; by rewrite E).
  split; cbn [fst snd]; [done|by rewrite P1| |by rewrite E|by rewrite Ec|unfold in_subscription_mode in *; by rewrite P1].
  destruct Rg as [Rg|Rg]; [left; congruence|right; by rewrite Ec].
Qed.

Lemma turns_ready p ts p1 : turns p ts p1 → Forall (λ t, fst t ≠ conn) ts → ready p → ready p1.
Proof.
  induction 1 as [st|n s w ts st2 Hn _ IH|fd css tail s w data n [s1 w1] rest st2 Hg Hs Er Eb Hsd Hin Hd Hr _ IH]; intros Hts Hp; [done| |].
  - apply IH; [done|]. destruct Hp. by split.
  - apply Forall_cons in Hts as [Hne Hts]. cbn [fst] in Hne. apply IH; [done|].
    destruct (process_data _ _ _ _ _ _ _ _ _ (ready_inv _ Hp) Hg Hs Er Eb Hsd Hin Hd Hr) as (fs & _ & He).
    pose proof (process_client_code fd (s, w)) as Hc. rewrite Hr in Hc. by eapply ready_elsewhere.
Qed.

Lemma received_none ts fs : Forall (λ t, fst t ≠ conn) ts → received conn (history ts) fs = [].
Proof.
  intros Hts. unfold received. assert (Forall (λ x : Z * Command, fst x ≠ conn) (history ts)) as Hh.
  { unfold history. induction Hts as [|[fd css] ts Hne _ IH]; [constructor|]. cbn [map concat]. apply Forall_app. split; [|done].
    apply Forall_fmap, Forall_forall. by intros c _. }
  revert fs. induction Hh as [|x l Hx _ IH]; intros [|f fs]; try done. cbn [zip zip_with]. by rewrite filter_cons_False.
Qed.

(** *** The line *)

Lemma process_loop_empty f s w :
  read_buffer (client conn s) = [] → process_loop f conn (s, w) = (true, (s, w)).
Proof.
  intros Hb. destruct f; [done|]. cbn [process_loop]. unfold mbind, state_bind, server. cbn beta iota zeta. by rewrite Hb.
Qed.

(** The line is read and parsed, and the command executed on an empty buffer. *)
Lemma process_line s w l cmd n :
  ready (s, w) → parse_command (l ++ CRLF) = resp_ok cmd (length (l ++ CRLF)) →
  socket_read conn READ_SIZE (w_net w) = (ReadData (l ++ CRLF), n) →
  ∃ s1, ready (s1, with_net n w) ∧
    process_client conn (s, w) =
    (let '(ok, st) := handle_command conn cmd (s1, with_net n w) in
     if ok : bool then process_loop (length (l ++ CRLF)) conn st else (false, st)).
Proof.
  intros [Ri Rp Rg Rc Rb Rs] Hparse Er. cbn [fst snd] in *. set (data := l ++ CRLF) in *.
  exists (with_clients_ (insert conn (set_buffer [] (set_buffer data (client conn s)))) (with_clients_ (insert conn (set_buffer data (client conn s))) s)).
  split.
  - split; cbn [fst snd]; [done|done| | |by rewrite client_insert|done].
    + destruct Rg as [Rg|Rg]; [by left|right]. by rewrite client_insert.
    + cbn. rewrite lookup_insert_eq. eauto.
  - unfold process_client, mbind, state_bind, world, net, server. cbn beta iota zeta. rewrite Er, update_client_run.
    cbn beta iota zeta. rewrite Rb. cbn [app process_loop]. unfold mbind, state_bind, server. cbn beta iota zeta.
    rewrite client_insert. cbn [set_buffer read_buffer]. rewrite Hparse.
    destruct data as [|c d] eqn:Ed; [by destruct l|]. cbn [resp_ok rp_protocol_error rp_need_more rp_ok rp_bytes_consumed rp_command negb].
    rewrite update_client_run, client_insert, drop_all. by destruct (handle_command conn cmd _) as [[] st].
Qed.

Lemma line_served s w l cmd n s' w' :
  ready (s, w) → types l cmd → socket_read conn READ_SIZE (w_net w) = (ReadData (l ++ CRLF), n) →
  process_client conn (s, w) = (true, (s', w')) →
  ready (s', w') ∧
  ∃ f f', answer cmd (absw w) f (absw w') ∧ (clean f → encode f' = encode f) ∧ frame_ok f' = true ∧
    sent (w_net w') conn = sent (w_net w) conn ++ encode f'.
Proof.
  intros Hp (_ & Hparse & [mng Hm] & _) Er. destruct (process_line _ _ _ _ _ Hp Hparse Er) as (s1 & Hp1 & ->).
  destruct (handle_command conn cmd (s1, with_net n w)) as [[] [s2 w2]] eqn:E; [|done].
  destruct (data_plain _ _ Hm) as [Hpl Hone].
  destruct (handle_command_answers _ _ _ _ _ _ (ready_pubsub _ Hp1) (ready_gate _ Hp1) Hpl E) as (fs & Hsent & Hrep).
  specialize (Hrep [] [] w2 (replied_nil _ _)). apply replied_counts, Forall2_cons_1 in Hrep as [[Hlen Hok] _].
  rewrite Hone in Hlen. destruct fs as [|f' [|]]; [done| |done]. cbn [map concat] in Hsent. rewrite app_nil_r in Hsent.
  cbn [forallb] in Hok. rewrite andb_true_r in Hok.
  destruct (handle_data _ _ _ _ _ _ _ Hm (ready_inv _ Hp1) (ready_gate _ Hp1) (ready_unsubscribed _ Hp1) E) as (f & Ha & He).
  pose proof (handle_command_buffer conn cmd s1 (with_net n w)) as Hb. pose proof (handle_command_client conn cmd (s1, with_net n w)) as Hc.
  rewrite E in Hb, Hc. cbn [fst snd] in Hb, Hc. rewrite (ready_buffer _ Hp1 : read_buffer (client conn s1) = []) in Hb. rewrite process_loop_empty by done.
  intros [= <- <-]. assert (∀ x, sent (w_net (with_net n w)) x = sent (w_net w) x) as Hsame by (intros x; by apply (read_sent _ _ _ _ _ x Er)).
  split.
  - split; cbn [fst snd]; [apply He|by rewrite (eff_pubsub _ _ _ _ He); apply Hp|by eapply past_gate_step; [|apply Hp1]|
      by apply (cs_stays _ _ _ Hc), Hp1|done|unfold in_subscription_mode; by rewrite (eff_pubsub _ _ _ _ He); apply Hp].
  - exists f, f'. split_and!; [done| |done|by rewrite Hsent, Hsame].
    intros Hcl. pose proof (eff_sent _ _ _ _ He ltac:(by constructor)) as Hs. rewrite Hsent in Hs. apply app_inv_head in Hs.
    unfold wire in Hs. cbn [map concat] in Hs. by rewrite app_nil_r in Hs.
Qed.

(** An exchange: other clients' commands, then the line's. *)
Lemma line_turn_answer p l cmd r p' :
  ready p → types l cmd → line_turn p l r p' →
  ready p' ∧ ∃ hist fs f f', answers_all (hist.*2 ++ [cmd]) (absw (snd p)) (fs ++ [f]) (absw (snd p')) ∧
    received conn hist fs = [] ∧ Forall (λ x, fst x ≠ conn) hist ∧ length fs = length hist ∧
    r = encode f' ∧ frame_ok f' = true ∧ (clean f → encode f' = encode f).
Proof.
  intros Hp Ht (ts & [s1 w1] & n & Htu & Hts & Er & Epc & Hs). destruct p as [s w], p' as [s' w']. cbn [fst snd] in *.
  pose proof (turns_ready _ _ _ Htu Hts Hp) as Hp1.
  destruct (turns_linear _ _ _ _ _ Htu (ready_inv _ Hp)) as (_ & _ & fs & Ha & Hsent).
  destruct (line_served _ _ _ _ _ _ _ Hp1 Ht Er Epc) as (Hp' & f & f' & Hans & Hcl & Hok & Hs').
  split; [done|]. exists (history ts), fs, f, f'. pose proof (answers_all_length _ _ _ _ Ha) as Hlen. rewrite length_fmap in Hlen.
  specialize (Hsent conn). rewrite (received_none _ fs Hts) in *. unfold wire in Hsent. cbn [map concat] in Hsent. rewrite app_nil_r in Hsent.
  split_and!; [| |clear -Hts|done| |done|done].
  - eapply answers_all_app; [done|]. eapply all_cons; [done|constructor].
  - done.
  - unfold history. induction Hts as [|[fd css] ts Hne _ IH]; [constructor|]. cbn [map concat]. apply Forall_app. split; [|done].
    apply Forall_fmap, Forall_forall. by intros c _.
  - rewrite Hs', (Hsent ltac:(constructor)) in Hs. by apply app_inv_head in Hs.
Qed.

End Server.

(** ** The session *)

Section Session.
Context {Net : Type} `{ConnectApi Net}.
Context {SNet : Type} `{SocketApi SNet} `{SteadyClock} `{HashOrder} `{Environ}.
Context (conn : Z) `{!Linked Net (Server * World SNet)}.

(** The peers are servers of this repository, [conn] their descriptor for the
    connection, [intact] that the connection is in order at their end: a data
    command is exchanged for a reply in a turn. *)
Definition served_by (intact : Server * World SNet → Prop) : Prop :=
  ∀ p l cmd r p', ready conn p → intact p → types l cmd → exchange p l r p' → line_turn conn p l r p' ∧ intact p'.

(** Such a peer answers as the session expects. *)
Definition server_answers intact (Hserver : served_by intact) : Answers Net.
Proof.
  refine {| good p := ready conn p ∧ intact p; accepts l := ∃ cmd, types l cmd |}.
  - intros p l r p' [Hp Hok] [cmd Ht] Hx. destruct (Hserver _ _ _ _ _ Hp Hok Ht Hx) as [Hl _].
    destruct (line_turn_answer conn p l cmd r p' Hp Ht Hl) as (_ & hist & fs & f & f' & _ & _ & _ & _ & -> & Hf & _).
    by exists f'.
  - intros p l r p' [Hp Hok] [cmd Ht] Hx _. destruct (Hserver _ _ _ _ _ Hp Hok Ht Hx) as [Hl Hok'].
    by destruct (line_turn_answer conn p l cmd r p' Hp Ht Hl) as [Hp' _].
Defined.

(** The commands of one client in a history. *)
Definition own (hist : list (Z * Command)) : list Command := (filter (λ x : Z * Command, fst x = conn) hist).*2.

Lemma received_last hist (fs : list Frame) cmd f :
  length fs = length hist → received conn hist fs = [] → received conn (hist ++ [(conn, cmd)]) (fs ++ [f]) = [f].
Proof.
  intros Hl Hr. rewrite received_app by done. rewrite Hr. unfold received. cbn [zip zip_with]. by rewrite filter_cons_True.
Qed.

(** The exchanges of a session, on the abstract store. *)
Lemma exchanges_answer intact p ls cmds rs p' :
  served_by intact → ready conn p → intact p → Forall2 types ls cmds → exchanges p ls rs p' →
  ∃ hist fs a', answers_all hist.*2 (absw (snd p)) fs a' ∧ own hist = cmds ∧
    Forall (λ r, ∃ f, r = encode f ∧ frame_ok f = true) rs ∧
    (Forall clean (received conn hist fs) → rs = map encode (received conn hist fs)).
Proof.
  intros Hserver Hp Hin Ht. revert p rs Hp Hin. induction Ht as [|l cmd ls cmds Hl _ IH]; intros p rs Hp Hin Hx; inversion Hx as [|? ? r p1 ? rs' ? Hex Hrest]; subst.
  - exists [], [], (absw (snd p')). split; [constructor|]. by split_and!.
  - destruct (Hserver _ _ _ _ _ Hp Hin Hl Hex) as [Hturn Hin1]. destruct (line_turn_answer conn p l cmd r p1 Hp Hl Hturn)
      as (Hp1 & hist & fs & f & f' & Ha & Hr & Hne & Hlen & -> & Hok & Hcl).
    destruct (IH p1 rs' Hp1 Hin1 Hrest) as (hist2 & fs2 & a' & Ha2 & Hown & Hval & Hrs).
    exists ((hist ++ [(conn, cmd)]) ++ hist2), ((fs ++ [f]) ++ fs2), a'.
    rewrite received_app by (by rewrite !length_app, Hlen). rewrite received_last by done. split_and!.
    + rewrite !fmap_app. by eapply answers_all_app.
    + unfold own. rewrite !filter_app, !fmap_app. fold (own hist2). rewrite Hown.
      replace (filter (λ x : Z * Command, fst x = conn) hist) with (@nil (Z * Command)).
      * cbn [app]. by rewrite filter_cons_True.
      * clear -Hne. induction Hne as [|x l Hx _ IH]; [done|]. by rewrite filter_cons_False.
    + constructor; [by exists f'|done].
    + intros [[Hc _]%Forall_cons Hc2]%Forall_app. cbn [app map]. by rewrite (Hcl Hc), (Hrs Hc2).
Qed.

(** A value is shown as its text. *)
Lemma shown_encode f :
  frame_ok f = true → (Z.of_nat (length (encode f)) ≤ INT_MAX)%Z → shown (encode f) = display f.
Proof.
  intros Hok Hf. pose proof (parse_frame f [] Hok (encode_fits f Hf)) as Hp. rewrite app_nil_r in Hp.
  unfold shown. by rewrite Hp.
Qed.


End Session.

(** ** A network between the two programs

    What the client writes is delivered to the server at once, which runs one
    round of its select loop for the connection, and what the server sends is
    what the client reads. *)

(** The connection's descriptor in the server, and in the client. *)
Definition CONN : Z := 7%Z.
Definition TERM : Z := 3%Z.

Section Loopback.
Context `{SteadyClock} `{HashOrder} `{Environ} (address : Z → bytes).
#[local] Existing Instance demo_sockets.

Abbreviation Srv := (Server * World DemoNet)%type.

(** Bytes arrive at the server. *)
Definition arrive (data : bytes) (w : World DemoNet) : World DemoNet :=
  let n := w_net w in
  mkWorld (w_db w) (w_files w) (w_clock w) (w_pubsub w)
    (mkNet (net_sent n) (<[CONN := default [] (net_in n !! CONN) ++ data]> (net_in n)) (net_open n) (net_broken n)).

(** They make the connection ready for one round. *)
Definition deliver (data : bytes) (p : Srv) : Srv :=
  snd (select_round address false {[CONN]} (fst p, arrive data (snd p))).

Definition outbox (p : Srv) : bytes := sent (w_net (snd p)) CONN.

(** What the server sends when [data] arrives. *)
Definition react (p : Srv) (data : bytes) : bytes * Srv :=
  let p' := deliver data p in (drop (length (outbox p)) (outbox p'), p').

(** The server, what the client has sent, what it has not read yet, and its
    open descriptors. *)
Record Loop := mkLoop { l_srv : Srv; l_log : bytes; l_inbox : bytes; l_open : gset Z }.

Definition loop_write (fd : Z) (buf : bytes) : State Loop Z := λ n,
  if (fd =? TERM)%Z then
    let '(out, p) := react (l_srv n) buf in
    (Z.of_nat (length buf), mkLoop p (l_log n ++ buf) (l_inbox n ++ out) (l_open n))
  else ((-1)%Z, n).

Definition loop_incoming (n : Loop) (fd : Z) : bytes := if (fd =? TERM)%Z then l_inbox n else [].

Definition loop_read (fd : Z) (len : nat) : State Loop ReadResult := λ n,
  match take len (loop_incoming n fd) with
  | [] => (ReadClosed, n)
  | data => (ReadData data, mkLoop (l_srv n) (l_log n) (drop len (l_inbox n)) (l_open n))
  end.

#[refine] Instance loop_sockets : SocketApi Loop := {|
  socket_write := loop_write;
  socket_read := loop_read;
  accept_socket := mret None;
  close_socket fd := λ n, (tt, mkLoop (l_srv n) (l_log n) (l_inbox n) (l_open n ∖ {[fd]}));
  fcntl_getfl _ := mret 2%Z;
  fcntl_setfl _ _ := mret 0%Z;
  sent n fd := if (fd =? TERM)%Z then l_log n else [];
  incoming := loop_incoming;
  open_fds := l_open;
|}.
Proof.
  - intros fd buf w n w'. unfold loop_write. destruct (fd =? TERM)%Z; intros [= <- <-]; lia.
  - intros fd buf w n w'. unfold loop_write. destruct (fd =? TERM)%Z; intros [= <- <-]; [|done].
    cbn [l_log]. by rewrite Nat2Z.id, firstn_all.
  - intros fd buf w n w' fd'. unfold loop_write. destruct (Z.eqb_spec fd TERM) as [->|]; intros [= <- <-] Hne; [|done].
    by rewrite (proj2 (Z.eqb_neq _ _)).
  - intros fd buf w n w'. unfold loop_write. by destruct (fd =? TERM)%Z; intros [= <- <-].
  - intros fd len w data w'. unfold loop_read, loop_incoming. destruct (fd =? TERM)%Z; [|by rewrite take_nil].
    destruct (take len (l_inbox w)) as [|c d] eqn:E; [done|]. intros [= <- <-]. cbn [l_inbox].
    assert (length (c :: d) ≤ len) by (rewrite <- E, length_take; lia). split; [simpl in *; lia|].
    by rewrite <- E, take_drop.
  - intros fd len w r w' fd'. unfold loop_read. by destruct (take len _); intros [= <- <-].
  - intros fd len w r w'. unfold loop_read. by destruct (take len _); intros [= <- <-].
  - by intros w r w' [= <- <-].
  - by intros fd w r w' [= <- <-].
  - by intros fd w r w' [= <- <-].
  - by intros fd f w r w' [= <- <-].
Defined.

(** The client's socket is the one descriptor to be had. *)
#[refine] Instance loop_listen : ListenApi Loop := {|
  create_socket := λ n,
    if bool_decide (TERM ∈ l_open n) then (INVALID_SOCKET_VAL, n)
    else (TERM, mkLoop (l_srv n) (l_log n) (l_inbox n) ({[TERM]} ∪ l_open n));
  set_reuseaddr _ := mret tt;
  bind_socket _ _ _ := mret false;
  listen_socket _ _ := mret false;
  select _ _ := mret SelectError;
  ignore_sigpipe := mret tt;
  inet_pton h := if bytes_eqb h $"127.0.0.1" then Some 2130706433%Z else None;
|}.
Proof.
  - intros w fd w'. case_bool_decide as Ho; intros [= <- <-]; [done|]. by split.
  - by intros w r w' [= <- <-].
  - by intros fd w r w' [= <- <-].
  - by intros fd a p w r w' [= <- <-].
  - done.
  - done.
  - by intros fd n w r w' [= <- <-].
  - by intros nfds fds w r w' [= <- <-].
  - done.
Defined.

#[refine] Instance loop_connect : ConnectApi Loop := {|
  connect_socket _ _ _ := mret true;
  last_error _ := [];
|}.
Proof. by intros fd a p w r w' [= <- <-]. Defined.

(** ** One round for one ready connection *)

Lemma fold_not_ready x l acc (st : Srv) : x ∉ l → foldM (process_ready {[x]}) acc l st = (acc, st).
Proof.
  revert acc. induction l as [|y l IH]; intros acc Hx; [done|]. rewrite foldM_cons. unfold process_ready at 1.
  rewrite bool_decide_eq_false_2 by set_solver. apply IH. set_solver.
Qed.

Lemma fold_ready x l acc (st : Srv) :
  NoDup l → x ∈ l →
  foldM (process_ready {[x]}) acc l st =
  (let '(ok, st') := process_client x st in (if ok : bool then acc else acc ++ [x], st')).
Proof.
  intros Hnd. revert acc. induction Hnd as [|y l Hy _ IH]; intros acc Hx; [by apply elem_of_nil in Hx|].
  rewrite foldM_cons. unfold process_ready at 1. destruct (decide (y = x)) as [->|Hne].
  - rewrite bool_decide_eq_true_2 by set_solver. unfold mbind, state_bind.
    destruct (process_client x st) as [ok st']. by apply fold_not_ready.
  - rewrite bool_decide_eq_false_2 by set_solver. apply IH. set_solver.
Qed.

(** The round processes the connection, and disconnects it if that failed. *)
Lemma round_one (s : Server) (w : World DemoNet) :
  is_Some (clients_ s !! CONN) →
  snd (select_round address false {[CONN]} (s, w)) =
  (let '(ok, st) := process_client CONN (s, w) in if ok : bool then st else snd (disconnect_client CONN st)).
Proof.
  intros Hc. unfold select_round, serve_clients, server, mbind, state_bind, mret at 1, state_ret. cbn beta iota zeta.
  rewrite fold_ready.
  - destruct (process_client CONN (s, w)) as [[] st]; [done|]. cbn [app]. rewrite foldM_cons.
    by destruct (disconnect_client CONN st) as [[] st'].
  - rewrite iter_fds_perm. apply NoDup_elements.
  - rewrite iter_fds_perm. by apply elem_of_elements, elem_of_dom.
Qed.


Lemma loop_write_run buf (n : Loop) :
  socket_write TERM buf n =
  (Z.of_nat (length buf),
   mkLoop (react (l_srv n) buf).2 (l_log n ++ buf) (l_inbox n ++ (react (l_srv n) buf).1) (l_open n)).
Proof. done. Qed.

#[refine] Instance loop_linked : Linked Loop Srv := {|
  peer n _ := l_srv n;
  online _ fd := fd = TERM;
  exchange p l r p' := react p (l ++ CRLF) = (r, p');
|}.
Proof.
  - intros fd w buf -> Hne. rewrite loop_write_run. eexists _, _. split_and!; [done| |done]. destruct buf; [done|]. cbn. lia.
  - intros fd p w len [-> Hp] Hlen Hin. cbn in *. unfold loop_read. change (loop_incoming w TERM) with (l_inbox w) in *.
    destruct (l_inbox w) as [|c s]; [done|]. destruct len; [lia|]. cbn. by eexists _, _.
  - intros fd l w w' ->. unfold write_exact. cbn [write_loop]. destruct (Nat.ltb_spec 0 (length (l ++ CRLF))) as [Hlt|Hge].
    2: { rewrite length_app in Hge. simpl in Hge. lia. }
    unfold mbind, state_bind. rewrite drop_0, loop_write_run. rewrite (proj2 (Z.leb_gt _ _)) by lia.
    rewrite Nat2Z.id. cbn [Nat.add]. destruct (length (l ++ CRLF)) as [|n] eqn:El; [lia|]. cbn [write_loop].
    rewrite El, Nat.ltb_irrefl. intros [= <-]. eexists. by split; [apply surjective_pairing|].
Defined.

(** *** The server is a server of this repository *)

(** Everything that arrived has been read, and writes succeed. *)
Definition intact (p : Srv) : Prop :=
  default [] (net_in (w_net (snd p)) !! CONN) = [] ∧ CONN ∉ net_broken (w_net (snd p)).

(** The network is as before but for what was sent. *)
Definition only_sent (n n' : DemoNet) : Prop := net_in n' = net_in n ∧ net_broken n' = net_broken n.

Lemma only_sent_closed n : write_closed (only_sent n).
Proof.
  intros fd buf w k w' E Hs. simpl in E. unfold demo_write in E. case_match; simplify_eq; done.
Qed.

Lemma conn_willing n : CONN ∉ net_broken n → willing (only_sent n) CONN.
Proof.
  intros Hb w buf Hs Hne. destruct (socket_write CONN buf w) as [k w'] eqn:E. exists k, w'. split; [done|].
  split; [|by eapply only_sent_closed]. simpl in E. unfold demo_write in E. destruct Hs as [_ Hs].
  rewrite bool_decide_eq_false_2 in E by (by rewrite Hs). simplify_eq. destruct buf; [done|]. simpl. lia.
Qed.

(** One complete command on the connection. *)
Lemma handle_command_runs cmd (s : Server) (w : World DemoNet) :
  ps_wf (w_pubsub w) → past_gate CONN s → read_buffer (client CONN s) = [] → CONN ∉ net_broken (w_net w) →
  bytes_eqb (name cmd) $"QUIT" = false → plain cmd →
  ∃ s' w', handle_command CONN cmd (s, w) = (true, (s', w')) ∧ only_sent (w_net w) (w_net w').
Proof.
  intros Hwf Hg Hb Hbr Hq Hp. unfold handle_command, run_command, mbind, state_bind, server, world. cbn beta iota zeta.
  rewrite Hb. change (MAX_BUFFER <? Z.of_nat (length []))%Z with false. cbn iota. rewrite Hq.
  assert (negb (bytes_eqb (password_ s) []) && negb (authenticated (client CONN s)) = false) as ->.
  { destruct Hg as [->| ->]; [done|]. by rewrite andb_false_r. }
  pose proof (execute_closed CONN (Some (start_time_ s, size (clients_ s))) (only_sent (w_net w))
    (only_sent_closed _) cmd w (conj eq_refl eq_refl)) as Hx.
  destruct (execute _ _ cmd (new_handler, w)) as [r [h w1]]. cbn [snd] in Hx. unfold send, world, net.
  destruct (send_response_willing _ CONN (serialize_response r) (w_net w1) (conn_willing _ Hbr) Hx)
    as (n' & -> & Hn & _). by eexists _, _.
Qed.

Lemma loop_served : served_by CONN intact.
Proof.
  intros [s w] l cmd r p' Hp [Hin Hbr] Ht [= <- <-]. pose proof Ht as (Hl & Hparse & [mng Hm] & Hq). cbn [fst snd] in *.
  set (data := l ++ CRLF) in *. assert (data ≠ []) as Hne by (by destruct l).
  assert (ready CONN (s, arrive data w)) as Hp1 by (by destruct Hp; split).
  set (n1 := mkNet (net_sent (w_net w)) (<[CONN := []]> (<[CONN := data]> (net_in (w_net w)))) (net_open (w_net w))
    (net_broken (w_net w))).
  assert (socket_read CONN READ_SIZE (w_net (arrive data w)) = (ReadData data, n1)) as Er.
  { cbn [socket_read demo_sockets]. unfold demo_read. cbn [w_net arrive net_in]. rewrite lookup_insert_eq. cbn [default].
    rewrite Hin. cbn [app]. rewrite take_ge, drop_ge by done. by destruct data. }
  destruct (process_line CONN _ _ l cmd n1 Hp1 Hparse Er) as (s1 & Hp2 & Epc).
  destruct (handle_command_runs cmd s1 (with_net n1 (arrive data w))) as (s2 & w2 & E & Hi2 & Hb2); try apply Hp2;
    [done|by eapply data_not_quit|by eapply data_plain|].
  pose proof (handle_command_buffer CONN cmd s1 (with_net n1 (arrive data w))) as Hb. rewrite E in Hb, Epc. cbn [fst snd] in Hb.
  rewrite (ready_buffer _ _ Hp2 : read_buffer (client CONN s1) = []) in Hb. rewrite process_loop_empty in Epc by done.
  assert (deliver data (s, w) = (s2, w2)) as Ed.
  { unfold deliver. cbn [fst snd]. rewrite round_one by apply Hp1. by rewrite Epc. }
  destruct (line_served CONN s (arrive data w) l cmd n1 s2 w2 Hp1) as (_ & f & f' & _ & _ & _ & Hs); [done..|].
  unfold react. rewrite Ed. split.
  - exists [], (s, arrive data w), n1. split_and!; [|constructor|done|done|].
    + eapply turns_arrive; [|constructor]. done.
    + cbn [snd]. rewrite Hs. unfold outbox. cbn [snd]. change (sent (w_net (arrive data w)) CONN) with (sent (w_net w) CONN) in *.
      by rewrite Hs, drop_app_length.
  - split; cbn [snd]; [rewrite Hi2; unfold n1; cbn; by rewrite lookup_insert_eq|by rewrite Hb2].
Qed.

(** Its replies are determined by the lines. *)
Fixpoint served (p : Srv) (ls : list bytes) : list bytes :=
  match ls with [] => [] | l :: ls' => (react p (l ++ CRLF)).1 :: served (react p (l ++ CRLF)).2 ls' end.

Lemma loop_replies_fit reads p ls :
  Forall (λ r, length r ≤ reads ∧ (Z.of_nat (length r) ≤ INT_MAX)%Z) (served p ls) → replies_fit reads p ls.
Proof.
  intros Hf k. revert p k Hf. induction ls as [|l ls IH]; intros p k Hf rs p' Hx.
  - rewrite take_nil in Hx. inversion Hx. constructor.
  - destruct k as [|k]; cbn [take] in Hx; inversion Hx as [|? ? r p1 ? rs' ? Hex Hrest]; subst; [constructor|].
    cbn [served] in Hf. apply Forall_cons in Hf as [Hr Hf]. cbn in Hex. rewrite Hex in Hr, Hf. constructor; [done|]. by eapply IH.
Qed.

Lemma loop_connects t (p : Srv) (files : gset Z) :
  TERM ∉ files →
  connect default_host default_port (t, (new_client, mkLoop p [] [] files)) =
  (true, (t, (mkCli TERM [], mkLoop p [] [] ({[TERM]} ∪ files)))).
Proof.
  intros Hf. unfold connect, lift_cli, cli_net, set_fd, mbind, state_bind. cbn [create_socket loop_listen l_open].
  by rewrite bool_decide_eq_false_2.
Qed.

End Loopback.

(** ** Instances *)

Definition demo_session : Server * World DemoNet := (demo_server [], demo_input []).

(** The program against the server, with one round per write. *)
Definition demo_run (lines : list bytes) : option Z * (Console * (Client * Loop)) :=
  @client_main Loop (@loop_sockets demo_clock gmap_order demo_env demo_peer_addr)
    (@loop_listen demo_clock gmap_order demo_env demo_peer_addr)
    (@loop_connect demo_clock gmap_order demo_env demo_peer_addr)
    100 [] (mkConsole (typed lines) [] [], (new_client, mkLoop demo_session [] [] ∅)).

Lemma demo_ready : @ready DemoNet demo_clock CONN demo_session.
Proof.
  split; [exact (proj1 demo_world_ok)|apply ps_wf_empty|by left|by eexists|reflexivity|reflexivity].
Qed.

Lemma demo_intact : intact demo_session.
Proof. split; [reflexivity|]. cbn. apply not_elem_of_empty. Qed.

(** Three lines that are data commands. *)
Definition demo_typed : list bytes := [$"SET k hello"; $"  "; $"get k"; $"LLEN k"].
Definition demo_typed_commands : list Command :=
  [mkCommand ($"SET") [$"k"; $"hello"]; mkCommand ($"GET") [$"k"]; mkCommand ($"LLEN") [$"k"]].

Lemma demo_types : Forall2 types (asked demo_typed) demo_typed_commands.
Proof.
  change (asked demo_typed) with [$"SET k hello"; $"get k"; $"LLEN k"].
  constructor; [|constructor; [|constructor; [|constructor]]];
    (split; [apply (bool_decide_unpack _); vm_compute; reflexivity|]; split; [vm_compute; reflexivity|];
     split; [unfold data_command, demo_typed_commands; eexists; unfold meaning; reflexivity|vm_compute; reflexivity]).
Qed.

Lemma demo_replies_fit :
  @replies_fit Loop (@loop_sockets demo_clock gmap_order demo_env demo_peer_addr) _
    (@loop_linked demo_clock gmap_order demo_env demo_peer_addr) 100 demo_session (asked demo_typed).
Proof. apply loop_replies_fit, (bool_decide_unpack _). vm_compute. reflexivity. Qed.

(** The screen after the session. *)
Definition demo_screen : bytes :=
  welcome default_host default_port ++ prompt ++ $"OK" ++ endl ++ prompt ++ prompt ++ quoted ($"hello") ++ endl ++
  prompt ++ $"WRONGTYPE Operation against a key holding the wrong kind of value" ++ endl ++ prompt ++ endl ++ goodbye.



(** SUBSCRIBE with two channels is answered with two values, and the client
    reads one per command: from then on it shows each reply one command
    late. *)
Theorem subscribe_desynchronises :
  let '(_, (t, _)) := demo_run [$"SUBSCRIBE a b"; $"PING"; $"PING"] in
  let confirmation ch n := display (FArray [FBulk ($"subscribe"); FBulk ch; FInteger n]) in
  stdout t = welcome default_host default_port ++ prompt ++ confirmation ($"a") 1%Z ++ endl ++ prompt ++ confirmation ($"b") 2%Z ++ endl ++
    prompt ++ $"PONG" ++ endl ++ prompt ++ endl ++ goodbye.
Proof. vm_compute. reflexivity. Qed.
