(* ===== verification/Tests.v ===== *)
(** * The repository's unit tests, run on the model

    The test programs of tests/ (test_parser, test_resp, test_database,
    test_pubsub, test_transactions, test_persistence, test_config and
    test_protocol), with their test names: a test is a list of steps, each an
    operation whose result is ignored or compared with the expected value, and
    the theorems evaluate all of them.  They validate the definitions the other
    files prove theorems about.  The clock advances by a millisecond per
    reading, so that sleeping is moving the cursor. *)

From S2P Require Import Prelude CppString Parser Resp RespFacts Database ExpiryThread Persistence Socket Protocol.
From S2P Require Import PubSub PubSubClaims CommandHandler CommandClaims Config.

(** ** Tests *)

Section Steps.
Context {St : Type}.

Definition run {A} (m : State St A) : State St bool := m;; mret true.
Definition check {A} (m : State St A) (p : A → bool) : State St bool := r ← m; mret (p r).
Definition expect {A} `{EqDecision A} (m : State St A) (v : A) : State St bool := check m (λ r, bool_decide (r = v)).

Fixpoint passes (steps : list (State St bool)) : State St bool :=
  match steps with
  | [] => mret true
  | m :: rest => ok ← m; if ok : bool then passes rest else mret false
  end.

(** Every test starts from the same state. *)
Definition all_pass (st : St) (tests : list (list (State St bool))) : bool := forallb (λ t, fst (passes t st)) tests.

End Steps.

Definition is_some {A} (x : option A) : bool := bool_decide (is_Some x).
Definition between (a b z : Z) : bool := ((a <? z) && (z <=? b))%Z.

(** A text occurs in another: [find] is not [npos]. *)
Definition occurs (needle s : bytes) : bool := is_some (find_str needle s).

#[local] Existing Instance demo_clock.
#[local] Existing Instance gmap_order.
#[local] Existing Instance demo_sockets.
#[local] Existing Instance demo_env.

(** ** test_parser.cpp *)

Definition parses_to (input name : bytes) (args : list bytes) : bool :=
  let r := Parser.parse input in
  pr_ok r && bytes_eqb (Parser.name (pr_command r)) name &&
  bool_decide (Parser.args (pr_command r) = args).

Theorem parser_tests_pass :
  forallb id [
    parses_to ($"SET name Nasib") ($"SET") [$"name"; $"Nasib"];                               (* simple_command *)
    parses_to ($"get mykey") ($"GET") [$"mykey"];                                             (* case_insensitive_command *)
    parses_to ($"SeT Key Value") ($"SET") [$"Key"; $"Value"];                                 (* mixed_case *)
    parses_to ($"SET greeting " ++ quoted ($"Hello World")) ($"SET") [$"greeting"; $"Hello World"]; (* double_quoted_string *)
    parses_to ($"SET msg 'hello world'") ($"SET") [$"msg"; $"hello world"];                   (* single_quoted_string *)
    parses_to ($"SET key " ++ quoted ($"hello\nworld")) ($"SET") [$"key"; $"hello" ++ LF :: $"world"]; (* escape_sequences *)
    parses_to ($"SET key " ++ quoted ($"he said \" ++ DQUOTE :: $"hi\" ++ [DQUOTE])) ($"SET")
      [$"key"; $"he said " ++ quoted ($"hi")];                                                (* escaped_quote *)
    parses_to ($"PING") ($"PING") [];                                                         (* no_args *)
    negb (pr_ok (Parser.parse [])) && negb (bytes_eqb (pr_error (Parser.parse [])) []);       (* empty_input *)
    negb (pr_ok (Parser.parse ($"   " ++ TAB :: $"  ")));                                     (* whitespace_only *)
    parses_to ($"  SET   name   Nasib  ") ($"SET") [$"name"; $"Nasib"];                       (* extra_whitespace *)
    parses_to ($"DEL key1 key2 key3 key4 key5") ($"DEL") [$"key1"; $"key2"; $"key3"; $"key4"; $"key5"]; (* many_args *)
    parses_to ($"X") ($"X") []                                                                (* single_char_command *)
  ] = true.
Proof. vm_compute. reflexivity. Qed.

(** ** test_resp.cpp *)

Definition crlf_lines (ls : list bytes) : bytes := concat (map (λ l, l ++ CRLF) ls).

(** The parse succeeds with this command; [rest] is what is left. *)
Definition reads (buffer name : bytes) (args : list bytes) (rest : bytes) : bool :=
  let r := parse_command buffer in
  rp_ok r && bytes_eqb (Parser.name (rp_command r)) name && bool_decide (Parser.args (rp_command r) = args) &&
  bytes_eqb (drop (rp_bytes_consumed r) buffer) rest.

Definition needs_more (buffer : bytes) : bool := let r := parse_command buffer in rp_need_more r && negb (rp_ok r).

Definition wrongtype : bytes := $"WRONGTYPE Operation against a key holding the wrong kind of value".
Definition info_text : bytes := $"# Server" ++ LF :: $"myredis_version:1.0.0" ++ LF :: $"tcp_port:6399" ++ [LF].

Theorem resp_serialization_tests_pass :
  [simple_string ($"OK"); simple_string ($"PONG"); simple_string ($"QUEUED");
   Resp.error ($"ERR unknown command"); Resp.error wrongtype;
   integer 42; integer 0; integer (-1); integer 1000000;
   bulk_string ($"hello"); bulk_string []; bulk_string ($"hello world"); null_bulk_string;
   array [bulk_string ($"foo"); bulk_string ($"bar")]; empty_array; null_array;
   array [bulk_string ($"name"); integer 42]] =
  map (λ s, s ++ CRLF)
  [$"+OK"; $"+PONG"; $"+QUEUED"; $"-ERR unknown command"; $"-" ++ wrongtype;
   $":42"; $":0"; $":-1"; $":1000000";
   $"$5" ++ CRLF ++ $"hello"; $"$0" ++ CRLF; $"$11" ++ CRLF ++ $"hello world"; $"$-1";
   $"*2" ++ CRLF ++ $"$3" ++ CRLF ++ $"foo" ++ CRLF ++ $"$3" ++ CRLF ++ $"bar"; $"*0"; $"*-1";
   $"*2" ++ CRLF ++ $"$4" ++ CRLF ++ $"name" ++ CRLF ++ $":42"].
Proof. vm_compute. reflexivity. Qed.

Theorem serialize_response_tests_pass :
  map serialize_response
    [$"OK"; $"PONG"; $"QUEUED"; $"(nil)"; $"(empty list)"; $"ERR unknown command 'FOO'"; wrongtype;
     $"NOAUTH Authentication required."; $"(integer) 5"; $"(integer) 0"; $"(integer) -1";
     quoted ($"hello"); quoted [];
     $"1) " ++ quoted ($"foo") ++ LF :: $"2) " ++ quoted ($"bar") ++ LF :: $"3) " ++ quoted ($"baz"); info_text] =
  map crlf_lines
    [[$"+OK"]; [$"+PONG"]; [$"+QUEUED"]; [$"$-1"]; [$"*0"]; [$"-ERR unknown command 'FOO'"]; [$"-" ++ wrongtype];
     [$"-NOAUTH Authentication required."]; [$":5"]; [$":0"]; [$":-1"]; [$"$5"; $"hello"]; [$"$0"; []];
     [$"*3"; $"$3"; $"foo"; $"$3"; $"bar"; $"$3"; $"baz"]; [$"$" ++ to_string (Z.of_nat (length info_text)); info_text]].
Proof. vm_compute. reflexivity. Qed.

Theorem resp_parsing_tests_pass :
  forallb id [
    reads (crlf_lines [$"*3"; $"$3"; $"SET"; $"$4"; $"name"; $"$5"; $"Nasib"]) ($"SET") [$"name"; $"Nasib"] [];
    reads (crlf_lines [$"*2"; $"$3"; $"GET"; $"$4"; $"name"]) ($"GET") [$"name"] [];
    reads (crlf_lines [$"*1"; $"$4"; $"PING"]) ($"PING") [] [];
    reads (crlf_lines [$"*1"; $"$4"; $"ping"]) ($"PING") [] [];
    reads (crlf_lines [$"*1"; $"$4"; $"PING"; $"*2"; $"$3"; $"GET"; $"$3"; $"foo"]) ($"PING") []
      (crlf_lines [$"*2"; $"$3"; $"GET"; $"$3"; $"foo"]);
    reads (crlf_lines [$"*2"; $"$3"; $"GET"; $"$3"; $"foo"]) ($"GET") [$"foo"] [];
    reads (crlf_lines [$"PING"]) ($"PING") [] [];
    reads (crlf_lines [$"SET name Nasib"]) ($"SET") [$"name"; $"Nasib"] [];
    reads (crlf_lines [$"SET greeting " ++ quoted ($"hello world")]) ($"SET") [$"greeting"; $"hello world"] [];
    reads ($"PING" ++ [LF]) ($"PING") [] [];
    needs_more (crlf_lines [$"*2"; $"$3"; $"GET"]); needs_more (crlf_lines [$"*3"]); needs_more ($"SET name"); needs_more [];
    reads (crlf_lines [$"*3"; $"$3"; $"SET"; $"$3"; $"key"; $"$11"; $"hello world"]) ($"SET") [$"key"; $"hello world"] []
  ] = true.
Proof. vm_compute. reflexivity. Qed.

(** ** test_database.cpp *)

(** [sleep_for]: a reading per millisecond. *)
Definition sleep (ms : nat) : DbM bool := λ '(d, n), (true, (d, n + ms)).

Definition core_tests : list (list (DbM bool)) := [
  [run (set ($"name") ($"Nasib")); expect (get ($"name")) (Some ($"Nasib"))];                 (* set_and_get *)
  [expect (get ($"does_not_exist")) None];                                                    (* get_nonexistent_key *)
  [run (set ($"key") ($"value1")); run (set ($"key") ($"value2")); expect (get ($"key")) (Some ($"value2"))]; (* overwrite_value *)
  [run (set ($"a") ($"1")); run (set ($"b") ($"2")); run (set ($"c") ($"3"));
   expect (del [$"a"; $"b"; $"nonexistent"]) 2%Z; expect (get ($"a")) None; expect (get ($"b")) None;
   check (get ($"c")) is_some];                                                               (* del_existing_keys *)
  [expect (del [$"nothing"]) 0%Z];                                                            (* del_nonexistent_key *)
  [run (set ($"a") ($"1")); run (set ($"b") ($"2")); expect (exists_ [$"a"]) 1%Z; expect (exists_ [$"a"; $"b"]) 2%Z;
   expect (exists_ [$"a"; $"c"]) 1%Z; expect (exists_ [$"c"; $"d"]) 0%Z];                     (* exists *)
  [expect keys []; run (set ($"x") ($"1")); run (set ($"y") ($"2"));
   check keys (λ k, (length k =? 2) && bool_decide ($"x" ∈ k) && bool_decide ($"y" ∈ k))];    (* keys *)
  [expect dbsize 0%Z; run (set ($"a") ($"1")); expect dbsize 1%Z; run (set ($"b") ($"2")); expect dbsize 2%Z;
   run (del [$"a"]); expect dbsize 1%Z];                                                      (* dbsize *)
  [run (set ($"a") ($"1")); run (set ($"b") ($"2")); run (set ($"c") ($"3")); expect dbsize 3%Z; run flushdb;
   expect dbsize 0%Z; expect (get ($"a")) None; expect (get ($"b")) None; expect (get ($"c")) None]; (* flushdb *)
  [run (set ($"key") []); expect (get ($"key")) (Some [])];                                   (* empty_string_value *)
  [run (set ($"key with spaces") ($"value" ++ LF :: $"with" ++ LF :: $"newlines"));
   expect (get ($"key with spaces")) (Some ($"value" ++ LF :: $"with" ++ LF :: $"newlines"))] (* special_characters *)
].

Definition expiry_tests : list (list (DbM bool)) := [
  [run (set ($"session") ($"abc123")); expect (expire ($"session") 10) true; check (ttl ($"session")) (between 0 10)];
  [expect (expire ($"ghost") 60) false];                                                      (* expire_nonexistent_key *)
  [run (set ($"permanent") ($"data")); expect (ttl ($"permanent")) (-1)%Z];                   (* ttl_no_expiry *)
  [expect (ttl ($"ghost")) (-2)%Z];                                                           (* ttl_nonexistent_key *)
  [run (set ($"temp") ($"data")); run (expire ($"temp") 1); check (get ($"temp")) is_some; sleep 1100;
   expect (get ($"temp")) None; expect (ttl ($"temp")) (-2)%Z];                               (* expired_key_lazy_delete *)
  [run (set ($"key") ($"value")); run (expire ($"key") 60); check (ttl ($"key")) (between 0 60);
   expect (persist ($"key")) true; expect (ttl ($"key")) (-1)%Z; expect (persist ($"key")) false]; (* persist *)
  [run (set ($"key") ($"value1")); run (expire ($"key") 60); check (ttl ($"key")) (between 0 60);
   run (set ($"key") ($"value2")); expect (ttl ($"key")) (-1)%Z; expect (get ($"key")) (Some ($"value2"))]; (* set_clears_expiry *)
  [run (set ($"key") ($"value")); run (expire ($"key") 60); run (del [$"key"]); expect (ttl ($"key")) (-2)%Z]; (* del_clears_expiry *)
  [run (set ($"a") ($"1")); run (set ($"b") ($"2")); run (expire ($"a") 60); run (expire ($"b") 60); run flushdb;
   expect (ttl ($"a")) (-2)%Z; expect (ttl ($"b")) (-2)%Z];                                   (* flushdb_clears_expiry *)
  [run (set ($"alive") ($"yes")); run (set ($"dying") ($"soon")); run (expire ($"dying") 1); sleep 1100;
   expect keys [$"alive"]];                                                                   (* keys_excludes_expired *)
  [run (set ($"a") ($"1")); run (set ($"b") ($"2")); run (expire ($"b") 1); expect dbsize 2%Z; sleep 1100; expect dbsize 1%Z];
  [run (set ($"a") ($"1")); run (set ($"b") ($"2")); run (expire ($"b") 1); expect (exists_ [$"a"; $"b"]) 2%Z; sleep 1100;
   expect (exists_ [$"a"; $"b"]) 1%Z; expect (exists_ [$"b"]) 0%Z]                            (* exists_excludes_expired *)
].

Definition list_tests : list (list (DbM bool)) := [
  [expect (lpush ($"mylist") [$"a"; $"b"; $"c"]) 3%Z; expect (lrange ($"mylist") 0 (-1)) [$"c"; $"b"; $"a"]];
  [expect (rpush ($"mylist") [$"a"; $"b"; $"c"]) 3%Z; expect (lrange ($"mylist") 0 (-1)) [$"a"; $"b"; $"c"]];
  [run (rpush ($"mylist") [$"a"; $"b"; $"c"]); expect (lpop ($"mylist")) (Some ($"a")); expect (llen ($"mylist")) 2%Z];
  [run (rpush ($"mylist") [$"a"; $"b"; $"c"]); expect (rpop ($"mylist")) (Some ($"c")); expect (llen ($"mylist")) 2%Z];
  [expect (lpop ($"nolist")) None; expect (rpop ($"nolist")) None; run (rpush ($"mylist") [$"a"]); run (lpop ($"mylist"));
   expect (lpop ($"mylist")) None];                                                           (* lpop_rpop_empty *)
  [run (rpush ($"mylist") [$"a"; $"b"; $"c"; $"d"; $"e"]); expect (lrange ($"mylist") (-3) (-1)) [$"c"; $"d"; $"e"];
   expect (lrange ($"mylist") 10 20) []];                                                     (* lrange_negative_indices *)
  [expect (llen ($"nolist")) 0%Z; run (rpush ($"mylist") [$"a"; $"b"]); expect (llen ($"mylist")) 2%Z]; (* llen *)
  [run (rpush ($"mylist") [$"a"; $"b"; $"c"]); expect (lindex ($"mylist") 0) (Some ($"a")); expect (lindex ($"mylist") 2) (Some ($"c"));
   expect (lindex ($"mylist") (-1)) (Some ($"c")); expect (lindex ($"mylist") (-3)) (Some ($"a"));
   expect (lindex ($"mylist") 5) None; expect (lindex ($"nolist") 0) None];                   (* lindex *)
  [run (rpush ($"mylist") [$"a"]); expect dbsize 1%Z; run (lpop ($"mylist")); expect dbsize 0%Z; expect (llen ($"mylist")) 0%Z];
  [run (rpush ($"mylist") [$"a"; $"b"; $"c"]); expect (del [$"mylist"]) 1%Z; expect (llen ($"mylist")) 0%Z; expect (lpop ($"mylist")) None];
  [run (set ($"str_key") ($"hello")); run (rpush ($"list_key") [$"a"; $"b"]); expect (exists_ [$"str_key"; $"list_key"]) 2%Z;
   expect dbsize 2%Z; check keys (λ k, length k =? 2)];                                       (* list_exists_keys_dbsize *)
  [run (rpush ($"mylist") [$"a"; $"b"]); expect (expire ($"mylist") 10) true; check (ttl ($"mylist")) (between 0 10)];
  [run (rpush ($"mylist") [$"a"; $"b"]); run (expire ($"mylist") 1); expect (llen ($"mylist")) 2%Z; sleep 1100;
   expect (llen ($"mylist")) 0%Z; expect (lpop ($"mylist")) None];                            (* list_expired_lazy_delete *)
  [run (set ($"mykey") ($"hello")); expect (lpush ($"mykey") [$"a"]) (-1)%Z; expect (rpush ($"mykey") [$"a"]) (-1)%Z;
   expect (llen ($"mykey")) (-1)%Z; run (rpush ($"mylist") [$"a"; $"b"]); expect (get ($"mylist")) None]; (* wrongtype_error *)
  [run (set ($"str") ($"val")); run (rpush ($"list") [$"a"; $"b"]); expect dbsize 2%Z; run flushdb; expect dbsize 0%Z;
   expect (llen ($"list")) 0%Z; expect (get ($"str")) None]                                   (* list_flushdb *)
].

Theorem database_tests_pass : all_pass (empty_db, 0) (core_tests ++ expiry_tests ++ list_tests) = true.
Proof. vm_compute. reflexivity. Qed.

(** ** test_pubsub.cpp *)

Definition observe {A} (f : PubSubManager → A) : PubM A := λ p, (f p, p).
Definition channels_are (n : nat) : PubM bool := expect (observe active_channel_count) n.
Definition subscriptions_are (n : nat) : PubM bool := expect (observe total_subscription_count) n.
Definition subscribed (fd : Z) (b : bool) : PubM bool := expect (observe (is_subscribed fd)) b.

Definition pubsub_tests : list (list (PubM bool)) := [
  [expect (subscribe 100 [$"news"]) [($"news", 1%Z)]; subscribed 100 true; channels_are 1; subscriptions_are 1];
  [expect (subscribe 100 [$"news"; $"sports"; $"weather"]) [($"news", 1%Z); ($"sports", 2%Z); ($"weather", 3%Z)];
   channels_are 3; subscriptions_are 3];                                                      (* subscribe_multiple_channels *)
  [run (subscribe 100 [$"news"]); expect (subscribe 100 [$"news"]) [($"news", 1%Z)]; subscriptions_are 1];
  [run (subscribe 100 [$"news"]); run (subscribe 200 [$"news"]); channels_are 1; subscriptions_are 2;
   subscribed 100 true; subscribed 200 true];                                                 (* subscribe_multiple_clients *)
  [run (subscribe 100 [$"news"; $"sports"]); expect (unsubscribe 100 [$"news"]) [($"news", 1%Z)]; subscribed 100 true; channels_are 1];
  [run (subscribe 100 [$"news"; $"sports"; $"weather"]); check (unsubscribe 100 []) (λ r, length r =? 3); subscribed 100 false;
   channels_are 0; subscriptions_are 0];                                                      (* unsubscribe_all_channels *)
  [run (subscribe 100 [$"news"]); subscribed 100 true; run (unsubscribe 100 [$"news"]); subscribed 100 false];
  [run (subscribe 100 [$"news"]); expect (unsubscribe 100 [$"sports"]) [($"sports", 1%Z)]; subscribed 100 true];
  [expect (unsubscribe 100 []) [($"*", 0%Z)]];                                                (* unsubscribe_no_subscriptions *)
  [subscribed 100 false];                                                                     (* is_subscribed_not_subscribed *)
  [subscribed 100 false; run (subscribe 100 [$"news"]); subscribed 100 true; run (subscribe 100 [$"sports"]); subscribed 100 true;
   run (unsubscribe 100 [$"news"]); subscribed 100 true; run (unsubscribe 100 [$"sports"]); subscribed 100 false];
  [run (subscribe 100 [$"news"; $"sports"]); run (subscribe 200 [$"news"]); subscriptions_are 3; run (client_disconnected 100);
   subscribed 100 false; subscribed 200 true; channels_are 1; subscriptions_are 1];           (* client_disconnected_cleanup *)
  [run (subscribe 100 [$"news"]); channels_are 1; run (client_disconnected 100); channels_are 0; subscriptions_are 0];
  [run (client_disconnected 100); channels_are 0; subscriptions_are 0];                       (* client_disconnected_no_subscriptions *)
  [channels_are 0; run (subscribe 100 [$"news"]); channels_are 1; run (subscribe 200 [$"news"]); channels_are 1;
   run (subscribe 200 [$"sports"]); channels_are 2; run (unsubscribe 100 [$"news"]); channels_are 2;
   run (unsubscribe 200 [$"news"]); channels_are 1];                                          (* active_channel_count *)
  [subscriptions_are 0; run (subscribe 100 [$"news"; $"sports"]); subscriptions_are 2; run (subscribe 200 [$"news"]);
   subscriptions_are 3; run (unsubscribe 100 [$"news"]); subscriptions_are 2; run (client_disconnected 200); subscriptions_are 1]
].

(** Writes to the descriptor 999 fail. *)
Definition fake_sockets : DemoNet := mkNet ∅ ∅ ∅ {[ 999%Z ]}.

Definition publish_tests : list (list (State (PubSubManager * DemoNet) bool)) := [
  [expect (publish ($"news") ($"hello world")) 0%Z];                                          (* publish_no_subscribers *)
  [run (on_pubsub (subscribe 999 [$"news"])); expect (publish ($"news") ($"hello")) 0%Z;
   on_pubsub (subscribed 999 false); on_pubsub (channels_are 0)]                              (* publish_with_fake_sockets *)
].

Theorem pubsub_tests_pass :
  all_pass empty_pubsub pubsub_tests && all_pass (empty_pubsub, fake_sockets) publish_tests = true.
Proof. vm_compute. reflexivity. Qed.

(** ** test_transactions.cpp *)

Abbreviation Handler := (CommandHandler * World DemoNet)%type.

Definition command (n : bytes) (l : list bytes) : State Handler bytes := execute 100 None (mkCommand n l).
Definition direct {A} (m : DbM A) : State Handler A := on_world (CommandHandler.db m).
Definition in_transaction (b : bool) : State Handler bool := check self (λ h, Bool.eqb (in_multi_ h) b).

Definition transaction_tests : list (list (State Handler bool)) := [
  [expect (command ($"MULTI") []) ($"OK"); in_transaction true;
   expect (command ($"SET") [$"name"; $"Nasib"]) ($"QUEUED"); expect (command ($"SET") [$"age"; $"25"]) ($"QUEUED");
   expect (command ($"GET") [$"name"]) ($"QUEUED"); expect (direct (get ($"name"))) None;
   check (command ($"EXEC") []) (λ r, occurs ($"OK") r && occurs (quoted ($"Nasib")) r); in_transaction false;
   expect (direct (get ($"name"))) (Some ($"Nasib")); expect (direct (get ($"age"))) (Some ($"25"))]; (* multi_exec_basic *)
  [run (command ($"MULTI") []); expect (command ($"EXEC") []) ($"(empty list)"); in_transaction false];
  [run (command ($"MULTI") []); expect (command ($"MULTI") []) ($"ERR MULTI calls can not be nested")];
  [expect (command ($"EXEC") []) ($"ERR EXEC without MULTI")];
  [run (command ($"MULTI") []); run (command ($"SET") [$"key1"; $"val1"]); run (command ($"SET") [$"key2"; $"val2"]);
   expect (command ($"DISCARD") []) ($"OK"); in_transaction false; expect (direct (get ($"key1"))) None]; (* discard *)
  [expect (command ($"DISCARD") []) ($"ERR DISCARD without MULTI")];
  [run (direct (set ($"counter") ($"10"))); expect (command ($"WATCH") [$"counter"]) ($"OK"); run (command ($"MULTI") []);
   run (command ($"SET") [$"counter"; $"11"]); check (command ($"EXEC") []) (occurs ($"OK"));
   expect (direct (get ($"counter"))) (Some ($"11"))];                                        (* watch_no_modification *)
  [run (direct (set ($"counter") ($"10"))); run (command ($"WATCH") [$"counter"]); run (direct (set ($"counter") ($"99")));
   run (command ($"MULTI") []); run (command ($"SET") [$"counter"; $"11"]); expect (command ($"EXEC") []) ($"(nil)");
   expect (direct (get ($"counter"))) (Some ($"99"))];                                        (* watch_with_modification *)
  [run (command ($"WATCH") [$"newkey"]); run (direct (set ($"newkey") ($"surprise"))); run (command ($"MULTI") []);
   run (command ($"SET") [$"newkey"; $"myvalue"]); expect (command ($"EXEC") []) ($"(nil)")]; (* watch_key_created *)
  [run (direct (set ($"ephemeral") ($"gone-soon"))); run (command ($"WATCH") [$"ephemeral"]); run (direct (del [$"ephemeral"]));
   run (command ($"MULTI") []); run (command ($"SET") [$"ephemeral"; $"back"]); expect (command ($"EXEC") []) ($"(nil)")];
  [run (command ($"MULTI") []); expect (command ($"WATCH") [$"key"]) ($"ERR WATCH inside MULTI is not allowed")];
  [expect (command ($"WATCH") []) ($"ERR wrong number of arguments for 'WATCH' command")];
  [run (command ($"MULTI") []); run (command ($"RPUSH") [$"tasks"; $"a"; $"b"; $"c"]); run (command ($"LLEN") [$"tasks"]);
   run (command ($"LPOP") [$"tasks"]);
   check (command ($"EXEC") []) (λ r, occurs ($"(integer) 3") r && occurs (quoted ($"a")) r);
   expect (direct (lpop ($"tasks"))) (Some ($"b"))];                                          (* multi_with_list_commands *)
  [run (command ($"MULTI") []); run (command ($"SET") [$"x"; $"1"]); run (command ($"EXEC") []); run (command ($"MULTI") []);
   run (command ($"SET") [$"y"; $"2"]); run (command ($"EXEC") []);
   expect (direct (get ($"x"))) (Some ($"1")); expect (direct (get ($"y"))) (Some ($"2"))]    (* multi_exec_multiple_times *)
].

Theorem transaction_tests_pass :
  all_pass (new_handler, mkWorld empty_db ∅ 0 empty_pubsub demo_peer) transaction_tests = true.
Proof. vm_compute. reflexivity. Qed.

(** ** test_persistence.cpp *)

Definition TEST_FILE : bytes := $"test_dump.mrdb".
Definition saved : PersM bool := expect (save io_ok TEST_FILE) true.
Definition loaded : PersM bool := expect (load TEST_FILE) true.

(** A new database object; the files stay. *)
Definition fresh : PersM bool := λ '((_, fs), n), (true, ((empty_db, fs), n)).
Definition setp (k v : bytes) : PersM bool := run (on_db (set k v)).
Definition getp (k : bytes) (v : option bytes) : PersM bool := expect (on_db (get k)) v.
Definition sizep (n : Z) : PersM bool := expect (on_db dbsize) n.
Definition ttlp (k : bytes) (p : Z → bool) : PersM bool := check (on_db (ttl k)) p.

Definition persistence_tests : list (list (PersM bool)) := [
  [setp ($"name") ($"Nasib"); setp ($"lang") ($"C++"); setp ($"version") ($"17"); saved; fresh; loaded;
   getp ($"name") (Some ($"Nasib")); getp ($"lang") (Some ($"C++")); getp ($"version") (Some ($"17")); sizep 3];
  [setp ($"session") ($"abc123"); run (on_db (expire ($"session") 60)); setp ($"permanent") ($"data"); saved; fresh; loaded;
   getp ($"session") (Some ($"abc123")); getp ($"permanent") (Some ($"data")); ttlp ($"session") (between 0 60);
   ttlp ($"permanent") (Z.eqb (-1))];                                                         (* save_and_load_with_ttl *)
  [setp ($"alive") ($"yes"); setp ($"dying") ($"soon"); run (on_db (expire ($"dying") 1)); on_db (sleep 1100); saved; fresh;
   loaded; check (on_db (get ($"alive"))) is_some; getp ($"dying") None; sizep 1];            (* expired_keys_skipped_on_save *)
  [expect (load ($"nonexistent_file.mrdb")) false; sizep 0];                                  (* load_nonexistent_file *)
  [run (update_files (insert TEST_FILE ($"BADMAGIC!" ++ replicate 8 Ascii.zero))); expect (load TEST_FILE) false; sizep 0];
  [setp ($"key") ($"value"); run (save io_ok TEST_FILE);
   run (update_files (alter (insert 10 (byte_of 255)) TEST_FILE)); fresh; expect (load TEST_FILE) false; sizep 0]; (* corrupt_crc *)
  [saved; setp ($"pre_existing") ($"data"); loaded; sizep 0; getp ($"pre_existing") None];    (* empty_database_save_and_load *)
  [setp ($"binary") ($"value" ++ LF :: $"with" ++ LF :: $"newlines");
   setp ($"emoji") ($"hello " ++ map byte_of [240; 159; 152; 128]%Z ++ $" world"); setp ($"empty_val") []; saved; fresh; loaded;
   getp ($"emoji") (Some ($"hello " ++ map byte_of [240; 159; 152; 128]%Z ++ $" world")); getp ($"empty_val") (Some [])];
  [run (on_db (rpush ($"fruits") [$"apple"; $"banana"; $"cherry"])); run (on_db (lpush ($"numbers") [$"3"; $"2"; $"1"])); saved;
   fresh; loaded; expect (on_db (llen ($"fruits"))) 3%Z; expect (on_db (lrange ($"fruits") 0 (-1))) [$"apple"; $"banana"; $"cherry"];
   expect (on_db (llen ($"numbers"))) 3%Z; expect (on_db (lrange ($"numbers") 0 (-1))) [$"1"; $"2"; $"3"]; sizep 2];
  [run (on_db (rpush ($"mylist") [$"a"; $"b"; $"c"])); run (on_db (expire ($"mylist") 60));
   run (on_db (rpush ($"permanent_list") [$"x"; $"y"])); saved; fresh; loaded; expect (on_db (llen ($"mylist"))) 3%Z;
   expect (on_db (llen ($"permanent_list"))) 2%Z; ttlp ($"mylist") (between 0 60); ttlp ($"permanent_list") (Z.eqb (-1))];
  [setp ($"name") ($"Nasib"); setp ($"lang") ($"C++"); run (on_db (rpush ($"tasks") [$"code"; $"test"; $"deploy"]));
   run (on_db (lpush ($"stack") [$"C++"; $"Python"])); run (on_db (expire ($"lang") 30)); run (on_db (expire ($"tasks") 45)); saved;
   fresh; loaded; getp ($"name") (Some ($"Nasib")); getp ($"lang") (Some ($"C++"));
   expect (on_db (lrange ($"tasks") 0 (-1))) [$"code"; $"test"; $"deploy"];
   expect (on_db (lrange ($"stack") 0 (-1))) [$"Python"; $"C++"]; ttlp ($"name") (Z.eqb (-1)); ttlp ($"lang") (Z.ltb 0);
   ttlp ($"tasks") (Z.ltb 0); ttlp ($"stack") (Z.eqb (-1)); sizep 4]                          (* save_and_load_mixed_types *)
].

Theorem persistence_tests_pass : all_pass ((empty_db, ∅), 0) persistence_tests = true.
Proof. vm_compute. reflexivity. Qed.

(** ** test_config.cpp *)

Definition text_of (ls : list bytes) : option bytes := Some (concat (map (λ l, l ++ [LF]) ls)).

Theorem config_tests_pass :
  let c0 := Config.new_config in
  let '(ok1, c1) := Config.load_file (text_of [$"# This is a comment"; $"port 7000"; $"bind 127.0.0.1"; $"requirepass secret123";
    $"save 300"; []; $"loglevel debug"]) c0 in
  let '(ok2, c2) := Config.load_file None c0 in
  let c3 := Config.set ($"custom_key") ($"custom_value") (Config.set ($"requirepass") ($"newpass") (Config.set ($"port") ($"8080") c0)) in
  let '(_, c4) := Config.load_file (text_of [$"motd Welcome to MyRedis Server"]) c0 in
  let '(_, c5) := Config.load_file (text_of [$"# Comment line"; []; $"   # Indented comment"; $"port 9000"; []; []; []; $"bind 10.0.0.1"]) c0 in
  (Config.port c0, Config.bind_addr c0, Config.password c0, Config.save_interval c0) = (6399%Z, $"0.0.0.0", [], 0%Z) ∧
  (ok1, Config.port c1, Config.bind_addr c1, Config.password c1, Config.save_interval c1, Config.get c1 ($"loglevel")) =
    (true, 7000%Z, $"127.0.0.1", $"secret123", 300%Z, $"debug") ∧
  (ok2, Config.port c2) = (false, 6399%Z) ∧
  (Config.port c3, Config.password c3, Config.get c3 ($"custom_key")) = (8080%Z, $"newpass", $"custom_value") ∧
  Config.get c0 ($"nonexistent") = [] ∧ Config.get c4 ($"motd") = $"Welcome to MyRedis Server" ∧
  (Config.port c5, Config.bind_addr c5) = (9000%Z, $"10.0.0.1").
Proof. vm_compute. split_and!; reflexivity. Qed.

(** ** test_protocol.cpp *)

(** The pipe: what was written to 8 can be read from 7. *)
Definition pipe : State DemoNet bool := λ w,
  (true, mkNet ∅ (<[7%Z := default [] (net_in w !! 7%Z) ++ default [] (net_sent w !! 8%Z)]> (net_in w)) (net_open w) (net_broken w)).
Definition sends (msg : bytes) : State DemoNet bool := expect (Protocol.send_message 8 msg) true.
Definition receives (msg : bytes) : State DemoNet bool := expect (Protocol.read_message 7) (true, msg).

Definition protocol_messages : list bytes := [$"PING"; $"SET key value"; $"GET key"; $"DEL key"; $"EXISTS key"].
Definition special_message : bytes := $"SET key " ++ quoted ($"hello" ++ LF :: $"world" ++ TAB :: $"!").

Theorem protocol_tests_pass :
  (length (Protocol.encode ($"HELLO")), combine (take 4 (Protocol.encode ($"HELLO"))), drop 4 (Protocol.encode ($"HELLO"))) =
    (9, 5%Z, $"HELLO") ∧
  (length (Protocol.encode []), combine (take 4 (Protocol.encode []))) = (4, 0%Z) ∧
  all_pass (mkNet ∅ ∅ {[ 7%Z; 8%Z ]} ∅) [
    [sends ($"SET name Nasib"); pipe; receives ($"SET name Nasib")];                          (* roundtrip_via_pipe *)
    map sends protocol_messages ++ [pipe] ++ map receives protocol_messages;                  (* multiple_messages *)
    [sends special_message; pipe; receives special_message];                                  (* message_with_special_chars *)
    [check (Protocol.read_message 7) (λ r, negb (fst r))];                                    (* closed_pipe_returns_error *)
    [sends (replicate 1024 "A"%char); pipe; receives (replicate 1024 "A"%char)]               (* 1kb_message *)
  ] = true.
Proof. vm_compute. split_and!; reflexivity. Qed.
